(* ===== verification/_CoqProject ===== *)
-Q . S2P
Prelude.v
LuaApi.v
ByteFifo.v
RingBuffer.v
StrBitOp.v
Base64.v
Utf8.v
Stringprep.v
Icu.v
Libidn.v
Table.v
Ieee.v
Struct.v
PollApi.v
PollFds.v
Select.v
Epoll.v
Signal.v
SignalFd.v
Append.v
Pposix.v
Hashes.v
Net.v
Cipher.v
Crypto.v
Ecdsa.v
Crand.v
Clock.v
Process.v
LuaState.v
Registry.v
Modules.v
Windows.v
Loading.v
Resources.v
Ownership.v
