(* ===== verification/Prelude.v ===== *)
(** * Verification of Prosody's C modules

    Prosody is an XMPP server written in Lua.  What Lua cannot do, or not fast enough, is
    in C extension modules under src/util-src/, one file per module: the functions of a
    module are called from Lua with a stack of values, raise errors with a longjmp or
    return values.  This development models these modules and proves what makes them
    correct, or where they are not.  The server, in Lua, is not modelled.

    ** How the code is modelled

    - A byte is an integer, a Lua string or a C buffer a list of bytes ([bytes]).  Objects
      of C are read and written through [mem_get], [mem_set], [mem_sub] and [mem_write],
      which are undefined outside the object.
    - Integers are unbounded integers with the conversions of C written out ([wrap_u],
      [wrap_s], [size_t], [cint], [long]); signed arithmetic that may overflow is checked.
      The machine is LP64.  Doubles are the [spec_float]s of the Standard Library (Ieee).
    - A C function is a definition on the list [L] of its arguments and the state it works
      on.  Its [outcome] is a result, an error raised through Lua, or undefined behaviour of
      a given kind; the monad's notation sequences calls as the source does.  Early returns
      and guards are in the order of the source.
    - Code outside the repository is a class: the Lua library's conversions ([LuaAux]),
      system calls, ICU, libidn, OpenSSL, debug hooks.  Operations and documented laws are
      separate classes, so that a theorem names what it relies on; each theorem with
      hypotheses has a witness that applies it to concrete instances.  Results of system
      calls that are used once are arguments.
    - Loops are structural where the source counts, and take fuel otherwise.  Running out
      of fuel is the outcome [Undef NoTermination], so theorems that give a result or
      exclude undefined behaviour include termination.

    ** The files

    - Prelude: memory, machine integers, outcomes, the shared lemmas and tactics.  LuaApi:
      values, argument checks, memory given by the Lua library.  Ieee: floating point.
    - ByteFifo: the contract of a bounded byte queue, all ten methods, as an interface;
      RingBuffer (ringbuffer.c) implements it: [ring_refines_fifo], with conservation,
      safety and the meaning of sub, byte and find.
    - StrBitOp (strbitop.c): bytewise operations, common prefix.
    - Base64, Utf8 (encodings.c): encoder, decoder, UTF-8 check; round trips and
      equivalence with reference definitions.
    - Stringprep: what a stringprep library is asked for, as an interface; Icu and Libidn
      (encodings.c, compiled either way) implement it, and agree ([backends_agree]).
    - Table (table.c): pack and move on a store of tables that may be aliased.
    - Struct (struct.c): packing formats; pack and unpack are inverse, size agrees with
      pack, and which formats keep unpack in its data.
    - PollApi: the interest map as the contract of poll.c, and the errors of the system
      that it does not know; PollFds, Select and Epoll are the three backends, each with a
      refinement theorem for add, set and del and a theorem that wait reports each event
      once.
    - Signal (signal.c): the C handler, the debug hook and the Lua handlers as a labelled
      step relation; order, no loss, delivery, and what an error does.  SignalFd: the
      objects that become readable.
    - Append (pposix.c, atomic_append): all or nothing on a model of streams.  Pposix:
      syslog, identities, limits, modes, pipes, environment.  Process: daemonize, file
      handles, system information in tables of Table's store.
    - Hashes (hashes.c): digests, HMAC, PBKDF2, HKDF, comparison.  Net (net.c): addresses
      as text and bytes, the list of local addresses in a table of Table's store.
    - Cipher (crypto.c, encryption): encryption and decryption are inverse, GCM decryption
      returns nothing that was not encrypted.  Crypto (crypto.c, keys): a memory of keys
      and the objects that own them; in all reachable states signature functions get keys
      of their type, and each key is freed once.  Ecdsa (crypto.c): signatures as two
      strings.
    - Crand (crand.c): the loop around getrandom.  Clock (time.c, compat.c): clocks, xpcall.
      Windows (windows.c): name servers and console.
    - LuaState: the Lua state that registration works on (tables, registry, stack), and how
      a sequence of calls of the API fills a table.  Registry: what a loaded library and a
      registered metatable are, as an invariant.  Modules: the functions luaopen_* of all
      files.  Loading: any sequence of loads builds every table completely and keeps what
      was there ([modules_load]); the methods of ring buffers are the functions verified in
      RingBuffer; the table of signal names is the one Signal uses.
    - Resources: objects of libraries with the pool of those in use, and managed_pointer.h,
      where the collector frees each once.  Ownership: the functions of hashes.c, crypto.c,
      net.c and encodings.c that hold such objects, each proved to compute what the file of
      its module says and to give back all it took; hkdf and build_ecdsa_signature do not
      always.

    ** Bounds and fuel

    - find and readuntil of the ring buffer take fuel; more than the length of the content
      plus one is enough ([ring_find_first]), and no fuel is enough for a pattern one byte
      longer than the content ([ring_find_diverges]).
    - The loops of struct get one unit per character of the format, those of UTF-8 and of
      memchr one per byte, swap one per byte of the number, table.pack one per argument,
      select's scan one per descriptor, getrandom one per byte (each call gives at least
      one); the theorems show that this is enough.
    - Lengths are those Lua strings can have; theorems about calls with an [int] length
      say so.

    ** Where the theorems stop

    Some functions are right only under conditions that their callers have to keep; the
    theorems state them, and what happens otherwise is proved too:
    - find and readuntil of the ring buffer, with patterns longer than the content and on
      full buffers ([ring_find_diverges], [ring_find_stale], [ring_find_full]);
    - the UTF-8 check on 0xFF and seven continuation bytes ([utf8_ff_undefined]);
    - unpack with alignment or numbers beyond an [int] in the format
      ([struct_unpack_overread], [struct_number_overflow]);
    - atomic_append on a stream that is not at its end ([append_elsewhere_cuts]);
    - HMAC with keys longer than an [int] counts ([hmac_key_length_wraps]);
    - the delivery of signals after an error in a handler, in the window before the reset
      of the queue, or after the module is loaded again ([signal_error_stops],
      [signal_lost_in_window], [signal_reload_stops]).

    ** Not modelled

    - The branches for Windows in files other than windows.c, and those for Lua versions
      that differ in names only.
    - Memory that runs out inside the Lua library, which may raise an error at any push;
      the pointers that init_icu stores are not passed to the operations of [Icu], which
      take a profile instead, as if it had opened them all.
    - Garbage collection, except the finalizers of epoll objects, keys and managed pointers;
      what freopen does in daemonize.
    - Metamethods of the tables that are passed to C, except __eq in table.move.
    - The Lua code of the server. *)

From stdpp Require Import base tactics numbers list strings.
From Stdlib Require Import ZArith Lia.

Local Open Scope Z_scope.

(** ** Bytes and C strings *)

(** A byte is an integer in [0, 256); a Lua string, or a C buffer, is a list. *)
Abbreviation bytes := (list Z).

Definition is_byte (c : Z) : Prop := 0 <= c < 256.
Definition bytes_ok (s : bytes) : Prop := Forall is_byte s.

(** The length of a buffer as a C size. *)
Definition zlen {A} (l : list A) : Z := Z.of_nat (length l).

(** [c_str s] is the memory behind a Lua string: its bytes and the NUL that the
    Lua API guarantees after them. *)
Definition c_str (s : bytes) : bytes := s ++ [0].

(** The characters a C string function sees: those before the first NUL. *)
Fixpoint until_nul (s : bytes) : bytes :=
  match s with
  | [] => []
  | c :: s' => if c =? 0 then [] else c :: until_nul s'
  end.

(** The bits of a byte and of a string, most significant first. *)
Definition byte_bits (c : Z) : list bool :=
  (fun i => Z.testbit c i) <$> [7; 6; 5; 4; 3; 2; 1; 0].
Definition string_bits (s : bytes) : list bool := s ≫= byte_bits.

(** ** Machine integers (LP64: [int] 32 bits, [long] and [size_t] 64 bits) *)

Definition wrap_u (w z : Z) : Z := z mod 2 ^ w.
Definition wrap_s (w z : Z) : Z := (z + 2 ^ (w - 1)) mod 2 ^ w - 2 ^ (w - 1).

Abbreviation size_t := (wrap_u 64).
Abbreviation uint := (wrap_u 32).
Abbreviation uchar := (wrap_u 8).
Abbreviation long := (wrap_s 64).
Abbreviation cint := (wrap_s 32).

Definition int_min : Z := - 2 ^ 31.
Definition int_max : Z := 2 ^ 31 - 1.
Definition long_min : Z := - 2 ^ 63.
Definition long_max : Z := 2 ^ 63 - 1.
Definition size_max : Z := 2 ^ 64 - 1.

Definition is_int (z : Z) : Prop := int_min <= z <= int_max.
Definition is_long (z : Z) : Prop := long_min <= z <= long_max.

#[export] Instance is_byte_dec c : Decision (is_byte c).
Proof. unfold is_byte. apply _. Defined.
#[export] Instance bytes_ok_dec s : Decision (bytes_ok s).
Proof. unfold bytes_ok. apply _. Defined.
#[export] Instance is_int_dec z : Decision (is_int z).
Proof. unfold is_int. apply _. Defined.
#[export] Instance is_long_dec z : Decision (is_long z).
Proof. unfold is_long. apply _. Defined.

(** Prove a closed decidable fact by evaluating its decision procedure. *)
Ltac by_decision := apply (bool_decide_unpack _); vm_compute; exact I.

(** ** Outcomes of a C function called from Lua *)

(** The errors a C function raises through the Lua API (they do not return). *)
Inductive lua_error :=
  | ArgError (arg : Z) (msg : string)      (* luaL_argcheck, luaL_argerror *)
  | TypeError (arg : Z) (expected : string) (* luaL_check*: wrong type *)
  | LuaError (msg : string)                (* luaL_error *)
  | ErrorObject (msg : list Z).            (* lua_error on a string *)

(** The ways an execution leaves the C standard. *)
Inductive ub :=
  | OutOfBounds       (* access outside an object *)
  | BadShift          (* shift by a negative or too large amount *)
  | BadConversion     (* floating value outside the integer type's range *)
  | SignedOverflow    (* signed arithmetic out of range *)
  | NoTermination.    (* the fuel given to a loop ran out *)

Inductive outcome (A : Type) :=
  | Done (a : A)
  | Raise (e : lua_error)
  | Undef (u : ub).
Arguments Done {A} a.
Arguments Raise {A} e.
Arguments Undef {A} u.

#[export] Instance lua_error_eq_dec : EqDecision lua_error.
Proof. solve_decision. Defined.
#[export] Instance ub_eq_dec : EqDecision ub.
Proof. solve_decision. Defined.
#[export] Instance outcome_eq_dec {A} `{EqDecision A} : EqDecision (outcome A).
Proof. solve_decision. Defined.

#[export] Instance outcome_ret : MRet outcome := fun A a => Done a.
#[export] Instance outcome_bind : MBind outcome := fun A B f m =>
  match m with
  | Done a => f a
  | Raise e => Raise e
  | Undef u => Undef u
  end.
#[export] Instance outcome_fmap : FMap outcome := fun A B f m =>
  match m with
  | Done a => Done (f a)
  | Raise e => Raise e
  | Undef u => Undef u
  end.

(** The execution stays within the C standard. *)
Definition defined {A} (m : outcome A) : Prop :=
  match m with Undef _ => False | _ => True end.

(** ** Memory: one C object is a list of bytes, checked at every access *)

Section memory.
Context {A : Type}.
Implicit Types (m : list A) (i n : Z).

Definition mem_get m i : outcome A :=
  if i <? 0 then Undef OutOfBounds
  else match m !! Z.to_nat i with
       | Some c => Done c
       | None => Undef OutOfBounds
       end.

Definition mem_set m i (c : A) : outcome (list A) :=
  if (0 <=? i) && (i <? zlen m) then Done (<[Z.to_nat i := c]> m)
  else Undef OutOfBounds.

(** The [n] elements from index [i]. *)
Definition slice m i n : list A := take (Z.to_nat n) (drop (Z.to_nat i) m).

(** The [n] bytes from [m + i]: what [lua_pushlstring] or [memcpy] reads. *)
Definition mem_sub m i n : outcome (list A) :=
  if (0 <=? i) && (0 <=? n) && (i + n <=? zlen m) then Done (slice m i n)
  else Undef OutOfBounds.

(** Write the elements [l] from [m + i] on. *)
Definition mem_write m i (l : list A) : outcome (list A) :=
  if (0 <=? i) && (i + zlen l <=? zlen m)
  then Done (take (Z.to_nat i) m ++ l ++ drop (Z.to_nat i + length l) m)
  else Undef OutOfBounds.

End memory.

(** * Lemmas *)

Create Rewrite HintDb wrap.
Create HintDb lua.

(** ** Machine integers *)

(** Linear arithmetic with the bounds of the machine integers unfolded. *)
Ltac range :=
  unfold is_long, is_int, long_min, long_max, int_min, int_max, size_max, is_byte in *; lia.

(** Case analysis on the integer tests of a goal, [lia] closing the impossible
    branches. *)
Ltac zcase :=
  repeat match goal with
  | |- context [?a <? ?b] => destruct (Z.ltb_spec a b); try lia
  | |- context [?a <=? ?b] => destruct (Z.leb_spec a b); try lia
  | |- context [?a >? ?b] => rewrite (Z.gtb_ltb a b)
  | |- context [?a =? ?b] => destruct (Z.eqb_spec a b); try lia
  end.

Lemma wrap_u_small w z : 0 <= z < 2 ^ w -> wrap_u w z = z.
Proof. intros. unfold wrap_u. by apply Z.mod_small. Qed.

Lemma wrap_s_small w z : 0 < w -> - 2 ^ (w - 1) <= z < 2 ^ (w - 1) -> wrap_s w z = z.
Proof.
  intros Hw Hz. unfold wrap_s.
  assert (2 ^ w = 2 * 2 ^ (w - 1)) as -> by (rewrite <- Z.pow_succ_r by lia; f_equal; lia).
  rewrite Z.mod_small; lia.
Qed.

Lemma wrap_u_range w z : 0 <= w -> 0 <= wrap_u w z < 2 ^ w.
Proof. intros. apply Z.mod_pos_bound. by apply Z.pow_pos_nonneg. Qed.

Lemma size_small z : 0 <= z <= size_max -> size_t z = z.
Proof. intros. apply wrap_u_small. unfold size_max in *. lia. Qed.

Lemma long_small z : is_long z -> long z = z.
Proof. intros [??]. apply wrap_s_small; [done|]. unfold long_min, long_max in *. lia. Qed.

(** A conversion to an unsigned type and back. *)
Lemma long_size_t z : is_long z -> long (size_t z) = z.
Proof.
  intros Hz. unfold wrap_s, wrap_u. rewrite Zplus_mod_idemp_l. apply (long_small z Hz).
Qed.

Lemma int_small z : is_int z -> cint z = z.
Proof. intros [??]. apply wrap_s_small; [done|]. unfold int_min, int_max in *. lia. Qed.

Lemma size_range z : 0 <= size_t z <= size_max.
Proof. pose proof (wrap_u_range 64 z). unfold size_max. lia. Qed.

(** A negative integer converted to [size_t] is above every object's size. *)
Lemma size_neg z : long_min <= z < 0 -> size_t z = z + 2 ^ 64.
Proof.
  intros. unfold wrap_u. symmetry. apply (Z.mod_unique _ _ (-1)); unfold long_min in *; lia.
Qed.

Lemma uchar_byte c : is_byte c -> uchar c = c.
Proof. intros. by apply wrap_u_small. Qed.

(** Positions in a ring of [a] cells. *)
Lemma mod_wrap x a : 0 < a -> 0 <= x < 2 * a -> x mod a = if x <? a then x else x - a.
Proof.
  intros. zcase; [by rewrite Z.mod_small by lia|].
  symmetry. apply (Z.mod_unique _ _ 1); lia.
Qed.

(** A decidable property of all the integers of a range, by evaluation. *)
Lemma forall_range (n : Z) (P : Z -> Prop) `{forall z, Decision (P z)} :
  bool_decide (Forall P (seqZ 0 n)) = true -> forall z, 0 <= z < n -> P z.
Proof.
  intros E z Hz. apply bool_decide_eq_true in E. rewrite Forall_forall in E.
  apply E, elem_of_seqZ. lia.
Qed.

(** Bits put below other bits, as arithmetic. *)
Lemma lor_low x y k : 0 <= k -> 0 <= y < 2 ^ k -> Z.lor (Z.shiftl x k) y = x * 2 ^ k + y.
Proof.
  intros Hk Hy. rewrite <- Z.shiftl_mul_pow2 by done. symmetry. apply Z.add_nocarry_lor.
  apply Z.bits_inj'. intros i Hi. rewrite Z.land_spec, Z.bits_0.
  destruct (Z.lt_ge_cases i k) as [Hik|Hik].
  - by rewrite Z.shiftl_spec_low.
  - destruct (Z.eq_dec y 0) as [->|Hy0]; [by rewrite Z.bits_0, andb_false_r|].
    rewrite (Z.bits_above_log2 y), andb_false_r; [done|lia|].
    apply Z.log2_lt_pow2; [lia|]. apply (Z.lt_le_trans _ (2 ^ k)); [lia|].
    by apply Z.pow_le_mono_r.
Qed.

(** The bits from [k] on and those below are apart. *)
Lemma land_low_shiftl r m k : 0 <= k -> 0 <= r < 2 ^ k -> Z.land r (Z.shiftl m k) = 0.
Proof.
  intros Hk Hr. apply Z.bits_inj'. intros i Hi. rewrite Z.land_spec, Z.bits_0.
  destruct (Z.lt_ge_cases i k); [by rewrite Z.shiftl_spec_low, andb_false_r|].
  destruct (Z.eq_dec r 0) as [->|]; [by rewrite Z.bits_0|].
  rewrite (Z.bits_above_log2 r); [done|lia|]. apply Z.log2_lt_pow2; [lia|].
  apply (Z.lt_le_trans _ (2 ^ k)); [lia|]. apply Z.pow_le_mono_r; lia.
Qed.

Lemma land_shiftl q r m k :
  0 <= k -> 0 <= r < 2 ^ k -> Z.land (q * 2 ^ k + r) (Z.shiftl m k) = Z.land q m * 2 ^ k.
Proof.
  intros Hk Hr. rewrite <- lor_low, Z.land_lor_distr_l, <- Z.shiftl_land by lia.
  rewrite land_low_shiftl, Z.lor_0_r by lia. by rewrite Z.shiftl_mul_pow2.
Qed.

Lemma lor_shiftl q r m k :
  0 <= k -> 0 <= r < 2 ^ k -> Z.lor (q * 2 ^ k + r) (Z.shiftl m k) = Z.lor q m * 2 ^ k + r.
Proof.
  intros Hk Hr. rewrite <- !lor_low by lia.
  by rewrite <- Z.lor_assoc, (Z.lor_comm r), Z.lor_assoc, <- Z.shiftl_lor.
Qed.

(** ** Lists and memory *)

Section lists.
Context {A : Type}.
Implicit Types (m l : list A) (i n : Z) (k : nat).

Lemma zlen_nonneg m : 0 <= zlen m.
Proof. unfold zlen. lia. Qed.

Lemma zlen_app m l : zlen (m ++ l) = zlen m + zlen l.
Proof. unfold zlen. rewrite length_app. lia. Qed.

Lemma zlen_cons x m : zlen (x :: m) = zlen m + 1.
Proof. unfold zlen. simpl. lia. Qed.

Lemma slice_lookup m i n k :
  slice m i n !! k = if decide (k < Z.to_nat n)%nat then m !! (Z.to_nat i + k)%nat else None.
Proof.
  unfold slice. case_decide.
  - rewrite lookup_take_lt by done. apply lookup_drop.
  - apply lookup_take_ge. lia.
Qed.

Lemma zlen_slice m i n : 0 <= i -> 0 <= n -> i + n <= zlen m -> zlen (slice m i n) = n.
Proof. unfold zlen, slice. intros. rewrite length_take, length_drop. lia. Qed.

Lemma slice_app m i n n' :
  0 <= i -> 0 <= n -> 0 <= n' -> slice m i n ++ slice m (i + n) n' = slice m i (n + n').
Proof.
  intros. unfold slice.
  replace (Z.to_nat (i + n)) with (Z.to_nat i + Z.to_nat n)%nat by lia.
  replace (Z.to_nat (n + n')) with (Z.to_nat n + Z.to_nat n')%nat by lia.
  rewrite <- drop_drop. by rewrite take_take_drop.
Qed.

Lemma slice_cons m i n c :
  0 <= i -> 0 <= n -> m !! Z.to_nat i = Some c -> slice m i (n + 1) = c :: slice m (i + 1) n.
Proof.
  intros ?? E. unfold slice. rewrite (drop_S _ c) by done.
  replace (Z.to_nat (i + 1)) with (S (Z.to_nat i)) by lia.
  by replace (Z.to_nat (n + 1)) with (S (Z.to_nat n)) by lia.
Qed.

Lemma slice_nil m i n : n <= 0 -> slice m i n = [].
Proof. intros. unfold slice. by replace (Z.to_nat n) with 0%nat by lia. Qed.

Lemma slice_all m n : zlen m <= n -> slice m 0 n = m.
Proof. unfold zlen, slice. intros. rewrite drop_0. apply take_ge. lia. Qed.

Lemma mem_sub_done m i n :
  0 <= i -> 0 <= n -> i + n <= zlen m -> mem_sub m i n = Done (slice m i n).
Proof. intros. unfold mem_sub. by zcase. Qed.

Lemma mem_write_done m i l :
  0 <= i -> i + zlen l <= zlen m ->
  mem_write m i l = Done (take (Z.to_nat i) m ++ l ++ drop (Z.to_nat i + length l) m).
Proof. intros. unfold mem_write. by zcase. Qed.

Lemma mem_set_done m i c :
  0 <= i < zlen m -> mem_set m i c = Done (<[Z.to_nat i := c]> m).
Proof. intros. unfold mem_set. by zcase. Qed.

Lemma mem_get_done m i c : 0 <= i -> m !! Z.to_nat i = Some c -> mem_get m i = Done c.
Proof. intros ? E. unfold mem_get. zcase. by rewrite E. Qed.

Lemma mem_get_lookup_total `{!Inhabited A} m i :
  0 <= i < zlen m -> mem_get m i = Done (m !!! Z.to_nat i).
Proof.
  intros [? Hi]. apply mem_get_done; [done|]. apply list_lookup_lookup_total_lt.
  unfold zlen in Hi. lia.
Qed.

End lists.

Section filters.
Context {A : Type} (P : A -> Prop) `{!forall x, Decision (P x)}.

Lemma filter_none (l : list A) : Forall (fun x => ~ P x) l -> filter P l = [].
Proof. induction 1 as [|x l Hx _ IH]; [done|]. by rewrite filter_cons_False. Qed.

Lemma filter_all (l : list A) : Forall P l -> filter P l = l.
Proof. induction 1 as [|x l Hx _ IH]; [done|]. by rewrite filter_cons_True, IH. Qed.

End filters.

Lemma zlen_string_bits s : zlen (string_bits s) = zlen s * 8.
Proof.
  induction s as [|c s IH]; [done|].
  change (string_bits (c :: s)) with (byte_bits c ++ string_bits s).
  rewrite zlen_app, zlen_cons, IH. change (zlen (byte_bits c)) with 8. lia.
Qed.

(** ** C strings *)

Lemma until_nul_none s : 0 ∉ s -> until_nul s = s.
Proof.
  induction s as [|c s IH]; [done|]. rewrite not_elem_of_cons. intros [Hc Hs]. simpl.
  destruct (Z.eqb_spec c 0); [congruence|]. by rewrite IH.
Qed.

Lemma until_nul_c_str s l : 0 ∉ s -> until_nul (s ++ 0 :: l) = s.
Proof.
  induction s as [|c s IH]; [done|]. rewrite not_elem_of_cons. intros [Hc Hs]. simpl.
  destruct (Z.eqb_spec c 0); [congruence|]. by rewrite IH.
Qed.

(** What follows the first NUL is not seen. *)
Lemma until_nul_app s l : until_nul (s ++ 0 :: l) = until_nul s.
Proof. induction s as [|c s IH]; [done|]. simpl. by rewrite IH. Qed.

Lemma until_nul_length s : zlen (until_nul s) <= zlen s.
Proof. unfold zlen. induction s as [|c s IH]; simpl; [lia|]. destruct (c =? 0); simpl; lia. Qed.

Lemma until_nul_full s : zlen (until_nul s) = zlen s <-> 0 ∉ s.
Proof.
  split; [|intros; by rewrite until_nul_none]. unfold zlen. induction s as [|c s IH]; simpl.
  { intros _. apply not_elem_of_nil. }
  destruct (Z.eqb_spec c 0) as [->|Hc]; simpl; [lia|]. intros E. apply not_elem_of_cons.
  split; [congruence|]. apply IH. lia.
Qed.

#[export] Hint Rewrite size_small long_small int_small uchar_byte
  using range
  : wrap.

(** Simplify the conversions whose argument is in range. *)
Ltac wrap_simp := autorewrite with wrap.

(** ** Safety of outcomes *)

(** [safe P m]: [m] is within the C standard, and what it returns satisfies [P]. *)
Definition safe {A} (P : A -> Prop) (m : outcome A) : Prop :=
  match m with
  | Done a => P a
  | Raise _ => True
  | Undef _ => False
  end.

Lemma safe_bind {A B} (P : B -> Prop) (m : outcome A) (f : A -> outcome B) :
  defined m -> (forall a, m = Done a -> safe P (f a)) -> safe P (m ≫= f).
Proof. intros Hm Hf. destruct m; simpl in *; try done. by apply Hf. Qed.

Lemma safe_defined {A} (P : A -> Prop) (m : outcome A) : safe P m -> defined m.
Proof. by destruct m. Qed.

Lemma safe_mono {A} (P Q : A -> Prop) (m : outcome A) :
  safe P m -> (forall a, P a -> Q a) -> safe Q m.
Proof. destruct m; simpl; auto. Qed.

(** Case analysis on an argument check [m] in a safety goal: an error that [m] raises
    is the error of the whole call (the handlers to unfold are in the database
    [handlers]), and [m] itself is always defined. *)
Create HintDb handlers.

Ltac rewrite_checks :=
  repeat (match goal with E : _ = Raise _ |- _ => rewrite E
                        | E : _ = Done _ |- _ => rewrite E end; simpl).

Tactic Notation "lua_case" constr(m) "as" ident(x) ident(E) :=
  destruct m as [x|?e|?u] eqn:E;
  [ | autounfold with handlers; rewrite_checks; done
    | exfalso; assert (defined m) as Hd by auto with lua; rewrite E in Hd; done ].
