(* ===== verification/LuaApi.v ===== *)
(** * The Lua values a C function receives and returns

    A C function called from Lua sees its arguments as the stack slots 1..n and
    returns a list of values.  The coercions between numbers and strings belong
    to the Lua library: they are the fields of [LuaAux], with the laws the
    modules rely on.  [lua_strict] is the instance without coercions. *)

From stdpp Require Import base tactics numbers list strings.
From Stdlib Require Import ZArith Lia SpecFloat.
From S2P Require Import Prelude.

Local Open Scope Z_scope.

(** [lua_Integer] is a 64-bit signed integer, [lua_Number] an IEEE double. *)
Abbreviation is_integer := is_long.

Definition double_of_Z (z : Z) : spec_float := binary_normalize 53 1024 z 0 false.

Inductive value :=
  | VNil
  | VBool (b : bool)
  | VInt (n : Z)
  | VNum (d : spec_float)
  | VStr (s : bytes)
  | VTable (t : Z)                       (* identity of a table *)
  | VFun (f : Z)                         (* identity of a function *)
  | VUserdata (tname : string) (p : Z).  (* metatable name, address *)

#[export] Instance spec_float_eq_dec : EqDecision spec_float.
Proof. solve_decision. Defined.
#[export] Instance value_eq_dec : EqDecision value.
Proof. solve_decision. Defined.

(** [lua_type] of a value, and the type's name in error messages. *)
Inductive lua_type :=
  | LUA_TNIL | LUA_TBOOLEAN | LUA_TNUMBER | LUA_TSTRING | LUA_TTABLE | LUA_TFUNCTION | LUA_TUSERDATA.

#[export] Instance lua_type_eq_dec : EqDecision lua_type.
Proof. solve_decision. Defined.

Definition type_of (v : value) : lua_type :=
  match v with
  | VNil => LUA_TNIL
  | VBool _ => LUA_TBOOLEAN
  | VInt _ | VNum _ => LUA_TNUMBER
  | VStr _ => LUA_TSTRING
  | VTable _ => LUA_TTABLE
  | VFun _ => LUA_TFUNCTION
  | VUserdata _ _ => LUA_TUSERDATA
  end.

Definition lua_typename (t : lua_type) : string :=
  match t with
  | LUA_TNIL => "nil"
  | LUA_TBOOLEAN => "boolean"
  | LUA_TNUMBER => "number"
  | LUA_TSTRING => "string"
  | LUA_TTABLE => "table"
  | LUA_TFUNCTION => "function"
  | LUA_TUSERDATA => "userdata"
  end.

(** The bytes of a C string literal, and [lua_pushliteral] of it. *)
Definition string_bytes (s : string) : bytes :=
  (fun a => Z.of_N (Ascii.N_of_ascii a)) <$> String.list_ascii_of_string s.
Definition literal (s : string) : value := VStr (string_bytes s).

(** A Lua string is made of bytes, and shorter than the largest [lua_Integer]. *)
Definition lua_string (s : bytes) : Prop := bytes_ok s /\ zlen s <= long_max.

#[export] Instance lua_string_dec s : Decision (lua_string s).
Proof. unfold lua_string, bytes_ok. apply _. Defined.

(** Slots of the calling function: [None] is LUA_TNONE. *)
Definition lua_arg (L : list value) (i : Z) : option value := L !! Z.to_nat (i - 1).

Definition lua_gettop (L : list value) : Z := zlen L.

(** What the modules use of the Lua library's conversions. *)
Class LuaAux := {
  lua_tointegerx : value -> option Z;
  lua_tonumberx : value -> option spec_float;
  lua_tolstring : value -> option bytes;
  (* the message that is raised when [luaL_error] gets a format with a conversion that
     [lua_pushfstring] does not have: Lua 5.1 copies it, later versions complain about it *)
  invalid_format : string -> string;
  tointegerx_int n : is_integer n -> lua_tointegerx (VInt n) = Some n;
  tointegerx_range v n : lua_tointegerx v = Some n -> is_integer n;
  tonumberx_int n : is_integer n -> lua_tonumberx (VInt n) = Some (double_of_Z n);
  tonumberx_num d : lua_tonumberx (VNum d) = Some d;
  tolstring_str s : lua_string s -> lua_tolstring (VStr s) = Some s;
  tolstring_ok v s : lua_tolstring v = Some s -> lua_string s;
}.

Definition is_integer_b (n : Z) : bool := (long_min <=? n) && (n <=? long_max).

(** The conversions that accept a value of the expected type only. *)
Definition strict_tointegerx (v : value) : option Z :=
  match v with
  | VInt n => if is_integer_b n then Some n else None
  | _ => None
  end.
Definition strict_tonumberx (v : value) : option spec_float :=
  match v with
  | VInt n => Some (double_of_Z n)
  | VNum d => Some d
  | _ => None
  end.
Definition strict_tolstring (v : value) : option bytes :=
  match v with
  | VStr s => if decide (lua_string s) then Some s else None
  | _ => None
  end.

Lemma is_integer_b_spec n : is_integer_b n = true <-> is_integer n.
Proof. unfold is_integer_b, is_long. rewrite andb_true_iff, !Z.leb_le. done. Qed.

Lemma strict_tointegerx_int n : is_integer n -> strict_tointegerx (VInt n) = Some n.
Proof. intros Hn%is_integer_b_spec. simpl. by rewrite Hn. Qed.

Lemma strict_tointegerx_range v n : strict_tointegerx v = Some n -> is_integer n.
Proof.
  destruct v as [| |k| | | | |]; simpl; try done.
  destruct (is_integer_b k) eqn:E; [|done]. intros [= <-].
  by apply is_integer_b_spec.
Qed.

Lemma strict_tolstring_str s : lua_string s -> strict_tolstring (VStr s) = Some s.
Proof. intros. simpl. by rewrite decide_True. Qed.

Lemma strict_tolstring_ok v s : strict_tolstring v = Some s -> lua_string s.
Proof. destruct v; simpl; try done. case_decide; naive_solver. Qed.

Definition lua_strict : LuaAux := {|
  lua_tointegerx := strict_tointegerx;
  lua_tonumberx := strict_tonumberx;
  lua_tolstring := strict_tolstring;
  invalid_format _ := "invalid conversion '%u' to 'lua_pushfstring'";
  tointegerx_int := strict_tointegerx_int;
  tointegerx_range := strict_tointegerx_range;
  tonumberx_int n _ := eq_refl;
  tonumberx_num d := eq_refl;
  tolstring_str := strict_tolstring_str;
  tolstring_ok := strict_tolstring_ok;
|}.

Section aux.
Context `{LuaAux}.
Implicit Types (L : list value) (i : Z).

Definition luaL_checkinteger L i : outcome Z :=
  match lua_arg L i ≫= lua_tointegerx with
  | Some n => Done n
  | None => Raise (TypeError i "number")
  end.

Definition lua_isnoneornil L i : bool :=
  match lua_arg L i with None | Some VNil => true | Some _ => false end.

Definition luaL_optinteger L i (d : Z) : outcome Z :=
  if lua_isnoneornil L i then Done d else luaL_checkinteger L i.

Definition luaL_checknumber L i : outcome spec_float :=
  match lua_arg L i ≫= lua_tonumberx with
  | Some d => Done d
  | None => Raise (TypeError i "number")
  end.

Definition luaL_checklstring L i : outcome bytes :=
  match lua_arg L i ≫= lua_tolstring with
  | Some s => Done s
  | None => Raise (TypeError i "string")
  end.

Definition lua_toboolean L i : bool :=
  match lua_arg L i with
  | None | Some VNil | Some (VBool false) => false
  | Some _ => true
  end.

Definition luaL_checktype L i (t : lua_type) : outcome unit :=
  if bool_decide (type_of <$> lua_arg L i = Some t) then Done tt
  else Raise (TypeError i (lua_typename t)).

Definition luaL_argcheck (cond : bool) (arg : Z) (msg : string) : outcome unit :=
  if cond then Done tt else Raise (ArgError arg msg).

Definition lua_tointeger L i : Z := default 0 (lua_arg L i ≫= lua_tointegerx).

(** [lua_tostring], [None] for NULL, and [luaL_checkstring]: as C strings, up to a NUL. *)
Definition lua_tostring L i : option bytes := (fun s => until_nul (c_str s)) <$> (lua_arg L i ≫= lua_tolstring).
Definition luaL_checkstring L i : outcome bytes := (fun s => until_nul (c_str s)) <$> luaL_checklstring L i.

(** [luaL_checkoption]: the index of the argument in an array of C strings that a NULL
    ends; the search reads on when there is none. *)
Fixpoint find_option (name : bytes) (lst : list (option string)) (k i : Z) : outcome Z :=
  match lst with
  | [] => Undef OutOfBounds
  | None :: _ => Raise (ArgError i "invalid option")
  | Some s :: lst => if bool_decide (string_bytes s = name) then Done k else find_option name lst (k + 1) i
  end.

Definition luaL_checkoption L i (def : option string) (lst : list (option string)) : outcome Z :=
  name ← match def with
         | Some d => if lua_isnoneornil L i then Done (string_bytes d) else luaL_checkstring L i
         | None => luaL_checkstring L i
         end;
  find_option name lst 0 i.

Definition luaL_error {A} (msg : string) : outcome A := Raise (LuaError msg).

(** [luaL_checkudata]: the slot holds a userdata with that metatable; the
    methods of a module act on the one object [p] designates. *)
Definition luaL_checkudata L i (tname : string) : outcome Z :=
  match lua_arg L i with
  | Some (VUserdata t p) =>
      if String.eqb t tname then Done p else Raise (TypeError i tname)
  | _ => Raise (TypeError i tname)
  end.

(** [luaL_pushfail] is [lua_pushnil] before Lua 5.4, and pushes nil since. *)
Definition pushfail : value := VNil.

(** Memory of [sz] bytes that the library gives ([luaL_prepbuffsize], [lua_newuserdata]);
    what it holds at first is taken from [scratch]. *)
Definition lua_memory (scratch : bytes) (sz : Z) : bytes :=
  take (Z.to_nat sz) (scratch ++ replicate (Z.to_nat sz) 0).

(** ** Lemmas on argument checks *)

Lemma checkinteger_int L i n :
  lua_arg L i = Some (VInt n) -> is_integer n -> luaL_checkinteger L i = Done n.
Proof. intros E Hn. unfold luaL_checkinteger. rewrite E. simpl. by rewrite tointegerx_int. Qed.

Lemma optinteger_int L i d n :
  lua_arg L i = Some (VInt n) -> is_integer n -> luaL_optinteger L i d = Done n.
Proof.
  intros E Hn. unfold luaL_optinteger, lua_isnoneornil. rewrite E.
  by apply checkinteger_int.
Qed.

Lemma checklstring_str L i s :
  lua_arg L i = Some (VStr s) -> lua_string s -> luaL_checklstring L i = Done s.
Proof. intros E Hs. unfold luaL_checklstring. rewrite E. simpl. by rewrite tolstring_str. Qed.

(** What a check that succeeds tells about its result. *)
Lemma checkinteger_range L i n : luaL_checkinteger L i = Done n -> is_integer n.
Proof.
  unfold luaL_checkinteger. destruct (_ ≫= _) as [k|] eqn:E; [|done]. intros [= ->].
  destruct (lua_arg L i) as [v|]; [|done]. by apply (tointegerx_range v).
Qed.

Lemma optinteger_range L i d n :
  is_integer d -> luaL_optinteger L i d = Done n -> is_integer n.
Proof.
  intros Hd. unfold luaL_optinteger. destruct (lua_isnoneornil L i).
  - by intros [= ->].
  - apply checkinteger_range.
Qed.

Lemma checklstring_ok L i s : luaL_checklstring L i = Done s -> lua_string s.
Proof.
  unfold luaL_checklstring. destruct (_ ≫= _) as [k|] eqn:E; [|done]. intros [= ->].
  destruct (lua_arg L i) as [v|]; [|done]. by apply (tolstring_ok v).
Qed.

(** The checks raise or return: they have no undefined behaviour. *)
Lemma checkinteger_defined L i : defined (luaL_checkinteger L i).
Proof. unfold luaL_checkinteger. by destruct (_ ≫= _). Qed.
Lemma optinteger_defined L i d : defined (luaL_optinteger L i d).
Proof. unfold luaL_optinteger. destruct (lua_isnoneornil L i); [done|]. apply checkinteger_defined. Qed.
Lemma checknumber_defined L i : defined (luaL_checknumber L i).
Proof. unfold luaL_checknumber. by destruct (_ ≫= _). Qed.
Lemma checklstring_defined L i : defined (luaL_checklstring L i).
Proof. unfold luaL_checklstring. by destruct (_ ≫= _). Qed.
Lemma checkudata_defined L i t : defined (luaL_checkudata L i t).
Proof.
  unfold luaL_checkudata. destruct (lua_arg L i) as [[]|]; try done. by destruct (String.eqb _ _).
Qed.
Lemma checktype_defined L i t : defined (luaL_checktype L i t).
Proof. unfold luaL_checktype. by case_bool_decide. Qed.
Lemma argcheck_defined c i m : defined (luaL_argcheck c i m).
Proof. by destruct c. Qed.

(** ** C strings and options *)

(** The argument is the C string [s]. *)
Definition c_string (s : bytes) : Prop := lua_string s /\ until_nul (c_str s) = s.

#[export] Instance c_string_dec s : Decision (c_string s).
Proof. unfold c_string. apply _. Defined.

Lemma checkstring_arg L i s : lua_arg L i = Some (VStr s) -> c_string s -> luaL_checkstring L i = Done s.
Proof. intros E [Hs Hn]. unfold luaL_checkstring. rewrite (checklstring_str L i s) by done. cbn. by rewrite Hn. Qed.

Lemma tostring_arg L i s : lua_arg L i = Some (VStr s) -> c_string s -> lua_tostring L i = Some s.
Proof. intros E [Hs Hn]. unfold lua_tostring. rewrite E. cbn [mbind option_bind]. rewrite tolstring_str by done. cbn. by rewrite Hn. Qed.

Lemma checkoption_arg L i def lst s :
  lua_arg L i = Some (VStr s) -> c_string s -> luaL_checkoption L i def lst = find_option s lst 0 i.
Proof.
  intros E Hs. unfold luaL_checkoption. rewrite (checkstring_arg L i s) by done.
  destruct def; [|done]. unfold lua_isnoneornil. by rewrite E.
Qed.

(** The index of a name in a table of options. *)
Lemma find_option_lookup (names : list string) k name rest i :
  NoDup (string_bytes <$> names) -> names !! k = Some name ->
  find_option (string_bytes name) ((Some <$> names) ++ rest) 0 i = Done (Z.of_nat k).
Proof.
  intros Hnd Hk. change (Z.of_nat k) with (0 + Z.of_nat k). generalize 0 as z.
  revert k Hk. induction names as [|n names IH]; intros k Hk z; [done|]. apply NoDup_cons in Hnd as [Hn Hnd].
  cbn [fmap list_fmap app find_option]. destruct k as [|k].
  - injection Hk as ->. rewrite bool_decide_eq_true_2 by done. f_equal. lia.
  - cbn in Hk. rewrite bool_decide_eq_false_2.
    + rewrite (IH Hnd k Hk). f_equal. lia.
    + intros E. apply Hn. rewrite E. apply list_elem_of_fmap_2. by apply list_elem_of_lookup_2 with k.
Qed.

Lemma find_option_none (names : list string) s i :
  s ∉ string_bytes <$> names -> find_option s (Some <$> names) 0 i = Undef OutOfBounds.
Proof.
  generalize 0 as z. induction names as [|n names IH]; intros z Hs; [done|]. cbn [fmap list_fmap find_option].
  cbn [fmap list_fmap] in Hs. apply not_elem_of_cons in Hs as [? ?]. rewrite bool_decide_eq_false_2 by done. by apply IH.
Qed.

Lemma c_string_bytes s : lua_string s -> 0 ∉ s -> c_string s.
Proof. intros Hs Hn. split; [done|]. unfold c_str. by rewrite until_nul_c_str. Qed.

End aux.

(** ** Lemmas on buffers *)

Lemma zlen_lua_memory scratch sz : 0 <= sz -> zlen (lua_memory scratch sz) = sz.
Proof. intros. unfold lua_memory, zlen. rewrite length_take, length_app, length_replicate. lia. Qed.

(** Writing after what was written, and reading all of it. *)
Lemma write_after (l rest l' : bytes) :
  zlen l' <= zlen rest ->
  mem_write (l ++ rest) (zlen l) l' = Done ((l ++ l') ++ drop (length l') rest).
Proof.
  intros Hlen. rewrite mem_write_done by (unfold zlen in *; rewrite ?length_app; lia).
  assert (Z.to_nat (zlen l) = length l) as -> by (unfold zlen; lia).
  by rewrite take_app_length, drop_app_add, <- app_assoc.
Qed.

Lemma read_written (l rest : bytes) : mem_sub (l ++ rest) 0 (zlen l) = Done l.
Proof.
  rewrite mem_sub_done by (unfold zlen; rewrite ?length_app; lia).
  unfold slice. rewrite drop_0. unfold zlen. by rewrite Nat2Z.id, take_app_length.
Qed.

Lemma write_read (buf l : bytes) :
  zlen l <= zlen buf -> exists buf', mem_write buf 0 l = Done buf' /\ mem_sub buf' 0 (zlen l) = Done l.
Proof.
  intros Hl. pose proof (write_after [] buf l Hl) as E. change (zlen (@nil Z)) with 0 in E. cbn [app] in E.
  rewrite E. eexists. split; [done|]. apply read_written.
Qed.

#[export] Hint Resolve checkinteger_defined optinteger_defined checknumber_defined
  checklstring_defined checkudata_defined checktype_defined argcheck_defined : lua.
#[export] Hint Resolve checkinteger_range checklstring_ok : lua.
