(* ===== verification/ByteFifo.v ===== *)
(** * The contract of a bounded byte queue

    [fifo_step] says what each method of a ring buffer promises, on a queue that
    is just a capacity and the bytes it holds.  [ByteFifo] is the interface: an
    implementation whose every method refines [fifo_step] on the calls that [op_ok] allows.
    The theorems of this file are about any such implementation. *)

From stdpp Require Import base tactics numbers list strings.
From Stdlib Require Import ZArith Lia.
From S2P Require Import Prelude LuaApi.

Local Open Scope Z_scope.

Record fifo := Fifo { fcap : Z; fbytes : bytes }.

Inductive fifo_op :=
  | OpWrite (s : bytes)
  | OpRead (n : Z) (peek : bool)
  | OpDiscard (n : Z)
  | OpFind (s : bytes)
  | OpReadUntil (s : bytes)
  | OpSub (i j : Z)
  | OpByte (i j : Z)
  | OpLength
  | OpSize
  | OpFree.

(** [string.sub]'s positions, as the Lua manual states them: negative positions
    count from the end, then both are clamped into the string. *)
Definition lua_sub_start (l i : Z) : Z :=
  if i <? 0 then Z.max 1 (l + i + 1) else Z.max 1 i.
Definition lua_sub_end (l j : Z) : Z :=
  if j <? 0 then l + j + 1 else Z.min j l.

Definition lua_string_sub (s : bytes) (i j : Z) : bytes :=
  let i' := lua_sub_start (zlen s) i in
  let j' := lua_sub_end (zlen s) j in
  slice s (i' - 1) (j' - i' + 1).

(** The position of the first occurrence of [s]. *)
Fixpoint first_index (s q : bytes) : option Z :=
  if decide (take (length s) q = s) then Some 0
  else match q with [] => None | _ :: q => Z.succ <$> first_index s q end.

Definition fifo_step (op : fifo_op) (f : fifo) : fifo * list value :=
  let q := fbytes f in
  match op with
  | OpWrite s =>
      if zlen q + zlen s <=? fcap f
      then (Fifo (fcap f) (q ++ s), [VInt (zlen s)])
      else (f, [pushfail])
  | OpRead n peek =>
      if (0 <=? n) && (n <=? zlen q)
      then (if peek then f else Fifo (fcap f) (drop (Z.to_nat n) q),
            [VStr (take (Z.to_nat n) q)])
      else (f, [pushfail])
  | OpDiscard n =>
      if (0 <=? n) && (n <=? zlen q)
      then (Fifo (fcap f) (drop (Z.to_nat n) q), [VBool true])
      else (f, [VBool false])
  | OpFind s => (f, match first_index s q with Some k => [VInt (k + zlen s)] | None => [] end)
  | OpReadUntil s =>
      match first_index s q with
      | Some k => (Fifo (fcap f) (drop (Z.to_nat (k + zlen s)) q), [VStr (take (Z.to_nat (k + zlen s)) q)])
      | None => (f, [])
      end
  | OpSub i j => (f, [VStr (lua_string_sub q i j)])
  | OpByte i j => (f, VInt <$> lua_string_sub q i j)
  | OpLength => (f, [VInt (zlen q)])
  | OpSize => (f, [VInt (fcap f)])
  | OpFree => (f, [VInt (fcap f - zlen q)])
  end.

(** The searches that the contract covers: for a pattern that is not empty and no longer than
    the content, unless there is no content, in a queue that is not full and whose size an
    [int] holds. *)
Definition searchable (f : fifo) (s : bytes) : Prop :=
  s <> [] /\ (fbytes f = [] \/ (zlen s <= zlen (fbytes f) < fcap f /\ fcap f <= int_max)).

#[export] Instance searchable_dec f s : Decision (searchable f s).
Proof. unfold searchable. apply _. Defined.

(** The calls that it covers, in the state [f]: arguments that exist in Lua (64-bit integers,
    byte strings of a Lua string's length), and searches as above. *)
Definition op_ok (f : fifo) (op : fifo_op) : Prop :=
  match op with
  | OpWrite s => lua_string s
  | OpRead n _ | OpDiscard n => is_integer n
  | OpFind s | OpReadUntil s => lua_string s /\ searchable f s
  | OpSub i j | OpByte i j => is_integer i /\ is_integer j
  | _ => True
  end.

#[export] Instance op_ok_dec f op : Decision (op_ok f op).
Proof. destruct op; simpl; apply _. Defined.

(** Each call of a sequence is covered in the state that the calls before it lead to. *)
Fixpoint ops_ok (f : fifo) (ops : list fifo_op) : Prop :=
  match ops with
  | [] => True
  | op :: ops => op_ok f op /\ ops_ok (fifo_step op f).1 ops
  end.

#[export] Instance ops_ok_dec f ops : Decision (ops_ok f ops).
Proof. revert f. induction ops as [|op ops IH]; intros f; simpl; apply _. Defined.

Class ByteFifo (T : Type) := {
  fifo_run : fifo_op -> T -> outcome (T * list value);
  fifo_rep : T -> fifo -> Prop;
  fifo_run_refines op t f :
    op_ok f op -> fifo_rep t f ->
    exists t', fifo_run op t = Done (t', (fifo_step op f).2)
            /\ fifo_rep t' (fifo_step op f).1;
}.

(** ** Traces of calls on an implementation *)

Fixpoint fifo_run_all `{ByteFifo T} (ops : list fifo_op) (t : T)
    : outcome (T * list (list value)) :=
  match ops with
  | [] => Done (t, [])
  | op :: ops' =>
      '(t', r) ← fifo_run op t;
      '(t'', rs) ← fifo_run_all ops' t';
      Done (t'', r :: rs)
  end.

(** The contract's own trace. *)
Fixpoint fifo_steps (ops : list fifo_op) (f : fifo) : fifo * list (list value) :=
  match ops with
  | [] => (f, [])
  | op :: ops' =>
      let '(f1, r) := fifo_step op f in
      let '(f2, rs) := fifo_steps ops' f1 in
      (f2, r :: rs)
  end.

(** The bytes a call put into the queue, and the bytes it took out. *)
Definition op_in (op : fifo_op) (r : list value) : bytes :=
  match op, r with
  | OpWrite s, [VInt _] => s
  | _, _ => []
  end.
Definition op_out (op : fifo_op) (r : list value) : bytes :=
  match op, r with
  | OpRead _ false, [VStr s] | OpReadUntil _, [VStr s] => s
  | _, _ => []
  end.

(** Discarding drops bytes unseen: the conservation law is about the others. *)
Definition not_discard (op : fifo_op) : Prop :=
  match op with OpDiscard _ => False | _ => True end.

Definition trace_in (ops : list fifo_op) (rs : list (list value)) : bytes :=
  concat (zip_with op_in ops rs).
Definition trace_out (ops : list fifo_op) (rs : list (list value)) : bytes :=
  concat (zip_with op_out ops rs).

(** [first_index] finds the least position at which [s] occurs. *)
Lemma first_index_spec s q :
  match first_index s q with
  | Some k => 0 <= k /\ slice q k (zlen s) = s /\ forall k', 0 <= k' < k -> slice q k' (zlen s) <> s
  | None => forall k, 0 <= k -> slice q k (zlen s) <> s
  end.
Proof.
  unfold slice, zlen. rewrite Nat2Z.id. induction q as [|c q IH]; cbn [first_index].
  - case_decide as Hd; [split_and!; [done|done|lia]|]. intros k Hk. by rewrite drop_nil.
  - case_decide as Hd; [split_and!; [done|done|lia]|].
    assert (Hs : forall k, 0 < k -> drop (Z.to_nat k) (c :: q) = drop (Z.to_nat (k - 1)) q).
    { intros k Hk. by replace (Z.to_nat k) with (S (Z.to_nat (k - 1))) by lia. }
    destruct (first_index s q) as [k|]; simpl.
    + destruct IH as (Hk & Hocc & Hmin). split_and!; [lia|rewrite Hs by lia; rewrite <- Hocc at 2; do 3 f_equal; lia|].
      intros k' Hk'. destruct (decide (k' = 0)) as [->|]; [done|]. rewrite Hs by lia. apply Hmin. lia.
    + intros k Hk. destruct (decide (k = 0)) as [->|]; [done|]. rewrite Hs by lia. apply IH. lia.
Qed.

(** One call keeps "bytes out, then bytes queued" equal to "bytes queued before,
    then bytes in". *)
Lemma fifo_step_conserves op f :
  not_discard op ->
  op_out op (fifo_step op f).2 ++ fbytes (fifo_step op f).1
  = fbytes f ++ op_in op (fifo_step op f).2.
Proof.
  destruct op as [s|n peek|n|s|s|i j|i j| | |]; intros Hd; simpl in *; try done;
    rewrite ?app_nil_r; try done.
  - by destruct (_ <=? _); simpl; rewrite ?app_nil_r.
  - destruct (_ && _); simpl; [|by destruct peek; rewrite ?app_nil_r].
    destruct peek; simpl; rewrite ?app_nil_r; [done|]. by rewrite take_drop.
  - destruct (first_index s _); simpl; rewrite ?app_nil_r; [|done]. by rewrite take_drop.
Qed.

Lemma fifo_step_bounded op f :
  zlen (fbytes f) <= fcap f ->
  zlen (fbytes (fifo_step op f).1) <= fcap (fifo_step op f).1
  /\ fcap (fifo_step op f).1 = fcap f.
Proof.
  intros Hf. destruct op as [s|n peek|n|s|s|i j|i j| | |]; simpl; try done.
  - destruct (Z.leb_spec (zlen (fbytes f) + zlen s) (fcap f)); simpl; [|done].
    rewrite zlen_app. lia.
  - destruct (_ && _), peek; simpl; try done.
    unfold zlen in *. rewrite length_drop. lia.
  - destruct (_ && _); simpl; [|done]. unfold zlen in *. rewrite length_drop. lia.
  - destruct (first_index s _); simpl; [|done]. unfold zlen in *. rewrite length_drop. lia.
Qed.

Section traces.
Context `{ByteFifo T}.

Lemma fifo_run_all_refines ops t f :
  ops_ok f ops -> fifo_rep t f ->
  exists t', fifo_run_all ops t = Done (t', (fifo_steps ops f).2)
          /\ fifo_rep t' (fifo_steps ops f).1.
Proof.
  revert t f. induction ops as [|op ops IH]; intros t f Hok Hrep; simpl; [by exists t|].
  destruct Hok as [? Hok].
  destruct (fifo_run_refines op t f) as (t1 & -> & Hrep1); [done..|]. simpl.
  destruct (IH _ _ Hok Hrep1) as (t' & -> & Hrep'). simpl.
  destruct (fifo_step op f) as [f1 r]; simpl in *.
  destruct (fifo_steps ops f1) as [f2 rs]; simpl in *. by exists t'.
Qed.

End traces.

Lemma fifo_steps_conserve ops f :
  Forall not_discard ops ->
  trace_out ops (fifo_steps ops f).2 ++ fbytes (fifo_steps ops f).1
  = fbytes f ++ trace_in ops (fifo_steps ops f).2.
Proof.
  unfold trace_in, trace_out. revert f. induction ops as [|op ops IH]; intros f Hnd; simpl.
  { by rewrite app_nil_r. }
  apply Forall_cons in Hnd as [Hnd1 Hnd]. pose proof (fifo_step_conserves op f Hnd1) as Hstep.
  destruct (fifo_step op f) as [f1 r]; simpl in *. specialize (IH f1 Hnd).
  destruct (fifo_steps ops f1) as [f2 rs]; simpl in *.
  by rewrite <- app_assoc, IH, app_assoc, Hstep, app_assoc.
Qed.

Lemma fifo_steps_bounded ops f :
  zlen (fbytes f) <= fcap f ->
  zlen (fbytes (fifo_steps ops f).1) <= fcap f /\ fcap (fifo_steps ops f).1 = fcap f.
Proof.
  revert f. induction ops as [|op ops IH]; intros f Hf; simpl; [done|].
  destruct (fifo_step_bounded op f Hf) as [Hb Hc].
  destruct (fifo_step op f) as [f1 r]; simpl in *. destruct (IH f1 Hb) as [Hb' Hc'].
  destruct (fifo_steps ops f1) as [f2 rs]; simpl in *. by rewrite Hc in *.
Qed.
