(* ===== verification/RingBuffer.v ===== *)
(** * util-src/ringbuffer.c

    The bounded byte queue: [ringbuffer] is the C struct, one definition per C
    function, each handler taking the Lua stack [L] of its call and the object
    its first argument designates.  The theorems: the methods implement [ByteFifo]; they
    stay in the allocation; find and readuntil, when the pattern is no longer than the
    content and the buffer is not full, and what they do otherwise. *)

From stdpp Require Import base tactics numbers list strings pretty.
From Stdlib Require Import ZArith Lia.
From S2P Require Import Prelude LuaApi ByteFifo.

Local Open Scope Z_scope.

(** ** State and internal functions *)

Record ringbuffer := RB {
  rpos : Z;          (* read position *)
  wpos : Z;          (* write position *)
  alen : Z;          (* allocated size *)
  blen : Z;          (* current content size *)
  buffer : bytes;    (* char buffer[] *)
}.

Definition ringbuffer_mt : string := "ringbuffer_mt".

(** [None] stands for the return value 0, [Some pos] for 1 with [*pos] set.
    [alen - rpos] and the sums with it are unsigned and converted to [long]. *)
Definition wrap_pos (b : ringbuffer) (idx : Z) : option Z :=
  if idx >? long (blen b) then None
  else if idx + long (rpos b) >? long (alen b)
  then Some (long (idx - (alen b - rpos b)))
  else Some (long (rpos b + idx)).

Definition calc_splice_positions (b : ringbuffer) (start end_ : Z) : option (Z * Z) :=
  let start := if start <? 0 then long (1 + start + blen b) else start in
  let start := if start <=? 0 then 1 else start in
  let end_ := if end_ <? 0 then long (1 + end_ + blen b) else end_ in
  let end_ := if end_ >? long (blen b) then long (blen b) else end_ in
  let start := if start <? 1 then 1 else start in
  if start >? end_ then None
  else
    let start := start - 1 in
    out_start ← wrap_pos b start;
    out_end ← wrap_pos b end_;
    Some (out_start, out_end).

Definition writechar (b : ringbuffer) (c : Z) : outcome ringbuffer :=
  buf ← mem_set (buffer b) (wpos b mod alen b) c;
  Done (RB (rpos b) (size_t (wpos b + 1)) (alen b) (size_t (blen b + 1)) buf).

(** make sure position counters stay within the allocation *)
Definition modpos (b : ringbuffer) : ringbuffer :=
  RB (rpos b mod alen b) (wpos b mod alen b) (alen b) (blen b) (buffer b).

(** [buffer[(rpos + k) % alen]] *)
Definition ring_get (b : ringbuffer) (k : Z) : outcome Z :=
  mem_get (buffer b) (size_t (rpos b + k) mod alen b).

(** The inner loop of [find] from [j]: 1 when the bytes [js] of the pattern, those
    from index [j] on, match the ring from [i + j]. *)
Fixpoint find_match (b : ringbuffer) (i j : Z) (js : bytes) : outcome bool :=
  match js with
  | [] => Done true
  | c :: js' =>
      d ← ring_get b (i + j);
      if d =? c then find_match b i (j + 1) js' else Done false
  end.

(** The outer loop of [find] from [i], for at most [fuel] iterations. *)
Fixpoint find_loop (fuel : nat) (b : ringbuffer) (s : bytes) (l i : Z) : outcome Z :=
  match fuel with
  | O => Undef NoTermination
  | S fuel' =>
      if i <=? size_t (blen b - l) then
        d ← ring_get b i;
        c0 ← mem_get (c_str s) 0;
        if d =? c0 then
          m ← find_match b i 1 (drop 1 s);
          if m : bool then Done (cint (size_t (i + l)))
          else find_loop fuel' b s l (size_t (i + 1))
        else find_loop fuel' b s l (size_t (i + 1))
      else Done 0
  end.

Definition find (fuel : nat) (b : ringbuffer) (s : bytes) (l : Z) : outcome Z :=
  if rpos b =? wpos b then Done 0 (* empty *)
  else find_loop fuel b s l 0.

(** ** Handlers: the new object and the values returned *)

Section handlers.
Context `{LuaAux}.
Implicit Types (L : list value) (b : ringbuffer).

Definition rb_find (fuel : nat) L b : outcome (ringbuffer * list value) :=
  luaL_checkudata L 1 ringbuffer_mt;;
  s ← luaL_checklstring L 2;
  r ← find fuel b s (zlen s);
  let m := size_t r in
  if m >? 0 then Done (b, [VInt (long m)]) else Done (b, []).

Definition rb_discard L b : outcome (ringbuffer * list value) :=
  luaL_checkudata L 1 ringbuffer_mt;;
  n ← luaL_checkinteger L 2;
  let r := size_t n in
  if r >? blen b then Done (b, [VBool false])
  else
    let b := RB (size_t (rpos b + r)) (wpos b) (alen b) (size_t (blen b - r)) (buffer b) in
    Done (modpos b, [VBool true]).

Definition rb_read L b : outcome (ringbuffer * list value) :=
  luaL_checkudata L 1 ringbuffer_mt;;
  n ← luaL_checkinteger L 2;
  let r := size_t n in
  let peek := lua_toboolean L 3 in
  if r >? blen b then Done (b, [pushfail])
  else
    s ← (if size_t (rpos b + r) >? alen b then
           (* Substring wraps around to the beginning of the buffer *)
           s1 ← mem_sub (buffer b) (rpos b) (size_t (alen b - rpos b));
           s2 ← mem_sub (buffer b) 0 (size_t (r - (alen b - rpos b)));
           Done (s1 ++ s2)
         else mem_sub (buffer b) (rpos b) r);
    let b :=
      if peek then b
      else modpos (RB (size_t (rpos b + r)) (wpos b) (alen b)
                      (size_t (blen b - r)) (buffer b)) in
    Done (b, [VStr s]).

(** [lua_settop(L, 1)] and [lua_pushinteger(L, m)] before the tail call. *)
Definition rb_readuntil (fuel : nat) L b : outcome (ringbuffer * list value) :=
  luaL_checkudata L 1 ringbuffer_mt;;
  s ← luaL_checklstring L 2;
  r ← find fuel b s (zlen s);
  let m := size_t r in
  if m >? 0 then rb_read (take 1 L ++ [VInt (long m)]) b else Done (b, []).

(** [while(l-- > 0) { writechar(b, *s++); w++; }] *)
Fixpoint write_loop b (s : bytes) (w : Z) : outcome (ringbuffer * Z) :=
  match s with
  | [] => Done (b, w)
  | c :: s' => b' ← writechar b c; write_loop b' s' (size_t (w + 1))
  end.

Definition rb_write L b : outcome (ringbuffer * list value) :=
  luaL_checkudata L 1 ringbuffer_mt;;
  s ← luaL_checklstring L 2;
  let l := zlen s in
  (* Does `l` bytes fit? *)
  if size_t (l + blen b) >? alen b then Done (b, [pushfail])
  else
    '(b, w) ← write_loop b s 0;
    Done (modpos b, [VInt (long w)]).

Definition rb_sub L b : outcome (ringbuffer * list value) :=
  luaL_checkudata L 1 ringbuffer_mt;;
  start ← luaL_checkinteger L 2;
  end_ ← luaL_optinteger L 3 (-1);
  match calc_splice_positions b start end_ with
  | None => Done (b, [VStr []])
  | Some (wrapped_start, wrapped_end) =>
      if wrapped_end <=? wrapped_start then
        s1 ← mem_sub (buffer b) wrapped_start (size_t (alen b - wrapped_start));
        s2 ← mem_sub (buffer b) 0 wrapped_end;
        Done (b, [VStr (s1 ++ s2)])
      else
        s ← mem_sub (buffer b) wrapped_start (wrapped_end - wrapped_start);
        Done (b, [VStr s])
  end.

(** [for(i = from; i < to; i++) lua_pushinteger(L, (unsigned char)b->buffer[i]);] *)
Fixpoint push_loop (m : bytes) (i : Z) (n : nat) : outcome (list value) :=
  match n with
  | O => Done []
  | S n' =>
      c ← mem_get m i;
      vs ← push_loop m (i + 1) n';
      Done (VInt (uchar c) :: vs)
  end.
Definition push_bytes (m : bytes) (from to : Z) : outcome (list value) :=
  push_loop m from (Z.to_nat (to - from)).

Definition rb_byte L b : outcome (ringbuffer * list value) :=
  luaL_checkudata L 1 ringbuffer_mt;;
  start ← luaL_optinteger L 2 1;
  end_ ← luaL_optinteger L 3 start;
  match calc_splice_positions b start end_ with
  | Some (wrapped_start, wrapped_end) =>
      if wrapped_end <=? wrapped_start then
        v1 ← push_bytes (buffer b) wrapped_start (long (alen b));
        v2 ← push_bytes (buffer b) 0 wrapped_end;
        Done (b, v1 ++ v2)
      else
        v ← push_bytes (buffer b) wrapped_start wrapped_end;
        Done (b, v)
  | None => Done (b, [])
  end.

Definition rb_length L b : outcome (ringbuffer * list value) :=
  luaL_checkudata L 1 ringbuffer_mt;;
  Done (b, [VInt (long (blen b))]).

Definition rb_size L b : outcome (ringbuffer * list value) :=
  luaL_checkudata L 1 ringbuffer_mt;;
  Done (b, [VInt (long (alen b))]).

Definition rb_free L b : outcome (ringbuffer * list value) :=
  luaL_checkudata L 1 ringbuffer_mt;;
  Done (b, [VInt (long (alen b - blen b))]).

(** [lua_newuserdata] returns uninitialised memory: the initial bytes are given by
    [mem], a function of the size asked for; [pagesize] is [sysconf(_SC_PAGESIZE)]. *)
Definition rb_new (pagesize : Z) (mem : Z -> bytes) L : outcome ringbuffer :=
  size ← luaL_optinteger L 1 pagesize;
  luaL_argcheck (size >? 0) 1 "positive integer expected";;
  Done (RB 0 0 size 0 (mem size)).

(** [lua_pushfstring]: [percent_p] is the text of an address; "%d" prints an [int], which is
    the low half of the [size_t] that is passed. *)
Definition rb_tostring (percent_p : Z -> string) L b : outcome (ringbuffer * list value) :=
  p ← luaL_checkudata L 1 ringbuffer_mt;
  Done (b, [literal ("ringbuffer: " +:+ percent_p p +:+ " " +:+ pretty (cint (blen b)) +:+ "/" +:+ pretty (cint (alen b)))]).

(** The methods that [luaopen] registers ([__len] is [rb_length] too). *)
Definition rb_index (fuel : nat)
    : list (string * (list value -> ringbuffer -> outcome (ringbuffer * list value))) :=
  [("find", rb_find fuel); ("discard", rb_discard); ("read", rb_read);
   ("readuntil", rb_readuntil fuel); ("write", rb_write); ("size", rb_size);
   ("length", rb_length); ("sub", rb_sub); ("byte", rb_byte); ("free", rb_free)].

End handlers.

#[export] Hint Unfold rb_discard rb_read rb_write rb_sub rb_byte rb_length rb_size rb_free
  : handlers.

(** ** Abstraction: the bytes a ring buffer holds *)

(** The [k]-th byte of the content. *)
Definition ring_at (b : ringbuffer) (k : Z) : Z :=
  buffer b !!! Z.to_nat ((rpos b + k) mod alen b).

Definition content (b : ringbuffer) : bytes := ring_at b <$> seqZ 0 (blen b).

Record rb_inv (b : ringbuffer) : Prop := {
  inv_alen : 0 < alen b <= long_max;
  inv_buffer : zlen (buffer b) = alen b;
  inv_rpos : 0 <= rpos b < alen b;
  inv_blen : 0 <= blen b <= alen b;
  inv_wpos : wpos b = (rpos b + blen b) mod alen b;
}.

(** The first argument of every method call. *)
Definition self (p : Z) : value := VUserdata ringbuffer_mt p.

(** The method call of each operation of the contract; one iteration of the loop of [find] per
    byte of the content, and two more, are enough. *)
Definition rb_exec `{LuaAux} (p : Z) (op : fifo_op) (b : ringbuffer)
    : outcome (ringbuffer * list value) :=
  match op with
  | OpWrite s => rb_write [self p; VStr s] b
  | OpRead n peek => rb_read [self p; VInt n; VBool peek] b
  | OpDiscard n => rb_discard [self p; VInt n] b
  | OpFind s => rb_find (Z.to_nat (blen b + 2)) [self p; VStr s] b
  | OpReadUntil s => rb_readuntil (Z.to_nat (blen b + 2)) [self p; VStr s] b
  | OpSub i j => rb_sub [self p; VInt i; VInt j] b
  | OpByte i j => rb_byte [self p; VInt i; VInt j] b
  | OpLength => rb_length [self p] b
  | OpSize => rb_size [self p] b
  | OpFree => rb_free [self p] b
  end.

Definition rb_rep (b : ringbuffer) (f : fifo) : Prop :=
  rb_inv b /\ bytes_ok (content b) /\ f = Fifo (alen b) (content b).

(** ** Lemmas on the content *)

Section ring.
Implicit Types (b : ringbuffer).

Lemma zlen_content b : rb_inv b -> zlen (content b) = blen b.
Proof. intros []. unfold zlen, content. rewrite length_fmap, length_seqZ. lia. Qed.

Lemma content_lookup b (k : nat) :
  content b !! k = if decide (Z.of_nat k < blen b) then Some (ring_at b (Z.of_nat k)) else None.
Proof.
  unfold content. rewrite list_lookup_fmap. case_decide.
  - rewrite lookup_seqZ_lt by lia. done.
  - rewrite lookup_seqZ_ge by lia. done.
Qed.

Lemma ring_at_wrap b k :
  rb_inv b -> 0 <= k <= blen b ->
  ring_at b k = buffer b !!! Z.to_nat (if rpos b + k <? alen b then rpos b + k
                                       else rpos b + k - alen b).
Proof. intros [] ?. unfold ring_at. by rewrite mod_wrap by lia. Qed.

Lemma buffer_lookup b i :
  rb_inv b -> 0 <= i < alen b -> buffer b !! Z.to_nat i = Some (buffer b !!! Z.to_nat i).
Proof.
  intros [] ?. apply list_lookup_lookup_total_lt. unfold zlen in *. lia.
Qed.

(** The memory read for [n] bytes of the content from [k], in the three layouts. *)
Lemma slice_content_low b k n :
  rb_inv b -> 0 <= k -> 0 <= n -> k + n <= blen b -> rpos b + k + n <= alen b ->
  slice (buffer b) (rpos b + k) n = slice (content b) k n.
Proof.
  intros Hb ????. pose proof Hb as [????]. apply list_eq. intros i.
  rewrite !slice_lookup. case_decide; [|done].
  rewrite content_lookup, decide_True by lia.
  rewrite ring_at_wrap by (done || lia). zcase.
  rewrite <- buffer_lookup by (done || lia). f_equal. lia.
Qed.

Lemma slice_content_high b k n :
  rb_inv b -> 0 <= k -> 0 <= n -> k + n <= blen b -> alen b <= rpos b + k ->
  slice (buffer b) (rpos b + k - alen b) n = slice (content b) k n.
Proof.
  intros Hb ????. pose proof Hb as [????]. apply list_eq. intros i.
  rewrite !slice_lookup. case_decide; [|done].
  rewrite content_lookup, decide_True by lia.
  rewrite ring_at_wrap by (done || lia). zcase.
  rewrite <- buffer_lookup by (done || lia). f_equal. lia.
Qed.

Lemma slice_content_split b k n :
  rb_inv b -> 0 <= k -> k + n <= blen b ->
  rpos b + k <= alen b <= rpos b + k + n ->
  slice (buffer b) (rpos b + k) (alen b - (rpos b + k))
    ++ slice (buffer b) 0 (n - (alen b - (rpos b + k))) = slice (content b) k n.
Proof.
  intros Hb ???. pose proof Hb as [????].
  rewrite (slice_content_low b k) by (done || lia).
  replace 0 with (rpos b + (alen b - rpos b) - alen b) at 1 by lia.
  rewrite slice_content_high by (done || lia).
  replace (alen b - rpos b) with (k + (alen b - (rpos b + k))) at 1 by lia.
  rewrite slice_app by lia. f_equal. lia.
Qed.

(** What the code computes for a position of the content, [calc_splice_positions]'s
    end positions included. *)
Definition ring_index b k := if rpos b + k <=? alen b then rpos b + k else rpos b + k - alen b.

Lemma wrap_pos_spec b k :
  rb_inv b -> 0 <= k ->
  wrap_pos b k = if k <=? blen b then Some (ring_index b k) else None.
Proof.
  intros [] ?. unfold wrap_pos, ring_index. unfold long_max in *.
  rewrite !(long_small (blen b)), (long_small (rpos b)), (long_small (alen b))
    by range.
  zcase; f_equal; rewrite long_small by range; lia.
Qed.

(** The clamping steps of [calc_splice_positions] as [Z.max] and [Z.min]. *)
Lemma clamp_low x : (if x <=? 0 then 1 else x) = Z.max 1 x.
Proof. zcase. Qed.
Lemma clamp_low_again x : (if Z.max 1 x <? 1 then 1 else Z.max 1 x) = Z.max 1 x.
Proof. zcase. Qed.
Lemma clamp_high x l : (if x >? l then l else x) = Z.min x l.
Proof. zcase. Qed.

Lemma calc_splice_positions_spec b i j :
  rb_inv b -> is_integer i -> is_integer j ->
  let i' := lua_sub_start (blen b) i in
  let j' := lua_sub_end (blen b) j in
  calc_splice_positions b i j =
    if i' <=? j' then Some (ring_index b (i' - 1), ring_index b j') else None.
Proof.
  intros Hb [] []. pose proof Hb as []. unfold long_min, long_max in *.
  unfold calc_splice_positions. cbv zeta.
  rewrite (long_small (blen b)) by range.
  rewrite !clamp_low, clamp_low_again, clamp_high.
  replace (Z.max 1 (if i <? 0 then _ else i)) with (lua_sub_start (blen b) i).
  2: { unfold lua_sub_start. zcase; rewrite ?long_small by range; lia. }
  replace (Z.min (if j <? 0 then _ else j) (blen b)) with (lua_sub_end (blen b) j).
  2: { unfold lua_sub_end. zcase; rewrite ?long_small by range; lia. }
  assert (1 <= lua_sub_start (blen b) i) by (unfold lua_sub_start; zcase).
  assert (lua_sub_end (blen b) j <= blen b) by (unfold lua_sub_end; zcase).
  zcase; [|done]. rewrite !wrap_pos_spec by (done || lia). by zcase.
Qed.

End ring.

(** ** Each method refines its contract *)

Section refinement.
Context `{LuaAux}.
Implicit Types (b : ringbuffer) (p : Z).

Lemma rep_bytes b f : rb_rep b f -> rb_inv b /\ bytes_ok (content b)
  /\ fbytes f = content b /\ fcap f = alen b.
Proof. intros (?&?&->). done. Qed.

Lemma ring_checkudata_self p L : luaL_checkudata (self p :: L) 1 ringbuffer_mt = Done p.
Proof. done. Qed.

(** The bytes [rb_read] returns for a length within the content. *)
Lemma read_bytes b n :
  rb_inv b -> 0 <= n <= blen b ->
  (if size_t (rpos b + n) >? alen b then
     s1 ← mem_sub (buffer b) (rpos b) (size_t (alen b - rpos b));
     s2 ← mem_sub (buffer b) 0 (size_t (n - (alen b - rpos b)));
     Done (s1 ++ s2)
   else mem_sub (buffer b) (rpos b) n) = Done (slice (content b) 0 n).
Proof.
  intros Hb ?. pose proof Hb as []. unfold long_max in *.
  rewrite (size_small (rpos b + n)) by range.
  rewrite Z.gtb_ltb. destruct (Z.ltb_spec (alen b) (rpos b + n)).
  - rewrite !size_small by range.
    rewrite !mem_sub_done by lia. simpl. f_equal.
    rewrite <- (slice_content_split b 0 n) by (done || lia). by rewrite !Z.add_0_r.
  - rewrite mem_sub_done by lia. f_equal.
    rewrite <- (slice_content_low b 0 n) by (done || lia). by rewrite Z.add_0_r.
Qed.

(** Moving the read position drops a prefix of the content. *)
Definition consume b n : ringbuffer :=
  modpos (RB (size_t (rpos b + n)) (wpos b) (alen b) (size_t (blen b - n)) (buffer b)).

Lemma consume_spec b n :
  rb_inv b -> 0 <= n <= blen b ->
  rb_inv (consume b n) /\ content (consume b n) = drop (Z.to_nat n) (content b)
  /\ alen (consume b n) = alen b.
Proof.
  intros Hb ?. pose proof Hb as []. unfold consume, modpos. unfold long_max in *.
  rewrite !size_small by range. cbn [rpos wpos alen blen buffer].
  assert (rb_inv (RB ((rpos b + n) mod alen b) (wpos b mod alen b) (alen b) (blen b - n) (buffer b))) as Hinv.
  { split; cbn; try lia; try (by unfold long_max).
    - apply Z.mod_pos_bound. lia.
    - rewrite inv_wpos0, Zmod_mod, Zplus_mod_idemp_l. f_equal. lia. }
  split_and!; [done| |done].
  apply list_eq. intros k. rewrite lookup_drop, !content_lookup. cbn [blen].
  repeat case_decide; try lia; [|done]. f_equal. unfold ring_at. cbn.
  rewrite Zplus_mod_idemp_l. do 3 f_equal. lia.
Qed.

Lemma rb_read_spec b L p n :
  rb_inv b -> luaL_checkudata L 1 ringbuffer_mt = Done p -> luaL_checkinteger L 2 = Done n ->
  rb_read L b =
    if (0 <=? n) && (n <=? blen b)
    then Done (if lua_toboolean L 3 then b else consume b n,
               [VStr (take (Z.to_nat n) (content b))])
    else Done (b, [pushfail]).
Proof.
  intros Hb Hp En. pose proof (checkinteger_range _ _ _ En) as Hn. pose proof Hb as [].
  unfold rb_read. rewrite Hp. simpl. rewrite En. simpl.
  unfold is_long, long_min, long_max in *. rewrite Z.gtb_ltb.
  destruct (Z.ltb_spec (blen b) (size_t n)) as [Hlt|Hge].
  - zcase; try done. rewrite size_small in Hlt by range. lia.
  - assert (0 <= n).
    { destruct (Z.leb_spec 0 n); [done|]. rewrite size_neg in Hge by range. lia. }
    rewrite (size_small n) in Hge |- * by range.
    rewrite read_bytes by (done || lia). zcase. simpl. by destruct (lua_toboolean L 3).
Qed.

Lemma rb_discard_spec b L p n :
  rb_inv b -> luaL_checkudata L 1 ringbuffer_mt = Done p -> luaL_checkinteger L 2 = Done n ->
  rb_discard L b =
    if (0 <=? n) && (n <=? blen b) then Done (consume b n, [VBool true])
    else Done (b, [VBool false]).
Proof.
  intros Hb Hp En. pose proof (checkinteger_range _ _ _ En) as Hn. pose proof Hb as [].
  unfold rb_discard. rewrite Hp. simpl. rewrite En. simpl.
  unfold is_long, long_min, long_max in *. rewrite Z.gtb_ltb.
  destruct (Z.ltb_spec (blen b) (size_t n)) as [Hlt|Hge].
  - zcase; try done. rewrite size_small in Hlt by range. lia.
  - assert (0 <= n).
    { destruct (Z.leb_spec 0 n); [done|]. rewrite size_neg in Hge by range. lia. }
    rewrite (size_small n) in Hge |- * by range. by zcase.
Qed.

(** ** Writing *)

(** The state inside [write_loop]: the write position is not yet reduced. *)
Definition writing b (q : bytes) : Prop :=
  0 < alen b <= long_max /\ zlen (buffer b) = alen b /\ 0 <= rpos b < alen b
  /\ blen b = zlen q /\ blen b <= alen b
  /\ 0 <= wpos b /\ wpos b <= 2 * alen b - (alen b - blen b)
  /\ wpos b mod alen b = (rpos b + blen b) mod alen b
  /\ content b = q.

Lemma writechar_spec b q c :
  writing b q -> blen b < alen b ->
  exists b', writechar b c = Done b' /\ writing b' (q ++ [c]) /\ alen b' = alen b.
Proof.
  intros (Ha & Hbuf & Hr & Hl & Hle & Hw & Hw2 & Hmod & Hq) Hlt. unfold writechar, long_max in *.
  pose proof (zlen_nonneg q).
  assert (0 <= wpos b mod alen b < alen b) by (apply Z.mod_pos_bound; lia).
  rewrite mem_set_done by lia. simpl. eexists. split; [done|]. split; [|done].
  rewrite !size_small by range.
  unfold writing; cbn [rpos wpos alen blen buffer]. unfold long_max.
  split_and!; try done; try lia.
  - unfold zlen in *. by rewrite length_insert.
  - rewrite zlen_app. unfold zlen at 2. simpl. lia.
  - rewrite <- Zplus_mod_idemp_l, Hmod, Zplus_mod_idemp_l. f_equal. lia.
  - subst q. apply list_eq. intros k. rewrite content_lookup. cbn [blen].
    unfold ring_at at 1; cbn [rpos alen buffer]. rewrite Hmod, lookup_app.
    rewrite content_lookup. unfold zlen in *.
    repeat case_decide; try lia; simpl.
    + rewrite list_lookup_total_insert_ne; [done|].
      rewrite !mod_wrap by lia. zcase.
    + assert (Z.of_nat k = blen b) as -> by lia.
      rewrite list_lookup_total_insert_eq.
      2: { rewrite <- Hmod. lia. }
      replace (k - _)%nat with 0%nat; [done|].
      unfold content in *. rewrite length_fmap, length_seqZ in *. lia.
    + rewrite lookup_ge_None_2; [done|].
      unfold content in *. rewrite length_fmap, length_seqZ in *. simpl. lia.
Qed.

Lemma write_loop_spec b q s w :
  writing b q -> blen b + zlen s <= alen b -> 0 <= w -> w + zlen s <= long_max ->
  exists b', write_loop b s w = Done (b', w + zlen s) /\ writing b' (q ++ s)
             /\ alen b' = alen b.
Proof.
  revert b q w. induction s as [|c s IH]; intros b q w Hb Hfit Hw Hw2; simpl.
  { exists b. rewrite app_nil_r. unfold zlen. simpl. by rewrite Z.add_0_r. }
  rewrite zlen_cons in *. pose proof (zlen_nonneg s).
  destruct (writechar_spec b q c) as (b1 & -> & Hb1 & Ha1); [done|lia|]. simpl.
  rewrite size_small by range.
  destruct (IH b1 (q ++ [c]) (w + 1)) as (b2 & -> & Hb2 & Ha2); [done| |lia|lia|].
  { destruct Hb1 as (?&?&?&->&?). destruct Hb as (?&?&?&?&?).
    rewrite zlen_app. unfold zlen at 2. simpl. lia. }
  exists b2. split_and!; [do 2 f_equal; lia| |congruence]. by rewrite <- app_assoc in Hb2.
Qed.

Lemma inv_writing b : rb_inv b -> writing b (content b).
Proof.
  intros Hb. pose proof Hb as []. unfold writing. rewrite zlen_content by done.
  assert (0 <= wpos b < alen b) by (rewrite inv_wpos0; apply Z.mod_pos_bound; lia).
  split_and!; try done; try lia; [].
  by rewrite inv_wpos0, Zmod_mod.
Qed.

Lemma writing_modpos b q :
  writing b q -> rb_inv (modpos b) /\ content (modpos b) = q.
Proof.
  intros (Ha & Hbuf & Hr & Hl & Hle & Hw & Hw2 & Hmod & Hq). unfold modpos.
  rewrite (Z.mod_small (rpos b)) by lia. split.
  - pose proof (zlen_nonneg q). split; cbn; try done; lia.
  - subst q. done.
Qed.

Lemma rb_write_spec b L p s :
  rb_inv b -> luaL_checkudata L 1 ringbuffer_mt = Done p -> luaL_checklstring L 2 = Done s ->
  exists b', rb_write L b =
      (if blen b + zlen s <=? alen b then Done (b', [VInt (zlen s)])
       else Done (b, [pushfail]))
    /\ (blen b + zlen s <= alen b ->
        rb_inv b' /\ content b' = content b ++ s /\ alen b' = alen b).
Proof.
  intros Hb Hp Es. destruct (checklstring_ok _ _ _ Es) as [_ Hs]. pose proof Hb as [].
  unfold rb_write. rewrite Hp. simpl. rewrite Es. simpl. pose proof (zlen_nonneg s).
  rewrite size_small by range.
  rewrite Z.gtb_ltb. destruct (Z.ltb_spec (alen b) (zlen s + blen b)).
  { exists b. split; [by zcase|lia]. }
  destruct (write_loop_spec b (content b) s 0) as (b' & -> & Hb' & Ha');
    [by apply inv_writing|lia..|].
  exists (modpos b'). zcase. simpl.
  rewrite long_small by range.
  split; [done|]. intros _. by destruct (writing_modpos _ _ Hb').
Qed.

(** ** Reading by position *)

(** The two branches of [rb_sub] and [rb_byte] after [calc_splice_positions]. *)
Lemma splice_slices b k e :
  rb_inv b -> 0 <= k < e -> e <= blen b ->
  let ws := ring_index b k in
  let we := ring_index b e in
  0 <= ws <= alen b /\ 0 <= we <= alen b
  /\ if we <=? ws
     then slice (buffer b) ws (alen b - ws) ++ slice (buffer b) 0 we = slice (content b) k (e - k)
     else slice (buffer b) ws (we - ws) = slice (content b) k (e - k).
Proof.
  intros Hb Hk He. pose proof Hb as []. cbv zeta.
  split; [unfold ring_index; zcase|]. split; [unfold ring_index; zcase|].
  unfold ring_index.
  destruct (Z.leb_spec (rpos b + k) (alen b)), (Z.leb_spec (rpos b + e) (alen b)); zcase.
  - rewrite <- (slice_content_low b k) by (done || lia). f_equal. lia.
  - rewrite <- (slice_content_split b k) by (done || lia). do 2 f_equal; lia.
  - rewrite <- (slice_content_high b k) by (done || lia). f_equal. lia.
Qed.

Lemma lua_string_sub_empty s i j :
  lua_sub_end (zlen s) j < lua_sub_start (zlen s) i -> lua_string_sub s i j = [].
Proof. intros. unfold lua_string_sub. apply slice_nil. lia. Qed.

Lemma rb_sub_spec b L p i j :
  rb_inv b -> luaL_checkudata L 1 ringbuffer_mt = Done p ->
  luaL_checkinteger L 2 = Done i -> luaL_optinteger L 3 (-1) = Done j ->
  rb_sub L b = Done (b, [VStr (lua_string_sub (content b) i j)]).
Proof.
  intros Hb Hp Ei Ej. pose proof (checkinteger_range _ _ _ Ei) as Hi.
  assert (is_integer j) as Hj by (eapply optinteger_range, Ej; range). pose proof Hb as [].
  unfold rb_sub. rewrite Hp. simpl. rewrite Ei. simpl. rewrite Ej. simpl.
  rewrite calc_splice_positions_spec by done. cbv zeta.
  pose proof (zlen_content b Hb) as Hl.
  destruct (Z.leb_spec (lua_sub_start (blen b) i) (lua_sub_end (blen b) j)).
  2: { by rewrite lua_string_sub_empty by (rewrite Hl; done). }
  destruct (splice_slices b (lua_sub_start (blen b) i - 1) (lua_sub_end (blen b) j))
    as (Hws & Hwe & Hs); [done| | |].
  { split; [|lia]. unfold lua_sub_start. zcase. }
  { unfold lua_sub_end. zcase. }
  unfold lua_string_sub. rewrite Hl.
  replace (_ - _ + 1) with (lua_sub_end (blen b) j - (lua_sub_start (blen b) i - 1)) by lia.
  destruct (Z.leb_spec (ring_index b (lua_sub_end (blen b) j))
                       (ring_index b (lua_sub_start (blen b) i - 1))).
  - rewrite size_small by range.
    rewrite !mem_sub_done by lia. simpl. by rewrite Hs.
  - rewrite mem_sub_done by lia. simpl. by rewrite Hs.
Qed.

Lemma ring_push_loop_spec m i n :
  0 <= i -> i + Z.of_nat n <= zlen m ->
  push_loop m i n = Done ((fun c => VInt (uchar c)) <$> slice m i (Z.of_nat n)).
Proof.
  revert i. induction n as [|n IH]; intros i Hi Hn; [done|]. simpl.
  destruct (m !! Z.to_nat i) as [c|] eqn:E.
  2: { apply lookup_ge_None in E. unfold zlen in Hn. lia. }
  rewrite (mem_get_done _ _ c) by done. simpl.
  assert (slice m i (Z.of_nat (S n)) = c :: slice m (i + 1) (Z.of_nat n)) as Heq.
  { rewrite <- slice_cons by (done || lia). f_equal. lia. }
  rewrite Heq, IH by lia. done.
Qed.

Lemma push_bytes_spec m from to :
  0 <= from <= to -> to <= zlen m ->
  push_bytes m from to = Done ((fun c => VInt (uchar c)) <$> slice m from (to - from)).
Proof.
  intros ??. unfold push_bytes.
  rewrite ring_push_loop_spec; rewrite ?Z2Nat.id by lia; [done|lia..].
Qed.

Lemma uchar_values s : bytes_ok s -> (fun c => VInt (uchar c)) <$> s = VInt <$> s.
Proof.
  intros Hs. apply list_fmap_ext. intros i c Hc. f_equal. apply uchar_byte.
  by apply (Forall_lookup_1 _ _ _ _ Hs Hc).
Qed.

Lemma slice_bytes_ok m i n : bytes_ok m -> bytes_ok (slice m i n).
Proof. intros. by apply Forall_take, Forall_drop. Qed.

Lemma rb_byte_spec b L p i j :
  rb_inv b -> luaL_checkudata L 1 ringbuffer_mt = Done p ->
  luaL_optinteger L 2 1 = Done i -> luaL_optinteger L 3 i = Done j ->
  rb_byte L b = Done (b, (fun c => VInt (uchar c)) <$> lua_string_sub (content b) i j).
Proof.
  intros Hb Hp Ei Ej. assert (is_integer i) as Hi by (eapply optinteger_range, Ei; range).
  pose proof (optinteger_range _ _ _ _ Hi Ej) as Hj. pose proof Hb as [].
  unfold rb_byte. rewrite Hp. simpl. rewrite Ei. simpl. rewrite Ej. simpl.
  rewrite calc_splice_positions_spec by done. cbv zeta.
  pose proof (zlen_content b Hb) as Hl.
  destruct (Z.leb_spec (lua_sub_start (blen b) i) (lua_sub_end (blen b) j)).
  2: { by rewrite lua_string_sub_empty by (rewrite Hl; done). }
  destruct (splice_slices b (lua_sub_start (blen b) i - 1) (lua_sub_end (blen b) j))
    as (Hws & Hwe & Hs); [done| | |].
  { split; [|lia]. unfold lua_sub_start. zcase. }
  { unfold lua_sub_end. zcase. }
  unfold lua_string_sub. rewrite Hl.
  replace (_ - _ + 1) with (lua_sub_end (blen b) j - (lua_sub_start (blen b) i - 1)) by lia.
  set (we := ring_index b (lua_sub_end (blen b) j)) in *.
  set (ws := ring_index b (lua_sub_start (blen b) i - 1)) in *.
  destruct (Z.leb_spec we ws).
  - rewrite long_small by range.
    rewrite !push_bytes_spec; rewrite ?Z.sub_0_r; [|lia..]. simpl.
    by rewrite <- fmap_app, Hs.
  - rewrite push_bytes_spec, Hs; [done|lia..].
Qed.

Lemma in_content_spec b n :
  BoolSpec (0 <= n <= blen b) (~ 0 <= n <= blen b) ((0 <=? n) && (n <=? blen b)).
Proof. destruct (Z.leb_spec 0 n), (Z.leb_spec n (blen b)); constructor; lia. Qed.

End refinement.

(** ** Searching *)

(** [k] is the least position of the content where [s] occurs. *)
Definition first_occurrence (q s : bytes) (k : Z) : Prop :=
  0 <= k /\ slice q k (zlen s) = s /\ forall k', 0 <= k' < k -> slice q k' (zlen s) <> s.

Definition no_occurrence (q s : bytes) : Prop :=
  forall k, 0 <= k -> slice q k (zlen s) <> s.

Section searching.
Implicit Types (b : ringbuffer).

Lemma ring_get_spec b k :
  rb_inv b -> 0 <= k <= alen b -> ring_get b k = Done (ring_at b k).
Proof.
  intros [] Hk. unfold ring_get. rewrite size_small by range.
  rewrite mem_get_lookup_total; [done|]. rewrite inv_buffer0. apply Z.mod_pos_bound. lia.
Qed.

Lemma content_ring_at b k :
  0 <= k < blen b -> content b !! Z.to_nat k = Some (ring_at b k).
Proof. intros. rewrite content_lookup, decide_True by lia. do 2 f_equal. lia. Qed.

Lemma find_match_spec b i j js :
  rb_inv b -> 0 <= i -> 0 <= j -> i + j + zlen js <= blen b ->
  find_match b i j js = Done (bool_decide (slice (content b) (i + j) (zlen js) = js)).
Proof.
  intros Hb Hi. pose proof Hb as []. revert j. induction js as [|c js IH]; intros j Hj Hl; cbn [find_match].
  { rewrite bool_decide_eq_true_2; [done|]. by rewrite slice_nil. }
  rewrite zlen_cons in *. pose proof (zlen_nonneg js).
  rewrite ring_get_spec by (done || lia). simpl.
  rewrite (slice_cons _ _ _ (ring_at b (i + j))) by (lia || apply content_ring_at; lia).
  destruct (Z.eqb_spec (ring_at b (i + j)) c) as [->|].
  - rewrite IH by lia. f_equal. replace (i + (j + 1)) with (i + j + 1) by lia.
    apply bool_decide_ext. split; [by intros ->|by intros [= ?]].
  - rewrite bool_decide_eq_false_2; [done|]. by intros [= ?].
Qed.

(** One iteration of the outer loop tests the pattern at position [i]. *)
Lemma find_loop_step fuel b s i :
  rb_inv b -> s <> [] -> 0 <= i -> i + zlen s <= blen b ->
  find_loop (S fuel) b s (zlen s) i =
    if decide (slice (content b) i (zlen s) = s) then Done (cint (i + zlen s))
    else find_loop fuel b s (zlen s) (i + 1).
Proof.
  intros Hb Hs Hi Hl. pose proof Hb as []. destruct s as [|c s]; [done|].
  pose proof (zlen_nonneg s). pose proof (zlen_cons c s) as E.
  cbn [find_loop]. unfold c_str; cbn [app mem_get].
  rewrite (size_small (blen b - _)), (size_small (i + 1)), (size_small (i + _)) by range.
  zcase. rewrite ring_get_spec by (done || lia). simpl.
  rewrite E, (slice_cons _ _ _ (ring_at b i)) by (lia || apply content_ring_at; lia).
  change (mem_get _ 0) with (Done c). simpl.
  destruct (Z.eqb_spec (ring_at b i) c) as [->|].
  - rewrite drop_0, find_match_spec by (done || lia). simpl.
    case_bool_decide; case_decide; congruence.
  - rewrite decide_False by (by intros [= ?]). done.
Qed.

Lemma slice_too_long (q s : bytes) k :
  s <> [] -> 0 <= k -> zlen q < k + zlen s -> slice q k (zlen s) <> s.
Proof.
  intros Hs Hk Hl E. apply (f_equal zlen) in E. unfold zlen, slice in *.
  rewrite length_take, length_drop in E.
  assert (length s <> 0%nat) by (by intros ->%length_zero_iff_nil). lia.
Qed.

Lemma find_loop_spec fuel b s i :
  rb_inv b -> s <> [] -> zlen s <= blen b -> 0 <= i -> i + zlen s <= blen b + 1 ->
  (forall k', 0 <= k' < i -> slice (content b) k' (zlen s) <> s) ->
  blen b - zlen s - i + 1 < Z.of_nat fuel ->
  (find_loop fuel b s (zlen s) i = Done 0 /\ no_occurrence (content b) s)
  \/ exists k, find_loop fuel b s (zlen s) i = Done (cint (k + zlen s))
             /\ first_occurrence (content b) s k.
Proof.
  intros Hb Hs Hsl. pose proof (zlen_content b Hb) as Hc. revert i.
  induction fuel as [|fuel IH]; intros i Hi Hl Hprev Hfuel; [lia|].
  destruct (decide (i + zlen s = blen b + 1)) as [E|].
  - left. split.
    + cbn [find_loop]. pose proof Hb as []. pose proof (zlen_nonneg s).
      rewrite (size_small (blen b - _)) by range. by zcase.
    + intros k Hk. destruct (decide (k < i)); [by apply Hprev|].
      apply slice_too_long; [done..|lia].
  - rewrite find_loop_step by (done || lia). case_decide as Hm.
    + right. by exists i.
    + apply IH; [lia..| |lia]. intros k' Hk'. destruct (decide (k' = i)) as [->|]; [done|].
      apply Hprev. lia.
Qed.

Lemma find_spec fuel b s :
  rb_inv b -> alen b <= int_max -> s <> [] -> zlen s <= blen b < alen b ->
  blen b + 1 < Z.of_nat fuel ->
  (find fuel b s (zlen s) = Done 0 /\ no_occurrence (content b) s)
  \/ exists k, find fuel b s (zlen s) = Done (k + zlen s)
             /\ first_occurrence (content b) s k /\ k + zlen s <= blen b.
Proof.
  intros Hb Hmax Hs Hl Hf. pose proof (zlen_nonneg s). pose proof Hb as [].
  assert (zlen s <> 0) by (unfold zlen; by destruct s).
  unfold find. replace (rpos b =? wpos b) with false.
  2: { symmetry. apply Z.eqb_neq. rewrite inv_wpos0, mod_wrap by lia. zcase. }
  destruct (find_loop_spec fuel b s 0) as [[-> ?]|(k & -> & Hk)];
    [done|done|lia..|by left|].
  right. exists k. destruct Hk as (Hk0 & Hk & ?).
  assert (k + zlen s <= blen b).
  { destruct (Z.leb_spec (k + zlen s) (blen b)); [done|].
    destruct (slice_too_long (content b) s k); [done..| |done]. rewrite zlen_content by done. lia. }
  rewrite int_small by range. done.
Qed.

(** The result of the search is that of [first_index]. *)
Lemma find_index fuel b s :
  rb_inv b -> s <> [] -> content b = [] \/ (zlen s <= blen b < alen b /\ alen b <= int_max) ->
  blen b + 1 < Z.of_nat fuel ->
  find fuel b s (zlen s) = Done (match first_index s (content b) with Some k => k + zlen s | None => 0 end) /\
  (forall k, first_index s (content b) = Some k -> 0 < k + zlen s <= blen b).
Proof.
  intros Hb Hs Hl Hf. pose proof (first_index_spec s (content b)) as Hi. pose proof (zlen_content b Hb) as Hc.
  assert (0 < zlen s) by (destruct s; [done|]; rewrite zlen_cons; pose proof (zlen_nonneg s); lia).
  destruct Hl as [Hl|[Hl Hmax]].
  - rewrite Hl in *. change (zlen []) with 0 in Hc. destruct Hb. unfold find. rewrite inv_wpos0, <- Hc, Z.add_0_r.
    rewrite Z.mod_small, Z.eqb_refl by lia. by destruct s.
  - destruct (find_spec fuel b s) as [[-> Hno]|(k & -> & (Hk & Hocc & Hmin) & Hle)]; [done..|split|split];
      destruct (first_index s (content b)) as [k'|]; try done.
    + destruct Hi as (Hk' & Hocc' & _). by destruct (Hno k').
    + intros k0 _. destruct Hi as (Hk' & Hocc' & _). by destruct (Hno k').
    + do 2 f_equal. destruct Hi as (Hk' & Hocc' & Hmin'). destruct (Z.lt_trichotomy k k') as [?|[?|?]]; [|done|].
      * by destruct (Hmin' k).
      * by destruct (Hmin k').
    + by destruct (Hi k).
    + intros k0 [= <-]. destruct Hi as (Hk' & Hocc' & Hmin').
      destruct (decide (k' <= k)); [lia|]. by destruct (Hmin' k); [lia|].
Qed.

End searching.

(** ** The contract *)

Section contract.
Context `{LuaAux}.
Implicit Types (b : ringbuffer) (p : Z).

Lemma rb_find_spec fuel p b s :
  rb_inv b -> lua_string s -> s <> [] -> content b = [] \/ (zlen s <= blen b < alen b /\ alen b <= int_max) ->
  blen b + 1 < Z.of_nat fuel ->
  rb_find fuel [self p; VStr s] b
  = Done (b, match first_index s (content b) with Some k => [VInt (k + zlen s)] | None => [] end).
Proof.
  intros Hb Hok Hs Hl Hf. unfold rb_find. rewrite ring_checkudata_self. simpl.
  rewrite (checklstring_str _ _ s) by done. simpl. pose proof Hb as [].
  destruct (find_index fuel b s Hb Hs Hl Hf) as [-> Hk]. simpl.
  destruct (first_index s (content b)) as [k|]; [|done]. specialize (Hk k eq_refl).
  rewrite size_small by range. zcase. by rewrite long_small by range.
Qed.

Lemma rb_readuntil_spec fuel p b s :
  rb_inv b -> lua_string s -> s <> [] -> content b = [] \/ (zlen s <= blen b < alen b /\ alen b <= int_max) ->
  blen b + 1 < Z.of_nat fuel ->
  rb_readuntil fuel [self p; VStr s] b
  = Done (match first_index s (content b) with
          | Some k => (consume b (k + zlen s), [VStr (take (Z.to_nat (k + zlen s)) (content b))])
          | None => (b, [])
          end) /\
  (forall k, first_index s (content b) = Some k -> 0 < k + zlen s <= blen b).
Proof.
  intros Hb Hok Hs Hl Hf. unfold rb_readuntil. rewrite ring_checkudata_self. simpl.
  rewrite (checklstring_str _ _ s) by done. simpl. pose proof Hb as [].
  destruct (find_index fuel b s Hb Hs Hl Hf) as [-> Hk]. simpl. split; [|done].
  destruct (first_index s (content b)) as [k|]; [|done]. specialize (Hk k eq_refl).
  rewrite size_small by range. zcase. rewrite long_small by range.
  rewrite (rb_read_spec _ _ p (k + zlen s)) by (done || (apply checkinteger_int; [done|range])).
  by zcase.
Qed.

Lemma rb_rep_op b p op f :
  op_ok f op -> rb_rep b f ->
  exists b', rb_exec p op b = Done (b', (fifo_step op f).2) /\ rb_rep b' (fifo_step op f).1.
Proof.
  intros Hop (Hb & Hok & ->). pose proof (zlen_content b Hb) as Hl. pose proof Hb as [].
  destruct op as [s|n peek|n|s|s|i j|i j| | |]; simpl in Hop |- *; rewrite ?Hl.
  - destruct (rb_write_spec b [self p; VStr s] p s) as (b' & -> & Hb'); [done..|by apply checklstring_str|].
    destruct (Z.leb_spec (blen b + zlen s) (alen b)) as [Hle|].
    + destruct (Hb' Hle) as (? & Hc & Ha). exists b'. split; [done|].
      unfold rb_rep; simpl. rewrite Hc, Ha. split_and!; [done| |done].
      destruct Hop. by apply Forall_app.
    + by exists b.
  - rewrite (rb_read_spec _ _ p n) by (done || by apply checkinteger_int). simpl. destruct (in_content_spec b n); [|by exists b].
    destruct (consume_spec b n) as (? & Hc & _); [done..|].
    destruct peek; eexists; (split; [done|]); [done|].
    unfold rb_rep; simpl. rewrite Hc. split_and!; [done|by apply Forall_drop|done].
  - rewrite (rb_discard_spec _ _ p n) by (done || by apply checkinteger_int). destruct (in_content_spec b n); [|by exists b].
    destruct (consume_spec b n) as (? & Hc & _); [done..|].
    eexists; (split; [done|]). unfold rb_rep; simpl. rewrite Hc.
    split_and!; [done|by apply Forall_drop|done].
  - destruct Hop as [Hs [Hne Hsr]]. simpl in Hsr. rewrite Hl in Hsr.
    rewrite rb_find_spec by (done || lia). by exists b.
  - destruct Hop as [Hs [Hne Hsr]]. simpl in Hsr. rewrite Hl in Hsr.
    destruct (rb_readuntil_spec (Z.to_nat (blen b + 2)) p b s) as [-> Hk]; [done..|lia|].
    destruct (first_index s (content b)) as [k|]; [|by exists b]. specialize (Hk k eq_refl).
    destruct (consume_spec b (k + zlen s)) as (? & Hc & _); [done|lia|].
    eexists; (split; [done|]). unfold rb_rep; simpl. rewrite Hc. split_and!; [done|by apply Forall_drop|done].
  - destruct Hop. rewrite (rb_sub_spec _ _ p i j) by (done || by apply checkinteger_int || by apply optinteger_int).
    by exists b.
  - destruct Hop. rewrite (rb_byte_spec _ _ p i j) by (done || by apply optinteger_int).
    rewrite uchar_values by by apply slice_bytes_ok. by exists b.
  - exists b. unfold rb_length. rewrite ring_checkudata_self. simpl.
    by rewrite long_small by range.
  - exists b. unfold rb_size. rewrite ring_checkudata_self. simpl.
    by rewrite long_small by range.
  - exists b. unfold rb_free. rewrite ring_checkudata_self. simpl.
    by rewrite long_small by range.
Qed.

End contract.

(** The C ring buffer implements the contract, whatever the Lua coercions. *)
Definition ring_fifo `{LuaAux} (p : Z) : ByteFifo ringbuffer := {|
  fifo_run := rb_exec p;
  fifo_rep := rb_rep;
  fifo_run_refines op b f := rb_rep_op b p op f;
|}.


(** ** Searches that the loop bound of [find] gets wrong *)

Section search_bugs.
Implicit Types (b : ringbuffer).

Lemma find_full fuel b s l : rb_inv b -> blen b = alen b -> find fuel b s l = Done 0.
Proof.
  intros [] Hfull. unfold find. rewrite inv_wpos0, Hfull.
  rewrite mod_wrap by lia. zcase. done.
Qed.

(** With a pattern one byte longer than the content, [blen - l] is the largest
    [size_t]: the loop test always holds. *)
Lemma find_loop_diverges fuel b c s i :
  zlen (c :: s) = blen b + 1 -> 0 < alen b -> zlen (buffer b) = alen b ->
  ~ (c ∈ buffer b) -> 0 <= i <= size_max ->
  find_loop fuel b (c :: s) (zlen (c :: s)) i = Undef NoTermination.
Proof.
  intros Hl Ha Hbuf Hc. revert i. induction fuel as [|fuel IH]; intros i Hi; [done|].
  cbn [find_loop]. rewrite Hl at 1. replace (blen b - (blen b + 1)) with (-1) by lia.
  change (size_t (-1)) with size_max. zcase.
  unfold ring_get. rewrite (mem_get_lookup_total (buffer b))
    by (rewrite Hbuf; by apply Z.mod_pos_bound).
  change (mem_get (c_str (c :: s)) 0) with (Done c). simpl mbind. unfold mbind, outcome_bind.
  destruct (Z.eqb_spec (buffer b !!! Z.to_nat (size_t (rpos b + i) mod alen b)) c) as [E|_].
  - destruct Hc. rewrite <- E. apply list_elem_of_lookup_total_2. unfold zlen in Hbuf.
    pose proof (Z.mod_pos_bound (size_t (rpos b + i)) (alen b) Ha). lia.
  - apply IH. apply size_range.
Qed.

End search_bugs.

(** * Properties *)

Section properties.
Context `{LuaAux}.
Implicit Types (b : ringbuffer) (p : Z).

Lemma rb_new_spec pagesize mem L size :
  is_integer pagesize -> (forall n, 0 < n -> zlen (mem n) = n) ->
  luaL_optinteger L 1 pagesize = Done size -> 0 < size ->
  exists b, rb_new pagesize mem L = Done b /\ rb_rep b (Fifo size []).
Proof.
  intros Hpg Hmem Es Hs. pose proof (optinteger_range _ _ _ _ Hpg Es) as Hi.
  unfold rb_new. rewrite Es. simpl. rewrite Z.gtb_ltb. zcase. simpl.
  eexists. split; [done|]. split_and!; [|apply Forall_nil_2|done].
  split; simpl; [range|by apply Hmem|lia..|]. by rewrite Z.mod_0_l by lia.
Qed.

(** C1. Refinement: on a new buffer, any sequence of calls of the ten methods returns, call
    by call, what the bounded-queue contract [fifo_step] returns, and ends in a state that
    represents the contract's state; in particular no call accesses memory out of bounds
    and every one returns.  The arguments are of the right types ([op_ok]), and the
    patterns of [find] and [readuntil] are not empty and, unless nothing is queued, no
    longer than what is queued then, in a buffer that is not full and of at most INT_MAX
    bytes; on other patterns and on full buffers they do not implement the contract
    ([ring_find_diverges], [ring_find_full], [ring_find_stale]). *)
Theorem ring_refines_fifo pagesize mem size p ops :
  is_integer pagesize -> (forall n, 0 < n -> zlen (mem n) = n) ->
  is_integer size -> 0 < size -> ops_ok (Fifo size []) ops ->
  exists b b',
    rb_new pagesize mem [VInt size] = Done b
    /\ @fifo_run_all _ (ring_fifo p) ops b = Done (b', (fifo_steps ops (Fifo size [])).2)
    /\ rb_rep b' (fifo_steps ops (Fifo size [])).1.
Proof.
  intros Hpg Hmem Hsz Hs Hops.
  destruct (rb_new_spec pagesize mem [VInt size] size) as (b & Hb & Hrep);
    [done..|by apply optinteger_int|done|].
  destruct (@fifo_run_all_refines _ (ring_fifo p) ops b _ Hops Hrep) as (b' & Hrun & Hrep').
  by exists b, b'.
Qed.

(** C20. Conservation: over any calls that C1 covers except discards, the bytes taken out
    by [read] and [readuntil] followed by the bytes still queued are the bytes queued at
    first followed by the accepted writes, and the queue never exceeds its size. *)
Theorem ring_conserves p ops b :
  rb_inv b -> bytes_ok (content b) -> ops_ok (Fifo (alen b) (content b)) ops -> Forall not_discard ops ->
  exists b' rs,
    @fifo_run_all _ (ring_fifo p) ops b = Done (b', rs)
    /\ trace_out ops rs ++ content b' = content b ++ trace_in ops rs
    /\ alen b' = alen b /\ zlen (content b') <= alen b'.
Proof.
  intros Hb Hok Hops Hnd.
  assert (rb_rep b (Fifo (alen b) (content b))) as Hrep by done.
  destruct (@fifo_run_all_refines _ (ring_fifo p) ops b _ Hops Hrep)
    as (b' & Hrun & Hb' & _ & Hf').
  eexists b', _. split; [exact Hrun|].
  pose proof (fifo_steps_conserve ops (Fifo (alen b) (content b)) Hnd) as Hcons.
  destruct (fifo_steps_bounded ops (Fifo (alen b) (content b))) as [? Hcap].
  { simpl. rewrite zlen_content by done. destruct Hb. lia. }
  rewrite Hf' in Hcons, Hcap. simpl in *. split_and!; [done..|].
  rewrite zlen_content by done. destruct Hb'. lia.
Qed.

(** C17. [buffer:sub(i, j)] is [string.sub] of the content for all 64-bit positions,
    the omitted end included, and [buffer:byte] returns the bytes of that string. *)
Theorem ring_sub_is_string_sub p b i j :
  rb_inv b -> bytes_ok (content b) -> is_integer i -> is_integer j ->
  rb_sub [self p; VInt i; VInt j] b = Done (b, [VStr (lua_string_sub (content b) i j)])
  /\ rb_sub [self p; VInt i] b = Done (b, [VStr (lua_string_sub (content b) i (-1))])
  /\ rb_byte [self p; VInt i; VInt j] b = Done (b, VInt <$> lua_string_sub (content b) i j)
  /\ rb_byte [self p; VInt i] b = Done (b, VInt <$> lua_string_sub (content b) i i).
Proof.
  intros Hb Hok Hi Hj.
  rewrite (rb_sub_spec _ _ p i j) by (done || by apply checkinteger_int || by apply optinteger_int).
  rewrite (rb_sub_spec _ _ p i (-1)) by (done || by apply checkinteger_int).
  rewrite (rb_byte_spec _ _ p i j) by (done || by apply optinteger_int).
  rewrite (rb_byte_spec _ _ p i i) by (done || by apply optinteger_int).
  by rewrite !uchar_values by by apply slice_bytes_ok.
Qed.


(** [buffer:readuntil(s)] under the same conditions takes out of the buffer, and
    returns, exactly the content up to the end of the first occurrence of [s]; without
    an occurrence it returns nothing and leaves the buffer unchanged. *)
Theorem ring_readuntil fuel p b s :
  rb_inv b -> alen b <= int_max -> lua_string s -> s <> [] -> zlen s <= blen b < alen b ->
  blen b + 1 < Z.of_nat fuel ->
  (rb_readuntil fuel [self p; VStr s] b = Done (b, []) /\ no_occurrence (content b) s)
  \/ exists b' pre post,
       rb_readuntil fuel [self p; VStr s] b = Done (b', [VStr (pre ++ s)])
       /\ content b = pre ++ s ++ post /\ rb_inv b' /\ content b' = post
       /\ first_occurrence (content b) s (zlen pre).
Proof.
  intros Hb Hmax Hok Hs Hl Hf. pose proof (zlen_content b Hb) as Hc.
  destruct (rb_readuntil_spec fuel p b s) as [-> Hk]; [done..|by right|done|].
  pose proof (first_index_spec s (content b)) as Hi.
  destruct (first_index s (content b)) as [k|]; [right|by left]. specialize (Hk k eq_refl). destruct Hi as (? & Hocc & ?).
  destruct (consume_spec b (k + zlen s)) as (? & Hd & _); [done|lia|].
  exists (consume b (k + zlen s)), (slice (content b) 0 k), (drop (Z.to_nat (k + zlen s)) (content b)).
  assert (slice (content b) 0 k ++ s = take (Z.to_nat (k + zlen s)) (content b)) as Hpre.
  { rewrite <- Hocc at 1. change (slice (content b) k) with (slice (content b) (0 + k)).
    rewrite slice_app by (lia || apply zlen_nonneg). unfold slice. by rewrite drop_0. }
  pose proof (zlen_nonneg s). rewrite Hpre, app_assoc, Hpre, take_drop, zlen_slice by lia. done.
Qed.


(** A search for a pattern one byte longer than the content whose first byte is not
    in the allocation never terminates: [blen - l] wraps around to the largest
    [size_t], so the bound of the outer loop of [find] always holds. *)
Theorem ring_find_diverges fuel p b c s :
  rb_inv b -> 0 < blen b < alen b -> lua_string (c :: s) -> zlen (c :: s) = blen b + 1 ->
  ~ (c ∈ buffer b) ->
  rb_find fuel [self p; VStr (c :: s)] b = Undef NoTermination
  /\ rb_readuntil fuel [self p; VStr (c :: s)] b = Undef NoTermination.
Proof.
  intros Hb Hl Hok Hlen Hc. unfold rb_find, rb_readuntil. rewrite ring_checkudata_self. simpl.
  rewrite (checklstring_str _ _ (c :: s)) by done. simpl. pose proof Hb as [].
  assert (find fuel b (c :: s) (zlen (c :: s)) = Undef NoTermination) as ->; [|done].
  unfold find. replace (rpos b =? wpos b) with false.
  { apply find_loop_diverges; [done|lia|done|done|range]. }
  symmetry. apply Z.eqb_neq. rewrite inv_wpos0, mod_wrap by lia. zcase.
Qed.

(** In a full buffer ([rpos = wpos], taken for empty) [find] and [readuntil] never
    find anything, whatever the pattern and the content. *)
Theorem ring_find_full fuel p b s :
  rb_inv b -> blen b = alen b -> lua_string s ->
  rb_find fuel [self p; VStr s] b = Done (b, [])
  /\ rb_readuntil fuel [self p; VStr s] b = Done (b, []).
Proof.
  intros Hb Hfull Hok. unfold rb_find, rb_readuntil. rewrite ring_checkudata_self. simpl.
  rewrite (checklstring_str _ _ s) by done. simpl. by rewrite find_full.
Qed.

End properties.

(** ** Witnesses *)

Definition zero_memory (n : Z) : bytes := replicate (Z.to_nat n) 0.

Lemma zlen_zero_memory n : 0 < n -> zlen (zero_memory n) = n.
Proof. intros. unfold zlen, zero_memory. rewrite length_replicate. lia. Qed.

(** A buffer of 6 bytes holding "bcda", wrapped around its end. *)
Definition ring_demo : ringbuffer := RB 4 2 6 4 [100; 97; 0; 0; 98; 99].

Lemma ring_demo_inv : rb_inv ring_demo.
Proof. split; simpl; [range|done|lia|lia|done]. Qed.

Definition demo_ops : list fifo_op :=
  [OpWrite [104; 105; 33]; OpFind [105; 33]; OpReadUntil [105]; OpReadUntil [7]; OpWrite [1; 2; 3];
   OpSub (-3) (-2); OpByte 1 9; OpFree].

Lemma demo_ops_ok : ops_ok (Fifo 4 []) demo_ops.
Proof. by_decision. Qed.

Lemma ring_refines_fifo_witness :
  exists b b',
    @rb_new lua_strict 4096 zero_memory [VInt 4] = Done b
    /\ @fifo_run_all _ (@ring_fifo lua_strict 1) demo_ops b
       = Done (b', [[VInt 3]; [VInt 3]; [VStr [104; 105]]; []; [VInt 3]; [VStr [1; 2]];
                    [VInt 33; VInt 1; VInt 2; VInt 3]; [VInt 0]])
    /\ rb_rep b' (Fifo 4 [33; 1; 2; 3]).
Proof.
  apply (@ring_refines_fifo lua_strict 4096 zero_memory 4 1 demo_ops).
  - range.
  - apply zlen_zero_memory.
  - range.
  - lia.
  - apply demo_ops_ok.
Defined.

Definition conserving_ops : list fifo_op := [OpReadUntil [99; 100]; OpWrite [7; 8]; OpRead 1 false].

Lemma ring_conserves_witness :
  exists b' rs,
    @fifo_run_all _ (@ring_fifo lua_strict 1) conserving_ops ring_demo = Done (b', rs)
    /\ trace_out conserving_ops rs ++ content b' = content ring_demo ++ trace_in conserving_ops rs
    /\ alen b' = 6 /\ zlen (content b') <= alen b'.
Proof.
  apply (@ring_conserves lua_strict).
  - apply ring_demo_inv.
  - by_decision.
  - by_decision.
  - repeat apply Forall_cons_2; try apply Forall_nil_2; exact I.
Defined.

Lemma ring_sub_is_string_sub_witness :
  @rb_sub lua_strict [self 1; VInt 2; VInt (-1)] ring_demo = Done (ring_demo, [VStr [99; 100; 97]])
  /\ @rb_sub lua_strict [self 1; VInt 2] ring_demo = Done (ring_demo, [VStr [99; 100; 97]])
  /\ @rb_byte lua_strict [self 1; VInt 2; VInt (-1)] ring_demo
     = Done (ring_demo, [VInt 99; VInt 100; VInt 97])
  /\ @rb_byte lua_strict [self 1; VInt 2] ring_demo = Done (ring_demo, [VInt 99]).
Proof.
  apply (@ring_sub_is_string_sub lua_strict 1 ring_demo 2 (-1)).
  - apply ring_demo_inv.
  - by_decision.
  - range.
  - range.
Defined.


Lemma ring_readuntil_witness :
  (@rb_readuntil lua_strict 6 [self 1; VStr [99; 100]] ring_demo = Done (ring_demo, [])
   /\ no_occurrence (content ring_demo) [99; 100])
  \/ exists b' pre post,
       @rb_readuntil lua_strict 6 [self 1; VStr [99; 100]] ring_demo
         = Done (b', [VStr (pre ++ [99; 100])])
       /\ content ring_demo = pre ++ [99; 100] ++ post /\ rb_inv b' /\ content b' = post
       /\ first_occurrence (content ring_demo) [99; 100] (zlen pre).
Proof.
  apply (@ring_readuntil lua_strict 6 1 ring_demo [99; 100]).
  - apply ring_demo_inv.
  - by vm_compute.
  - by_decision.
  - done.
  - done.
  - done.
Defined.


Lemma ring_find_diverges_witness :
  @rb_find lua_strict 1000 [self 1; VStr [120; 13; 10; 13; 10]] ring_demo = Undef NoTermination
  /\ @rb_readuntil lua_strict 1000 [self 1; VStr [120; 13; 10; 13; 10]] ring_demo
     = Undef NoTermination.
Proof.
  apply (@ring_find_diverges lua_strict 1000 1 ring_demo 120 [13; 10; 13; 10]).
  - apply ring_demo_inv.
  - done.
  - by_decision.
  - done.
  - apply (bool_decide_unpack _). vm_compute. exact I.
Defined.

Definition ring_full : ringbuffer := RB 1 1 3 3 [99; 97; 98].

Lemma ring_find_full_witness :
  @rb_find lua_strict 10 [self 1; VStr [97; 98; 99]] ring_full = Done (ring_full, [])
  /\ @rb_readuntil lua_strict 10 [self 1; VStr [97; 98; 99]] ring_full = Done (ring_full, []).
Proof.
  apply (@ring_find_full lua_strict 10 1 ring_full [97; 98; 99]).
  - split; simpl; [range|done|lia|lia|done].
  - done.
  - by_decision.
Defined.

(** A pattern longer than the content is compared with bytes already consumed: after
    writing "abcd" to a new buffer of four bytes and reading three, the content is "d",
    but [find "da"] reports a match ending at position 2. *)
Theorem ring_find_stale :
  exists b, @fifo_run_all _ (@ring_fifo lua_strict 1)
              [OpWrite [97; 98; 99; 100]; OpRead 3 false] (RB 0 0 4 0 (zero_memory 4))
            = Done (b, [[VInt 4]; [VStr [97; 98; 99]]])
         /\ rb_inv b /\ content b = [100]
         /\ @rb_find lua_strict 1 [self 1; VStr [100; 97]] b = Done (b, [VInt 2]).
Proof.
  exists (RB 3 0 4 1 [97; 98; 99; 100]).
  split; [by vm_compute|]. split; [split; simpl; [range|done|lia|lia|done]|].
  split; by vm_compute.
Qed.

(** The text of a ring buffer gives its length and its size, up to the largest [int]; a
    buffer of 2^32 bytes is printed with the size 0. *)
Lemma ring_tostring `{LuaAux} percent_p p b :
  rb_inv b -> alen b <= int_max ->
  rb_tostring percent_p [self p] b =
    Done (b, [literal ("ringbuffer: " +:+ percent_p p +:+ " " +:+ pretty (blen b) +:+ "/" +:+ pretty (alen b))]).
Proof.
  intros [Ha _ _ Hb _] Hi. unfold rb_tostring. change (luaL_checkudata [self p] 1 ringbuffer_mt) with (Done p).
  cbn [mbind outcome_bind]. by rewrite !int_small by range.
Qed.

Lemma ring_tostring_large `{LuaAux} percent_p p w mem :
  rb_tostring percent_p [self p] (RB 0 w (2 ^ 32) 0 mem) =
    Done (RB 0 w (2 ^ 32) 0 mem, [literal ("ringbuffer: " +:+ percent_p p +:+ " 0/0")]).
Proof. unfold rb_tostring. by change (luaL_checkudata [self p] 1 ringbuffer_mt) with (Done p). Qed.
