(* ===== verification/StrBitOp.v ===== *)
(** * util-src/strbitop.c

    Bytewise boolean operations between a string and a repeated key, and the length of
    the common bit prefix of two strings.  The theorems give both, byte by byte and bit by
    bit. *)

From stdpp Require Import base tactics numbers list strings.
From Stdlib Require Import ZArith Lia.
From S2P Require Import Prelude LuaApi.

Local Open Scope Z_scope.

Section handlers.
Context `{LuaAux}.
Implicit Types (L : list value).

(** [for(i = 0; i < a; i++) luaL_addchar(&buf, str_a[i] OP str_b[i % b]);]
    from index [i], [sa] being the rest of [str_a]. *)
Fixpoint strop_loop (op : Z -> Z -> Z) (str_b : bytes) (b i : Z) (sa : bytes) : outcome bytes :=
  match sa with
  | [] => Done []
  | c :: sa' =>
      d ← mem_get (c_str str_b) (i mod b);
      buf ← strop_loop op str_b b (size_t (i + 1)) sa';
      Done (uchar (op c d) :: buf)
  end.

(** The three functions share their text but for the operator. *)
Definition strop (op : Z -> Z -> Z) L : outcome (list value) :=
  str_a ← luaL_checklstring L 1;
  str_b ← luaL_checklstring L 2;
  let a := zlen str_a in
  let b := zlen str_b in
  if (a =? 0) || (b =? 0) then Done [VStr str_a]   (* lua_settop(L, 1) *)
  else
    buf ← strop_loop op str_b b 0 str_a;
    Done [VStr buf].

Definition strop_and := strop Z.land.
Definition strop_or := strop Z.lor.
Definition strop_xor := strop Z.lxor.

(** [clz] in its two variants: [__builtin_clz], undefined at 0, and the portable one. *)
Definition clz (gnuc : bool) (c : Z) : outcome Z :=
  if gnuc then
    if c =? 0 then Undef BadShift
    else Done ((31 - Z.log2 c) - (4 - 1) * 8)
  else
    if negb (Z.land c 0x80 =? 0) then Done 0
    else if negb (Z.land c 0x40 =? 0) then Done 1
    else if negb (Z.land c 0x20 =? 0) then Done 2
    else if negb (Z.land c 0x10 =? 0) then Done 3
    else if negb (Z.land c 0x08 =? 0) then Done 4
    else if negb (Z.land c 0x04 =? 0) then Done 5
    else if negb (Z.land c 0x02 =? 0) then Done 6
    else if negb (Z.land c 0x01 =? 0) then Done 7
    else Done 8.

(** The loop of [strop_common_prefix_bits] from index [i], on the rests of the strings;
    it stops at the end of the shorter one. *)
Fixpoint common_prefix_loop (gnuc : bool) (i : Z) (sa sb : bytes) : outcome Z :=
  match sa, sb with
  | c :: sa', d :: sb' =>
      if c =? d then common_prefix_loop gnuc (size_t (i + 1)) sa' sb'
      else n ← clz gnuc (uchar (Z.lxor c d)); Done (size_t (i * 8 + n))
  | _, _ => Done (size_t (i * 8))
  end.

Definition strop_common_prefix_bits (gnuc : bool) L : outcome (list value) :=
  str_a ← luaL_checklstring L 1;
  str_b ← luaL_checklstring L 2;
  n ← common_prefix_loop gnuc 0 str_a str_b;
  Done [VInt (long n)].

(** The functions that [luaopen] exports. *)
Definition strbitop_exports (gnuc : bool) : list (string * (list value -> outcome (list value))) :=
  [("sand", strop_and); ("sor", strop_or); ("sxor", strop_xor);
   ("common_prefix_bits", strop_common_prefix_bits gnuc)].

End handlers.

(** ** Specifications *)

(** The key repeated to the positions of the string. *)
Definition key_at (k : bytes) (i : nat) : Z := k !!! (i mod length k)%nat.

Definition with_key (op : Z -> Z -> Z) (s k : bytes) : bytes :=
  imap (fun i c => op c (key_at k i)) s.

Fixpoint common_prefix {A} `{EqDecision A} (l k : list A) : list A :=
  match l, k with
  | x :: l', y :: k' => if decide (x = y) then x :: common_prefix l' k' else []
  | _, _ => []
  end.

(** ** Lemmas *)

Lemma byte_op (op : Z -> Z -> Z) (f : bool -> bool -> bool) c d :
  (forall x y i, Z.testbit (op x y) i = f (Z.testbit x i) (Z.testbit y i)) ->
  f false false = false -> (0 <= c -> 0 <= d -> 0 <= op c d) ->
  is_byte c -> is_byte d -> is_byte (op c d).
Proof.
  intros Hop Hf Hpos [Hc Hc'] [Hd Hd']. split; [by apply Hpos|].
  destruct (Z.leb_spec (op c d) 0); [lia|].
  change 256 with (2 ^ 8). apply Z.log2_lt_pow2; [done|].
  destruct (Z.ltb_spec (Z.log2 (op c d)) 8) as [|Hge]; [done|].
  assert (Z.testbit (op c d) (Z.log2 (op c d)) = true) as E by by apply Z.bit_log2.
  assert (forall x, 0 <= x < 256 -> Z.testbit x (Z.log2 (op c d)) = false) as Hhigh.
  { intros x Hx. destruct (Z.eqb_spec x 0) as [->|]; [apply Z.testbit_0_l|].
    apply Z.bits_above_log2; [lia|].
    apply Z.lt_le_trans with 8; [|done]. apply Z.log2_lt_pow2; lia. }
  rewrite Hop, !Hhigh, Hf in E by done. done.
Qed.

Lemma land_byte c d : is_byte c -> is_byte d -> is_byte (Z.land c d).
Proof.
  apply (byte_op _ andb); [intros; apply Z.land_spec|done|].
  intros. apply Z.land_nonneg. by left.
Qed.
Lemma lor_byte c d : is_byte c -> is_byte d -> is_byte (Z.lor c d).
Proof.
  apply (byte_op _ orb); [intros; apply Z.lor_spec|done|]. intros. by apply Z.lor_nonneg.
Qed.
Lemma lxor_byte c d : is_byte c -> is_byte d -> is_byte (Z.lxor c d).
Proof.
  apply (byte_op _ xorb); [intros; apply Z.lxor_spec|done|]. intros. by apply Z.lxor_nonneg.
Qed.

Lemma key_at_byte k i : k <> [] -> bytes_ok k -> is_byte (key_at k i).
Proof.
  intros Hk Hok. unfold key_at. eapply Forall_lookup_1; [exact Hok|].
  apply list_lookup_lookup_total_lt. apply Nat.mod_upper_bound. by destruct k.
Qed.

Lemma strop_loop_spec op k i s :
  k <> [] -> bytes_ok k -> bytes_ok s ->
  (forall c d, is_byte c -> is_byte d -> is_byte (op c d)) ->
  Z.of_nat i + zlen s <= long_max ->
  strop_loop op k (zlen k) (Z.of_nat i) s = Done (imap (fun j c => op c (key_at k (i + j))) s).
Proof.
  intros Hk Hok Hs Hop. revert i. induction s as [|c s IH]; intros i Hl; [done|].
  apply Forall_cons in Hs as [Hc Hs]. rewrite zlen_cons in Hl. pose proof (zlen_nonneg s).
  cbn [strop_loop].
  replace (Z.of_nat i mod zlen k) with (Z.of_nat (i mod length k)) by apply Nat2Z.inj_mod.
  assert (length k <> 0%nat) by by destruct k.
  pose proof (Nat.mod_upper_bound i (length k)).
  rewrite (mem_get_done _ _ (key_at k i)).
  2: lia.
  2: { rewrite Nat2Z.id. unfold c_str. rewrite lookup_app_l by lia.
       apply list_lookup_lookup_total_lt. lia. }
  simpl. rewrite size_small by range.
  replace (Z.of_nat i + 1) with (Z.of_nat (S i)) by lia.
  rewrite IH by (done || lia). simpl. f_equal. f_equal.
  - rewrite Nat.add_0_r. apply uchar_byte. apply Hop; [done|by apply key_at_byte].
  - apply imap_ext. intros j d _. unfold compose. do 2 f_equal. lia.
Qed.

Section lemmas.
Context `{LuaAux}.

Lemma strop_spec op s k :
  lua_string s -> lua_string k ->
  (forall c d, is_byte c -> is_byte d -> is_byte (op c d)) ->
  strop op [VStr s; VStr k] = Done [VStr (if decide (k = []) then s else with_key op s k)].
Proof.
  intros Hs Hk Hop. unfold strop.
  rewrite (checklstring_str _ 1 s) by done. simpl.
  rewrite (checklstring_str _ 2 k) by done. simpl.
  destruct (decide (k = [])) as [->|Hne]; [by rewrite orb_true_r|].
  destruct (decide (s = [])) as [->|Hne']; [done|].
  replace ((zlen s =? 0) || (zlen k =? 0)) with false by by destruct s, k.
  destruct Hs as [Hs Hl], Hk as [Hk _].
  pose proof (strop_loop_spec op k 0 s) as E. change (Z.of_nat 0) with 0 in E. by rewrite E by done.
Qed.

End lemmas.

Lemma with_key_bytes op s k :
  k <> [] -> bytes_ok s -> bytes_ok k ->
  (forall c d, is_byte c -> is_byte d -> is_byte (op c d)) -> bytes_ok (with_key op s k).
Proof.
  intros Hk Hs Hok Hop. apply Forall_lookup_2. intros i c. unfold with_key.
  rewrite list_lookup_imap. destruct (s !! i) as [d|] eqn:E; [|done]. intros [= <-].
  apply Hop; [by apply (Forall_lookup_1 _ _ _ _ Hs E)|by apply key_at_byte].
Qed.

Lemma zlen_with_key op s k : zlen (with_key op s k) = zlen s.
Proof. unfold zlen, with_key. by rewrite length_imap. Qed.

(** *** Bit prefixes *)

Lemma common_prefix_app_same {A} `{EqDecision A} (p l k : list A) :
  common_prefix (p ++ l) (p ++ k) = p ++ common_prefix l k.
Proof. induction p as [|x p IH]; simpl; [done|]. rewrite decide_True by done. by f_equal. Qed.

Lemma common_prefix_app_diff {A} `{EqDecision A} (p q l k : list A) :
  length p = length q -> p <> q -> common_prefix (p ++ l) (q ++ k) = common_prefix p q.
Proof.
  revert q. induction p as [|x p IH]; intros [|y q]; simpl; try done.
  intros [= Hl] Hne. case_decide as E; [|done]. subst. f_equal. apply IH; [done|]. congruence.
Qed.

Lemma common_prefix_comm {A} `{EqDecision A} (l k : list A) :
  common_prefix l k = common_prefix k l.
Proof.
  revert k. induction l as [|x l IH]; intros [|y k]; simpl; try done.
  repeat case_decide; congruence.
Qed.

Lemma common_prefix_length {A} `{EqDecision A} (l k : list A) :
  zlen (common_prefix l k) <= zlen l.
Proof.
  unfold zlen. revert k. induction l as [|x l IH]; intros [|y k]; simpl; try lia.
  case_decide; simpl; [|lia]. specialize (IH k). lia.
Qed.

(** The two variants of [clz] count the common leading bits, for all 65280 pairs. *)
Definition clz_correct_at (gnuc : bool) (c d : Z) : bool :=
  bool_decide (c = d)
  || bool_decide (clz gnuc (uchar (Z.lxor c d))
                  = Done (zlen (common_prefix (byte_bits c) (byte_bits d)))).

Lemma clz_correct_all :
  forallb (fun g => forallb (fun c => forallb (clz_correct_at g c) (seqZ 0 256)) (seqZ 0 256))
    [true; false] = true.
Proof. vm_compute. reflexivity. Qed.


Lemma clz_correct g c d :
  is_byte c -> is_byte d -> c <> d ->
  clz g (uchar (Z.lxor c d)) = Done (zlen (common_prefix (byte_bits c) (byte_bits d))).
Proof.
  intros Hc Hd Hne. pose proof clz_correct_all as Hall.
  rewrite forallb_forall in Hall. specialize (Hall g).
  rewrite forallb_forall in Hall. specialize (Hall ltac:(destruct g; simpl; tauto) c).
  rewrite forallb_forall in Hall.
  specialize (Hall ltac:(apply list_elem_of_In, elem_of_seqZ; unfold is_byte in *; lia) d
    ltac:(apply list_elem_of_In, elem_of_seqZ; unfold is_byte in *; lia)).
  unfold clz_correct_at in Hall. apply orb_true_iff in Hall as [E|E].
  - by apply bool_decide_eq_true in E.
  - by apply bool_decide_eq_true in E.
Qed.

Lemma byte_bits_inj c d : is_byte c -> is_byte d -> byte_bits c = byte_bits d -> c = d.
Proof.
  intros Hc Hd E. destruct (decide (c = d)) as [|Hne]; [done|exfalso].
  (* equal bits: the prefix is the whole byte, but [clz] of a non-zero byte is below 8 *)
  pose proof (clz_correct true c d Hc Hd Hne) as Hclz. rewrite E in Hclz.
  assert (common_prefix (byte_bits d) (byte_bits d) = byte_bits d) as Heq.
  { pose proof (common_prefix_app_same (byte_bits d) [] []) as P.
    by rewrite !app_nil_r in P. }
  rewrite Heq in Hclz. unfold clz in Hclz.
  pose proof (lxor_byte c d Hc Hd). rewrite uchar_byte in Hclz by done.
  destruct (Z.eqb_spec (Z.lxor c d) 0) as [E0|]; [done|].
  injection Hclz as Hclz. change (zlen (byte_bits d)) with 8 in Hclz.
  pose proof (Z.log2_nonneg (Z.lxor c d)). lia.
Qed.

Lemma common_prefix_loop_spec g i sa sb :
  bytes_ok sa -> bytes_ok sb -> 0 <= i -> (i + zlen sa) * 8 <= long_max ->
  common_prefix_loop g i sa sb
  = Done (i * 8 + zlen (common_prefix (string_bits sa) (string_bits sb))).
Proof.
  intros Ha. revert i sb. induction sa as [|c sa IH]; intros i sb Hb Hi Hl.
  { simpl. rewrite size_small by (unfold zlen in Hl; simpl in Hl; range). f_equal. unfold zlen. simpl. lia. }
  rewrite zlen_cons in Hl. pose proof (zlen_nonneg sa). apply Forall_cons in Ha as [Hc Ha].
  destruct sb as [|d sb].
  { simpl. rewrite size_small by range.
    f_equal. unfold zlen. simpl. lia. }
  apply Forall_cons in Hb as [Hd Hb]. cbn [common_prefix_loop].
  change (string_bits (c :: sa)) with (byte_bits c ++ string_bits sa).
  change (string_bits (d :: sb)) with (byte_bits d ++ string_bits sb).
  destruct (Z.eqb_spec c d) as [->|Hne].
  - rewrite size_small by range. rewrite IH by (done || lia).
    rewrite common_prefix_app_same, zlen_app. change (zlen (byte_bits d)) with 8. f_equal. lia.
  - rewrite clz_correct by done. unfold mbind, outcome_bind.
    rewrite common_prefix_app_diff; [|done|by intros E; apply byte_bits_inj in E].
    assert (0 <= zlen (common_prefix (byte_bits c) (byte_bits d)) <= 8) as Hp.
    { split; [apply zlen_nonneg|]. unfold byte_bits; simpl.
      repeat case_decide; unfold zlen; simpl; lia. }
    rewrite size_small by range. done.
Qed.

Section properties.
Context `{LuaAux}.

(** [sand], [sor] and [sxor] combine each byte of the first string with the byte of the
    key at its position modulo the key's length, for all strings; an empty key (or an
    empty string) leaves the first string unchanged. *)
Theorem strop_bytewise s k :
  lua_string s -> lua_string k ->
  strop_and [VStr s; VStr k] = Done [VStr (if decide (k = []) then s else with_key Z.land s k)]
  /\ strop_or [VStr s; VStr k] = Done [VStr (if decide (k = []) then s else with_key Z.lor s k)]
  /\ strop_xor [VStr s; VStr k] = Done [VStr (if decide (k = []) then s else with_key Z.lxor s k)].
Proof.
  intros Hs Hk. unfold strop_and, strop_or, strop_xor.
  rewrite !strop_spec; auto using land_byte, lor_byte, lxor_byte.
Qed.

(** Applying [sxor] twice with the same key gives the string back. *)
Theorem strop_xor_involutive s k :
  lua_string s -> lua_string k ->
  exists e, strop_xor [VStr s; VStr k] = Done [VStr e]
         /\ strop_xor [VStr e; VStr k] = Done [VStr s].
Proof.
  intros Hs Hk. unfold strop_xor. rewrite strop_spec by (done || apply lxor_byte).
  eexists. split; [done|]. case_decide as Hne.
  { subst. by rewrite strop_spec by (done || apply lxor_byte). }
  rewrite strop_spec; [|split|done|apply lxor_byte].
  - rewrite decide_False by done. do 3 f_equal. unfold with_key.
    apply list_eq. intros i. rewrite !list_lookup_imap. destruct (s !! i) as [c|]; [|done]. simpl.
    by rewrite Z.lxor_assoc, Z.lxor_nilpotent, Z.lxor_0_r.
  - apply with_key_bytes; [done|by destruct Hs|by destruct Hk|apply lxor_byte].
  - rewrite zlen_with_key. by destruct Hs.
Qed.

(** [common_prefix_bits] is the number of leading bits on which the two strings agree,
    most significant bit first, with either variant of [clz] (never called on 0), and does
    not depend on the order of its arguments. *)
Theorem common_prefix_bits_correct g a b :
  lua_string a -> lua_string b -> zlen a * 8 <= long_max -> zlen b * 8 <= long_max ->
  strop_common_prefix_bits g [VStr a; VStr b]
    = Done [VInt (zlen (common_prefix (string_bits a) (string_bits b)))]
  /\ strop_common_prefix_bits g [VStr b; VStr a]
     = strop_common_prefix_bits g [VStr a; VStr b].
Proof.
  intros [Ha La] [Hb Lb] Ha8 Hb8. unfold strop_common_prefix_bits.
  rewrite (checklstring_str _ 1 a), (checklstring_str _ 2 b),
    (checklstring_str _ 1 b), (checklstring_str _ 2 a) by done.
  unfold mbind, outcome_bind.
  rewrite !common_prefix_loop_spec by (done || lia).
  rewrite (common_prefix_comm (string_bits b)), Z.add_0_l. rewrite long_small; [done|].
  pose proof (common_prefix_length (string_bits a) (string_bits b)).
  pose proof (zlen_string_bits a). pose proof (zlen_nonneg (common_prefix (string_bits a) (string_bits b))).
  range.
Qed.

End properties.

(** ** Witnesses *)

Lemma strop_bytewise_witness :
  @strop_and lua_strict [VStr [97; 97; 97]; VStr [65; 97]] = Done [VStr [65; 97; 65]]
  /\ @strop_or lua_strict [VStr [97; 97; 97]; VStr [65; 97]] = Done [VStr [97; 97; 97]]
  /\ @strop_xor lua_strict [VStr [97; 97; 97]; VStr [65; 97]] = Done [VStr [32; 0; 32]].
Proof. apply (@strop_bytewise lua_strict [97; 97; 97] [65; 97]); by_decision. Defined.

Lemma strop_xor_involutive_witness :
  exists e, @strop_xor lua_strict [VStr [1; 255; 7]; VStr [170; 3]] = Done [VStr e]
         /\ @strop_xor lua_strict [VStr e; VStr [170; 3]] = Done [VStr [1; 255; 7]].
Proof. apply (@strop_xor_involutive lua_strict); by_decision. Defined.

Lemma common_prefix_bits_correct_witness :
  @strop_common_prefix_bits lua_strict true [VStr [255; 96]; VStr [255; 64; 9]] = Done [VInt 10]
  /\ @strop_common_prefix_bits lua_strict true [VStr [255; 64; 9]; VStr [255; 96]]
     = @strop_common_prefix_bits lua_strict true [VStr [255; 96]; VStr [255; 64; 9]].
Proof.
  apply (@common_prefix_bits_correct lua_strict true [255; 96] [255; 64; 9]); by_decision.
Defined.
