(* ===== verification/Base64.v ===== *)
(** * util-src/encodings.c, base64

    The encoder and the decoder as written, on memory that ends with a NUL.  The theorems:
    decoding inverts encoding, also with white space in between; the encoder is that of RFC
    4648; the decoder is a reference decoder on groups of bits, on every string. *)

From stdpp Require Import base tactics numbers list strings.
From Stdlib Require Import ZArith Lia.
From S2P Require Import Prelude LuaApi.

Local Open Scope Z_scope.

(** [code], the alphabet: A-Z, a-z, 0-9, +, / *)
Definition code : bytes :=
  seqZ 65 26 ++ seqZ 97 26 ++ seqZ 48 10 ++ [43; 47].

(** ** Encoding *)

(** [for(i = 0; i < 4; i++) { s[3 - i] = code[tuple % 64]; tuple /= 64; }] *)
Definition encode_step (st : bytes * Z) (i : Z) : bytes * Z :=
  let '(s, tuple) := st in
  (<[Z.to_nat (3 - i) := code !!! Z.to_nat (tuple mod 64)]> s, tuple / 64).

(** [for(i = n + 1; i < 4; i++) s[i] = '=';] *)
Definition pad_step (s : bytes) (i : Z) : bytes := <[Z.to_nat i := 61]> s.

Definition base64_encode (c1 c2 c3 n : Z) : bytes :=
  let tuple := c3 + 256 * (c2 + 256 * c1) in
  let '(s, _) := foldl encode_step ([0; 0; 0; 0], tuple) (seqZ 0 4) in
  foldl pad_step s (seqZ (n + 1) (4 - (n + 1))).

(** [for(n = l / 3; n--; s += 3)]: the output, and the memory left at [s]. *)
Fixpoint encode_groups (n : nat) (s : bytes) : outcome (bytes * bytes) :=
  match n with
  | O => Done ([], s)
  | S n' =>
      s0 ← mem_get s 0;
      s1 ← mem_get s 1;
      s2 ← mem_get s 2;
      '(b, s') ← encode_groups n' (drop 3 s);
      Done (base64_encode s0 s1 s2 3 ++ b, s')
  end.

(** ** Decoding *)

(** [tuple] holds 24 bits; the first [n - 1] of its bytes are added to the buffer. *)
Definition base64_decode (c1 c2 c3 c4 n : Z) : bytes :=
  let tuple := c4 + 64 * (c3 + 64 * (c2 + 64 * c1)) in
  let s := [uchar (Z.shiftr tuple 16); uchar (Z.shiftr tuple 8); uchar tuple] in
  take (Z.to_nat (n - 1)) s.

(** [strchr(code, c)], for [c] not NUL, as an offset from [code]. *)
Definition strchr_code (c : Z) : option Z :=
  (fun r => Z.of_nat r.1) <$> list_find (fun d => d = c) code.

Definition is_ignored (c : Z) : bool :=
  (c =? 10) || (c =? 13) || (c =? 9) || (c =? 32) || (c =? 12) || (c =? 8).

(** The loop of [Lbase64_decode] at [s], with [t[0..n-1]] filled and [b] in the buffer;
    [None] is the [return 0] on a character outside the alphabet. *)
Fixpoint decode_loop (s : bytes) (t : bytes) (n : Z) (b : bytes) : outcome (option bytes) :=
  match s with
  | [] => Undef OutOfBounds
  | c :: s' =>
      if c =? 61 then
        let b :=
          match n with
          | 1 => b ++ base64_decode (t !!! 0%nat) 0 0 0 1
          | 2 => b ++ base64_decode (t !!! 0%nat) (t !!! 1%nat) 0 0 2
          | 3 => b ++ base64_decode (t !!! 0%nat) (t !!! 1%nat) (t !!! 2%nat) 0 3
          | _ => b
          end in
        decode_loop s' t 0 b
      else if c =? 0 then Done (Some b)
      else if is_ignored c then decode_loop s' t n b
      else
        match strchr_code c with
        | None => Done None
        | Some p =>
            t ← mem_set t n p;
            let n := n + 1 in
            if n =? 4 then
              decode_loop s' t 0
                (b ++ base64_decode (t !!! 0%nat) (t !!! 1%nat) (t !!! 2%nat) (t !!! 3%nat) 4)
            else decode_loop s' t n b
        end
  end.

Section handlers.
Context `{LuaAux}.
Implicit Types (L : list value).

(** [n] is an [int]; a negative count would run through the memory after the string. *)
Definition Lbase64_encode L : outcome (list value) :=
  s ← luaL_checklstring L 1;
  let l := zlen s in
  let n := cint (l / 3) in
  if n <? 0 then Undef OutOfBounds
  else
    '(b, s) ← encode_groups (Z.to_nat n) (c_str s);
    tail ← match l mod 3 with
           | 1 => s0 ← mem_get s 0; Done (base64_encode s0 0 0 1)
           | 2 => s0 ← mem_get s 0; s1 ← mem_get s 1; Done (base64_encode s0 s1 0 2)
           | _ => Done []
           end;
    Done [VStr (b ++ tail)].

(** [t] is uninitialised: its initial bytes are an argument. *)
Definition Lbase64_decode (t : bytes) L : outcome (list value) :=
  s ← luaL_checklstring L 1;
  r ← decode_loop (c_str s) t 0 [];
  match r with
  | Some b => Done [VStr b]
  | None => Done []
  end.

Definition Reg_base64 (t : bytes) : list (string * (list value -> outcome (list value))) :=
  [("encode", Lbase64_encode); ("decode", Lbase64_decode t)].

End handlers.

(** ** Specification: RFC 4648 *)

(** The number written by some bits, most significant first. *)
Definition bits_val (bs : list bool) : Z := foldl (fun acc b => 2 * acc + Z.b2z b) 0 bs.

(** Groups of six bits, the last one completed with zeros. *)
Fixpoint sextets (bs : list bool) : list Z :=
  match bs with
  | [] => []
  | b5 :: b4 :: b3 :: b2 :: b1 :: b0 :: bs' => bits_val [b5; b4; b3; b2; b1; b0] :: sextets bs'
  | _ => [bits_val (take 6 (bs ++ replicate 5 false))]
  end.

Definition rfc4648 (s : bytes) : bytes :=
  let q := (fun v => code !!! Z.to_nat v) <$> sextets (string_bits s) in
  q ++ replicate (Z.to_nat (- zlen q mod 4)) 61.

Example rfc4648_foob : rfc4648 [102; 111; 111; 98] = [90; 109; 57; 118; 89; 103; 61; 61].
Proof. reflexivity. Qed.

(** ** Groups *)

(** The alphabet character of a sextet. *)
Definition letter (v : Z) : Z := code !!! Z.to_nat v.

Definition is_sextet (v : Z) : Prop := 0 <= v < 64.

(** Induction by groups of three bytes. *)
Lemma list_groups_ind (P : bytes -> Prop) :
  P [] -> (forall x, P [x]) -> (forall x y, P [x; y]) ->
  (forall x y z l, P l -> P (x :: y :: z :: l)) -> forall l, P l.
Proof.
  intros H0 H1 H2 H3. fix IH 1. intros [|x [|y [|z l]]]; [done..|]. apply H3, IH.
Qed.

(** Facts about all 64 sextets and all 256 bytes, by evaluation ([forall_range]). *)
Lemma strchr_letter v : is_sextet v -> strchr_code (letter v) = Some v.
Proof. apply (forall_range 64 (fun v => strchr_code (letter v) = Some v)). by vm_compute. Qed.

Lemma letter_plain v :
  is_sextet v -> (letter v =? 61) = false /\ (letter v =? 0) = false /\ is_ignored (letter v) = false.
Proof.
  apply (forall_range 64 (fun v =>
    (letter v =? 61) = false /\ (letter v =? 0) = false /\ is_ignored (letter v) = false)).
  by vm_compute.
Qed.

Lemma bits_of_byte c :
  is_byte c ->
  bits_val (take 6 (byte_bits c)) = c / 4 /\ bits_val (drop 6 (byte_bits c)) = c mod 4
  /\ bits_val (take 4 (byte_bits c)) = c / 16 /\ bits_val (drop 4 (byte_bits c)) = c mod 16
  /\ bits_val (take 2 (byte_bits c)) = c / 64 /\ bits_val (drop 2 (byte_bits c)) = c mod 64.
Proof.
  apply (forall_range 256 (fun c =>
    bits_val (take 6 (byte_bits c)) = c / 4 /\ bits_val (drop 6 (byte_bits c)) = c mod 4
    /\ bits_val (take 4 (byte_bits c)) = c / 16 /\ bits_val (drop 4 (byte_bits c)) = c mod 16
    /\ bits_val (take 2 (byte_bits c)) = c / 64 /\ bits_val (drop 2 (byte_bits c)) = c mod 64)).
  by vm_compute.
Qed.

Lemma bits_val_app l k : bits_val (l ++ k) = bits_val l * 2 ^ zlen k + bits_val k.
Proof.
  induction k as [|b k IH] using rev_ind.
  { rewrite app_nil_r. unfold zlen; simpl. change (bits_val []) with 0. lia. }
  rewrite app_assoc. unfold bits_val in *.
  rewrite (foldl_app _ (l ++ k)), (foldl_app _ k). cbn [foldl]. rewrite IH, zlen_app.
  change (zlen [b]) with 1. rewrite Z.pow_add_r by (apply zlen_nonneg || done). lia.
Qed.

Lemma bits_val_join l k m :
  2 ^ zlen k = m -> bits_val l * m + bits_val k = bits_val (l ++ k).
Proof. intros <-. symmetry. apply bits_val_app. Qed.

(** The sextets of a group, as numbers. *)
Definition sextet1 (c1 : Z) : Z := c1 / 4.
Definition sextet2 (c1 c2 : Z) : Z := c1 mod 4 * 16 + c2 / 16.
Definition sextet3 (c2 c3 : Z) : Z := c2 mod 16 * 4 + c3 / 64.
Definition sextet4 (c3 : Z) : Z := c3 mod 64.

Lemma sextet_ranges c1 c2 c3 :
  is_byte c1 -> is_byte c2 -> is_byte c3 ->
  is_sextet (sextet1 c1) /\ is_sextet (sextet2 c1 c2) /\ is_sextet (sextet3 c2 c3)
  /\ is_sextet (sextet4 c3).
Proof.
  unfold is_byte, is_sextet, sextet1, sextet2, sextet3, sextet4. intros.
  Z.to_euclidean_division_equations. lia.
Qed.

Lemma sextets_group c1 c2 c3 bs :
  is_byte c1 -> is_byte c2 -> is_byte c3 ->
  sextets (byte_bits c1 ++ byte_bits c2 ++ byte_bits c3 ++ bs)
  = sextet1 c1 :: sextet2 c1 c2 :: sextet3 c2 c3 :: sextet4 c3 :: sextets bs.
Proof.
  intros (E1&E2&_)%bits_of_byte (_&_&E3&E4&_)%bits_of_byte (_&_&_&_&E5&E6)%bits_of_byte.
  unfold sextet1, sextet2, sextet3, sextet4. rewrite <- E1, <- E2, <- E3, <- E4, <- E5, <- E6.
  rewrite (bits_val_join (drop 6 (byte_bits c1)) (take 4 (byte_bits c2)) 16) by done.
  by rewrite (bits_val_join (drop 4 (byte_bits c2)) (take 2 (byte_bits c3)) 4) by done.
Qed.

Lemma sextets_one c1 :
  is_byte c1 -> sextets (byte_bits c1) = [sextet1 c1; sextet2 c1 0].
Proof.
  intros (E1&E2&_)%bits_of_byte. unfold sextet1, sextet2. rewrite <- E1, <- E2.
  change (0 / 16) with (bits_val [false; false; false; false]).
  by rewrite (bits_val_join (drop 6 (byte_bits c1)) _ 16) by done.
Qed.

Lemma sextets_two c1 c2 :
  is_byte c1 -> is_byte c2 ->
  sextets (byte_bits c1 ++ byte_bits c2) = [sextet1 c1; sextet2 c1 c2; sextet3 c2 0].
Proof.
  intros (E1&E2&_)%bits_of_byte (_&_&E3&E4&_)%bits_of_byte.
  unfold sextet1, sextet2, sextet3. rewrite <- E1, <- E2, <- E3, <- E4.
  rewrite (bits_val_join (drop 6 (byte_bits c1)) (take 4 (byte_bits c2)) 16) by done.
  change (0 / 64) with (bits_val [false; false]).
  by rewrite (bits_val_join (drop 4 (byte_bits c2)) _ 4) by done.
Qed.

(** What the C code computes from the 24-bit [tuple]. *)
Lemma tuple_sextets c1 c2 c3 :
  is_byte c1 -> is_byte c2 -> is_byte c3 ->
  let t := c3 + 256 * (c2 + 256 * c1) in
  t mod 64 = sextet4 c3 /\ t / 64 mod 64 = sextet3 c2 c3
  /\ t / 64 / 64 mod 64 = sextet2 c1 c2 /\ t / 64 / 64 / 64 mod 64 = sextet1 c1.
Proof.
  unfold is_byte, sextet1, sextet2, sextet3, sextet4. intros.
  Z.to_euclidean_division_equations. lia.
Qed.

Lemma base64_encode_letters c1 c2 c3 n :
  is_byte c1 -> is_byte c2 -> is_byte c3 -> 1 <= n <= 3 ->
  base64_encode c1 c2 c3 n
  = take (Z.to_nat (n + 1)) [letter (sextet1 c1); letter (sextet2 c1 c2); letter (sextet3 c2 c3);
                             letter (sextet4 c3)]
    ++ replicate (Z.to_nat (3 - n)) 61.
Proof.
  intros H1 H2 H3 Hn. destruct (tuple_sextets c1 c2 c3) as (E4 & E3 & E2 & E1); [done..|].
  unfold base64_encode. cbv zeta in *. unfold letter.
  rewrite <- E1, <- E2, <- E3, <- E4. set (t := c3 + _).
  assert (n = 1 \/ n = 2 \/ n = 3) as [->|[->| ->]] by lia; reflexivity.
Qed.

Lemma rfc4648_group c1 c2 c3 s :
  is_byte c1 -> is_byte c2 -> is_byte c3 ->
  rfc4648 (c1 :: c2 :: c3 :: s)
  = [letter (sextet1 c1); letter (sextet2 c1 c2); letter (sextet3 c2 c3); letter (sextet4 c3)]
    ++ rfc4648 s.
Proof.
  intros H1 H2 H3. unfold rfc4648.
  change (string_bits (c1 :: c2 :: c3 :: s))
    with (byte_bits c1 ++ byte_bits c2 ++ byte_bits c3 ++ string_bits s).
  rewrite sextets_group by done. cbn [fmap list_fmap]. unfold letter. simpl. do 4 f_equal.
  f_equal. f_equal. f_equal. rewrite !zlen_cons. set (q := zlen _).
  Z.to_euclidean_division_equations. lia.
Qed.

Lemma rfc4648_one c1 :
  is_byte c1 -> rfc4648 [c1] = base64_encode c1 0 0 1.
Proof.
  intros. rewrite base64_encode_letters by (done || unfold is_byte; lia).
  unfold rfc4648. change (string_bits [c1]) with (byte_bits c1 ++ []).
  rewrite app_nil_r, sextets_one by done. done.
Qed.

Lemma rfc4648_two c1 c2 :
  is_byte c1 -> is_byte c2 -> rfc4648 [c1; c2] = base64_encode c1 c2 0 2.
Proof.
  intros. rewrite base64_encode_letters by (done || unfold is_byte; lia).
  unfold rfc4648. change (string_bits [c1; c2]) with (byte_bits c1 ++ byte_bits c2 ++ []).
  rewrite app_nil_r, sextets_two by done. done.
Qed.

(** ** The encoder computes RFC 4648 *)

(** The tail that [Lbase64_encode] writes after the groups, from the memory left. *)
Definition encode_tail (l : Z) (s : bytes) : outcome bytes :=
  match l mod 3 with
  | 1 => s0 ← mem_get s 0; Done (base64_encode s0 0 0 1)
  | 2 => s0 ← mem_get s 0; s1 ← mem_get s 1; Done (base64_encode s0 s1 0 2)
  | _ => Done []
  end.

Lemma encode_groups_spec s :
  bytes_ok s ->
  exists b s' tail, encode_groups (Z.to_nat (zlen s / 3)) (c_str s) = Done (b, s')
    /\ encode_tail (zlen s) s' = Done tail /\ b ++ tail = rfc4648 s.
Proof.
  induction s as [|x|x y|x y z s IH] using list_groups_ind; intros Hs.
  - by exists [], (c_str []), [].
  - apply Forall_cons in Hs as [Hx _]. exists [], (c_str [x]), (base64_encode x 0 0 1).
    by rewrite rfc4648_one.
  - apply Forall_cons in Hs as [Hx [Hy _]%Forall_cons].
    exists [], (c_str [x; y]), (base64_encode x y 0 2). by rewrite rfc4648_two.
  - apply Forall_cons in Hs as [Hx [Hy [Hz Hs]%Forall_cons]%Forall_cons].
    destruct (IH Hs) as (b & s' & tail & Hb & Ht & E).
    pose proof (zlen_nonneg s) as Hn.
    assert (zlen (x :: y :: z :: s) = zlen s + 1 * 3) as El by (rewrite !zlen_cons; lia).
    exists (base64_encode x y z 3 ++ b), s', tail.
    rewrite El, Z.div_add by done.
    replace (Z.to_nat (zlen s / 3 + 1)) with (S (Z.to_nat (zlen s / 3)))
      by (pose proof (Z.div_pos (zlen s) 3); lia).
    unfold encode_tail in *. rewrite Z.mod_add by done.
    split_and!; [|done|].
    + cbn [encode_groups]. change (c_str (x :: y :: z :: s)) with (x :: y :: z :: c_str s).
      change (mem_get _ 0) with (Done x). change (mem_get _ 1) with (Done y).
      change (mem_get _ 2) with (Done z). cbn [mbind outcome_bind drop].
      by rewrite drop_0, Hb.
    + rewrite <- app_assoc, E, rfc4648_group by done.
      rewrite base64_encode_letters by (done || lia). done.
Qed.

(** ** Decoding a group of letters *)

Lemma decode_letter v s t n b :
  is_sextet v -> 0 <= n < 3 -> zlen t = 4 ->
  decode_loop (letter v :: s) t n b = decode_loop s (<[Z.to_nat n := v]> t) (n + 1) b.
Proof.
  intros Hv Hn Ht. destruct (letter_plain v Hv) as (E1 & E2 & E3). cbn [decode_loop].
  rewrite E1, E2, E3, strchr_letter, mem_set_done by (done || lia).
  cbn [mbind outcome_bind]. by destruct (Z.eqb_spec (n + 1) 4); [lia|].
Qed.

Lemma decode_letter4 v s x0 x1 x2 x3 b :
  is_sextet v ->
  decode_loop (letter v :: s) [x0; x1; x2; x3] 3 b
  = decode_loop s [x0; x1; x2; v] 0 (b ++ base64_decode x0 x1 x2 v 4).
Proof.
  intros Hv. destruct (letter_plain v Hv) as (E1 & E2 & E3). cbn [decode_loop].
  by rewrite E1, E2, E3, strchr_letter by done.
Qed.

(** The first letters of a group fill the cells. *)
Lemma decode_letters2 v1 v2 s x0 x1 x2 x3 b :
  is_sextet v1 -> is_sextet v2 ->
  decode_loop (letter v1 :: letter v2 :: s) [x0; x1; x2; x3] 0 b
  = decode_loop s [v1; v2; x2; x3] 2 b.
Proof. intros. by rewrite (decode_letter _ _ _ 0), (decode_letter _ _ _ (0 + 1)). Qed.

Lemma decode_letters3 v1 v2 v3 s x0 x1 x2 x3 b :
  is_sextet v1 -> is_sextet v2 -> is_sextet v3 ->
  decode_loop (letter v1 :: letter v2 :: letter v3 :: s) [x0; x1; x2; x3] 0 b
  = decode_loop s [v1; v2; v3; x3] 3 b.
Proof. intros. by rewrite decode_letters2, (decode_letter _ _ _ 2). Qed.

Lemma decode_bytes c1 c2 c3 :
  is_byte c1 -> is_byte c2 -> is_byte c3 ->
  base64_decode (sextet1 c1) (sextet2 c1 c2) (sextet3 c2 c3) (sextet4 c3) 4 = [c1; c2; c3].
Proof.
  intros H1 H2 H3. unfold base64_decode.
  set (t := sextet4 c3 + _). assert (t = c3 + 256 * (c2 + 256 * c1)) as ->.
  { unfold t, sextet1, sextet2, sextet3, sextet4, is_byte in *.
    Z.to_euclidean_division_equations. lia. }
  unfold is_byte, wrap_u in *. rewrite !Z.shiftr_div_pow2 by done.
  cbn [take Z.to_nat]. change (Z.to_nat (4 - 1)) with 3%nat. cbn [take].
  f_equal; [|f_equal; [|f_equal]]; Z.to_euclidean_division_equations; lia.
Qed.

(** The decoder's array has four cells. *)
Definition cells (t : bytes) : Prop := zlen t = 4.

Lemma decode_group c1 c2 c3 s t b :
  is_byte c1 -> is_byte c2 -> is_byte c3 -> cells t ->
  exists t', cells t' /\
    decode_loop ([letter (sextet1 c1); letter (sextet2 c1 c2); letter (sextet3 c2 c3);
                  letter (sextet4 c3)] ++ s) t 0 b
    = decode_loop s t' 0 (b ++ [c1; c2; c3]).
Proof.
  intros H1 H2 H3 Ht. destruct (sextet_ranges c1 c2 c3) as (R1 & R2 & R3 & R4); [done..|].
  unfold cells, zlen in Ht. destruct t as [|x0 [|x1 [|x2 [|x3 [|]]]]]; simpl in Ht; try lia.
  exists [sextet1 c1; sextet2 c1 c2; sextet3 c2 c3; sextet4 c3]. split; [done|].
  cbn [app]. rewrite decode_letters3, decode_letter4 by done.
  rewrite <- (decode_bytes c1 c2 c3) by done. reflexivity.
Qed.

Lemma decode_rfc4648 s rest t b :
  bytes_ok s -> cells t ->
  exists t', cells t' /\
    decode_loop (rfc4648 s ++ rest) t 0 b = decode_loop rest t' 0 (b ++ s).
Proof.
  revert t b. induction s as [|x|x y|x y z s IH] using list_groups_ind; intros t b Hs Ht.
  - exists t. by rewrite app_nil_r.
  - apply Forall_cons in Hs as [Hx _]. assert (is_byte 0) as H0 by by_decision.
    rewrite rfc4648_one by done. rewrite base64_encode_letters by (done || lia).
    destruct (sextet_ranges x 0 0) as (R1 & R2 & _); [done..|].
    unfold cells, zlen in Ht. destruct t as [|x0 [|x1 [|x2 [|x3 [|]]]]]; simpl in Ht; try lia.
    exists [sextet1 x; sextet2 x 0; x2; x3]. split; [done|]. cbn [take replicate app].
    change (Z.to_nat (1 + 1)) with 2%nat. change (Z.to_nat (3 - 1)) with 2%nat. cbn [take replicate app].
    rewrite decode_letters2 by done.
    pose proof (decode_bytes x 0 0 Hx H0 H0) as E.
    assert (base64_decode (sextet1 x) (sextet2 x 0) 0 0 2 = [x]) as E'.
    { change [x] with (take 1 [x; 0; 0]). by rewrite <- E. }
    cbn. by rewrite E'.
  - apply Forall_cons in Hs as [Hx [Hy _]%Forall_cons]. assert (is_byte 0) as H0 by by_decision.
    rewrite rfc4648_two by done. rewrite base64_encode_letters by (done || lia).
    destruct (sextet_ranges x y 0) as (R1 & R2 & R3 & _); [done..|].
    unfold cells, zlen in Ht. destruct t as [|x0 [|x1 [|x2 [|x3 [|]]]]]; simpl in Ht; try lia.
    exists [sextet1 x; sextet2 x y; sextet3 y 0; x3]. split; [done|].
    change (Z.to_nat (2 + 1)) with 3%nat. change (Z.to_nat (3 - 2)) with 1%nat. cbn [take replicate app].
    rewrite decode_letters3 by done.
    pose proof (decode_bytes x y 0 Hx Hy H0) as E.
    assert (base64_decode (sextet1 x) (sextet2 x y) (sextet3 y 0) 0 3 = [x; y]) as E'.
    { change [x; y] with (take 2 [x; y; 0]). by rewrite <- E. }
    cbn. by rewrite E'.
  - apply Forall_cons in Hs as [Hx [Hy [Hz Hs]%Forall_cons]%Forall_cons].
    rewrite rfc4648_group, <- app_assoc by done.
    destruct (decode_group x y z (rfc4648 s ++ rest) t b) as (t1 & Ht1 & ->); [done..|].
    destruct (IH t1 (b ++ [x; y; z]) Hs Ht1) as (t' & Ht' & ->).
    exists t'. by rewrite <- app_assoc.
Qed.

(** White space (tab, line feed, form feed, carriage return, space) and the backspace
    change nothing, wherever they are. *)
Definition significant (c : Z) : Prop := c ∉ [9; 10; 12; 13; 32; 8].

#[export] Instance significant_dec c : Decision (significant c).
Proof. unfold significant. apply _. Defined.

Lemma significant_spec c : significant c <-> is_ignored c = false.
Proof.
  unfold significant, is_ignored. rewrite !orb_false_iff, !Z.eqb_neq, !not_elem_of_cons. pose proof (not_elem_of_nil c).
  tauto.
Qed.

Lemma decode_loop_strip s t n b :
  decode_loop s t n b = decode_loop (filter significant s) t n b.
Proof.
  revert t n b. induction s as [|c s IH]; intros t n b; [done|].
  rewrite filter_cons. destruct (decide (significant c)) as [Hc|Hc]; cbn [decode_loop].
  - apply significant_spec in Hc. rewrite Hc. destruct (c =? 61); [apply IH|]. destruct (c =? 0); [done|].
    destruct (strchr_code c) as [p|]; [|done]. destruct (mem_set t n p) as [t'|e|u]; [|done..].
    cbn [mbind outcome_bind]. cbv zeta. destruct (n + 1 =? 4); apply IH.
  - rewrite significant_spec in Hc. apply not_false_is_true in Hc.
    destruct (Z.eqb_spec c 61) as [->|_]; [done|]. destruct (Z.eqb_spec c 0) as [->|_]; [done|].
    rewrite Hc. apply IH.
Qed.

(** ** A reference decoder, on bits *)

(** The six bits of a sextet. *)
Definition sextet_bits (v : Z) : list bool := (fun i => Z.testbit v i) <$> [5; 4; 3; 2; 1; 0].

(** The complete bytes in a string of bits. *)
Fixpoint octets (bs : list bool) : bytes :=
  match bs with
  | b7 :: b6 :: b5 :: b4 :: b3 :: b2 :: b1 :: b0 :: bs' =>
      bits_val [b7; b6; b5; b4; b3; b2; b1; b0] :: octets bs'
  | _ => []
  end.

Definition in_alphabet (c : Z) : bool :=
  (c =? 61) || bool_decide (strchr_code c <> None).

(** A run of letters that '=' ends yields all its complete bytes; the last run, which
    the end of the string ends, only its complete groups of three. *)
Fixpoint decode_runs (w : bytes) (run : list bool) : bytes :=
  match w with
  | [] => octets (take (24 * (length run / 24)) run)
  | c :: w' =>
      if c =? 61 then octets run ++ decode_runs w' []
      else decode_runs w' (run ++ sextet_bits (default 0 (strchr_code c)))
  end.

Definition base64_reference (s : bytes) : option bytes :=
  let w := filter significant (until_nul s) in
  if forallb in_alphabet w then Some (decode_runs w []) else None.

Lemma octets_app k bs bs' :
  length bs = (8 * k)%nat -> octets (bs ++ bs') = octets bs ++ octets bs'.
Proof.
  revert bs. induction k as [|k IH]; intros bs Hl.
  - by destruct bs.
  - destruct bs as [|b7 [|b6 [|b5 [|b4 [|b3 [|b2 [|b1 [|b0 bs]]]]]]]]; simpl in Hl; try lia.
    cbn [app octets]. f_equal. apply IH. lia.
Qed.

(** Complete groups of three bytes can be decoded on their own. *)
Lemma decode_runs_group w g run :
  length g = 24%nat -> decode_runs w (g ++ run) = octets g ++ decode_runs w run.
Proof.
  intros Hg. revert run. induction w as [|c w IH]; intros run; cbn [decode_runs].
  - rewrite length_app, Hg. replace (24 + length run)%nat with (length run + 1 * 24)%nat by lia.
    rewrite Nat.div_add by done. rewrite take_app.
    rewrite take_ge by (rewrite Hg; lia).
    rewrite (octets_app 3) by done. do 3 f_equal. rewrite Hg. lia.
  - destruct (c =? 61); [by rewrite (octets_app 3), app_assoc by done|].
    by rewrite <- app_assoc, IH.
Qed.

Lemma bits_of_sextet v :
  is_sextet v ->
  bits_val (take 2 (sextet_bits v)) = v / 16 /\ bits_val (drop 2 (sextet_bits v)) = v mod 16
  /\ bits_val (take 4 (sextet_bits v)) = v / 4 /\ bits_val (drop 4 (sextet_bits v)) = v mod 4
  /\ bits_val (sextet_bits v) = v.
Proof.
  apply (forall_range 64 (fun v =>
    bits_val (take 2 (sextet_bits v)) = v / 16 /\ bits_val (drop 2 (sextet_bits v)) = v mod 16
    /\ bits_val (take 4 (sextet_bits v)) = v / 4 /\ bits_val (drop 4 (sextet_bits v)) = v mod 4
    /\ bits_val (sextet_bits v) = v)).
  by vm_compute.
Qed.

(** The three bytes of four sextets. *)
Lemma octets_sextets v1 v2 v3 v4 :
  is_sextet v1 -> is_sextet v2 -> is_sextet v3 -> is_sextet v4 ->
  octets (sextet_bits v1 ++ sextet_bits v2 ++ sextet_bits v3 ++ sextet_bits v4)
  = [v1 * 4 + v2 / 16; v2 mod 16 * 16 + v3 / 4; v3 mod 4 * 64 + v4].
Proof.
  intros (_&_&_&_&E1)%bits_of_sextet (E2&E3&_)%bits_of_sextet
    (_&_&E4&E5&_)%bits_of_sextet (_&_&_&_&E6)%bits_of_sextet.
  rewrite <- E1 at 2. rewrite <- E2, <- E3, <- E4, <- E5. rewrite <- E6 at 2.
  rewrite (bits_val_join (sextet_bits v1) (take 2 (sextet_bits v2)) 4) by done.
  rewrite (bits_val_join (drop 2 (sextet_bits v2)) (take 4 (sextet_bits v3)) 16) by done.
  by rewrite (bits_val_join (drop 4 (sextet_bits v3)) (sextet_bits v4) 64) by done.
Qed.

Lemma base64_decode_bytes v1 v2 v3 v4 :
  is_sextet v1 -> is_sextet v2 -> is_sextet v3 -> is_sextet v4 ->
  base64_decode v1 v2 v3 v4 4
  = octets (sextet_bits v1 ++ sextet_bits v2 ++ sextet_bits v3 ++ sextet_bits v4).
Proof.
  intros. rewrite octets_sextets by done. unfold base64_decode, is_sextet, wrap_u in *.
  rewrite !Z.shiftr_div_pow2 by done. change (Z.to_nat (4 - 1)) with 3%nat. cbn [take].
  f_equal; [|f_equal; [|f_equal]]; Z.to_euclidean_division_equations; lia.
Qed.

Lemma strchr_sextet c p : strchr_code c = Some p -> is_sextet p.
Proof.
  unfold strchr_code. intros ([i x] & E & ->)%fmap_Some.
  apply list_find_Some in E as (E & _). apply lookup_lt_Some in E.
  change (length code) with 64%nat in E. unfold is_sextet. simpl. lia.
Qed.

(** The sextets waiting in the first [n] cells. *)
Definition pending (t : bytes) (n : Z) : bytes := take (Z.to_nat n) t.

Definition cells_ok (t : bytes) (n : Z) : Prop :=
  cells t /\ 0 <= n < 4 /\ Forall is_sextet (pending t n).

(** What '=' adds to the buffer. *)
Lemma padding_octets t n b :
  cells_ok t n ->
  match n with
  | 1 => b ++ base64_decode (t !!! 0%nat) 0 0 0 1
  | 2 => b ++ base64_decode (t !!! 0%nat) (t !!! 1%nat) 0 0 2
  | 3 => b ++ base64_decode (t !!! 0%nat) (t !!! 1%nat) (t !!! 2%nat) 0 3
  | _ => b
  end = b ++ octets (pending t n ≫= sextet_bits).
Proof.
  intros (Ht & Hn & Hs). unfold cells, zlen in Ht. unfold pending in *.
  destruct t as [|x0 [|x1 [|x2 [|x3 [|]]]]]; simpl in Ht; try lia.
  assert (is_sextet 0) as H0 by (unfold is_sextet; lia).
  assert (n = 0 \/ n = 1 \/ n = 2 \/ n = 3) as [->|[->|[->| ->]]] by lia.
  - by rewrite app_nil_r.
  - done.
  - change (Z.to_nat 2) with 2%nat in *. cbn [take] in *. rewrite !Forall_cons in Hs.
    destruct Hs as (Hs1 & Hs2 & _). trans (b ++ take 1 (base64_decode x0 x1 0 0 4)); [done|].
    by rewrite base64_decode_bytes.
  - change (Z.to_nat 3) with 3%nat in *. cbn [take] in *. rewrite !Forall_cons in Hs.
    destruct Hs as (Hs1 & Hs2 & Hs3 & _). trans (b ++ take 2 (base64_decode x0 x1 x2 0 4)); [done|].
    by rewrite base64_decode_bytes.
Qed.

(** Adding a letter to fewer than three pending ones. *)
Lemma pending_snoc t n p :
  cells_ok t n -> is_sextet p -> n < 3 ->
  cells_ok (<[Z.to_nat n := p]> t) (n + 1)
  /\ pending (<[Z.to_nat n := p]> t) (n + 1) = pending t n ++ [p].
Proof.
  intros (Ht & Hn & Hs) Hp Hn3. unfold cells_ok, cells, pending in *.
  assert (take (Z.to_nat (n + 1)) (<[Z.to_nat n := p]> t) = take (Z.to_nat n) t ++ [p]) as E.
  { replace (Z.to_nat (n + 1)) with (S (Z.to_nat n)) by lia. unfold zlen in Ht.
    rewrite (take_S_r _ _ p) by (apply list_lookup_insert_eq; lia).
    by rewrite take_insert_ge by done. }
  rewrite E. split_and!; [|lia|lia| |done].
  - unfold zlen in *. by rewrite length_insert.
  - apply Forall_app. auto.
Qed.

Lemma length_sextet_bits vs : length (vs ≫= sextet_bits) = (6 * length vs)%nat.
Proof. induction vs as [|v vs IH]; [done|]. cbn [mbind list_bind length app] in *.
  rewrite length_app, IH. cbn. lia. Qed.

(** Fewer than four letters at the end of the string add nothing. *)
Lemma pending_dropped t n :
  cells_ok t n -> decode_runs [] (pending t n ≫= sextet_bits) = [].
Proof.
  intros (Ht & Hn & _). cbn [decode_runs]. rewrite Nat.div_small; [by rewrite take_0|].
  rewrite length_sextet_bits. unfold pending. rewrite length_take. lia.
Qed.

Lemma decode_loop_runs s t n b :
  cells_ok t n ->
  decode_loop (c_str s) t n b
  = Done (let w := filter significant (until_nul s) in
          if forallb in_alphabet w then Some (b ++ decode_runs w (pending t n ≫= sextet_bits))
          else None).
Proof.
  revert t n b. induction s as [|c s IH]; intros t n b Hok.
  { change (until_nul []) with ([] : bytes). rewrite filter_nil. cbv zeta. cbn [forallb].
    by rewrite pending_dropped, app_nil_r. }
  change (c_str (c :: s)) with (c :: c_str s). cbn [decode_loop until_nul].
  destruct (Z.eqb_spec c 61) as [->|H61].
  { rewrite padding_octets by done. change (if 61 =? 0 then [] else 61 :: until_nul s) with (61 :: until_nul s).
    rewrite filter_cons_True by (by apply significant_spec).
    rewrite IH by (destruct Hok as (?&?&?); split_and!; (done || constructor)).
    cbv zeta. cbn [forallb]. change (in_alphabet 61) with true. cbn [andb decode_runs].
    by rewrite <- app_assoc. }
  destruct (Z.eqb_spec c 0) as [->|H0].
  { rewrite filter_nil. cbv zeta. cbn [forallb]. by rewrite pending_dropped, app_nil_r. }
  destruct (is_ignored c) eqn:Hi.
  { rewrite filter_cons_False by (rewrite significant_spec; congruence). by rewrite IH. }
  rewrite filter_cons_True by (by apply significant_spec).
  cbv zeta. cbn [forallb]. unfold in_alphabet at 1.
  destruct (Z.eqb_spec c 61) as [|_]; [done|]. cbn [orb].
  destruct (strchr_code c) as [p|] eqn:Hp; [|done]. pose proof (strchr_sextet c p Hp) as Hs.
  rewrite bool_decide_eq_true_2 by done. cbn [andb decode_runs].
  destruct (Z.eqb_spec c 61) as [|_]; [done|]. rewrite Hp. cbn [default].
  destruct Hok as (Ht & Hn & Hpd). unfold cells in Ht.
  rewrite mem_set_done by lia. cbn [mbind outcome_bind]. cbv zeta.
  destruct (Z.eqb_spec (n + 1) 4) as [H4|H4].
  - destruct t as [|x0 [|x1 [|x2 [|x3 [|]]]]]; unfold zlen in Ht; simpl in Ht; try lia.
    assert (n = 3) as -> by lia. unfold pending in *. change (Z.to_nat 3) with 3%nat in *.
    cbn [take] in *. rewrite !Forall_cons in Hpd. destruct Hpd as (H0' & H1' & H2' & _).
    change (<[3%nat:=p]> [x0; x1; x2; x3]) with [x0; x1; x2; p].
    rewrite IH by (split_and!; (done || constructor)).
    change ([x0; x1; x2; p] !!! 0%nat) with x0. change ([x0; x1; x2; p] !!! 1%nat) with x1.
    change ([x0; x1; x2; p] !!! 2%nat) with x2. change ([x0; x1; x2; p] !!! 3%nat) with p.
    rewrite base64_decode_bytes by done. cbv zeta.
    destruct (forallb _ _); [|done]. do 2 f_equal. rewrite <- app_assoc. f_equal.
    cbn [mbind list_bind]. rewrite app_nil_r, <- !app_assoc.
    change (id p) with p. change (_ ≫= _) with ([] : list bool).
    by rewrite <- (decode_runs_group _ _ []), app_nil_r by done.
  - destruct (pending_snoc t n p) as [Hok' E]; [done..|lia|]. rewrite IH by done.
    rewrite E, bind_app. cbn [mbind list_bind]. by rewrite app_nil_r.
Qed.

(** ** Properties *)

Section properties.
Context `{LuaAux}.

Lemma checklstring_1 s L : lua_string s -> luaL_checklstring (VStr s :: L) 1 = Done s.
Proof. intros. by apply checklstring_str. Qed.

(** [base64.encode] returns the RFC 4648 encoding of its argument (its bits in groups
    of six, written in the alphabet, padded with '=' to a multiple of four characters),
    for every string of up to 6 GiB: the group count is an [int]. *)
Theorem base64_encode_rfc4648 s L :
  lua_string s -> zlen s / 3 <= int_max ->
  Lbase64_encode (VStr s :: L) = Done [VStr (rfc4648 s)].
Proof.
  intros Hs Hl. unfold Lbase64_encode. rewrite checklstring_1 by done.
  cbn [mbind outcome_bind]. cbv zeta.
  pose proof (Z.div_pos (zlen s) 3 (zlen_nonneg s)) as Hp.
  rewrite int_small by (unfold is_int, int_min; lia). zcase.
  destruct (encode_groups_spec s) as (b & s' & tail & Hb & Ht & <-); [apply Hs|].
  rewrite Hb. cbn [mbind outcome_bind]. unfold encode_tail in Ht. by rewrite Ht.
Qed.

(** C9. [base64.decode] inverts [base64.encode]: from any number of encodings one after
    the other, with white space inserted anywhere (inside groups and paddings too), it
    returns the concatenation of the encoded strings, whatever the uninitialised array [t]
    holds. *)
Theorem base64_decode_encode ss w t L :
  Forall bytes_ok ss -> lua_string w -> cells t ->
  filter significant w = mjoin (rfc4648 <$> ss) ->
  Lbase64_decode t (VStr w :: L) = Done [VStr (mjoin ss)].
Proof.
  intros Hss Hw Ht E. unfold Lbase64_decode. rewrite checklstring_1 by done.
  cbn [mbind outcome_bind]. rewrite decode_loop_strip. unfold c_str. rewrite filter_app, E.
  clear E Hw. change (filter significant [0]) with [0]. change (mjoin ss) with ([] ++ mjoin ss).
  generalize ([] : bytes) at 2 3 as b. revert t Ht. induction Hss as [|s ss Hs _ IH]; intros t Ht b.
  { by rewrite app_nil_r. }
  change (mjoin (rfc4648 <$> s :: ss)) with (rfc4648 s ++ mjoin (rfc4648 <$> ss)).
  change (mjoin (s :: ss)) with (s ++ mjoin ss). rewrite <- app_assoc.
  destruct (decode_rfc4648 s (mjoin (rfc4648 <$> ss) ++ [0]) t b) as (t' & Ht' & ->); [done..|].
  by rewrite IH, app_assoc.
Qed.

(** C31. [base64.decode] on any string: it stays inside the string and its four-cell
    array, terminates, and is the bit-level reference decoder: nothing when a character
    before the first NUL is neither in the alphabet nor '=' nor white space; otherwise the
    complete bytes of the letters of each run up to '=' or up to the end, where a last
    group of fewer than four letters without its '=' is dropped. *)
Theorem base64_decode_is_reference t s L :
  lua_string s -> cells t ->
  Lbase64_decode t (VStr s :: L)
  = Done (match base64_reference s with Some b => [VStr b] | None => [] end).
Proof.
  intros Hs Ht. unfold Lbase64_decode. rewrite checklstring_1 by done.
  cbn [mbind outcome_bind]. rewrite decode_loop_runs by (split_and!; (done || constructor)).
  cbn [mbind outcome_bind]. unfold base64_reference. cbv zeta. by destruct (forallb _ _).
Qed.

End properties.

(** ** Witnesses *)

Lemma base64_encode_rfc4648_witness :
  lua_string [102; 111; 111; 98] /\ zlen [102; 111; 111; 98] / 3 <= int_max /\
  Lbase64_encode (H := lua_strict) [VStr [102; 111; 111; 98]]
  = Done [VStr [90; 109; 57; 118; 89; 103; 61; 61]].
Proof.
  assert (lua_string [102; 111; 111; 98]) as Hs by by_decision.
  assert (zlen [102; 111; 111; 98] / 3 <= int_max) as Hl by by_decision.
  split; [exact Hs|]. split; [exact Hl|].
  exact (base64_encode_rfc4648 (H := lua_strict) [102; 111; 111; 98] [] Hs Hl).
Defined.

(** "Z g\n==YQ==" is the encodings of "f" and of "a". *)
Lemma base64_decode_encode_witness :
  Forall bytes_ok [[102]; [97]] /\
  Lbase64_decode (H := lua_strict) [7; 7; 7; 7]
    [VStr [90; 32; 103; 10; 61; 61; 89; 81; 61; 61]] = Done [VStr [102; 97]].
Proof.
  assert (Forall bytes_ok [[102]; [97]]) as Hss by by_decision.
  split; [exact Hss|].
  refine (base64_decode_encode (H := lua_strict) [[102]; [97]]
    [90; 32; 103; 10; 61; 61; 89; 81; 61; 61] [7; 7; 7; 7] [] Hss _ eq_refl eq_refl).
  by_decision.
Defined.

(** "Zg" without padding is decoded to the empty string, and "Z.g" to nothing. *)
Lemma base64_decode_is_reference_witness :
  Lbase64_decode (H := lua_strict) [7; 7; 7; 7] [VStr [90; 103]] = Done [VStr []] /\
  Lbase64_decode (H := lua_strict) [7; 7; 7; 7] [VStr [90; 46; 103]] = Done [].
Proof.
  split; refine (base64_decode_is_reference (H := lua_strict) [7; 7; 7; 7] _ [] _ eq_refl); by_decision.
Defined.
