(* ===== verification/Utf8.v ===== *)
(** * util-src/encodings.c, utf8

    The decoder of one UTF-8 sequence, [check_utf8] and the functions [utf8.valid] and
    [utf8.length]; the specification is the encoding table of RFC 3629.  A sequence is
    valid when it is the encoding of a Unicode scalar value, a string when it is a
    concatenation of valid sequences. *)

From stdpp Require Import base tactics numbers list strings.
From Stdlib Require Import ZArith Lia.
From S2P Require Import Prelude LuaApi.

Local Open Scope Z_scope.

Definition MAXUNICODE : Z := 0x10FFFF.

Definition limits : list Z := [0xFF; 0x7F; 0x7FF; 0xFFFF].

(** The loop over the continuation bytes; [None] is the [return NULL] on a byte that is
    not one.  The fuel bounds the iterations: a byte has at most seven bits to test. *)
Fixpoint decode_cont (fuel : nat) (s : bytes) (c count res : Z) : outcome (option (Z * Z * Z)) :=
  match fuel with
  | O => Undef NoTermination
  | S fuel =>
      if Z.land c 0x40 =? 0 then Done (Some (c, count, res))
      else
        let count := count + 1 in
        cc ← mem_get s count;
        if negb (Z.land cc 0xC0 =? 0x80) then Done None
        else
          decode_cont fuel s (uint (Z.shiftl c 1)) count
            (uint (Z.lor (Z.shiftl res 6) (Z.land cc 0x3F)))
  end.

(** The shift of an [unsigned int]. *)
Definition shl_uint (x n : Z) : outcome Z :=
  if (0 <=? n) && (n <? 32) then Done (uint (Z.shiftl x n)) else Undef BadShift.

(** [utf8_decode] on the memory at [o]: the code point and the bytes it takes; [None] is
    NULL. *)
Definition utf8_decode (o : bytes) : outcome (option (Z * Z)) :=
  c ← mem_get o 0;
  if c <? 0x80 then Done (Some (c, 1))
  else
    r ← decode_cont 8 o c 0 0;
    match r with
    | None => Done None
    | Some (c, count, res) =>
        first ← shl_uint (Z.land c 0x7F) (count * 5);
        let res := Z.lor res first in
        if (count >? 3) || (res >? MAXUNICODE) then Done None
        else
          lim ← mem_get limits count;
          if (res <=? lim) || ((0xd800 <=? res) && (res <=? 0xdfff)) then Done None
          else Done (Some (res, count + 1))
    end.

(** The loop [while(pos <= len)], at most one iteration per byte and one for the NUL;
    [false] is the [return NULL]. *)
Fixpoint check_loop (fuel : nat) (s : bytes) (len pos : Z) : outcome bool :=
  match fuel with
  | O => Undef NoTermination
  | S fuel =>
      if pos <=? len then
        r ← utf8_decode (drop (Z.to_nat pos) s);
        match r with
        | None => Done false
        | Some (_, n) => check_loop fuel s len (pos + n)
        end
      else Done true
  end.

Section handlers.
Context `{LuaAux}.
Implicit Types (L : list value).

(** The string and its length [*l], or NULL. *)
Definition check_utf8 L (idx : Z) : outcome (option bytes) :=
  s ← luaL_checklstring L idx;
  ok ← check_loop (S (S (length s))) (c_str s) (zlen s) 0;
  Done (if ok : bool then Some s else None).

Definition Lutf8_valid L : outcome (list value) :=
  r ← check_utf8 L 1;
  Done [VBool (bool_decide (r <> None))].

Definition Lutf8_length L : outcome (list value) :=
  r ← check_utf8 L 1;
  match r with
  | None => Done [pushfail; literal "invalid utf8"]
  | Some s => Done [VInt (zlen s)]
  end.

Definition Reg_utf8 : list (string * (list value -> outcome (list value))) :=
  [("valid", Lutf8_valid); ("length", Lutf8_length)].

End handlers.

(** ** Specification: RFC 3629 *)

(** A Unicode scalar value: a code point that is not a surrogate. *)
Definition scalar (v : Z) : Prop := 0 <= v <= 0x10FFFF /\ ~ 0xD800 <= v <= 0xDFFF.

Definition utf8_encode (v : Z) : bytes :=
  if v <? 0x80 then [v]
  else if v <? 0x800 then [0xC0 + v / 64; 0x80 + v mod 64]
  else if v <? 0x10000 then [0xE0 + v / 4096; 0x80 + v / 64 mod 64; 0x80 + v mod 64]
  else [0xF0 + v / 262144; 0x80 + v / 4096 mod 64; 0x80 + v / 64 mod 64; 0x80 + v mod 64].

Definition utf8_text (s : bytes) : Prop :=
  exists vs, Forall scalar vs /\ s = vs ≫= utf8_encode.

(** The one sequence on which the decoder leaves the C standard: 0xFF and seven
    continuation bytes, whose 35-bit shift is wider than [unsigned int]. *)
Definition continuation (c : Z) : Prop := 0x80 <= c < 0xC0.

Definition ff_sequence (s : bytes) : Prop :=
  exists cs rest, s = 255 :: cs ++ rest /\ length cs = 7%nat /\ Forall continuation cs.

(** ** Bytes *)

Lemma continuation_test c :
  is_byte c -> (Z.land c 0xC0 =? 0x80) = (0x80 <=? c) && (c <? 0xC0).
Proof.
  apply (forall_range 256 (fun c => (Z.land c 0xC0 =? 0x80) = (0x80 <=? c) && (c <? 0xC0))).
  by vm_compute.
Qed.

Lemma continuation_bits c : is_byte c -> Z.land c 0x3F = c mod 64.
Proof. apply (forall_range 256 (fun c => Z.land c 0x3F = c mod 64)). by vm_compute. Qed.

(** Six more bits below a result that has room for them. *)
Lemma add_six res cc :
  0 <= res < 2 ^ 26 -> is_byte cc ->
  uint (Z.lor (Z.shiftl res 6) (Z.land cc 0x3F)) = res * 64 + cc mod 64.
Proof.
  intros Hr Hc. rewrite continuation_bits by done.
  rewrite lor_low by (done || unfold is_byte in *; change (2 ^ 6) with 64; Z.to_euclidean_division_equations; lia).
  apply wrap_u_small. unfold is_byte in *. Z.to_euclidean_division_equations. lia.
Qed.

(** The continuation bytes that a first byte announces. *)
Definition lead (c : Z) : Z :=
  if c <? 0xC0 then 0 else if c <? 0xE0 then 1 else if c <? 0xF0 then 2
  else if c <? 0xF8 then 3 else if c <? 0xFC then 4 else if c <? 0xFE then 5
  else if c <? 0xFF then 6 else 7.

(** [c] after [k] shifts. *)
Definition shifted (c k : Z) : Z := uint (Z.shiftl c k).

Lemma shifted_succ c k : is_byte c -> 0 <= k < 8 -> uint (Z.shiftl (shifted c k) 1) = shifted c (k + 1).
Proof.
  intros Hc Hk. revert c Hc.
  assert (k = 0 \/ k = 1 \/ k = 2 \/ k = 3 \/ k = 4 \/ k = 5 \/ k = 6 \/ k = 7) as Hk' by lia.
  destruct_or! Hk'; subst;
    match goal with |- forall c, _ -> uint (Z.shiftl (shifted c ?k) 1) = _ =>
      apply (forall_range 256 (fun c => uint (Z.shiftl (shifted c k) 1) = shifted c (k + 1)))
    end; by vm_compute.
Qed.

Lemma lead_test c :
  is_byte c ->
  forall k, 0 <= k < 8 -> 0x80 <= c -> k <= lead c ->
  (Z.land (shifted c k) 0x40 =? 0) = (k =? lead c).
Proof.
  intros Hc k Hk.
  assert (k = 0 \/ k = 1 \/ k = 2 \/ k = 3 \/ k = 4 \/ k = 5 \/ k = 6 \/ k = 7) as Hk' by lia.
  revert c Hc. destruct_or! Hk'; subst;
    match goal with |- context [shifted _ ?k] =>
      apply (forall_range 256 (fun c => 0x80 <= c -> k <= lead c ->
        (Z.land (shifted c k) 0x40 =? 0) = (k =? lead c)))
    end; by vm_compute.
Qed.

Lemma lead_range c : 0 <= lead c <= 7.
Proof. unfold lead. zcase. Qed.

(** The bits of the first byte, at their place. *)
Lemma first_bits c :
  is_byte c -> 0x80 <= c -> lead c < 7 ->
  shl_uint (Z.land (shifted c (lead c)) 0x7F) (lead c * 5)
  = Done (c mod 2 ^ (6 - lead c) * 2 ^ (6 * lead c)).
Proof.
  apply (forall_range 256 (fun c => 0x80 <= c -> lead c < 7 ->
    shl_uint (Z.land (shifted c (lead c)) 0x7F) (lead c * 5)
    = Done (c mod 2 ^ (6 - lead c) * 2 ^ (6 * lead c)))).
  by vm_compute.
Qed.

(** The bits collected from continuation bytes. *)
Definition collect (res cc : Z) : Z := uint (Z.lor (Z.shiftl res 6) (Z.land cc 0x3F)).

(** ** The loop over the continuation bytes *)

Lemma continuation_byte c : continuation c -> is_byte c.
Proof. unfold continuation, is_byte. lia. Qed.

(** Either all the announced bytes are continuation bytes, or the loop stops at one that
    is not: the NUL at the latest. *)
Lemma decode_cont_spec fuel pre l c count res :
  is_byte c -> 0x80 <= c -> bytes_ok l -> zlen pre = count + 1 -> 0 <= count <= lead c ->
  lead c - count < Z.of_nat fuel ->
  (exists cs l', l = cs ++ l' /\ Forall continuation cs /\ count + zlen cs = lead c /\
    decode_cont fuel (pre ++ c_str l) (shifted c count) count res
    = Done (Some (shifted c (lead c), lead c, foldl collect res cs)))
  \/ (exists cs x l', c_str l = cs ++ x :: l' /\ ~ continuation x /\ count + zlen cs < lead c /\
    decode_cont fuel (pre ++ c_str l) (shifted c count) count res = Done None).
Proof.
  intros Hc H80. pose proof (lead_range c) as Hlead.
  revert pre l count res. induction fuel as [|fuel IH]; intros pre l count res Hl Hpre Hcount Hf; [lia|].
  cbn [decode_cont]. rewrite lead_test by (done || lia).
  destruct (Z.eqb_spec count (lead c)) as [->|Hne].
  { left. exists [], l. split_and!; [done|done|unfold zlen; simpl; lia|done]. }
  assert (exists cc l', c_str l = cc :: l' /\ is_byte cc /\ (cc = 0 \/ exists l1, l = cc :: l1))
    as (cc & l' & El & Hcc & Hl').
  { destruct l as [|cc l1].
    - exists 0, []. split_and!; [done|by_decision|by left].
    - apply Forall_cons in Hl as [? ?]. exists cc, (c_str l1). split_and!; [done..|]. right. by exists l1. }
  rewrite (mem_get_done _ _ cc); [|lia|].
  2:{ rewrite El, lookup_app_r; unfold zlen in Hpre; [|lia].
      by replace (Z.to_nat (count + 1) - length pre)%nat with 0%nat by lia. }
  cbn [mbind outcome_bind]. rewrite continuation_test by done.
  destruct ((0x80 <=? cc) && (cc <? 0xC0)) eqn:Et; cbn [negb].
  - apply andb_true_iff in Et as [?%Z.leb_le ?%Z.ltb_lt].
    destruct Hl' as [->|[l1 ->]]; [lia|]. apply Forall_cons in Hl as [_ Hl].
    rewrite shifted_succ by (done || lia).
    change (pre ++ c_str (cc :: l1)) with (pre ++ [cc] ++ c_str l1). rewrite app_assoc.
    fold (collect res cc).
    destruct (IH (pre ++ [cc]) l1 (count + 1) (collect res cc)) as [(cs&l2&->&Hcs&Hn&->)|(cs&x&l2&E2&Hx&Hn&->)];
      [done|rewrite zlen_app; change (zlen [cc]) with 1; lia|lia|lia|..].
    + left. exists (cc :: cs), l2. rewrite zlen_cons. split_and!; [done| |lia|done]. by constructor.
    + right. exists (cc :: cs), x, l2. rewrite zlen_cons. split_and!; [|done|lia|done].
      change (c_str (cc :: l1)) with (cc :: c_str l1). by rewrite E2.
  - right. exists [], cc, l'. split_and!; [done| |unfold zlen; simpl; lia|done].
    unfold continuation. intros [?%Z.leb_le ?%Z.ltb_lt].
    apply andb_false_iff in Et as [Et|Et]; congruence.
Qed.

(** ** The number written by a sequence *)

(** The value of a first byte and its continuation bytes. *)
Definition sequence_value (c : Z) (cs : bytes) : Z :=
  match cs with
  | [] => c
  | [c1] => c mod 32 * 64 + c1 mod 64
  | [c1; c2] => c mod 16 * 4096 + c1 mod 64 * 64 + c2 mod 64
  | [c1; c2; c3] => c mod 8 * 262144 + c1 mod 64 * 4096 + c2 mod 64 * 64 + c3 mod 64
  | _ => -1
  end.

(** A first byte and the right number of continuation bytes. *)
Definition well_shaped (c : Z) (cs : bytes) : Prop :=
  Forall continuation cs /\ (0 <= c < 0x80 /\ cs = [] \/ 0xC0 <= c < 0xF8 /\ zlen cs = lead c).

(** The smallest value that needs this length. *)
Definition minimal (c : Z) (cs : bytes) : Prop :=
  match cs with
  | [] => True
  | [_] => 0x80 <= sequence_value c cs
  | [_; _] => 0x800 <= sequence_value c cs
  | _ => 0x10000 <= sequence_value c cs
  end.

Ltac div_lia := Z.to_euclidean_division_equations; lia.

Lemma encode_shape v :
  scalar v ->
  exists c cs, utf8_encode v = c :: cs /\ well_shaped c cs /\ minimal c cs /\ sequence_value c cs = v.
Proof.
  intros [Hv _]. unfold utf8_encode, well_shaped.
  zcase; eexists _, _; (split; [reflexivity|]); unfold minimal, sequence_value; split_and!;
    try (repeat constructor; unfold continuation; div_lia);
    try (left; done);
    try (right; split; [div_lia|unfold lead; zcase; try done; div_lia]);
    try div_lia.
Qed.

(** The lengths of the sequences whose first byte announces at most three others. *)
Lemma well_shaped_cases c cs :
  well_shaped c cs ->
  (0 <= c < 0x80 /\ cs = [])
  \/ (0xC0 <= c < 0xE0 /\ exists c1, cs = [c1] /\ continuation c1)
  \/ (0xE0 <= c < 0xF0 /\ exists c1 c2, cs = [c1; c2] /\ continuation c1 /\ continuation c2)
  \/ (0xF0 <= c < 0xF8 /\ exists c1 c2 c3, cs = [c1; c2; c3] /\ continuation c1 /\ continuation c2
      /\ continuation c3).
Proof.
  intros [Hcs [H|[Hc Hl]]]; [by left|right].
  unfold lead in Hl. revert Hl. zcase; intros Hl; unfold zlen in Hl; [left|right; left|right; right];
    (split; [lia|]); destruct cs as [|c1 [|c2 [|c3 [|]]]]; simpl in Hl; try lia;
    rewrite !Forall_cons in Hcs; destruct_and!; eauto 10.
Qed.

Lemma encode_value c cs :
  well_shaped c cs -> minimal c cs -> sequence_value c cs <= 0x10FFFF ->
  utf8_encode (sequence_value c cs) = c :: cs.
Proof.
  intros Hs Hm Hv.
  destruct (well_shaped_cases c cs Hs)
    as [[? ->]|[(?&c1&->&?)|[(?&c1&c2&->&?&?)|(?&c1&c2&c3&->&?&?&?)]]];
    unfold utf8_encode, minimal, sequence_value, continuation in *; zcase;
    first [exfalso; div_lia | repeat f_equal; div_lia].
Qed.

Lemma encode_inj v v' : scalar v -> scalar v' -> utf8_encode v = utf8_encode v' -> v = v'.
Proof.
  intros Hv Hv' E. destruct (encode_shape v Hv) as (c & cs & E1 & _ & _ & <-).
  destruct (encode_shape v' Hv') as (c' & cs' & E2 & _ & _ & <-). congruence.
Qed.

(** The result before the bits of the first byte, and after. *)
Lemma collect_spec r c :
  0 <= r < 2 ^ 26 -> continuation c ->
  collect r c = r * 64 + c mod 64 /\ 0 <= c mod 64 < 64.
Proof.
  intros Hr Hc. split; [|by apply Z.mod_pos_bound].
  by apply add_six, continuation_byte.
Qed.

Lemma fold_collect cs :
  Forall continuation cs -> zlen cs <= 3 ->
  foldl collect 0 cs = match cs with
    | [c1] => c1 mod 64
    | [c1; c2] => c1 mod 64 * 64 + c2 mod 64
    | [c1; c2; c3] => (c1 mod 64 * 64 + c2 mod 64) * 64 + c3 mod 64
    | _ => 0
    end
  /\ 0 <= foldl collect 0 cs < 2 ^ (6 * zlen cs).
Proof.
  intros Hcs Hl. unfold zlen in *.
  destruct cs as [|c1 [|c2 [|c3 [|]]]]; simpl in Hl; try lia; rewrite ?Forall_cons in Hcs;
    cbn [foldl]; destruct_and?.
  - done.
  - destruct (collect_spec 0 c1) as [-> ?]; [done..|]. cbn [length]. lia.
  - destruct (collect_spec 0 c1) as [-> ?]; [done..|].
    destruct (collect_spec (0 * 64 + c1 mod 64) c2) as [-> ?]; [lia|done|]. cbn [length]. lia.
  - destruct (collect_spec 0 c1) as [-> ?]; [done..|].
    destruct (collect_spec (0 * 64 + c1 mod 64) c2) as [-> ?]; [lia|done|].
    destruct (collect_spec ((0 * 64 + c1 mod 64) * 64 + c2 mod 64) c3) as [-> ?]; [lia|done|].
    cbn [length]. lia.
Qed.

Lemma collect_value c cs :
  is_byte c -> 0x80 <= c -> Forall continuation cs -> zlen cs = lead c -> lead c <= 3 ->
  Z.lor (foldl collect 0 cs) (c mod 2 ^ (6 - lead c) * 2 ^ (6 * lead c))
  = if lead c =? 0 then c mod 64 else sequence_value c cs.
Proof.
  intros Hc H80 Hcs Hl H3. destruct (fold_collect cs Hcs) as [E Hb]; [lia|].
  pose proof (lead_range c). rewrite Hl in Hb.
  rewrite Z.lor_comm, <- Z.shiftl_mul_pow2, lor_low by lia. rewrite E.
  unfold zlen in Hl. destruct cs as [|c1 [|c2 [|c3 [|]]]]; simpl in Hl; try lia; rewrite <- Hl.
  - change (c mod 64 * 1 + 0 = c mod 64). lia.
  - change (c mod 32 * 64 + c1 mod 64 = c mod 32 * 64 + c1 mod 64). lia.
  - change (c mod 16 * 4096 + (c1 mod 64 * 64 + c2 mod 64)
      = c mod 16 * 4096 + c1 mod 64 * 64 + c2 mod 64). lia.
  - change (c mod 8 * 262144 + ((c1 mod 64 * 64 + c2 mod 64) * 64 + c3 mod 64)
      = c mod 8 * 262144 + c1 mod 64 * 4096 + c2 mod 64 * 64 + c3 mod 64). lia.
Qed.

(** ** The decoder *)

Lemma shifted_0 c : is_byte c -> shifted c 0 = c.
Proof. intros. unfold shifted. rewrite Z.shiftl_0_r. apply wrap_u_small. unfold is_byte in *. lia. Qed.

Lemma lead_small c : 0xC0 <= c < 0xF8 -> 1 <= lead c <= 3.
Proof. unfold lead. intros. zcase. Qed.

(** An encoding at the start of some memory that starts with a byte [>= 0x80]. *)
Lemma prefix_shape c m v rest :
  scalar v -> 0x80 <= c -> c :: m = utf8_encode v ++ rest ->
  exists cs, m = cs ++ rest /\ utf8_encode v = c :: cs /\ Forall continuation cs
    /\ zlen cs = lead c /\ 1 <= lead c <= 3 /\ minimal c cs /\ sequence_value c cs = v.
Proof.
  intros Hv Hc E. destruct (encode_shape v Hv) as (c' & cs & Ev & Hs & Hm & Hval).
  rewrite Ev in E. injection E as -> ->. exists cs.
  destruct Hs as [Hcs [[? _]|[? Hl]]]; [lia|].
  pose proof (lead_small c' ltac:(lia)). by rewrite Ev.
Qed.

(** The tests on the length and on the value. *)
Definition acceptable (c : Z) (cs : bytes) : Prop :=
  1 <= lead c <= 3 /\ minimal c cs /\ scalar (sequence_value c cs).

Lemma final_tests c cs :
  is_byte c -> 0x80 <= c -> Forall continuation cs -> zlen cs = lead c -> lead c < 7 ->
  let m :=
    first ← shl_uint (Z.land (shifted c (lead c)) 0x7F) (lead c * 5);
    let res := Z.lor (foldl collect 0 cs) first in
    if (lead c >? 3) || (res >? MAXUNICODE) then Done None
    else
      lim ← mem_get limits (lead c);
      if (res <=? lim) || ((0xd800 <=? res) && (res <=? 0xdfff)) then Done None
      else Done (Some (res, lead c + 1)) in
  m = Done (Some (sequence_value c cs, lead c + 1)) /\ acceptable c cs
  \/ m = Done None /\ ~ acceptable c cs.
Proof.
  intros Hc H80 Hcs Hl H7 m. subst m. rewrite first_bits by done. cbn [mbind outcome_bind]. cbv zeta.
  pose proof (lead_range c) as Hr. unfold acceptable, scalar.
  destruct (Z.gtb_spec (lead c) 3) as [H3|H3]; cbn [orb]; [right; split; [done|]; lia|].
  rewrite collect_value by (done || lia).
  destruct (Z.eqb_spec (lead c) 0) as [E0|E0].
  { right. rewrite E0. pose proof (Z.mod_pos_bound c 64). change (mem_get limits 0) with (Done 0xFF).
    unfold MAXUNICODE. cbn [mbind outcome_bind]. split; [zcase; done|lia]. }
  unfold MAXUNICODE. destruct (Z.gtb_spec (sequence_value c cs) 0x10FFFF) as [Hx|Hx];
    [right; split; [done|lia]|].
  assert (exists lim, mem_get limits (lead c) = Done lim
    /\ (minimal c cs <-> lim < sequence_value c cs) /\ 0 <= lim) as (lim & -> & Hm & Hlim).
  { rewrite <- Hl. unfold zlen in *.
    destruct cs as [|c1 [|c2 [|c3 [|]]]]; simpl in Hl; try lia; eexists; (split; [reflexivity|]);
      unfold minimal; lia. }
  cbn [mbind outcome_bind].
  destruct (Z.leb_spec (sequence_value c cs) lim); cbn [orb]; [right; split; [done|rewrite Hm; lia]|].
  destruct (Z.leb_spec 0xd800 (sequence_value c cs)), (Z.leb_spec (sequence_value c cs) 0xdfff); cbn [andb];
    [right|left..]; (split; [done|]); rewrite ?Hm; lia.
Qed.

Lemma utf8_decode_cases l :
  bytes_ok l ->
  (exists v rest, scalar v /\ c_str l = utf8_encode v ++ rest
    /\ utf8_decode (c_str l) = Done (Some (v, zlen (utf8_encode v))))
  \/ (utf8_decode (c_str l) = Done None /\ (~ exists v rest, scalar v /\ c_str l = utf8_encode v ++ rest)
      /\ ~ ff_sequence l)
  \/ (utf8_decode (c_str l) = Undef BadShift /\ ff_sequence l).
Proof.
  intros Hl. destruct l as [|c l].
  { left. exists 0, []. unfold scalar. split_and!; (done || lia). }
  apply Forall_cons in Hl as [Hc Hl]. change (c_str (c :: l)) with (c :: c_str l).
  unfold utf8_decode. change (mem_get (c :: c_str l) 0) with (Done c). cbn [mbind outcome_bind].
  destruct (Z.ltb_spec c 0x80) as [Hlt|H80].
  { left. exists c, (c_str l). unfold scalar, is_byte in *. split; [lia|].
    unfold utf8_encode. by destruct (Z.ltb_spec c 0x80); [|lia]. }
  pose proof (lead_range c) as Hr.
  pose proof (decode_cont_spec 8 [c] l c 0 0 Hc H80 Hl eq_refl ltac:(lia) ltac:(lia)) as D.
  rewrite shifted_0 in D by done. cbn [app] in D.
  destruct D as [(cs & l' & -> & Hcs & Hn & ->)|(cs & x & l' & El & Hx & Hn & ->)]; cbn [mbind outcome_bind].
  - destruct (Z.eq_dec (lead c) 7) as [E7|E7].
    { right. right. split; [by rewrite E7|]. exists cs, l'. unfold zlen in Hn.
      split_and!; [|lia|done]. f_equal. revert E7. unfold lead, is_byte in *. zcase. }
    pose proof (final_tests c cs Hc H80 Hcs ltac:(lia) ltac:(lia)) as F. cbv zeta in F.
    destruct F as [[-> (H3 & Hm & Hs)]|[-> Hna]].
    + left. exists (sequence_value c cs), (c_str l').
      assert (well_shaped c cs) as Hw.
      { split; [done|]. right. split; [|lia]. revert H3. unfold lead. zcase. }
      rewrite (encode_value c cs Hw Hm) by apply Hs. rewrite zlen_cons.
      split_and!; [done| |by rewrite <- Hn]. unfold c_str. by rewrite <- app_assoc.
    + right. left. split_and!; [done| |by intros (? & ? & [= -> _] & _)].
      intros (v & rest & Hv & E).
      destruct (prefix_shape c _ v rest Hv H80 E) as (cs' & E' & Ev & Hcs' & Hl' & H3 & Hm & Hval).
      assert (cs' = cs) as ->.
      { unfold c_str in E'. rewrite <- app_assoc in E'. apply app_inj_1 in E' as [-> _]; [done|].
        unfold zlen in *. lia. }
      apply Hna. unfold acceptable. by rewrite Hval.
  - right. left.
    assert (forall cs' rest, Forall continuation cs' -> zlen cs' = lead c -> c_str l <> cs' ++ rest) as Hno.
    { intros cs' rest Hcs' Hl' E. rewrite El in E. apply Hx. rewrite Forall_forall in Hcs'. apply Hcs'.
      apply (list_elem_of_lookup_2 _ (length cs)).
      rewrite <- (lookup_app_l _ rest) by (unfold zlen in *; lia). rewrite <- E.
      rewrite lookup_app_r by done. by rewrite Nat.sub_diag. }
    split_and!; [done|..].
    + intros (v & rest & Hv & E).
      destruct (prefix_shape c _ v rest Hv H80 E) as (cs' & E' & _ & Hcs' & Hl' & _). by apply (Hno cs' rest).
    + intros (cs' & rest & [= -> ->] & Hl' & Hcs'). apply (Hno cs' (rest ++ [0])); [done|unfold zlen; by rewrite Hl'|].
      unfold c_str. by rewrite <- app_assoc.
Qed.

(** ** The loop over the string *)

Lemma encode_nonempty v : utf8_encode v <> [].
Proof. unfold utf8_encode. repeat case_match; done. Qed.

(** A valid sequence in the memory of a non-empty string does not reach its NUL. *)
Lemma encode_before_nul l v rest :
  l <> [] -> scalar v -> c_str l = utf8_encode v ++ rest -> exists l', l = utf8_encode v ++ l' /\ rest = c_str l'.
Proof.
  intros Hl Hv E. destruct rest as [|x rest _] using rev_ind.
  - exfalso. rewrite app_nil_r in E. destruct (encode_shape v Hv) as (c & cs & Ev & [Hcs _] & _).
    rewrite Ev in E. destruct l as [|c' l]; [done|]. injection E as -> E. fold (c_str l) in E.
    rewrite <- E in Hcs. unfold c_str in Hcs. apply Forall_app in Hcs as [_ [H0 _]%Forall_cons].
    unfold continuation in H0. lia.
  - rewrite app_assoc in E. apply app_inj_tail in E as [-> <-]. by exists rest.
Qed.

Lemma length_encodings vs : (length vs <= length (vs ≫= utf8_encode))%nat.
Proof.
  induction vs as [|v vs IH]; [done|]. cbn [mbind list_bind length] in *. rewrite length_app.
  pose proof (encode_nonempty v). destruct (utf8_encode v); [done|]. simpl. lia.
Qed.

Lemma encode_prefix_inj v v' r r' :
  scalar v -> scalar v' -> utf8_encode v ++ r = utf8_encode v' ++ r' -> v = v' /\ r = r'.
Proof.
  intros Hv Hv' E.
  destruct (encode_shape v Hv) as (c & cs & Ev & Hs & _ & Hval).
  destruct (encode_shape v' Hv') as (c' & cs' & Ev' & Hs' & _ & Hval').
  rewrite Ev, Ev' in E. injection E as -> E.
  assert (length cs = length cs') as El.
  { destruct Hs as [_ [[? ->]|[? Hl]]], Hs' as [_ [[? ->]|[? Hl']]]; [done|lia|lia|].
    unfold zlen in *. lia. }
  apply app_inj_1 in E as [-> ->]; [|done]. split; [congruence|done].
Qed.

Lemma utf8_text_cons v l : scalar v -> utf8_text (utf8_encode v ++ l) <-> utf8_text l.
Proof.
  intros Hv. split.
  - intros ([|v' vs] & Hvs & E).
    { by apply app_nil in E as [?%encode_nonempty _]. }
    apply Forall_cons in Hvs as [Hv' Hvs]. cbn [mbind list_bind] in E. exists vs. split; [done|].
    by apply encode_prefix_inj in E as [_ ->].
  - intros (vs & Hvs & ->). exists (v :: vs). split; [by constructor|done].
Qed.

Definition has_ff_sequence (s : bytes) : Prop := exists a b, s = a ++ b /\ ff_sequence b.

Lemma check_loop_spec fuel p s :
  bytes_ok s -> (S (length s) < fuel)%nat ->
  (exists b, check_loop fuel (p ++ c_str s) (zlen p + zlen s) (zlen p) = Done b /\ (b = true <-> utf8_text s))
  \/ (check_loop fuel (p ++ c_str s) (zlen p + zlen s) (zlen p) = Undef BadShift /\ has_ff_sequence s).
Proof.
  revert p s. induction fuel as [|fuel IH]; intros p s Hs Hf; [lia|]. cbn [check_loop].
  pose proof (zlen_nonneg s). destruct (Z.leb_spec (zlen p) (zlen p + zlen s)); [|lia].
  replace (drop (Z.to_nat (zlen p)) (p ++ c_str s)) with (c_str s)
    by (unfold zlen; by rewrite Nat2Z.id, drop_app_length).
  destruct (utf8_decode_cases s Hs) as [(v & rest & Hv & E & ->)|[(-> & Hn & _)|[-> Hff]]]; cbn [mbind outcome_bind].
  - destruct (decide (s = [])) as [->|Hne].
    { left. exists true. destruct fuel as [|fuel]; [simpl in Hf; lia|]. cbn [check_loop].
      destruct (encode_shape v Hv) as (c & cs & Ev & _). rewrite Ev, zlen_cons.
      pose proof (zlen_nonneg cs). change (zlen (@nil Z)) with 0. zcase.
      split; [done|]. split; [|done]. intros _. by exists []. }
    destruct (encode_before_nul s v rest Hne Hv E) as (s' & -> & ->).
    apply Forall_app in Hs as [_ Hs]. clear Hne E.
    assert (0 < length (utf8_encode v))%nat as Hp.
    { pose proof (encode_nonempty v). destruct (utf8_encode v); [done|simpl; lia]. }
    rewrite length_app in Hf. specialize (IH (p ++ utf8_encode v) s' Hs ltac:(lia)).
    rewrite !zlen_app in *. unfold c_str in *. rewrite <- !app_assoc, <- Z.add_assoc in *.
    destruct IH as [(b & -> & Hb)|(-> & a & b & -> & Hff)].
    + left. exists b. split; [done|]. by rewrite utf8_text_cons.
    + right. split; [done|]. exists (utf8_encode v ++ a), b. by rewrite app_assoc.
  - left. exists false. split; [done|]. split; [done|]. intros ([|v vs] & Hvs & ->); exfalso; apply Hn.
    + exists 0, []. split; [unfold scalar; lia|done].
    + apply Forall_cons in Hvs as [Hv _]. exists v, (c_str (vs ≫= utf8_encode)). split; [done|].
      unfold c_str. cbn [mbind list_bind]. by rewrite <- app_assoc.
  - right. split; [done|]. by exists [], s.
Qed.

(** A valid sequence is decoded wherever it is. *)
Lemma utf8_decode_here v l rest :
  bytes_ok l -> scalar v -> c_str l = utf8_encode v ++ rest ->
  utf8_decode (c_str l) = Done (Some (v, zlen (utf8_encode v))).
Proof.
  intros Hl Hv E.
  destruct (utf8_decode_cases l Hl) as [(v' & rest' & Hv' & E' & ->)|[(_ & Hn & _)|[_ Hff]]].
  - rewrite E in E'. by apply encode_prefix_inj in E' as [-> _].
  - destruct Hn. by eauto.
  - destruct Hff as (cs & m & -> & _).
    destruct (prefix_shape 255 _ v rest Hv ltac:(lia) E) as (? & _ & _ & _ & _ & [_ H3] & _).
    by destruct H3.
Qed.

Lemma check_loop_ff vs fuel p cs rest :
  Forall scalar vs -> length cs = 7%nat -> Forall continuation cs ->
  bytes_ok ((vs ≫= utf8_encode) ++ 255 :: cs ++ rest) -> (length vs < fuel)%nat ->
  let s := (vs ≫= utf8_encode) ++ 255 :: cs ++ rest in
  check_loop fuel (p ++ c_str s) (zlen p + zlen s) (zlen p) = Undef BadShift.
Proof.
  intros Hvs Hcl Hcs. revert fuel p. induction Hvs as [|v vs Hv Hvs IH]; intros fuel p Hs Hf s.
  all: destruct fuel as [|fuel]; [simpl in Hf; lia|]; cbn [check_loop];
    pose proof (zlen_nonneg s); destruct (Z.leb_spec (zlen p) (zlen p + zlen s)); [|lia];
    replace (drop (Z.to_nat (zlen p)) (p ++ c_str s)) with (c_str s)
      by (unfold zlen; by rewrite Nat2Z.id, drop_app_length).
  - assert (ff_sequence s) as Hff by (by exists cs, rest).
    destruct (utf8_decode_cases s Hs) as [(v' & rest' & Hv' & E' & _)|[(_ & _ & Hn)|[-> _]]]; [|done..].
    destruct (prefix_shape 255 _ v' rest' Hv' ltac:(lia) E') as (? & _ & _ & _ & _ & [_ H3] & _).
    by destruct H3.
  - unfold s in *. clear s. cbn [mbind list_bind] in *. rewrite <- !app_assoc in *.
    set (s' := (vs ≫= utf8_encode) ++ 255 :: cs ++ rest) in *.
    rewrite (utf8_decode_here v _ (c_str s')) by (done || unfold c_str; by rewrite <- app_assoc).
    apply Forall_app in Hs as [_ Hs].
    specialize (IH fuel (p ++ utf8_encode v) Hs). cbn [mbind outcome_bind].
    rewrite !zlen_app in *. unfold c_str in *. rewrite <- !app_assoc in *. rewrite Z.add_assoc.
    apply IH. simpl in Hf. lia.
Qed.

(** The result of the two functions, from the only string check they have in common. *)
Section handler_lemmas.
Context `{LuaAux}.

Lemma check_utf8_spec s L :
  lua_string s ->
  (exists r, check_utf8 (VStr s :: L) 1 = Done r /\ (utf8_text s /\ r = Some s \/ ~ utf8_text s /\ r = None))
  \/ (check_utf8 (VStr s :: L) 1 = Undef BadShift /\ has_ff_sequence s).
Proof.
  intros Hs. unfold check_utf8. rewrite (checklstring_str _ 1 s) by done. cbn [mbind outcome_bind].
  destruct (check_loop_spec (S (S (length s))) [] s (proj1 Hs) ltac:(lia)) as [(b & E & Hb)|[E Hff]];
    cbn [app] in E; change (zlen (@nil Z)) with 0 in E; rewrite Z.add_0_l in E; rewrite E;
    cbn [mbind outcome_bind]; [left|by right].
  eexists; split; [done|]. destruct b; [left|right]; (split; [|done]); intuition congruence.
Qed.

End handler_lemmas.

(** ** Properties *)

Section properties.
Context `{LuaAux}.

(** [utf8_decode] is the inverse of the encoding table of RFC 3629: at any position of
    a string it returns the code point [v] and the length [n] exactly when [v] is a Unicode
    scalar value (no surrogate, nothing above U+10FFFF) and the memory starts with its
    shortest-form encoding of [n] bytes. *)
Theorem utf8_decode_inverts_table l v n :
  bytes_ok l ->
  utf8_decode (c_str l) = Done (Some (v, n))
  <-> scalar v /\ n = zlen (utf8_encode v) /\ exists rest, c_str l = utf8_encode v ++ rest.
Proof.
  intros Hl. split.
  - destruct (utf8_decode_cases l Hl) as [(v' & rest & Hv & E & ->)|[(-> & _)|[-> _]]]; [|done..].
    intros [= <- <-]. by eauto.
  - intros (Hv & -> & rest & E). by apply (utf8_decode_here v l rest).
Qed.

(** C8. On every string the check of [utf8.valid] terminates and never reads beyond the NUL
    behind the string, and it returns true exactly for the concatenations of encoded Unicode
    scalar values (embedded NULs included).  The one exception are strings that contain the
    byte 0xFF followed by seven continuation bytes, which are no text: on these it can,
    instead of returning, shift an [unsigned int] by 35 bits, which is undefined
    ([utf8_ff_undefined]). *)
Theorem utf8_valid_iff_text s L :
  lua_string s ->
  (exists b, Lutf8_valid (VStr s :: L) = Done [VBool b] /\ (b = true <-> utf8_text s)) \/
  (Lutf8_valid (VStr s :: L) = Undef BadShift /\ has_ff_sequence s).
Proof.
  intros Hs. unfold Lutf8_valid.
  destruct (check_utf8_spec s L Hs) as [(r & -> & Hr)|[-> ?]]; [left|by right]. cbn [mbind outcome_bind].
  eexists; split; [done|]. rewrite bool_decide_eq_true. destruct Hr as [[? ->]|[? ->]]; naive_solver.
Qed.

(** [utf8.length] returns the number of bytes of a valid string (not of its
    characters), and nil with a message for any other string without that sequence. *)
Theorem utf8_length_bytes s L :
  lua_string s -> ~ has_ff_sequence s ->
  (utf8_text s -> Lutf8_length (VStr s :: L) = Done [VInt (zlen s)]) /\
  (~ utf8_text s -> Lutf8_length (VStr s :: L) = Done [VNil; literal "invalid utf8"]).
Proof.
  intros Hs Hff. unfold Lutf8_length.
  destruct (check_utf8_spec s L Hs) as [(r & -> & Hr)|[_ ?]]; [|done]. cbn [mbind outcome_bind].
  destruct Hr as [[? ->]|[? ->]]; by split.
Qed.

(** The excluded sequence does leave the C standard: on 0xFF and seven continuation
    bytes, anywhere after valid text, both functions shift an [unsigned int] by 35. *)
Theorem utf8_ff_undefined vs cs rest L :
  Forall scalar vs -> length cs = 7%nat -> Forall continuation cs -> bytes_ok rest ->
  lua_string ((vs ≫= utf8_encode) ++ 255 :: cs ++ rest) ->
  Lutf8_valid (VStr ((vs ≫= utf8_encode) ++ 255 :: cs ++ rest) :: L) = Undef BadShift.
Proof.
  intros Hvs Hcl Hcs Hrest Hs. unfold Lutf8_valid, check_utf8.
  rewrite (checklstring_str _ 1 (_ ++ _)) by done. cbn [mbind outcome_bind].
  pose proof (check_loop_ff vs (S (S (length ((vs ≫= utf8_encode) ++ 255 :: cs ++ rest)))) [] cs rest) as E.
  cbv zeta in E. cbn [app] in E. change (zlen (@nil Z)) with 0 in E. rewrite Z.add_0_l in E.
  rewrite E; [done..|apply Hs|].
  rewrite length_app. pose proof (length_encodings vs). lia.
Qed.

End properties.

(** ** Witnesses *)

(** U+10FFFF and a NUL. *)
Lemma utf8_decode_inverts_table_witness :
  bytes_ok [0xF4; 0x8F; 0xBF; 0xBF; 0] /\
  utf8_decode (c_str [0xF4; 0x8F; 0xBF; 0xBF; 0]) = Done (Some (0x10FFFF, 4)).
Proof.
  assert (bytes_ok [0xF4; 0x8F; 0xBF; 0xBF; 0]) as Hs by by_decision.
  split; [exact Hs|]. apply (utf8_decode_inverts_table _ 0x10FFFF 4 Hs).
  split; [unfold scalar; lia|]. split; [done|]. by exists [0; 0].
Defined.

Lemma no_ff_sequence s : Forall (fun c => c <> 255) s -> ~ has_ff_sequence s.
Proof.
  intros Hs (a & b & -> & cs & rest & -> & _). apply Forall_app in Hs as [_ [Hc _]%Forall_cons]. done.
Qed.

Lemma utf8_valid_iff_text_witness :
  lua_string [0xC3; 0xA9] /\ ~ has_ff_sequence [0xC3; 0xA9] /\
  exists b, Lutf8_valid (H := lua_strict) [VStr [0xC3; 0xA9]] = Done [VBool b]
    /\ (b = true <-> utf8_text [0xC3; 0xA9]).
Proof.
  assert (lua_string [0xC3; 0xA9]) as Hs by by_decision.
  assert (~ has_ff_sequence [0xC3; 0xA9]) as Hff by (apply no_ff_sequence; by_decision).
  split; [exact Hs|]. split; [exact Hff|].
  destruct (utf8_valid_iff_text (H := lua_strict) [0xC3; 0xA9] [] Hs) as [R|[_ F]]; [exact R|by destruct (Hff F)].
Defined.

(** U+00E9 has one character and length 2. *)
Lemma utf8_length_bytes_witness :
  Lutf8_length (H := lua_strict) [VStr [0xC3; 0xA9]] = Done [VInt 2].
Proof.
  apply (utf8_length_bytes (H := lua_strict) [0xC3; 0xA9] []).
  - by_decision.
  - apply no_ff_sequence. by_decision.
  - exists [0xE9]. split; [|done]. repeat constructor; lia.
Defined.

Lemma utf8_ff_undefined_witness :
  Lutf8_valid (H := lua_strict) [VStr [0x41; 255; 128; 128; 128; 128; 128; 128; 128]] = Undef BadShift.
Proof.
  apply (utf8_ff_undefined (H := lua_strict) [0x41] (replicate 7 128) [] []).
  - repeat constructor; lia.
  - done.
  - repeat constructor; unfold continuation; lia.
  - constructor.
  - by_decision.
Defined.
