(* ===== verification/Stringprep.v ===== *)
(** * What util-src/encodings.c asks of a stringprep library

    [encodings.c] is compiled against ICU (file Icu) or against libidn (file Libidn).  This
    file states what both are expected to implement: the preparation of a string of code
    points by a profile of RFC 3454, and what the Lua functions must return for it. *)

From stdpp Require Import base tactics numbers list strings.
From Stdlib Require Import ZArith Lia.
From S2P Require Import Prelude LuaApi Utf8.

Local Open Scope Z_scope.

Inductive profile := nameprep | nodeprep | resourceprep | saslprep.

#[export] Instance profile_eq_dec : EqDecision profile.
Proof. solve_decision. Defined.

(** Preparation by a profile: mapping, normalisation, prohibited and bidirectional checks;
    the flag allows unassigned code points.  None of the mappings of RFC 3454 produces a
    surrogate or U+0000. *)
Class Rfc3454 := {
  prepare : profile -> bool -> list Z -> option (list Z);
  prepare_scalar p u vs ws : Forall scalar vs -> prepare p u vs = Some ws -> Forall scalar ws;
  prepare_no_nul p u vs ws : 0 ∉ vs -> prepare p u vs = Some ws -> 0 ∉ ws;
}.

(** The UTF-8 text of some code points. *)
Definition utf8 (vs : list Z) : bytes := vs ≫= utf8_encode.

(** The UTF-16 code units of some code points. *)
Definition utf16_encode (v : Z) : list Z :=
  if v <? 0x10000 then [v]
  else [0xD800 + (v - 0x10000) / 1024; 0xDC00 + (v - 0x10000) mod 1024].

Definition utf16 (vs : list Z) : list Z := vs ≫= utf16_encode.

(** The second argument, [strict]: absent, nil or a boolean. *)
Definition strict_arg (L : list value) : option bool :=
  match lua_arg L 2 with
  | None | Some VNil => Some false
  | Some (VBool b) => Some b
  | Some _ => None
  end.

(** The value that a stringprep function returns for the text of [vs]: the prepared text,
    when it has less than 1024 bytes. *)
Definition stringprep_result `{Rfc3454} (p : profile) (strict : bool) (vs : list Z) : value :=
  match prepare p (negb strict) vs with
  | Some ws => if zlen (utf8 ws) <? 1024 then VStr (utf8 ws) else pushfail
  | None => pushfail
  end.

(** ** Sizes *)

Lemma zlen_utf8_cons v vs : zlen (utf8 (v :: vs)) = zlen (utf8_encode v) + zlen (utf8 vs).
Proof. apply zlen_app. Qed.

Lemma zlen_utf16_cons v vs : zlen (utf16 (v :: vs)) = zlen (utf16_encode v) + zlen (utf16 vs).
Proof. apply zlen_app. Qed.

(** A text never has more UTF-16 units than UTF-8 bytes. *)
Lemma zlen_utf16_utf8 vs : zlen (utf16 vs) <= zlen (utf8 vs).
Proof.
  induction vs as [|v vs IH]; [done|]. rewrite zlen_utf16_cons, zlen_utf8_cons.
  assert (zlen (utf16_encode v) <= zlen (utf8_encode v)); [|lia].
  unfold utf16_encode, utf8_encode. zcase; by vm_compute.
Qed.

(** ** NULs *)

Lemma encode_nul v : scalar v -> 0 ∈ utf8_encode v -> v = 0.
Proof.
  intros [Hv _]. unfold utf8_encode. zcase; rewrite ?elem_of_cons, ?elem_of_nil; intros; div_lia.
Qed.

Lemma utf8_nul vs : Forall scalar vs -> 0 ∈ utf8 vs -> 0 ∈ vs.
Proof.
  intros Hvs (v & Hin & Hv)%list_elem_of_bind. rewrite Forall_forall in Hvs.
  apply encode_nul in Hin as ->; [done|]. by apply Hvs.
Qed.

Lemma utf8_bytes vs : Forall scalar vs -> bytes_ok (utf8 vs).
Proof.
  intros Hvs. apply Forall_bind. eapply Forall_impl; [exact Hvs|]. intros v [Hv _].
  change (Forall is_byte (utf8_encode v)). unfold utf8_encode. zcase; repeat constructor; unfold is_byte; div_lia.
Qed.

Lemma nul_utf8 vs : 0 ∈ vs -> 0 ∈ utf8 vs.
Proof. intros Hv. apply list_elem_of_bind. exists 0. split; [|done]. apply list_elem_of_singleton. done. Qed.

(** ** A concrete preparation, and decoders, for the instances of the libraries *)

(** A profile that maps A-Z to a-z and, when asked to, refuses the noncharacters
    U+FFFE and U+FFFF. *)
Definition lower (v : Z) : Z := if (65 <=? v) && (v <=? 90) then v + 32 else v.

Definition assigned (v : Z) : bool := negb ((v =? 0xFFFE) || (v =? 0xFFFF)).

Definition prepare_lower (p : profile) (unassigned : bool) (vs : list Z) : option (list Z) :=
  if unassigned || forallb assigned vs then Some (lower <$> vs) else None.

Lemma lower_cases v : lower v = v \/ (65 <= v <= 90 /\ lower v = v + 32).
Proof. unfold lower. zcase; auto. Qed.

Lemma prepare_lower_scalar p u vs ws :
  Forall scalar vs -> prepare_lower p u vs = Some ws -> Forall scalar ws.
Proof.
  unfold prepare_lower. intros Hvs. destruct (_ || _); [|done]. intros [= <-].
  apply Forall_fmap. eapply Forall_impl; [exact Hvs|]. intros v Hv. unfold compose, scalar in *.
  destruct (lower_cases v) as [-> | [? ->]]; lia.
Qed.

Lemma prepare_lower_no_nul p u vs ws : 0 ∉ vs -> prepare_lower p u vs = Some ws -> 0 ∉ ws.
Proof.
  unfold prepare_lower. intros Hvs. destruct (_ || _); [|done].
  intros [= <-] (v & Hv & Hin)%list_elem_of_fmap. apply Hvs.
  destruct (lower_cases v) as [E | [? E]]; [congruence|lia].
Qed.

Definition rfc3454_lower : Rfc3454 := {|
  prepare := prepare_lower;
  prepare_scalar := prepare_lower_scalar;
  prepare_no_nul := prepare_lower_no_nul;
|}.

(** The code points of a UTF-8 text. *)
Fixpoint utf8_points (fuel : nat) (l : bytes) : option (list Z) :=
  match l, fuel with
  | [], _ => Some []
  | _, O => None
  | _, S fuel =>
      match utf8_decode (c_str l) with
      | Done (Some (v, n)) => cons v <$> utf8_points fuel (drop (Z.to_nat n) l)
      | _ => None
      end
  end.

Lemma utf8_points_text vs fuel :
  Forall scalar vs -> (length vs <= fuel)%nat -> utf8_points fuel (utf8 vs) = Some vs.
Proof.
  intros Hvs. revert fuel. induction Hvs as [|v vs Hv Hvs IH]; intros fuel Hf; [by destruct fuel|].
  destruct fuel as [|fuel]; [simpl in Hf; lia|].
  assert (bytes_ok (utf8 (v :: vs))) as Hb by (apply utf8_bytes; by constructor).
  change (utf8 (v :: vs)) with (utf8_encode v ++ utf8 vs) in *.
  pose proof (utf8_decode_here v _ (c_str (utf8 vs)) Hb Hv (eq_sym (app_assoc _ _ _))) as E.
  pose proof (encode_nonempty v) as Hne.
  destruct (utf8_encode v ++ utf8 vs) as [|c l] eqn:El; [by apply app_nil in El as [? _]|].
  cbn [utf8_points]. rewrite E, <- El. unfold zlen. rewrite Nat2Z.id, drop_app_length, IH; [done|].
  simpl in Hf. lia.
Qed.

Lemma utf8_points_other fuel l : bytes_ok l -> ~ utf8_text l -> utf8_points fuel l = None.
Proof.
  revert l. induction fuel as [|fuel IH]; intros l Hl Hn.
  { destruct l; [destruct Hn; by exists []|done]. }
  destruct l as [|c l]; [destruct Hn; by exists []|]. cbn [utf8_points].
  destruct (utf8_decode_cases (c :: l) Hl) as [(v & rest & Hv & E & ->)|[[-> _]|[-> _]]]; [|done..].
  destruct (encode_before_nul (c :: l) v rest) as (l' & E' & _); [done..|].
  rewrite E' in *. unfold zlen. rewrite Nat2Z.id, drop_app_length, IH; [done| |].
  - by apply Forall_app in Hl as [_ ?].
  - intros Ht. apply Hn. by apply utf8_text_cons.
Qed.

(** The code points of UTF-16 units. *)
Fixpoint utf16_points (u : list Z) : list Z :=
  match u with
  | [] => []
  | x :: u' =>
      if (0xD800 <=? x) && (x <? 0xDC00) then
        match u' with
        | y :: u'' => 0x10000 + (x - 0xD800) * 1024 + (y - 0xDC00) :: utf16_points u''
        | [] => []
        end
      else x :: utf16_points u'
  end.

Lemma utf16_points_text vs : Forall scalar vs -> utf16_points (utf16 vs) = vs.
Proof.
  induction 1 as [|v vs [Hv Hs] Hvs IH]; [done|].
  change (utf16 (v :: vs)) with (utf16_encode v ++ utf16 vs). unfold utf16_encode.
  destruct (Z.ltb_spec v 0x10000); cbn [app utf16_points].
  - zcase; cbn [andb]; by rewrite IH.
  - destruct (Z.leb_spec 0xD800 (0xD800 + (v - 0x10000) / 1024)); [|div_lia].
    destruct (Z.ltb_spec (0xD800 + (v - 0x10000) / 1024) 0xDC00); [|div_lia]. cbn [andb].
    rewrite IH. f_equal. div_lia.
Qed.
