(* ===== verification/Icu.v ===== *)
(** * util-src/encodings.c compiled with USE_STRINGPREP_ICU

    The ICU functions are the fields of the class [Icu]; [IcuSpec] states what their
    documentation says of them, [IcuBounds] only that a successful call reports a length
    within the buffer it filled.  The theorems: every function stays inside its buffers and
    returns at most 1024 bytes, and the stringprep functions return [stringprep_result]; when
    [init_icu] prints nothing, everything it opens is open. *)

From stdpp Require Import base tactics numbers list strings.
From Stdlib Require Import ZArith Lia.
From S2P Require Import Prelude LuaApi Utf8 Stringprep.

Local Open Scope Z_scope.

(** ** The library *)

(** An output buffer is the list of the units written; lengths and [UErrorCode] are ints.
    [u_strFromUTF8 cap src srclen err] reads [srclen] bytes of the memory [src], and the
    other functions take exactly the units they read. *)
Class Icu := {
  USPREP_ALLOW_UNASSIGNED : Z;
  UIDNA_DEFAULT : Z;
  UIDNA_USE_STD3_RULES : Z;
  u_strFromUTF8 : Z -> bytes -> Z -> Z -> list Z * Z * Z;
  usprep_prepare : profile -> list Z -> Z -> Z -> Z -> list Z * Z * Z;
  u_strToUTF8 : Z -> list Z -> Z -> bytes * Z * Z;
  (* options, source, capacity, error: units, length, info.errors, error *)
  uidna_nameToASCII : Z -> list Z -> Z -> Z -> list Z * Z * Z * Z;
  uidna_nameToUnicode : Z -> list Z -> Z -> Z -> list Z * Z * Z * Z;
  uspoof_getSkeleton : Z -> list Z -> Z -> Z -> list Z * Z * Z;
}.

Definition U_ZERO_ERROR : Z := 0.
Definition U_FAILURE (err : Z) : bool := 0 <? err.
Definition U_SUCCESS (err : Z) : bool := err <=? 0.

Section handlers.
Context `{LuaAux, Icu}.
Implicit Types (L : list value).

Definition icu_stringprep_prep L (p : profile) : outcome (list value) :=
  input ← luaL_checklstring L 1;
  let input_len := zlen input in
  if input_len >=? 1024 then Done [pushfail]
  else
    flags ← (if lua_isnoneornil L 2 then Done USPREP_ALLOW_UNASSIGNED
             else _ ← luaL_checktype L 2 LUA_TBOOLEAN;
                  Done (if lua_toboolean L 2 then 0 else USPREP_ALLOW_UNASSIGNED));
    let '(unprepped, unprepped_len, err) :=
      u_strFromUTF8 1024 (c_str input) (cint input_len) U_ZERO_ERROR in
    if U_FAILURE err then Done [pushfail]
    else
      src ← mem_sub unprepped 0 unprepped_len;
      let '(prepped, prepped_len, err) := usprep_prepare p src 1024 flags err in
      if U_FAILURE err then Done [pushfail]
      else
        src ← mem_sub prepped 0 prepped_len;
        let '(output, output_len, err) := u_strToUTF8 1024 src err in
        if U_SUCCESS err && (output_len <? 1024) then
          o ← mem_sub output 0 output_len;
          Done [VStr o]
        else Done [pushfail].

Definition Lstringprep_nameprep L := icu_stringprep_prep L nameprep.
Definition Lstringprep_nodeprep L := icu_stringprep_prep L nodeprep.
Definition Lstringprep_resourceprep L := icu_stringprep_prep L resourceprep.
Definition Lstringprep_saslprep L := icu_stringprep_prep L saslprep.

Definition Reg_stringprep : list (string * (list value -> outcome (list value))) :=
  [("nameprep", Lstringprep_nameprep); ("nodeprep", Lstringprep_nodeprep);
   ("resourceprep", Lstringprep_resourceprep); ("saslprep", Lstringprep_saslprep)].

(** The options of [icu_idna2008], as [init_icu] opens it. *)
Definition init_icu_options : Z := Z.lor UIDNA_DEFAULT UIDNA_USE_STD3_RULES.

Definition Lidna_to_ascii L : outcome (list value) :=
  s ← luaL_checklstring L 1;
  let '(ustr, ulen, err) := u_strFromUTF8 1024 (c_str s) (cint (zlen s)) U_ZERO_ERROR in
  if U_FAILURE err then Done [pushfail]
  else
    src ← mem_sub ustr 0 ulen;
    let '(dest, dest_len, errors, err) := uidna_nameToASCII init_icu_options src 256 err in
    if U_FAILURE err || negb (errors =? 0) then Done [pushfail]
    else
      src ← mem_sub dest 0 dest_len;
      let '(output, output_len, err) := u_strToUTF8 1024 src err in
      if U_SUCCESS err && (output_len <? 1024) then
        o ← mem_sub output 0 output_len;
        Done [VStr o]
      else Done [pushfail].

Definition Lidna_to_unicode L : outcome (list value) :=
  s ← luaL_checklstring L 1;
  let '(ustr, ulen, err) := u_strFromUTF8 1024 (c_str s) (cint (zlen s)) U_ZERO_ERROR in
  if U_FAILURE err then Done [pushfail]
  else
    src ← mem_sub ustr 0 ulen;
    let '(dest, dest_len, errors, err) := uidna_nameToUnicode init_icu_options src 1024 err in
    if U_FAILURE err || negb (errors =? 0) then Done [pushfail]
    else
      src ← mem_sub dest 0 dest_len;
      let '(output, output_len, err) := u_strToUTF8 1024 src err in
      if U_SUCCESS err && (output_len <? 1024) then
        o ← mem_sub output 0 output_len;
        Done [VStr o]
      else Done [pushfail].

Definition Lskeleton L : outcome (list value) :=
  s ← luaL_checklstring L 1;
  let '(ustr, ulen, err) := u_strFromUTF8 1024 (c_str s) (cint (zlen s)) U_ZERO_ERROR in
  if U_FAILURE err then Done [pushfail]
  else
    src ← mem_sub ustr 0 ulen;
    let '(dest, dest_len, err) := uspoof_getSkeleton 0 src 1024 err in
    if U_FAILURE err then Done [pushfail]
    else
      src ← mem_sub dest 0 dest_len;
      let '(output, output_len, err) := u_strToUTF8 1024 src err in
      if U_SUCCESS err then
        o ← mem_sub output 0 output_len;
        Done [VStr o]
      else Done [pushfail].

Definition Reg_idna : list (string * (list value -> outcome (list value))) :=
  [("to_ascii", Lidna_to_ascii); ("to_unicode", Lidna_to_unicode)].

End handlers.

(** ** What the library promises *)

(** A successful call has written the units of the length it reports, within the buffer. *)
Definition filled {A} (cap : Z) (r : list A * Z * Z) : Prop :=
  let '(u, l, e) := r in U_FAILURE e = false -> 0 <= l <= zlen u /\ l <= cap.

Class IcuBounds (I : Icu) := {
  fromUTF8_filled cap s n e : filled cap (u_strFromUTF8 cap s n e);
  prepare_filled p s cap f e : filled cap (usprep_prepare p s cap f e);
  toUTF8_filled cap s e : filled cap (u_strToUTF8 cap s e);
  nameToASCII_filled o s cap e :
    let '(u, l, _, e') := uidna_nameToASCII o s cap e in filled cap (u, l, e');
  nameToUnicode_filled o s cap e :
    let '(u, l, _, e') := uidna_nameToUnicode o s cap e in filled cap (u, l, e');
  skeleton_filled o s cap e : filled cap (uspoof_getSkeleton o s cap e);
}.

(** [out cap units r]: the call succeeded with those units if they fit, and failed if they
    do not (U_BUFFER_OVERFLOW_ERROR). *)
Definition out {A} (cap : Z) (units : list A) (r : list A * Z * Z) : Prop :=
  let '(u, l, e) := r in
  if zlen units <=? cap then U_FAILURE e = false /\ l = zlen units /\ exists tail, u = units ++ tail
  else U_FAILURE e = true.

Definition failed {A} (r : list A * Z * Z) : Prop := let '(_, _, e) := r in U_FAILURE e = true.

Class IcuSpec (I : Icu) (R : Rfc3454) := {
  allow_unassigned : USPREP_ALLOW_UNASSIGNED <> 0;
  fromUTF8_text cap vs :
    Forall scalar vs -> zlen (utf8 vs) <= int_max ->
    out cap (utf16 vs) (u_strFromUTF8 cap (c_str (utf8 vs)) (zlen (utf8 vs)) U_ZERO_ERROR);
  fromUTF8_other cap s :
    bytes_ok s -> ~ utf8_text s -> failed (u_strFromUTF8 cap (c_str s) (zlen s) U_ZERO_ERROR);
  prepare_text p vs cap f e :
    Forall scalar vs -> U_FAILURE e = false ->
    match prepare p (bool_decide (f = USPREP_ALLOW_UNASSIGNED)) vs with
    | Some ws => out cap (utf16 ws) (usprep_prepare p (utf16 vs) cap f e)
    | None => failed (usprep_prepare p (utf16 vs) cap f e)
    end;
  toUTF8_text cap ws e :
    Forall scalar ws -> U_FAILURE e = false -> out cap (utf8 ws) (u_strToUTF8 cap (utf16 ws) e);
}.

(** ** Proofs *)

Lemma success_failure e : U_SUCCESS e = negb (U_FAILURE e).
Proof. unfold U_SUCCESS, U_FAILURE. by rewrite Z.leb_antisym. Qed.

Lemma mem_sub_prefix {A} (u tail : list A) : mem_sub (u ++ tail) 0 (zlen u) = Done u.
Proof.
  rewrite mem_sub_done; [|done|apply zlen_nonneg|rewrite zlen_app; pose proof (zlen_nonneg tail); lia].
  unfold slice. rewrite drop_0. unfold zlen. by rewrite Nat2Z.id, take_app_length.
Qed.

(** A result that is nil or a string of at most [n] bytes. *)
Definition short_result (n : Z) (r : list value) : Prop :=
  r = [pushfail] \/ exists o, r = [VStr o] /\ zlen o <= n.

Section proofs.
Context `{LuaAux, I : Icu}.

(** Reading a filled buffer. *)
Lemma filled_read {A} cap (u : list A) l e :
  filled cap (u, l, e) -> U_FAILURE e = false -> mem_sub u 0 l = Done (slice u 0 l) /\ zlen (slice u 0 l) = l.
Proof.
  intros Hf He. destruct (Hf He) as [[??]?].
  split; [apply mem_sub_done; lia|apply zlen_slice; lia].
Qed.

(** The last step of every function. *)
Definition icu_finish (strict_limit : bool) (src : list Z) (err : Z) : outcome (list value) :=
  let '(output, output_len, err) := u_strToUTF8 1024 src err in
  if (if strict_limit then U_SUCCESS err && (output_len <? 1024) else U_SUCCESS err) then
    o ← mem_sub output 0 output_len;
    Done [VStr o]
  else Done [pushfail].

Lemma icu_finish_safe `{!IcuBounds I} b src err :
  safe (short_result (if b : bool then 1023 else 1024)) (icu_finish b src err).
Proof.
  unfold icu_finish. pose proof (toUTF8_filled 1024 src err) as F.
  destruct (u_strToUTF8 1024 src err) as [[u l] e]. rewrite success_failure.
  destruct (U_FAILURE e) eqn:Ee; cbn [negb andb]; [by destruct b; left|].
  destruct (filled_read _ _ _ _ F Ee) as [-> Hl]. specialize (F Ee).
  destruct b; [destruct (Z.ltb_spec l 1024); [|by left]|];
    right; (eexists; split; [reflexivity|lia]).
Qed.

(** A step that fills a buffer, before what is done with its units. *)
Lemma filled_step {A} cap (r : list A * Z * Z) (k : list A -> Z -> outcome (list value)) P :
  filled cap r -> (forall u e, zlen u <= cap -> U_FAILURE e = false -> safe P (k u e)) -> P [pushfail] ->
  safe P (let '(u, l, e) := r in
          if U_FAILURE e then Done [pushfail] else src ← mem_sub u 0 l; k src e).
Proof.
  destruct r as [[u l] e]. intros F Hk HP. destruct (U_FAILURE e) eqn:Ee; [done|].
  destruct (filled_read _ _ _ _ F Ee) as [-> Hl]. specialize (F Ee). apply Hk; [lia|done].
Qed.

Lemma icu_stringprep_safe `{!IcuBounds I} L p : safe (short_result 1023) (icu_stringprep_prep L p).
Proof.
  unfold icu_stringprep_prep. apply safe_bind; [auto with lua|]. intros input _.
  destruct (zlen input >=? 1024); [by left|]. apply safe_bind.
  { destruct (lua_isnoneornil L 2); [done|]. by pose proof (checktype_defined L 2 LUA_TBOOLEAN); destruct (luaL_checktype _ _ _). }
  intros flags _.
  apply (filled_step 1024 _ (fun src err =>
    let '(prepped, prepped_len, err) := usprep_prepare p src 1024 flags err in
    if U_FAILURE err then Done [pushfail]
    else src ← mem_sub prepped 0 prepped_len; icu_finish true src err));
    [apply fromUTF8_filled| |by left].
  intros u e _ _. apply (filled_step 1024 _ (icu_finish true)); [apply prepare_filled| |by left].
  intros u' e' _ _. apply (icu_finish_safe true).
Qed.

(** The two IDNA functions, for a call that also reports errors in its info. *)
Lemma idna_step_safe `{!IcuBounds I} cap (r : list Z * Z * Z * Z) :
  (let '(u, l, _, e) := r in filled cap (u, l, e)) ->
  safe (short_result 1023)
    (let '(dest, dest_len, errors, err) := r in
     if U_FAILURE err || negb (errors =? 0) then Done [pushfail]
     else src ← mem_sub dest 0 dest_len; icu_finish true src err).
Proof.
  destruct r as [[[u l] errors] e]. intros F. destruct (U_FAILURE e) eqn:Ee; cbn [orb]; [by left|].
  destruct (negb (errors =? 0)); [by left|]. destruct (filled_read _ _ _ _ F Ee) as [-> Hl].
  apply (icu_finish_safe true).
Qed.

Lemma idna_safe `{!IcuBounds I} L :
  safe (short_result 1023) (Lidna_to_ascii L) /\ safe (short_result 1023) (Lidna_to_unicode L).
Proof.
  split; (apply safe_bind; [auto with lua|]; intros s _).
  - apply (filled_step 1024 _ (fun src err =>
      let '(dest, dest_len, errors, err) := uidna_nameToASCII init_icu_options src 256 err in
      if U_FAILURE err || negb (errors =? 0) then Done [pushfail]
      else src ← mem_sub dest 0 dest_len; icu_finish true src err));
      [apply fromUTF8_filled| |by left].
    intros u e _ _. apply (idna_step_safe 256), nameToASCII_filled.
  - apply (filled_step 1024 _ (fun src err =>
      let '(dest, dest_len, errors, err) := uidna_nameToUnicode init_icu_options src 1024 err in
      if U_FAILURE err || negb (errors =? 0) then Done [pushfail]
      else src ← mem_sub dest 0 dest_len; icu_finish true src err));
      [apply fromUTF8_filled| |by left].
    intros u e _ _. apply (idna_step_safe 1024), nameToUnicode_filled.
Qed.

Lemma skeleton_safe `{!IcuBounds I} L : safe (short_result 1024) (Lskeleton L).
Proof.
  apply safe_bind; [auto with lua|]. intros s _.
  apply (filled_step 1024 _ (fun src err =>
    let '(dest, dest_len, err) := uspoof_getSkeleton 0 src 1024 err in
    if U_FAILURE err then Done [pushfail]
    else src ← mem_sub dest 0 dest_len; icu_finish false src err));
    [apply fromUTF8_filled| |by left].
  intros u e _ _. apply (filled_step 1024 _ (icu_finish false)); [apply skeleton_filled| |by left].
  intros u' e' _ _. apply (icu_finish_safe false).
Qed.

(** ** The preparation *)

Lemma strict_arg_flags s L b :
  strict_arg (VStr s :: L) = Some b ->
  (if lua_isnoneornil (VStr s :: L) 2 then Done USPREP_ALLOW_UNASSIGNED
   else _ ← luaL_checktype (VStr s :: L) 2 LUA_TBOOLEAN;
        Done (if lua_toboolean (VStr s :: L) 2 then 0 else USPREP_ALLOW_UNASSIGNED))
  = Done (if b then 0 else USPREP_ALLOW_UNASSIGNED).
Proof.
  unfold strict_arg, lua_isnoneornil, luaL_checktype, lua_toboolean.
  destruct (lua_arg (VStr s :: L) 2) as [[]|]; intros [= <-]; try done.
  rewrite bool_decide_eq_true_2 by done. by destruct b0.
Qed.

Lemma icu_prep_text `{R : Rfc3454, !IcuSpec I R} p vs L b :
  Forall scalar vs -> lua_string (utf8 vs) -> strict_arg (VStr (utf8 vs) :: L) = Some b ->
  zlen (utf8 vs) < 1024 ->
  icu_stringprep_prep (VStr (utf8 vs) :: L) p = Done [stringprep_result p b vs].
Proof.
  intros Hvs Hs Hb Hl. unfold icu_stringprep_prep. rewrite (checklstring_str _ 1 (utf8 vs)) by done.
  cbn [mbind outcome_bind]. rewrite Z.geb_leb. zcase. rewrite (strict_arg_flags _ _ b) by done.
  cbn [mbind outcome_bind]. pose proof (zlen_nonneg (utf8 vs)).
  rewrite int_small by range. pose proof (fromUTF8_text 1024 vs Hvs ltac:(range)) as F.
  destruct (u_strFromUTF8 1024 _ _ _) as [[u l] e]. pose proof (zlen_utf16_utf8 vs).
  unfold out in F. destruct (Z.leb_spec (zlen (utf16 vs)) 1024); [|lia].
  destruct F as (He & -> & tail & ->). rewrite He, mem_sub_prefix. cbn [mbind outcome_bind].
  set (f := if b then 0 else USPREP_ALLOW_UNASSIGNED).
  assert (bool_decide (f = USPREP_ALLOW_UNASSIGNED) = negb b) as Ef.
  { pose proof allow_unassigned. unfold f. destruct b; [apply bool_decide_eq_false|apply bool_decide_eq_true]; congruence. }
  pose proof (prepare_text p vs 1024 f e Hvs He) as P. rewrite Ef in P. unfold stringprep_result.
  destruct (prepare p (negb b) vs) as [ws|] eqn:Hp.
  2:{ destruct (usprep_prepare p (utf16 vs) 1024 f e) as [[u l] e']. by rewrite P. }
  pose proof (prepare_scalar p _ vs ws Hvs Hp) as Hws. pose proof (zlen_utf16_utf8 ws) as H16.
  destruct (usprep_prepare p (utf16 vs) 1024 f e) as [[u l] e']. unfold out in P.
  destruct (Z.leb_spec (zlen (utf16 ws)) 1024).
  2:{ rewrite P. by destruct (Z.ltb_spec (zlen (utf8 ws)) 1024); [lia|]. }
  destruct P as (He' & -> & tail' & ->). rewrite He', mem_sub_prefix. cbn [mbind outcome_bind].
  pose proof (toUTF8_text 1024 ws e' Hws He') as T.
  destruct (u_strToUTF8 1024 (utf16 ws) e') as [[o l] e'']. rewrite success_failure. unfold out in T.
  destruct (Z.leb_spec (zlen (utf8 ws)) 1024).
  - destruct T as (-> & -> & tail'' & ->). cbn [negb andb].
    destruct (Z.ltb_spec (zlen (utf8 ws)) 1024); [by rewrite mem_sub_prefix|done].
  - rewrite T. by destruct (Z.ltb_spec (zlen (utf8 ws)) 1024); [lia|].
Qed.

Lemma icu_prep_other `{R : Rfc3454, !IcuSpec I R} p s L b :
  lua_string s -> strict_arg (VStr s :: L) = Some b -> 1024 <= zlen s \/ ~ utf8_text s ->
  icu_stringprep_prep (VStr s :: L) p = Done [pushfail].
Proof.
  intros Hs Hb Hbad. unfold icu_stringprep_prep. rewrite (checklstring_str _ 1 s) by done.
  cbn [mbind outcome_bind]. rewrite Z.geb_leb. destruct (Z.leb_spec 1024 (zlen s)) as [|Hl]; [done|].
  destruct Hbad as [|Hbad]; [lia|]. rewrite (strict_arg_flags _ _ b) by done.
  cbn [mbind outcome_bind]. pose proof (zlen_nonneg s). rewrite int_small by range.
  pose proof (fromUTF8_other 1024 s (proj1 Hs) Hbad) as F.
  destruct (u_strFromUTF8 1024 _ _ _) as [[u l] e]. by rewrite F.
Qed.

End proofs.

(** ** Properties *)

Section properties.
Context `{LuaAux, I : Icu}.

(** Whatever Lua passes, the ICU functions of util.encodings raise, or return nil or a
    string of at most 1023 bytes (1024 for [skeleton]), and read no buffer beyond what was
    written to it; all that ICU promises here is that successful calls report lengths
    within the capacity they were given. *)
Theorem icu_results_bounded `{!IcuBounds I} L p :
  safe (short_result 1023) (icu_stringprep_prep L p)
  /\ safe (short_result 1023) (Lidna_to_ascii L)
  /\ safe (short_result 1023) (Lidna_to_unicode L)
  /\ safe (short_result 1024) (Lskeleton L).
Proof.
  split; [apply icu_stringprep_safe|]. split; [apply idna_safe|]. split; [apply idna_safe|].
  apply skeleton_safe.
Qed.

(** On ICU each stringprep function implements the preparation of RFC 3454: the UTF-8
    text of less than 1024 bytes of some code points is returned prepared by the profile,
    unassigned code points being refused exactly when the second argument is true, if the
    prepared text is also less than 1024 bytes long; everything else gives nil. *)
Theorem icu_stringprep_correct `{R : Rfc3454, !IcuSpec I R} p s L b :
  lua_string s -> strict_arg (VStr s :: L) = Some b ->
  (forall vs, Forall scalar vs -> s = utf8 vs -> zlen s < 1024 ->
     icu_stringprep_prep (VStr s :: L) p = Done [stringprep_result p b vs])
  /\ (1024 <= zlen s \/ ~ utf8_text s -> icu_stringprep_prep (VStr s :: L) p = Done [pushfail]).
Proof.
  intros Hs Hb. split; [|by apply icu_prep_other with b].
  intros vs Hvs -> Hl. by apply icu_prep_text.
Qed.

End properties.

(** ** A concrete library *)

Definition U_BUFFER_OVERFLOW_ERROR : Z := 15.
Definition U_INVALID_CHAR_FOUND : Z := 10.

(** Fill a buffer of [cap] units, or report that it is too small. *)
Definition fill {A} (cap : Z) (units : list A) : list A * Z * Z :=
  if zlen units <=? cap then (units, zlen units, U_ZERO_ERROR)
  else ([], zlen units, U_BUFFER_OVERFLOW_ERROR).

Definition toy_fromUTF8 (cap : Z) (src : bytes) (n err : Z) : list Z * Z * Z :=
  let s := take (Z.to_nat n) src in
  match utf8_points (length s) s with
  | Some vs => fill cap (utf16 vs)
  | None => ([], 0, U_INVALID_CHAR_FOUND)
  end.

Definition toy_prepare (p : profile) (src : list Z) (cap flags err : Z) : list Z * Z * Z :=
  match prepare_lower p (bool_decide (flags = 1)) (utf16_points src) with
  | Some ws => fill cap (utf16 ws)
  | None => ([], 0, U_INVALID_CHAR_FOUND)
  end.

Definition toy_toUTF8 (cap : Z) (src : list Z) (err : Z) : bytes * Z * Z :=
  fill cap (utf8 (utf16_points src)).

(** Domain names and skeletons are left as they are. *)
Definition toy_icu : Icu := {|
  USPREP_ALLOW_UNASSIGNED := 1;
  UIDNA_DEFAULT := 0;
  UIDNA_USE_STD3_RULES := 2;
  u_strFromUTF8 := toy_fromUTF8;
  usprep_prepare := toy_prepare;
  u_strToUTF8 := toy_toUTF8;
  uidna_nameToASCII o s cap e := let '(u, l, e) := fill cap s in (u, l, 0, e);
  uidna_nameToUnicode o s cap e := let '(u, l, e) := fill cap s in (u, l, 0, e);
  uspoof_getSkeleton o s cap e := fill cap s;
|}.

Lemma fill_filled {A} cap (u : list A) : filled cap (fill cap u).
Proof.
  unfold fill. destruct (Z.leb_spec (zlen u) cap); [|done]. intros _. pose proof (zlen_nonneg u). lia.
Qed.

Lemma fill_out {A} cap (u : list A) : out cap u (fill cap u).
Proof.
  unfold fill, out. destruct (zlen u <=? cap) eqn:E; [|done].
  split_and!; [done..|]. exists []. by rewrite app_nil_r.
Qed.

Lemma toy_icu_bounds : IcuBounds toy_icu.
Proof.
  split; simpl; intros.
  - unfold toy_fromUTF8. case_match; [apply fill_filled|done].
  - unfold toy_prepare. case_match; [apply fill_filled|done].
  - apply fill_filled.
  - pose proof (fill_filled cap s) as F. by destruct (fill cap s) as [[??]?].
  - pose proof (fill_filled cap s) as F. by destruct (fill cap s) as [[??]?].
  - apply fill_filled.
Qed.

Lemma take_c_str s : take (Z.to_nat (zlen s)) (c_str s) = s.
Proof. unfold zlen, c_str. by rewrite Nat2Z.id, take_app_length. Qed.

Lemma toy_icu_spec : IcuSpec toy_icu rfc3454_lower.
Proof.
  split; simpl.
  - done.
  - intros cap vs Hvs _. unfold toy_fromUTF8. rewrite take_c_str, utf8_points_text; [apply fill_out|done|].
    apply length_encodings.
  - intros cap s Hs Hn. unfold toy_fromUTF8. by rewrite take_c_str, utf8_points_other.
  - intros p vs cap f e Hvs _. unfold toy_prepare. rewrite utf16_points_text by done.
    destruct (prepare_lower _ _ vs); [apply fill_out|done].
  - intros cap ws e Hws _. unfold toy_toUTF8. rewrite utf16_points_text by done. apply fill_out.
Qed.

(** ** Witnesses *)

Lemma icu_results_bounded_witness :
  safe (short_result 1023)
    (icu_stringprep_prep (H := lua_strict) (H0 := toy_icu) [VStr [74; 117; 0xC3; 0xA9]; VBool true] nodeprep).
Proof.
  exact (proj1 (icu_results_bounded (H := lua_strict) (I := toy_icu) (IcuBounds0 := toy_icu_bounds)
    [VStr [74; 117; 0xC3; 0xA9]; VBool true] nodeprep)).
Defined.

(** "Ju\u00e9" is prepared to "ju\u00e9". *)
Lemma icu_stringprep_correct_witness :
  lua_string [74; 117; 0xC3; 0xA9] /\
  icu_stringprep_prep (H := lua_strict) (H0 := toy_icu) [VStr [74; 117; 0xC3; 0xA9]; VBool true] nodeprep
  = Done [VStr [106; 117; 0xC3; 0xA9]].
Proof.
  assert (lua_string [74; 117; 0xC3; 0xA9]) as Hs by by_decision.
  split; [exact Hs|].
  apply (proj1 (icu_stringprep_correct (H := lua_strict) (I := toy_icu) (R := rfc3454_lower)
    (IcuSpec0 := toy_icu_spec) nodeprep [74; 117; 0xC3; 0xA9] [VBool true] true Hs eq_refl) [74; 117; 0xE9]).
  - repeat constructor; unfold scalar; lia.
  - done.
  - by_decision.
Defined.

(** ** Opening ICU *)

(** What [init_icu] calls: an object or NULL, and the error code after the call. *)
Class IcuOpen := {
  icu_object : Type;
  usprep_openByType : profile -> Z -> option icu_object * Z;
  uspoof_open : Z -> option icu_object * Z;
  uspoof_setChecks : option icu_object -> Z -> Z;      (* USPOOF_CONFUSABLE *)
  uidna_openUTS46 : Z -> Z -> option icu_object * Z;
  u_errorName : Z -> bytes;
}.

(** The static variables. *)
Record icu_statics `{IcuOpen} := {
  icu_nameprep : option icu_object;
  icu_nodeprep : option icu_object;
  icu_resourceprep : option icu_object;
  icu_saslprep : option icu_object;
  icu_spoofcheck : option icu_object;
  icu_idna2008 : option icu_object;
}.

(** The statics, and what is printed to stderr. *)
Definition init_icu `{Icu, IcuOpen} : icu_statics * option bytes :=
  let err := U_ZERO_ERROR in
  let '(icu_nameprep, err) := usprep_openByType nameprep err in
  let '(icu_nodeprep, err) := usprep_openByType nodeprep err in
  let '(icu_resourceprep, err) := usprep_openByType resourceprep err in
  let '(icu_saslprep, err) := usprep_openByType saslprep err in
  let '(icu_spoofcheck, err) := uspoof_open err in
  let err := uspoof_setChecks icu_spoofcheck err in
  let '(icu_idna2008, err) := uidna_openUTS46 init_icu_options err in
  ({| icu_nameprep := icu_nameprep; icu_nodeprep := icu_nodeprep; icu_resourceprep := icu_resourceprep;
      icu_saslprep := icu_saslprep; icu_spoofcheck := icu_spoofcheck; icu_idna2008 := icu_idna2008 |},
   if U_FAILURE err then Some (string_bytes "[c] util.encodings: error: " ++ u_errorName err ++ [10]) else None).

(** A call with an error code that is a failure does nothing but keep it, and one that does
    not fail gives an object. *)
Class IcuOpenSpec (I : IcuOpen) := {
  openByType_ok p err : let r := usprep_openByType p err in
    if U_FAILURE err then r = (None, err) else U_FAILURE r.2 = false -> is_Some r.1;
  spoof_open_ok err : let r := uspoof_open err in
    if U_FAILURE err then r = (None, err) else U_FAILURE r.2 = false -> is_Some r.1;
  setChecks_ok sc err : U_FAILURE err = true -> uspoof_setChecks sc err = err;
  openUTS46_ok options err : let r := uidna_openUTS46 options err in
    if U_FAILURE err then r = (None, err) else U_FAILURE r.2 = false -> is_Some r.1;
}.

(** When nothing is printed everything is open: an error of any of the calls reaches the
    test at the end. *)
Lemma init_icu_silent `{Icu} (I : IcuOpen) `{!IcuOpenSpec I} st :
  init_icu = (st, None) ->
  is_Some (icu_nameprep st) /\ is_Some (icu_nodeprep st) /\ is_Some (icu_resourceprep st) /\
  is_Some (icu_saslprep st) /\ is_Some (icu_spoofcheck st) /\ is_Some (icu_idna2008 st).
Proof.
  unfold init_icu.
  pose proof (openByType_ok nameprep U_ZERO_ERROR) as H1. destruct (usprep_openByType nameprep _) as [o1 e1].
  pose proof (openByType_ok nodeprep e1) as H2. destruct (usprep_openByType nodeprep _) as [o2 e2].
  pose proof (openByType_ok resourceprep e2) as H3. destruct (usprep_openByType resourceprep _) as [o3 e3].
  pose proof (openByType_ok saslprep e3) as H4. destruct (usprep_openByType saslprep _) as [o4 e4].
  pose proof (spoof_open_ok e4) as H5. destruct (uspoof_open _) as [o5 e5].
  pose proof (setChecks_ok o5 e5) as H6.
  pose proof (openUTS46_ok init_icu_options (uspoof_setChecks o5 e5)) as H7. destruct (uidna_openUTS46 _ _) as [o6 e6].
  cbn [fst snd] in *. destruct (U_FAILURE e6) eqn:E6; [done|]. intros [= <-]. cbn.
  destruct (U_FAILURE (uspoof_setChecks o5 e5)) eqn:E; [injection H7 as -> ->; by rewrite E in E6|].
  destruct (U_FAILURE e5) eqn:E5; [by rewrite H6, E5 in E|].
  destruct (U_FAILURE e4) eqn:E4; [injection H5 as -> ->; by rewrite E4 in E5|].
  destruct (U_FAILURE e3) eqn:E3; [injection H4 as -> ->; by rewrite E3 in E4|].
  destruct (U_FAILURE e2) eqn:E2; [injection H3 as -> ->; by rewrite E2 in E3|].
  destruct (U_FAILURE e1) eqn:E1; [injection H2 as -> ->; by rewrite E1 in E2|].
  split_and!; auto.
Qed.

(** An ICU without data opens nothing, and [init_icu] says so. *)
Definition bare_icu : IcuOpen := {|
  icu_object := unit;
  usprep_openByType _ err := if U_FAILURE err then (None, err) else (None, 2);
  uspoof_open err := if U_FAILURE err then (None, err) else (Some tt, err);
  uspoof_setChecks _ err := err;
  uidna_openUTS46 _ err := if U_FAILURE err then (None, err) else (Some tt, err);
  u_errorName _ := string_bytes "U_FILE_ACCESS_ERROR";
|}.

(** An ICU that opens everything. *)
Definition full_icu : IcuOpen := {|
  icu_object := unit;
  usprep_openByType _ err := if U_FAILURE err then (None, err) else (Some tt, err);
  uspoof_open err := if U_FAILURE err then (None, err) else (Some tt, err);
  uspoof_setChecks _ err := err;
  uidna_openUTS46 _ err := if U_FAILURE err then (None, err) else (Some tt, err);
  u_errorName _ := string_bytes "U_ZERO_ERROR";
|}.

Lemma bare_icu_spec : IcuOpenSpec bare_icu.
Proof. split; intros *; cbn; try destruct (U_FAILURE err) eqn:E; cbn; rewrite ?E; done. Qed.

Lemma full_icu_spec : IcuOpenSpec full_icu.
Proof. split; intros *; cbn; try destruct (U_FAILURE err) eqn:E; cbn; rewrite ?E; done. Qed.

Example init_icu_bare :
  (init_icu (H := toy_icu) (H0 := bare_icu)).2
  = Some (string_bytes "[c] util.encodings: error: U_FILE_ACCESS_ERROR" ++ [10]).
Proof. by vm_compute. Qed.

Lemma init_icu_silent_witness :
  exists st, init_icu (H := toy_icu) (H0 := full_icu) = (st, None) /\ is_Some (icu_idna2008 (H := full_icu) st).
Proof.
  eexists. split; [by vm_compute|].
  refine (proj2 (proj2 (proj2 (proj2 (proj2 (init_icu_silent (H := toy_icu) full_icu (IcuOpenSpec0 := full_icu_spec) _ _)))))).
  by vm_compute.
Defined.
