(* ===== verification/Libidn.v ===== *)
(** * util-src/encodings.c compiled against GNU libidn

    libidn works on NUL-terminated strings: [stringprep] in place in the caller's buffer,
    the IDNA functions with an output they allocate.  They are the fields of the class
    [Libidn]; [LibidnSpec] states that [stringprep] implements RFC 3454.  The theorems: the
    stringprep functions return [stringprep_result], as the ICU ones do for strings without
    NUL. *)

From stdpp Require Import base tactics numbers list strings.
From Stdlib Require Import ZArith Lia.
From S2P Require Import Prelude LuaApi Utf8 Stringprep Icu.

Local Open Scope Z_scope.

(** [stringprep buffer maxlen flags profile]: the return code and the buffer after the
    call.  The IDNA functions take the characters of a NUL-terminated string and return a
    code and the output, NULL or the characters of another one. *)
Class Libidn := {
  STRINGPREP_OK : Z;
  STRINGPREP_NO_UNASSIGNED : Z;
  IDNA_SUCCESS : Z;
  IDNA_USE_STD3_ASCII_RULES : Z;
  stringprep : bytes -> Z -> Z -> profile -> Z * bytes;
  idna_to_ascii_8z : bytes -> Z -> Z * option bytes;
  idna_to_unicode_8z8z : bytes -> Z -> Z * option bytes;
}.

Definition strlen (s : bytes) : Z := zlen (until_nul s).

(** [strcpy(dst, src)], with the NUL of [src]. *)
Definition strcpy (dst src : bytes) : outcome bytes :=
  let n := strlen src + 1 in
  if n <=? zlen dst then Done (until_nul src ++ 0 :: drop (Z.to_nat n) dst)
  else Undef OutOfBounds.

(** [lua_pushstring] of a buffer and of a pointer that may be NULL. *)
Definition push_buffer (m : bytes) : outcome value :=
  if strlen m <? zlen m then Done (VStr (until_nul m)) else Undef OutOfBounds.

Definition push_cstring (s : option bytes) : value :=
  match s with Some s => VStr s | None => VNil end.

Section handlers.
Context `{LuaAux, Libidn}.
Implicit Types (L : list value).

(** [string] is the uninitialised buffer of 1024 bytes. *)
Definition stringprep_prep (string : bytes) L (p : profile) : outcome (list value) :=
  s ← check_utf8 L 1;
  flags ← (if lua_isnoneornil L 2 then Done 0
           else _ ← luaL_checktype L 2 LUA_TBOOLEAN;
                Done (if lua_toboolean L 2 then STRINGPREP_NO_UNASSIGNED else 0));
  match s with
  | None => Done [pushfail]
  | Some s =>
      let len := zlen s in
      if (len >=? 1024) || negb (len =? strlen (c_str s)) then Done [pushfail]
      else
        string ← strcpy string (c_str s);
        let '(ret, string) := stringprep string 1024 flags p in
        if ret =? STRINGPREP_OK then
          v ← push_buffer string;
          Done [v]
        else Done [pushfail]
  end.

Definition Lstringprep_nameprep buf L := stringprep_prep buf L nameprep.
Definition Lstringprep_nodeprep buf L := stringprep_prep buf L nodeprep.
Definition Lstringprep_resourceprep buf L := stringprep_prep buf L resourceprep.
Definition Lstringprep_saslprep buf L := stringprep_prep buf L saslprep.

Definition Reg_stringprep (buf : bytes) : list (string * (list value -> outcome (list value))) :=
  [("nameprep", Lstringprep_nameprep buf); ("nodeprep", Lstringprep_nodeprep buf);
   ("resourceprep", Lstringprep_resourceprep buf); ("saslprep", Lstringprep_saslprep buf)].

Definition Lidna_to_ascii L : outcome (list value) :=
  s ← check_utf8 L 1;
  match s with
  | None => Done [pushfail]
  | Some s =>
      if negb (zlen s =? strlen (c_str s)) then Done [pushfail]
      else
        let '(ret, output) := idna_to_ascii_8z (until_nul (c_str s)) IDNA_USE_STD3_ASCII_RULES in
        if ret =? IDNA_SUCCESS then Done [push_cstring output] else Done [pushfail]
  end.

(** Neither the length nor the encoding of the argument is checked. *)
Definition Lidna_to_unicode L : outcome (list value) :=
  s ← luaL_checklstring L 1;
  let '(ret, output) := idna_to_unicode_8z8z (until_nul (c_str s)) 0 in
  if ret =? IDNA_SUCCESS then Done [push_cstring output] else Done [pushfail].

Definition Reg_idna : list (string * (list value -> outcome (list value))) :=
  [("to_ascii", Lidna_to_ascii); ("to_unicode", Lidna_to_unicode)].

End handlers.

(** ** What the library promises *)

Class LibidnSpec (I : Libidn) (R : Rfc3454) := {
  no_unassigned : STRINGPREP_NO_UNASSIGNED <> 0;
  stringprep_text p f vs junk maxlen :
    Forall scalar vs -> 0 ∉ vs -> zlen (c_str (utf8 vs) ++ junk) = maxlen ->
    let r := stringprep (c_str (utf8 vs) ++ junk) maxlen f p in
    match prepare p (bool_decide (f <> STRINGPREP_NO_UNASSIGNED)) vs with
    | Some ws =>
        if zlen (utf8 ws) <? maxlen then exists junk', r = (STRINGPREP_OK, c_str (utf8 ws) ++ junk')
        else r.1 <> STRINGPREP_OK
    | None => r.1 <> STRINGPREP_OK
    end;
}.

(** ** Proofs *)

Section proofs.
Context `{LuaAux, I : Libidn}.

Lemma libidn_strict_arg_flags s L b :
  strict_arg (VStr s :: L) = Some b ->
  (if lua_isnoneornil (VStr s :: L) 2 then Done 0
   else _ ← luaL_checktype (VStr s :: L) 2 LUA_TBOOLEAN;
        Done (if lua_toboolean (VStr s :: L) 2 then STRINGPREP_NO_UNASSIGNED else 0))
  = Done (if b then STRINGPREP_NO_UNASSIGNED else 0).
Proof.
  unfold strict_arg, lua_isnoneornil, luaL_checktype, lua_toboolean.
  destruct (lua_arg (VStr s :: L) 2) as [[]|]; intros [= <-]; try done.
  rewrite bool_decide_eq_true_2 by done. by destruct b0.
Qed.

Lemma strlen_c_str s : (zlen s =? strlen (c_str s)) = bool_decide (0 ∉ s).
Proof.
  unfold strlen, c_str. rewrite until_nul_app. apply Bool.eq_true_iff_eq.
  rewrite Z.eqb_eq, bool_decide_eq_true, <- until_nul_full. intuition congruence.
Qed.

Lemma strcpy_c_str s dst :
  0 ∉ s -> zlen s < zlen dst -> exists junk,
    strcpy dst (c_str s) = Done (c_str s ++ junk) /\ zlen (c_str s ++ junk) = zlen dst.
Proof.
  intros H0 Hl. unfold strcpy, strlen. cbv zeta.
  replace (until_nul (c_str s)) with s by (unfold c_str; by rewrite until_nul_c_str). zcase.
  exists (drop (Z.to_nat (zlen s + 1)) dst). split.
  - unfold c_str. by rewrite <- app_assoc.
  - unfold zlen, c_str in *. rewrite !length_app, length_drop. simpl. lia.
Qed.

Lemma push_buffer_c_str s junk : 0 ∉ s -> push_buffer (c_str s ++ junk) = Done (VStr s).
Proof.
  intros H0. unfold push_buffer, strlen, c_str. rewrite <- app_assoc. cbn [app].
  rewrite until_nul_c_str by done. rewrite zlen_app, zlen_cons. pose proof (zlen_nonneg junk).
  by destruct (Z.ltb_spec (zlen s) (zlen s + (zlen junk + 1))); [|lia].
Qed.

Lemma utf8_no_nul vs : Forall scalar vs -> 0 ∉ vs -> 0 ∉ utf8 vs.
Proof. intros Hvs H0 ?%utf8_nul; done. Qed.

Lemma libidn_prep_text `{R : Rfc3454, !LibidnSpec I R} p vs L b buf :
  Forall scalar vs -> 0 ∉ vs -> lua_string (utf8 vs) -> ~ has_ff_sequence (utf8 vs) ->
  strict_arg (VStr (utf8 vs) :: L) = Some b -> zlen buf = 1024 -> zlen (utf8 vs) < 1024 ->
  stringprep_prep buf (VStr (utf8 vs) :: L) p = Done [stringprep_result p b vs].
Proof.
  intros Hvs H0 Hs Hff Hb Hbuf Hl. unfold stringprep_prep.
  pose proof (utf8_no_nul vs Hvs H0) as Hn.
  destruct (check_utf8_spec (utf8 vs) L Hs) as [(r & -> & [[_ ->]|[Ht _]])|[_ ?]]; [|by destruct Ht; exists vs|done].
  cbn [mbind outcome_bind]. rewrite (libidn_strict_arg_flags _ _ b) by done. cbn [mbind outcome_bind].
  rewrite Z.geb_leb, strlen_c_str, bool_decide_eq_true_2 by done. zcase. cbn [orb negb].
  destruct (strcpy_c_str (utf8 vs) buf Hn ltac:(lia)) as (junk & -> & Hj). cbn [mbind outcome_bind].
  set (f := if b then STRINGPREP_NO_UNASSIGNED else 0).
  assert (bool_decide (f <> STRINGPREP_NO_UNASSIGNED) = negb b) as Ef.
  { pose proof no_unassigned. unfold f. destruct b; [apply bool_decide_eq_false|apply bool_decide_eq_true]; congruence. }
  pose proof (stringprep_text p f vs junk 1024 Hvs H0 ltac:(lia)) as S. cbv zeta in S. rewrite Ef in S.
  unfold stringprep_result. destruct (prepare p (negb b) vs) as [ws|] eqn:Hp.
  - pose proof (utf8_no_nul ws (prepare_scalar _ _ _ _ Hvs Hp) (prepare_no_nul _ _ _ _ H0 Hp)) as Hwn.
    destruct (zlen (utf8 ws) <? 1024).
    + destruct S as (junk' & ->). rewrite Z.eqb_refl. by rewrite push_buffer_c_str.
    + destruct (stringprep _ _ _ _) as [ret m]. simpl in S. by destruct (Z.eqb_spec ret STRINGPREP_OK).
  - destruct (stringprep _ _ _ _) as [ret m]. simpl in S. by destruct (Z.eqb_spec ret STRINGPREP_OK).
Qed.

Lemma libidn_prep_other p s L b buf :
  lua_string s -> ~ has_ff_sequence s -> strict_arg (VStr s :: L) = Some b ->
  1024 <= zlen s \/ ~ utf8_text s \/ 0 ∈ s ->
  stringprep_prep buf (VStr s :: L) p = Done [pushfail].
Proof.
  intros Hs Hff Hb Hbad. unfold stringprep_prep.
  destruct (check_utf8_spec s L Hs) as [(r & -> & Hr)|[_ ?]]; [|done]. cbn [mbind outcome_bind].
  rewrite (libidn_strict_arg_flags _ _ b) by done. cbn [mbind outcome_bind].
  destruct Hr as [[Ht ->]|[_ ->]]; [|done]. rewrite Z.geb_leb, strlen_c_str.
  destruct (Z.leb_spec 1024 (zlen s)) as [|Hl]; [done|]. cbn [orb].
  rewrite bool_decide_eq_false_2; [done|]. destruct Hbad as [?|[?|?]]; [lia|done|tauto].
Qed.

End proofs.

(** ** Properties *)

Section properties.
Context `{LuaAux, R : Rfc3454}.

(** On libidn too each stringprep function implements the preparation of RFC 3454, for
    texts without U+0000, and it never writes outside its buffer of 1024 bytes; a string
    that is too long, is not UTF-8 or contains a NUL gives nil. *)
Theorem libidn_stringprep_correct `{I : Libidn, !LibidnSpec I R} p s L b buf :
  lua_string s -> ~ has_ff_sequence s -> strict_arg (VStr s :: L) = Some b -> zlen buf = 1024 ->
  (forall vs, Forall scalar vs -> s = utf8 vs -> 0 ∉ vs -> zlen s < 1024 ->
     stringprep_prep buf (VStr s :: L) p = Done [stringprep_result p b vs])
  /\ (1024 <= zlen s \/ ~ utf8_text s \/ 0 ∈ s -> stringprep_prep buf (VStr s :: L) p = Done [pushfail]).
Proof.
  intros Hs Hff Hb Hbuf. split; [|by apply libidn_prep_other with b].
  intros vs Hvs -> H0 Hl. by apply libidn_prep_text.
Qed.

(** C10. When both libraries implement RFC 3454, the choice of the library does not show: for
    every string without NUL, with a second argument that is a boolean, nil or absent, the
    ICU and the libidn builds of the stringprep functions return the same.  Excluded are
    strings that contain the byte 0xFF followed by seven continuation bytes, on which the
    libidn build can be undefined (see [utf8_ff_undefined]). *)
Theorem backends_agree `{I : Icu, !IcuSpec I R, J : Libidn, !LibidnSpec J R} p s L b buf :
  lua_string s -> ~ has_ff_sequence s -> strict_arg (VStr s :: L) = Some b -> zlen buf = 1024 ->
  0 ∉ s ->
  icu_stringprep_prep (VStr s :: L) p = stringprep_prep buf (VStr s :: L) p.
Proof.
  intros Hs Hff Hb Hbuf H0.
  destruct (decide (zlen s < 1024)) as [Hl|Hl].
  2:{ rewrite (icu_prep_other p s L b), (libidn_prep_other p s L b) by (done || left; lia). done. }
  destruct (check_utf8_spec s L Hs) as [(r & _ & [[(vs & Hvs & ->) _]|[Ht _]])|[_ ?]]; [| |done].
  - change (vs ≫= utf8_encode) with (utf8 vs) in *.
    rewrite (icu_prep_text p vs L b), (libidn_prep_text p vs L b buf); try done.
    intros ?%nul_utf8. done.
  - rewrite (icu_prep_other p s L b), (libidn_prep_other p s L b); auto.
Qed.

(** [idna.to_unicode] on libidn ignores what follows a NUL in its argument, whatever
    libidn does with the rest, where [idna.to_ascii] refuses the string. *)
Theorem libidn_to_unicode_truncates `{I : Libidn} s l L :
  lua_string (s ++ 0 :: l) -> lua_string s -> ~ has_ff_sequence (s ++ 0 :: l) ->
  Lidna_to_unicode (VStr (s ++ 0 :: l) :: L) = Lidna_to_unicode (VStr s :: L)
  /\ Lidna_to_ascii (VStr (s ++ 0 :: l) :: L) = Done [pushfail].
Proof.
  intros Hs Hs' Hff. split.
  - unfold Lidna_to_unicode. rewrite (checklstring_str _ 1 (s ++ 0 :: l)), (checklstring_str _ 1 s) by done.
    cbn [mbind outcome_bind]. unfold c_str. rewrite <- app_assoc. cbn [app]. by rewrite !until_nul_app.
  - unfold Lidna_to_ascii.
    destruct (check_utf8_spec _ L Hs) as [(r & -> & Hr)|[_ ?]]; [|done]. cbn [mbind outcome_bind].
    destruct Hr as [[_ ->]|[_ ->]]; [|done]. rewrite strlen_c_str, bool_decide_eq_false_2; [done|].
    intros Hn. apply Hn, elem_of_app. right. by left.
Qed.

End properties.

(** ** A concrete library *)

Definition toy_stringprep (buf : bytes) (maxlen flags : Z) (p : profile) : Z * bytes :=
  let s := until_nul buf in
  match utf8_points (length s) s with
  | Some vs =>
      match prepare_lower p (bool_decide (flags <> 4)) vs with
      | Some ws =>
          if zlen (utf8 ws) <? maxlen
          then (0, c_str (utf8 ws) ++ drop (length (utf8 ws) + 1) buf) else (100, buf)
      | None => (1, buf)
      end
  | None => (1, buf)
  end.

Definition toy_libidn : Libidn := {|
  STRINGPREP_OK := 0;
  STRINGPREP_NO_UNASSIGNED := 4;
  IDNA_SUCCESS := 0;
  IDNA_USE_STD3_ASCII_RULES := 2;
  stringprep := toy_stringprep;
  idna_to_ascii_8z s flags := (0, Some s);
  idna_to_unicode_8z8z s flags := (0, Some s);
|}.

Lemma toy_libidn_spec : LibidnSpec toy_libidn rfc3454_lower.
Proof.
  split; simpl; [done|]. intros p f vs junk maxlen Hvs H0 _. unfold toy_stringprep, c_str.
  rewrite <- app_assoc. cbn [app]. rewrite until_nul_c_str by by apply utf8_no_nul.
  rewrite utf8_points_text; [|done|apply length_encodings].
  destruct (prepare_lower _ _ vs) as [ws|]; [|done].
  destruct (zlen (utf8 ws) <? maxlen); [by eexists|done].
Qed.

(** ** Witnesses *)

Lemma libidn_stringprep_correct_witness :
  stringprep_prep (H := lua_strict) (H0 := toy_libidn) (replicate 1024 7) [VStr [74; 117]] nameprep
  = Done [VStr [106; 117]].
Proof.
  assert (lua_string [74; 117]) as Hs by by_decision.
  assert (~ has_ff_sequence [74; 117]) as Hff by (apply no_ff_sequence; by_decision).
  apply (proj1 (libidn_stringprep_correct (H := lua_strict) (I := toy_libidn) (R := rfc3454_lower)
    (LibidnSpec0 := toy_libidn_spec) nameprep [74; 117] [] false (replicate 1024 7) Hs Hff eq_refl eq_refl) [74; 117]).
  - repeat constructor; unfold scalar; lia.
  - done.
  - by_decision.
  - by_decision.
Defined.

Lemma backends_agree_witness :
  icu_stringprep_prep (H := lua_strict) (H0 := toy_icu) [VStr [74; 117]] nameprep
  = stringprep_prep (H := lua_strict) (H0 := toy_libidn) (replicate 1024 7) [VStr [74; 117]] nameprep.
Proof.
  assert (lua_string [74; 117]) as Hs by by_decision.
  assert (~ has_ff_sequence [74; 117]) as Hff by (apply no_ff_sequence; by_decision).
  assert (0 ∉ [74; 117]) as H0 by by_decision.
  exact (backends_agree (H := lua_strict) (I := toy_icu) (J := toy_libidn) (R := rfc3454_lower)
    (IcuSpec0 := toy_icu_spec) (LibidnSpec0 := toy_libidn_spec)
    nameprep [74; 117] [] false (replicate 1024 7) Hs Hff eq_refl eq_refl H0).
Defined.

(** "a", NUL, "evil". *)
Lemma libidn_to_unicode_truncates_witness :
  Lidna_to_unicode (H := lua_strict) (H0 := toy_libidn) [VStr [97; 0; 101; 118]] = Done [VStr [97]].
Proof.
  assert (lua_string [97; 0; 101; 118]) as Hs by by_decision.
  assert (lua_string [97]) as Hs' by by_decision.
  assert (~ has_ff_sequence [97; 0; 101; 118]) as Hff by (apply no_ff_sequence; by_decision).
  exact (proj1 (libidn_to_unicode_truncates (H := lua_strict) (I := toy_libidn) [97] [101; 118] [] Hs Hs' Hff)).
Defined.
