(* ===== verification/Table.v ===== *)
(** * util-src/table.c

    Tables live in a store, so that the source and the destination of [table.move] may be
    the same table.  The theorems: [move] copies a snapshot of the source range, whatever
    the overlap, with no overflow in its index arithmetic, and [pack] collects its
    arguments. *)

From stdpp Require Import base tactics numbers list strings gmap.
From Stdlib Require Import ZArith Lia.
From S2P Require Import Prelude LuaApi.

Local Open Scope Z_scope.

(** ** Tables *)

(** Keys are the integers and the strings; a key with no value reads as nil. *)
Abbreviation table := (gmap (Z + string) value).
Abbreviation store := (gmap Z table).

Definition raw_get (h : store) (t : Z) (k : Z + string) : value :=
  default VNil (h !! t ≫= fun tb => tb !! k).

(** A nil value removes the key; an address with no table is a dangling reference. *)
Definition raw_set (h : store) (t : Z) (k : Z + string) (v : value) : outcome store :=
  match h !! t with
  | Some tb => Done (<[t := if decide (v = VNil) then delete k tb else <[k := v]> tb]> h)
  | None => Undef OutOfBounds
  end.

Definition lua_rawgeti (h : store) (t n : Z) : value := raw_get h t (inl n).
Definition lua_rawseti (h : store) (t n : Z) (v : value) : outcome store := raw_set h t (inl n) v.
Definition lua_setfield (h : store) (t : Z) (k : string) (v : value) : outcome store :=
  raw_set h t (inr k) v.

(** A new table, at an address not in use; the two arguments are size hints. *)
Definition lua_createtable (h : store) (narr nrec : Z) : store * Z :=
  let t := fresh (dom h) in (<[t := ∅]> h, t).

(** Addition of two [lua_Integer]s, undefined on overflow. *)
Definition add_long (a b : Z) : outcome Z :=
  if bool_decide (is_long (a + b)) then Done (a + b) else Undef SignedOverflow.

Definition LUA_MAXINTEGER : Z := long_max.

(** [lua_compare(L, 1, tt, LUA_OPEQ)] on two tables: a table equals itself, and for two
    tables the metamethod __eq decides. *)
Class TableEq := {
  table_eq : Z -> Z -> bool;
  table_eq_refl t : table_eq t t = true;
}.

Section handlers.
Context `{LuaAux, TableEq}.
Implicit Types (L : list value) (h : store).

Definition Lcreate_table h L : outcome (store * list value) :=
  narr ← luaL_checkinteger L 1;
  nrec ← luaL_checkinteger L 2;
  let '(h, t) := lua_createtable h (cint narr) (cint nrec) in
  Done (h, [VTable t]).

(** [for(int arg = n_args; arg >= 1; arg--) lua_rawseti(L, 1, arg);]: each iteration pops
    the value it stores; [stack] is the part above the table. *)
Fixpoint pack_loop (fuel : nat) h (t : Z) (stack : list value) (arg : Z) : outcome (store * list value) :=
  if arg >=? 1 then
    match fuel with
    | O => Undef NoTermination
    | S fuel =>
        match last stack with
        | Some v =>
            h ← lua_rawseti h t arg v;
            pack_loop fuel h t (removelast stack) (arg - 1)
        | None => Undef OutOfBounds
        end
    end
  else Done (h, stack).

Definition Lpack h L : outcome (store * list value) :=
  let n_args := uint (lua_gettop L) in
  let '(h, t) := lua_createtable h (cint n_args) 1 in
  '(h, stack) ← pack_loop (Z.to_nat n_args) h t L (cint n_args);
  h ← lua_setfield h t "n" (VInt n_args);
  Done (h, [VTable t]).

(** [for (i = 0; i < n; i++)]: [cnt] iterations are left. *)
Fixpoint move_up (cnt : nat) (i : Z) (src dst f t : Z) h : outcome store :=
  match cnt with
  | O => Done h
  | S cnt =>
      a ← add_long f i;
      b ← add_long t i;
      h ← lua_rawseti h dst b (lua_rawgeti h src a);
      move_up cnt (i + 1) src dst f t h
  end.

(** [for (i = n - 1; i >= 0; i--)]: [cnt = i + 1] iterations are left. *)
Fixpoint move_down (cnt : nat) (src dst f t : Z) h : outcome store :=
  match cnt with
  | O => Done h
  | S cnt =>
      let i := Z.of_nat cnt in
      a ← add_long f i;
      b ← add_long t i;
      h ← lua_rawseti h dst b (lua_rawgeti h src a);
      move_down cnt src dst f t h
  end.

(** The table in a slot, after its type was checked. *)
Definition table_arg L (i : Z) : Z :=
  match lua_arg L i with Some (VTable t) => t | _ => 0 end.

Definition Lmove h L : outcome (store * list value) :=
  f ← luaL_checkinteger L 2;
  e ← luaL_checkinteger L 3;
  t ← luaL_checkinteger L 4;
  let tt := if negb (lua_isnoneornil L 5) then 5 else 1 in
  _ ← luaL_checktype L 1 LUA_TTABLE;
  _ ← luaL_checktype L tt LUA_TTABLE;
  let src := table_arg L 1 in
  let dst := table_arg L tt in
  h ← (if e >=? f then
         ok ← (if f >? 0 then Done true else m ← add_long LUA_MAXINTEGER f; Done (e <? m));
         _ ← luaL_argcheck ok 3 "too many elements to move";
         n ← add_long e (- f);
         n ← add_long n 1;
         m ← add_long LUA_MAXINTEGER (- n);
         m ← add_long m 1;
         _ ← luaL_argcheck (t <=? m) 4 "destination wrap around";
         if (t >? e) || (t <=? f) || (negb (tt =? 1) && negb (table_eq src dst))
         then move_up (Z.to_nat n) 0 src dst f t h
         else move_down (Z.to_nat n) src dst f t h
       else Done h);
  Done (h, [VTable dst]).

End handlers.

(** ** Lemmas on the store *)

Lemma raw_set_done h t k v :
  is_Some (h !! t) ->
  exists h', raw_set h t k v = Done h' /\ is_Some (h' !! t) /\ dom h' = dom h /\
    forall t' k', raw_get h' t' k' = if decide (t' = t /\ k' = k) then v else raw_get h t' k'.
Proof.
  intros [tb E]. unfold raw_set. rewrite E. eexists. split; [done|].
  split_and!.
  - rewrite lookup_insert_eq. by eexists.
  - apply set_eq. intros x. rewrite dom_insert, elem_of_union, elem_of_singleton.
    split; [intros [->|?]; [by apply elem_of_dom|done]|auto].
  - intros t' k'. unfold raw_get. destruct (decide (t' = t)) as [->|Ht].
    + rewrite lookup_insert_eq, E. cbn [mbind option_bind]. destruct (decide (k' = k)) as [->|Hk].
      * rewrite (decide_True (P := _ /\ _)) by done. destruct (decide (v = VNil)) as [->|];
          [by rewrite lookup_delete_eq|by rewrite lookup_insert_eq].
      * rewrite (decide_False (P := _ /\ _)) by tauto.
        destruct (decide (v = VNil)); [by rewrite lookup_delete_ne|by rewrite lookup_insert_ne].
    + rewrite lookup_insert_ne by done. by rewrite decide_False by tauto.
Qed.

(** [h'] is [h] with the values [l] in the table [t] from index [n] on. *)
Definition appended (h h' : store) (t n : Z) (l : list value) : Prop :=
  forall id k, raw_get h' id k =
    match k with
    | inl j => if decide (id = t /\ n <= j < n + zlen l) then default VNil (l !! Z.to_nat (j - n)) else raw_get h id k
    | inr _ => raw_get h id k
    end.

Lemma appended_nil h t n : appended h h t n [].
Proof. intros id [j|s]; [|done]. change (zlen (@nil value)) with 0. by rewrite decide_False by lia. Qed.

(** A loop sets one field and goes on with the next index. *)
Lemma appended_step h t n v l :
  is_Some (h !! t) ->
  exists h1, lua_rawseti h t n v = Done h1 /\ is_Some (h1 !! t) /\
    forall h', appended h1 h' t (n + 1) l -> appended h h' t n (v :: l).
Proof.
  intros Ht. destruct (raw_set_done h t (inl n) v Ht) as (h1 & E & Ht1 & _ & H1). exists h1.
  split; [done|]. split; [done|]. intros h' H' id [j|s]; rewrite H', H1.
  - rewrite zlen_cons. pose proof (zlen_nonneg l). destruct (decide (id = t /\ n + 1 <= j < n + 1 + zlen l)) as [[-> Hj]|Hj].
    + rewrite decide_True by lia. by replace (Z.to_nat (j - n)) with (S (Z.to_nat (j - (n + 1)))) by lia.
    + destruct (decide (id = t /\ (inl j : Z + string) = inl n)) as [[-> [= ->]]|Hj'].
      * rewrite decide_True by lia. by rewrite Z.sub_diag.
      * rewrite decide_False; [done|]. intros [-> Hj2]. apply Hj'. split; [done|]. f_equal.
        assert (~ n + 1 <= j < n + 1 + zlen l) by tauto. lia.
  - by rewrite decide_False by (intros [_ [=]]).
Qed.

(** What a new table then holds. *)
Lemma appended_new h0 h h' t l :
  (forall id k, raw_get h id k = if decide (id = t) then VNil else raw_get h0 id k) -> appended h h' t 1 l ->
  forall id k, raw_get h' id k =
    if decide (id = t) then
      match k with
      | inl j => if decide (1 <= j <= zlen l) then default VNil (l !! Z.to_nat (j - 1)) else VNil
      | inr _ => VNil
      end
    else raw_get h0 id k.
Proof.
  intros Hraw H' id k. rewrite H'. destruct k as [j|s]; rewrite Hraw; destruct (decide (id = t)) as [->|Hid]; try done.
  - apply decide_ext. lia.
  - by rewrite decide_False by tauto.
Qed.

Lemma add_long_done a b : is_long (a + b) -> add_long a b = Done (a + b).
Proof. intros. unfold add_long. by rewrite bool_decide_eq_true_2. Qed.

(** ** Moving *)

(** [h'] is [h] after [dst[t .. t + n - 1]] received the values that [src[f ..]] had in
    [h]. *)
Definition moved (h h' : store) (src dst f t n : Z) : Prop :=
  forall id k, raw_get h' id k =
    match k with
    | inl j => if decide (id = dst /\ t <= j < t + n) then lua_rawgeti h src (f + (j - t))
               else raw_get h id k
    | inr _ => raw_get h id k
    end.

(** The same, with only the part from [lo] to [hi] of the range moved. *)
Definition moved_part (h h' : store) (src dst f t lo hi : Z) : Prop :=
  dom h' = dom h /\
  forall id k, raw_get h' id k =
    match k with
    | inl j => if decide (id = dst /\ t + lo <= j < t + hi) then lua_rawgeti h src (f + (j - t))
               else raw_get h id k
    | inr _ => raw_get h id k
    end.

(** One element more, where the cell read is not one already written. *)
Lemma moved_part_step h h1 src dst f t lo hi i :
  is_Some (h !! dst) -> moved_part h h1 src dst f t lo hi -> i = lo - 1 \/ i = hi -> lo <= hi ->
  (src = dst -> ~ t + lo <= f + i < t + hi) ->
  exists h2, lua_rawseti h1 dst (t + i) (lua_rawgeti h1 src (f + i)) = Done h2 /\
    moved_part h h2 src dst f t (Z.min lo i) (Z.max hi (i + 1)).
Proof.
  intros [tb Hd] [Hdom H1] Hi Hlo Hread.
  destruct (raw_set_done h1 dst (inl (t + i)) (lua_rawgeti h1 src (f + i))) as (h2 & E & _ & Hdom2 & H2).
  { apply elem_of_dom. rewrite Hdom. by apply elem_of_dom_2 in Hd. }
  exists h2. split; [exact E|]. split; [congruence|]. intros id k. rewrite H2.
  assert (lua_rawgeti h1 src (f + i) = lua_rawgeti h src (f + i)) as Er.
  { unfold lua_rawgeti. rewrite H1. cbv beta iota. rewrite decide_False; [done|]. intros [-> ?]. by apply Hread. }
  rewrite Er. destruct k as [j|s].
  - destruct (decide (id = dst /\ (inl j : Z + string) = inl (t + i))) as [[-> [= ->]]|Hne].
    + rewrite decide_True by lia. f_equal. lia.
    + rewrite H1. cbv beta iota.
      assert (id = dst -> j <> t + i) as Hj by (intros -> ->; by apply Hne).
      destruct (decide (id = dst /\ t + lo <= j < t + hi)).
      * by rewrite decide_True by lia.
      * rewrite decide_False; [done|]. intros [-> ?]. specialize (Hj eq_refl). lia.
  - rewrite decide_False by (intros [? [=]]). apply H1.
Qed.

Lemma move_up_moved cnt h h1 src dst f t i n :
  is_Some (h !! dst) -> 0 <= i -> n = i + Z.of_nat cnt ->
  is_long f -> is_long t -> is_long (f + n - 1) -> is_long (t + n - 1) ->
  (src = dst -> t <= f \/ f + n <= t) ->
  moved_part h h1 src dst f t 0 i ->
  exists h', move_up cnt i src dst f t h1 = Done h' /\ moved_part h h' src dst f t 0 n.
Proof.
  revert h1 i. induction cnt as [|cnt IH]; intros h1 i Hd Hi Hn Hf Ht Hfn Htn Hov H1.
  { exists h1. by replace n with i by lia. }
  cbn [move_up]. rewrite !add_long_done by range. cbn [mbind outcome_bind].
  destruct (moved_part_step h h1 src dst f t 0 i i) as (h2 & -> & H2); [done..|auto|lia|lia|].
  apply IH; try done; try lia. by replace 0 with (Z.min 0 i) by lia; replace (i + 1) with (Z.max i (i + 1)) by lia.
Qed.

Lemma move_down_moved cnt h h1 src dst f t n :
  is_Some (h !! dst) -> Z.of_nat cnt <= n ->
  is_long f -> is_long t -> is_long (f + n - 1) -> is_long (t + n - 1) ->
  (src = dst -> f < t) ->
  moved_part h h1 src dst f t (Z.of_nat cnt) n ->
  exists h', move_down cnt src dst f t h1 = Done h' /\ moved_part h h' src dst f t 0 n.
Proof.
  revert h1. induction cnt as [|cnt IH]; intros h1 Hd Hn Hf Ht Hfn Htn Hov H1.
  { by exists h1. }
  cbn [move_down]. cbv zeta. rewrite !add_long_done by range. cbn [mbind outcome_bind].
  destruct (moved_part_step h h1 src dst f t (Z.of_nat (S cnt)) n (Z.of_nat cnt)) as (h2 & -> & H2);
    [done..|lia|lia|lia|].
  apply IH; try done; try lia.
  by replace (Z.of_nat cnt) with (Z.min (Z.of_nat (S cnt)) (Z.of_nat cnt)) by lia;
    replace n with (Z.max n (Z.of_nat cnt + 1)) by lia.
Qed.

Lemma moved_part_refl h src dst f t lo : moved_part h h src dst f t lo lo.
Proof.
  split; [done|]. intros id k. destruct k as [j|s]; [|done]. by rewrite decide_False by lia.
Qed.

Lemma moved_part_all h h' src dst f t n : moved_part h h' src dst f t 0 n -> moved h h' src dst f t n.
Proof.
  intros [_ Hm] id k. rewrite Hm. destruct k as [j|s]; [|done]. by rewrite Z.add_0_r.
Qed.

(** Both loops move the whole range, when they may read the cells they read. *)
Lemma move_loops h src dst f e t n (up : bool) :
  is_Some (h !! dst) -> n = e - f + 1 -> 1 <= n -> is_long f -> is_long e -> is_long t ->
  t + n - 1 <= long_max ->
  (src = dst -> if up then t > e \/ t <= f else f < t) ->
  exists h', (if up then move_up (Z.to_nat n) 0 src dst f t h else move_down (Z.to_nat n) src dst f t h)
             = Done h' /\ moved h h' src dst f t n.
Proof.
  intros Hd Hn H1 Hf He Ht Htn Hov.
  destruct up.
  - destruct (move_up_moved (Z.to_nat n) h h src dst f t 0 n) as (h' & -> & Hm);
      [done|lia|lia|done|done|range|range|intros ->; specialize (Hov eq_refl); lia|apply moved_part_refl|].
    exists h'. split; [done|]. by apply moved_part_all.
  - destruct (move_down_moved (Z.to_nat n) h h src dst f t n) as (h' & -> & Hm);
      [done|lia|done|done|range|range|done| |].
    + rewrite Z2Nat.id by lia. apply moved_part_refl.
    + exists h'. split; [done|]. by apply moved_part_all.
Qed.

(** ** Packing *)

Lemma pack_loop_spec stack h t fuel :
  is_Some (h !! t) -> (length stack <= fuel)%nat ->
  exists h', pack_loop fuel h t stack (zlen stack) = Done (h', []) /\ is_Some (h' !! t) /\
    forall id k, raw_get h' id k =
      match k with
      | inl j => if decide (id = t /\ 1 <= j <= zlen stack) then default VNil (lua_arg stack j)
                 else raw_get h id k
      | inr _ => raw_get h id k
      end.
Proof.
  revert h fuel. induction stack as [|v stack IH] using rev_ind; intros h fuel Ht Hf.
  { exists h. split; [by destruct fuel|]. split; [done|]. intros id [j|s]; [|done].
    change (zlen (@nil value)) with 0. by rewrite decide_False by lia. }
  rewrite length_app in Hf. simpl in Hf. destruct fuel as [|fuel]; [lia|]. cbn [pack_loop].
  rewrite zlen_app. change (zlen [v]) with 1. pose proof (zlen_nonneg stack) as Hn.
  rewrite Z.geb_leb. destruct (Z.leb_spec 1 (zlen stack + 1)); [|lia].
  rewrite last_snoc, removelast_last.
  destruct (raw_set_done h t (inl (zlen stack + 1)) v Ht) as (h1 & E & Ht1 & _ & H1).
  unfold lua_rawseti. rewrite E. cbn [mbind outcome_bind]. rewrite Z.add_simpl_r.
  destruct (IH h1 fuel Ht1 ltac:(lia)) as (h2 & -> & Ht2 & H2).
  exists h2. split_and!; [done..|]. intros id k. rewrite H2. destruct k as [j|s].
  - rewrite H1. unfold lua_arg.
    destruct (decide (id = t /\ 1 <= j <= zlen stack)) as [[-> Hj]|Hj].
    + rewrite decide_True by lia. rewrite lookup_app_l by (unfold zlen in Hj; lia). done.
    + destruct (decide (id = t /\ (inl j : Z + string) = inl (zlen stack + 1))) as [[-> [= ->]]|Hj'].
      * rewrite decide_True by lia. rewrite Z.add_simpl_r. unfold zlen.
        by rewrite Nat2Z.id, lookup_app_r, Nat.sub_diag by lia.
      * rewrite decide_False; [done|]. intros [-> Hj2]. apply Hj'. split; [done|]. f_equal.
        assert (~ 1 <= j <= zlen stack) by tauto. lia.
  - rewrite H1. by rewrite decide_False by (intros [_ [=]]).
Qed.

Lemma createtable_new h narr nrec h' t :
  lua_createtable h narr nrec = (h', t) ->
  h !! t = None /\ is_Some (h' !! t) /\
  forall id k, raw_get h' id k = if decide (id = t) then VNil else raw_get h id k.
Proof.
  unfold lua_createtable. cbv zeta. intros [= <- <-]. split_and!.
  - apply not_elem_of_dom, is_fresh.
  - rewrite lookup_insert_eq. by eexists.
  - intros id k. unfold raw_get. destruct (decide (id = fresh (dom h))) as [->|Hne].
    + by rewrite lookup_insert_eq.
    + by rewrite lookup_insert_ne.
Qed.

(** ** The checks of [move] *)

Section checks.
Context `{LuaAux}.

Lemma checktype_ok L i v t : lua_arg L i = Some v -> type_of v = t -> luaL_checktype L i t = Done tt.
Proof. intros E <-. unfold luaL_checktype. rewrite E. by rewrite bool_decide_eq_true_2. Qed.

Lemma table_arg_at L i t : lua_arg L i = Some (VTable t) -> table_arg L i = t.
Proof. unfold table_arg. by intros ->. Qed.

(** The destination: the fifth argument, or the first when it is absent or nil. *)
Definition destination L (src : Z) : option Z :=
  match lua_arg L 5 with
  | None | Some VNil => Some src
  | Some (VTable d) => Some d
  | Some _ => None
  end.

Lemma destination_slot L src dst :
  lua_arg L 1 = Some (VTable src) -> destination L src = Some dst ->
  let i := if negb (lua_isnoneornil L 5) then 5 else 1 in
  luaL_checktype L i LUA_TTABLE = Done tt /\ table_arg L i = dst /\ (i = 1 \/ i = 5).
Proof.
  unfold destination, lua_isnoneornil. intros A1. destruct (lua_arg L 5) as [[]|] eqn:A5; intros [= <-];
    cbn [negb]; cbv zeta; split_and!; eauto using checktype_ok, table_arg_at.
Qed.

(** [f > 0 || e < LUA_MAXINTEGER + f], without overflow. *)
Lemma move_guard f e :
  is_long f -> is_long e ->
  (if f >? 0 then Done true else m ← add_long LUA_MAXINTEGER f; Done (e <? m)) = Done (e - f <? long_max).
Proof.
  intros Hf He. rewrite Z.gtb_ltb. destruct (Z.ltb_spec 0 f).
  - destruct (Z.ltb_spec (e - f) long_max); [done|range].
  - unfold LUA_MAXINTEGER. rewrite add_long_done by range. cbn [mbind outcome_bind]. f_equal.
    zcase; done.
Qed.

End checks.

(** ** Properties *)

Section properties.
Context `{LuaAux, TableEq}.
Implicit Types (L : list value) (h : store).

(** C11. [table.move] of [f..e] to [t]: nothing happens when the range is empty; a range of
    2^63 - 1 elements or more, or one that would end beyond the largest integer, is
    refused; otherwise the destination receives the values that the source range had
    before the call, even when the two ranges overlap in the same table (given once or
    twice, and whatever __eq answers), no other cell changes, and no index computation
    overflows. *)
Theorem move_snapshot h L src dst f e t :
  lua_arg L 1 = Some (VTable src) -> lua_arg L 2 = Some (VInt f) -> lua_arg L 3 = Some (VInt e) ->
  lua_arg L 4 = Some (VInt t) -> destination L src = Some dst ->
  is_long f -> is_long e -> is_long t -> is_Some (h !! dst) ->
  if e <? f then Lmove h L = Done (h, [VTable dst])
  else if e - f >=? long_max then
    Lmove h L = Raise (ArgError 3 "too many elements to move")
  else if t + (e - f) >? long_max then Lmove h L = Raise (ArgError 4 "destination wrap around")
  else exists h', Lmove h L = Done (h', [VTable dst]) /\ moved h h' src dst f t (e - f + 1).
Proof.
  intros A1 A2 A3 A4 A5 Hf He Ht Hd. unfold Lmove.
  rewrite (checkinteger_int L 2 f), (checkinteger_int L 3 e), (checkinteger_int L 4 t) by done.
  cbn [mbind outcome_bind]. cbv zeta. rewrite (checktype_ok L 1 _ LUA_TTABLE A1 eq_refl). cbn [mbind outcome_bind].
  destruct (destination_slot L src dst A1 A5) as (E5 & -> & Ett). rewrite E5. cbn [mbind outcome_bind].
  rewrite (table_arg_at L 1 src A1). rewrite Z.geb_leb.
  destruct (Z.ltb_spec e f) as [Hef|Hef]; destruct (Z.leb_spec f e); try lia; [done|].
  rewrite move_guard by done. cbn [mbind outcome_bind].
  rewrite Z.geb_leb. destruct (Z.leb_spec long_max (e - f)) as [Hbig|Hbig], (Z.ltb_spec (e - f) long_max);
    try lia; [done|]. cbn [luaL_argcheck mbind outcome_bind]. unfold LUA_MAXINTEGER.
  do 4 (rewrite add_long_done by range; cbn [mbind outcome_bind]). replace (e + - f) with (e - f) by lia.
  rewrite (Z.gtb_ltb _ long_max). destruct (Z.ltb_spec long_max (t + (e - f))), (Z.leb_spec t (long_max + - (e - f + 1) + 1)); try lia;
    [done|]. cbn [luaL_argcheck mbind outcome_bind].
  match goal with |- context [if ?c then move_up _ _ _ _ _ _ _ else _] => set (up := c) end.
  destruct (move_loops h src dst f e t (e - f + 1) up) as (h' & E & Hm); [done..|lia|done|done|done|lia| |].
  { intros ->. subst up. destruct (Z.gtb_spec t e), (Z.leb_spec t f); cbn [orb]; [lia..|].
    rewrite table_eq_refl, andb_false_r. lia. }
  exists h'. split; [|done]. by destruct up; rewrite E.
Qed.

(** [table.pack] returns a new table with its arguments at 1, 2, ... and their number
    in the field "n"; nothing else changes. *)
Theorem pack_collects h L :
  zlen L <= int_max ->
  exists h' t, Lpack h L = Done (h', [VTable t]) /\ h !! t = None /\
    forall id k, raw_get h' id k =
      if decide (id = t) then
        match k with
        | inl j => if decide (1 <= j) then default VNil (lua_arg L j) else VNil
        | inr s => if decide (s = "n"%string) then VInt (zlen L) else VNil
        end
      else raw_get h id k.
Proof.
  intros Hl. pose proof (zlen_nonneg L) as Hn. unfold Lpack, lua_gettop. cbv zeta.
  assert (uint (zlen L) = zlen L) as -> by (apply wrap_u_small; range).
  rewrite int_small by range.
  destruct (lua_createtable h (zlen L) 1) as [h1 t] eqn:E.
  destruct (createtable_new _ _ _ _ _ E) as (Hfresh & Ht & H1).
  destruct (pack_loop_spec L h1 t (Z.to_nat (zlen L)) Ht ltac:(unfold zlen; lia)) as (h2 & -> & Ht2 & H2).
  cbn [mbind outcome_bind]. unfold lua_setfield.
  destruct (raw_set_done h2 t (inr "n"%string) (VInt (zlen L)) Ht2) as (h3 & -> & _ & _ & H3).
  exists h3, t. split_and!; [done..|]. intros id k. rewrite H3, H2, H1.
  destruct (decide (id = t)) as [->|Hne].
  - destruct k as [j|s].
    + rewrite decide_False by (intros [_ [=]]).
      destruct (decide (1 <= j)) as [Hj|Hj]; [|by rewrite decide_False by lia].
      destruct (decide (t = t /\ 1 <= j <= zlen L)) as [|Hout]; [done|].
      unfold lua_arg. rewrite lookup_ge_None_2; [done|]. unfold zlen in Hout. lia.
    + destruct (decide (s = "n"%string)) as [->|]; [by rewrite decide_True|].
      by rewrite decide_False by (intros [_ E']; congruence).
  - rewrite decide_False by tauto. destruct k; [|done]. by rewrite decide_False by tauto.
Qed.

End properties.

(** ** Witnesses *)

(** Tables are equal when they are the same. *)
Lemma raw_eq_refl (t : Z) : (t =? t) = true.
Proof. apply Z.eqb_refl. Qed.
Definition raw_eq : TableEq := {| table_eq := Z.eqb; table_eq_refl := raw_eq_refl |}.

(** A table with 10, 20, 30 at 1, 2, 3. *)
Definition sample_store : store :=
  {[ 7 := {[ inl 1 := VInt 10; inl 2 := VInt 20; inl 3 := VInt 30 ]} ]}.

Lemma sample_table : is_Some (sample_store !! 7).
Proof. by eexists. Qed.

(** Moving 1..3 to 2 in the same table. *)
Lemma move_snapshot_witness :
  exists h', Lmove (H := lua_strict) (H0 := raw_eq) sample_store [VTable 7; VInt 1; VInt 3; VInt 2]
    = Done (h', [VTable 7]) /\ moved sample_store h' 7 7 1 2 3.
Proof.
  apply (move_snapshot (H := lua_strict) (H0 := raw_eq) sample_store [VTable 7; VInt 1; VInt 3; VInt 2]
    7 7 1 3 2 eq_refl eq_refl eq_refl eq_refl eq_refl).
  - by_decision.
  - by_decision.
  - by_decision.
  - exact sample_table.
Defined.

Lemma pack_collects_witness :
  zlen [VInt 5; VNil] <= int_max /\
  exists h' t, Lpack sample_store [VInt 5; VNil] = Done (h', [VTable t]) /\ sample_store !! t = None /\
    raw_get h' t (inr "n"%string) = VInt 2.
Proof.
  assert (zlen [VInt 5; VNil] <= int_max) as Hl by by_decision.
  split; [exact Hl|].
  destruct (pack_collects sample_store [VInt 5; VNil] Hl) as (h' & t & E & Hf & Hg).
  exists h', t. split; [exact E|]. split; [exact Hf|].
  rewrite (Hg t (inr "n"%string)). by rewrite !decide_True by done.
Defined.
