(* ===== verification/Ieee.v ===== *)
(** * Floating-point numbers as C has them on IEEE 754 machines

    A [double] is a [spec_float] of 53 bits, a [float] one of 24 bits.  This file defines
    what the conversions of C give (to and from integers, between the two types) and the
    interchange format of the numbers in memory, with the facts that their users need:
    integers below 2^53 are exact, and decoding inverts encoding. *)

From stdpp Require Import base tactics numbers list.
From Stdlib Require Import ZArith Lia SpecFloat.
From S2P Require Import Prelude LuaApi.

Local Open Scope Z_scope.

Abbreviation double := spec_float.
Abbreviation single := spec_float.

(** ** Conversions *)

Definition is_nan (x : spec_float) : bool := match x with S754_nan => true | _ => false end.

(** [x < 0] *)
Definition dbl_neg (x : double) : bool := SFltb x (S754_zero false).

(** The integer part of a finite number, towards zero. *)
Definition trunc (x : spec_float) : option Z :=
  match x with
  | S754_zero _ => Some 0
  | S754_finite s m e => let v := Z.shiftl (Z.pos m) e in Some (if s then - v else v)
  | _ => None
  end.

(** Conversions to [long] and [unsigned long], undefined when the integer part does not
    fit. *)
Definition long_of_double (x : double) : outcome Z :=
  match trunc x with
  | Some z => if bool_decide (is_long z) then Done z else Undef BadConversion
  | None => Undef BadConversion
  end.

Definition ulong_of_double (x : double) : outcome Z :=
  match trunc x with
  | Some z => if (0 <=? z) && (z <=? size_max) then Done z else Undef BadConversion
  | None => Undef BadConversion
  end.

(** Rounding to another precision, to nearest, ties to even. *)
Definition convert (prec emax : Z) (x : spec_float) : spec_float :=
  match x with
  | S754_finite s m e => binary_normalize prec emax (if s then Z.neg m else Z.pos m) e s
  | _ => x
  end.

Definition narrow : double -> single := convert 24 128.
Definition widen : single -> double := convert 53 1024.

(** ** The interchange formats *)

(** Widths of the fraction and of the exponent; the encodings of the one NaN of
    [spec_float] are the processor's choice. *)
Record format := Format { fbits : Z; ebits : Z; nan_bits : Z }.

Definition prec (F : format) : Z := fbits F + 1.
Definition emax (F : format) : Z := 2 ^ (ebits F - 1).
Definition emin (F : format) : Z := 3 - emax F - prec F.

(** The first pattern of a quiet NaN. *)
Definition binary32 : format := Format 23 8 (255 * 2 ^ 23 + 2 ^ 22).
Definition binary64 : format := Format 52 11 (2047 * 2 ^ 52 + 2 ^ 51).

Definition fields (F : format) (s : bool) (ex fr : Z) : Z :=
  (Z.b2z s * 2 ^ ebits F + ex) * 2 ^ fbits F + fr.

Definition ieee_encode (F : format) (x : spec_float) : Z :=
  match x with
  | S754_zero s => fields F s 0 0
  | S754_infinity s => fields F s (2 ^ ebits F - 1) 0
  | S754_nan => nan_bits F
  | S754_finite s m e =>
      if Z.pos m <? 2 ^ fbits F then fields F s 0 (Z.pos m)
      else fields F s (e - emin F + 1) (Z.pos m - 2 ^ fbits F)
  end.

Definition ieee_decode (F : format) (z : Z) : spec_float :=
  let fr := z mod 2 ^ fbits F in
  let ex := z / 2 ^ fbits F mod 2 ^ ebits F in
  let s := negb (z / 2 ^ fbits F / 2 ^ ebits F =? 0) in
  if ex =? 0 then
    match fr with Z.pos m => S754_finite s m (emin F) | _ => S754_zero s end
  else if ex =? 2 ^ ebits F - 1 then
    (if fr =? 0 then S754_infinity s else S754_nan)
  else match fr + 2 ^ fbits F with Z.pos m => S754_finite s m (ex - 1 + emin F) | _ => S754_zero s end.

(** ** Digits *)

Lemma digits2_bounds p : 2 ^ (Z.pos (digits2_pos p) - 1) <= Z.pos p < 2 ^ Z.pos (digits2_pos p).
Proof.
  induction p as [p IH|p IH|]; cbn [digits2_pos]; [| |by split];
    rewrite Pos2Z.inj_succ, Z.sub_1_r, Z.pred_succ, Z.pow_succ_r by done;
    replace (2 ^ Z.pos (digits2_pos p)) with (2 * 2 ^ (Z.pos (digits2_pos p) - 1)) in *
      by (rewrite <- Z.pow_succ_r by lia; f_equal; lia); lia.
Qed.

Lemma digits2_unique p d : 1 <= d -> 2 ^ (d - 1) <= Z.pos p < 2 ^ d -> Z.pos (digits2_pos p) = d.
Proof.
  intros Hd [Hl Hu]. destruct (digits2_bounds p) as [Hl' Hu'].
  assert (d - 1 < Z.pos (digits2_pos p)) by (apply (Z.pow_lt_mono_r_iff 2); lia).
  assert (Z.pos (digits2_pos p) - 1 < d) by (apply (Z.pow_lt_mono_r_iff 2); lia). lia.
Qed.

(** ** Round trip of the encoding *)

Section format.
Context (F : format) (Hf : 1 <= fbits F) (He : 2 <= ebits F).

Lemma fields_decode s ex fr :
  0 <= ex < 2 ^ ebits F -> 0 <= fr < 2 ^ fbits F ->
  fields F s ex fr mod 2 ^ fbits F = fr
  /\ fields F s ex fr / 2 ^ fbits F mod 2 ^ ebits F = ex
  /\ negb (fields F s ex fr / 2 ^ fbits F / 2 ^ ebits F =? 0) = s.
Proof.
  intros Hex Hfr. unfold fields.
  rewrite Z.add_comm, Z.mod_add, Z.div_add by lia.
  rewrite (Z.div_small fr), (Z.mod_small fr), Z.add_0_l by done.
  rewrite (Z.add_comm _ ex), Z.mod_add, Z.div_add by lia.
  rewrite (Z.div_small ex), (Z.mod_small ex) by done. by destruct s.
Qed.

Lemma fields_range s ex fr :
  0 <= ex < 2 ^ ebits F -> 0 <= fr < 2 ^ fbits F -> 0 <= fields F s ex fr < 2 ^ (1 + ebits F + fbits F).
Proof.
  intros Hex Hfr. unfold fields. rewrite !Z.pow_add_r by lia. change (2 ^ 1) with 2.
  destruct s; cbn [Z.b2z]; nia.
Qed.

Lemma exponents : 2 ^ ebits F = 2 * emax F /\ 2 <= emax F.
Proof.
  unfold emax. split; [rewrite <- Z.pow_succ_r by lia; f_equal; lia|].
  change 2 with (2 ^ 1) at 1. apply Z.pow_le_mono_r; lia.
Qed.

(** The two cases of a valid finite number: the exponent is the smallest one, or the
    mantissa has all its digits. *)
Lemma valid_cases s m e :
  valid_binary (prec F) (emax F) (S754_finite s m e) = true ->
  emin F <= e <= emax F - prec F /\ Z.pos m < 2 * 2 ^ fbits F /\ (e = emin F \/ 2 ^ fbits F <= Z.pos m).
Proof.
  cbn [valid_binary]. unfold bounded, canonical_mantissa, fexp. intros [Hc Hm]%andb_true_iff.
  apply Z.eqb_eq in Hc. apply Z.leb_le in Hm. change (SpecFloat.emin (prec F) (emax F)) with (emin F) in Hc.
  destruct (digits2_bounds m) as [Hl Hu]. unfold prec in *.
  assert (2 ^ Z.pos (digits2_pos m) <= 2 * 2 ^ fbits F).
  { rewrite <- Z.pow_succ_r by lia. apply Z.pow_le_mono_r; lia. }
  split; [lia|]. split; [lia|].
  destruct (Z.eq_dec e (emin F)) as [|Hne]; [by left|right].
  replace (Z.pos (digits2_pos m) - 1) with (fbits F) in Hl by lia. lia.
Qed.

Lemma ieee_encode_range x :
  valid_binary (prec F) (emax F) x = true -> is_nan x = false ->
  0 <= ieee_encode F x < 2 ^ (1 + ebits F + fbits F).
Proof.
  destruct exponents as [E1 E2]. assert (0 < 2 ^ fbits F) by (apply Z.pow_pos_nonneg; lia).
  destruct x as [s|s| |s m e]; intros Hv Hn; [| |done|]; cbn [ieee_encode].
  - apply fields_range; lia.
  - apply fields_range; lia.
  - destruct (valid_cases s m e Hv) as (He1 & Hm & _). unfold emin, prec in *.
    destruct (Z.ltb_spec (Z.pos m) (2 ^ fbits F)); apply fields_range; lia.
Qed.

Lemma ieee_roundtrip x :
  valid_binary (prec F) (emax F) x = true -> is_nan x = false -> ieee_decode F (ieee_encode F x) = x.
Proof.
  destruct exponents as [E1 E2]. assert (0 < 2 ^ fbits F) by (apply Z.pow_pos_nonneg; lia).
  destruct x as [s|s| |s m e]; intros Hv Hn; [| |done|]; cbn [ieee_encode]; unfold ieee_decode; cbv zeta.
  - destruct (fields_decode s 0 0) as (-> & -> & ->); [lia..|]. done.
  - destruct (fields_decode s (2 ^ ebits F - 1) 0) as (-> & -> & ->); [lia..|].
    destruct (Z.eqb_spec (2 ^ ebits F - 1) 0); [lia|]. by rewrite Z.eqb_refl.
  - destruct (valid_cases s m e Hv) as (He1 & Hm & Hcase).
    destruct (Z.ltb_spec (Z.pos m) (2 ^ fbits F)).
    + destruct (fields_decode s 0 (Z.pos m)) as (-> & -> & ->); [lia..|].
      destruct Hcase as [->|]; [done|lia].
    + unfold emin, prec in *.
      destruct (fields_decode s (e - (3 - emax F - (fbits F + 1)) + 1) (Z.pos m - 2 ^ fbits F)) as (-> & -> & ->); [lia..|].
      destruct (Z.eqb_spec (e - (3 - emax F - (fbits F + 1)) + 1) 0); [lia|].
      destruct (Z.eqb_spec (e - (3 - emax F - (fbits F + 1)) + 1) (2 ^ ebits F - 1)); [lia|].
      replace (Z.pos m - 2 ^ fbits F + 2 ^ fbits F) with (Z.pos m) by lia. f_equal. lia.
Qed.

End format.

(** ** Integers as doubles *)

Lemma iter_xO p d : Z.pos (Pos.iter xO p d) = Z.pos p * 2 ^ Z.pos d.
Proof.
  revert p. induction d as [|d IH] using Pos.peano_ind; intros p; [simpl; lia|].
  rewrite Pos.iter_succ, Pos2Z.inj_succ, Z.pow_succ_r by done.
  change (Z.pos (Pos.iter xO p d)~0) with (2 * Z.pos (Pos.iter xO p d)). rewrite IH. lia.
Qed.

Lemma shr_fexp_exact m e :
  fexp 53 1024 (Z.pos (digits2_pos m) + e) = e ->
  shr_fexp 53 1024 (Z.pos m) e loc_Exact = (Build_shr_record (Z.pos m) false false, e).
Proof. intros E. unfold shr_fexp. cbn [Zdigits2]. by rewrite E, Z.sub_diag. Qed.

(** A positive integer below 2^53 is scaled to 53 digits. *)
Lemma round_exact s p :
  Z.pos p < 2 ^ 53 ->
  exists m d, binary_round 53 1024 s p 0 = S754_finite s m (- d) /\ 0 <= d /\ Z.pos m = Z.pos p * 2 ^ d.
Proof.
  intros Hp. destruct (digits2_bounds p) as [Hl Hu].
  assert (Z.pos (digits2_pos p) <= 53) as H53.
  { assert (Z.pos (digits2_pos p) - 1 < 53); [|lia]. apply (Z.pow_lt_mono_r_iff 2); lia. }
  unfold binary_round. rewrite Z.add_0_r.
  assert (fexp 53 1024 (Z.pos (digits2_pos p)) = - (53 - Z.pos (digits2_pos p))) as E.
  { unfold fexp, SpecFloat.emin. lia. }
  rewrite E. set (d := 53 - Z.pos (digits2_pos p)).
  assert (exists m, shl_align p 0 (- d) = (m, - d) /\ Z.pos m = Z.pos p * 2 ^ d) as (m & Es & Em).
  { unfold shl_align. rewrite Z.sub_0_r. destruct d as [|q|q] eqn:Ed; cbn [Z.opp].
    - exists p. split; [done|]. lia.
    - eexists. split; [done|]. apply iter_xO.
    - lia. }
  assert (fexp 53 1024 (Z.pos (digits2_pos m) + - d) = - d) as Ef.
  { rewrite (digits2_unique m 53); [unfold fexp, SpecFloat.emin; lia|lia|].
    rewrite Em. replace (53 - 1) with (Z.pos (digits2_pos p) - 1 + d) by lia.
    replace 53 with (Z.pos (digits2_pos p) + d) by lia. rewrite !Z.pow_add_r by lia.
    assert (0 < 2 ^ d) by (apply Z.pow_pos_nonneg; lia). nia. }
  exists m, d. rewrite Es. split; [|lia]. unfold binary_round_aux. rewrite shr_fexp_exact by done.
  cbn [shr_m loc_of_shr_record round_nearest_even]. rewrite shr_fexp_exact by done. cbn [shr_m].
  destruct (Z.leb_spec (- d) (1024 - 53)); [done|lia].
Qed.

(** What the code does with such a double: its sign and its integer part are exact. *)
Lemma double_of_Z_exact n :
  - 2 ^ 53 < n < 2 ^ 53 -> trunc (double_of_Z n) = Some n /\ dbl_neg (double_of_Z n) = (n <? 0).
Proof.
  intros Hn. unfold double_of_Z, binary_normalize, dbl_neg. destruct n as [|p|p]; [done|..].
  - destruct (round_exact false p ltac:(lia)) as (m & d & -> & Hd & Em). split; [|done].
    cbn [trunc]. rewrite Z.shiftl_div_pow2 by lia. rewrite Z.opp_involutive, Em, Z.div_mul; [done|].
    apply Z.pow_nonzero; lia.
  - destruct (round_exact true p ltac:(lia)) as (m & d & -> & Hd & Em). split; [|done].
    cbn [trunc]. rewrite Z.shiftl_div_pow2 by lia. rewrite Z.opp_involutive, Em, Z.div_mul; [done|].
    apply Z.pow_nonzero; lia.
Qed.

Lemma long_of_double_exact n : - 2 ^ 53 < n < 2 ^ 53 -> long_of_double (double_of_Z n) = Done n.
Proof.
  intros Hn. unfold long_of_double. rewrite (proj1 (double_of_Z_exact n Hn)).
  rewrite bool_decide_eq_true_2; [done|range].
Qed.

Lemma ulong_of_double_exact n : 0 <= n < 2 ^ 53 -> ulong_of_double (double_of_Z n) = Done n.
Proof.
  intros Hn. unfold ulong_of_double. rewrite (proj1 (double_of_Z_exact n ltac:(lia))).
  unfold size_max. zcase; done.
Qed.
