(* ===== verification/Struct.v ===== *)
(** * util-src/struct.c on an LP64 little-endian machine

    The format string is read option by option; [b_pack], [b_unpack] and [b_size] are
    loops over it.  The theorems: what [pack] writes, [unpack] reads back, for every
    format and every byte order and alignment; [size] is the length that [pack] writes;
    [unpack] stays inside its data for the formats without alignment, and does not for
    others. *)

From stdpp Require Import base tactics numbers list strings pretty.
From Stdlib Require Import ZArith Lia SpecFloat Ascii.
From S2P Require Import Prelude LuaApi Ieee.

Local Open Scope Z_scope.

(** ** Characters *)

Definition is_digit (c : Z) : bool := (48 <=? c) && (c <=? 57).
Definition is_lower (c : Z) : bool := (97 <=? c) && (c <=? 122).
Definition is_alnum (c : Z) : bool := is_digit c || is_lower c || ((65 <=? c) && (c <=? 90)).

(** [opt] is one of the characters of a [switch] label. *)
Definition is_opt (opt : Z) (labels : string) : bool :=
  existsb (fun a => opt =? Z.of_N (N_of_ascii a)) (String.list_ascii_of_string labels).

Definition int_opts : string := "bBhHlLTiI".

(** ** Headers *)

Definition BIG : Z := 0.
Definition LITTLE : Z := 1.
Definition native_endian : Z := LITTLE.
Definition MAXALIGN : Z := 8.
Definition MAXINTSIZE : Z := 32.

Record Header := { endian : Z; align : Z }.

Definition defaultoptions : Header := {| endian := native_endian; align := 1 |}.

(** [isp2]: is [x] a power of two? *)
Definition isp2 (x : Z) : bool := (0 <? x) && (Z.land x (x - 1) =? 0).

(** ** Reading the format: its characters up to the NUL *)

Definition chk_int (z : Z) : outcome Z :=
  if bool_decide (is_int z) then Done z else Undef SignedOverflow.

(** The do-while loop of [getnum], once there is a digit. *)
Fixpoint getnum_loop (a : Z) (fmt : bytes) : outcome (Z * bytes) :=
  match fmt with
  | c :: fmt' =>
      if is_digit c then
        a ← chk_int (a * 10);
        a ← chk_int (a + c);
        getnum_loop (a - 48) fmt'
      else Done (a, fmt)
  | [] => Done (a, [])
  end.

Definition getnum (fmt : bytes) (df : Z) : outcome (Z * bytes) :=
  match fmt with
  | c :: _ => if is_digit c then getnum_loop 0 fmt else Done (df, fmt)
  | [] => Done (df, fmt)
  end.

(** The size of an option and the format after it. *)
Definition optsize (opt : Z) (fmt : bytes) : outcome (Z * bytes) :=
  if is_opt opt "Bb" then Done (1, fmt)
  else if is_opt opt "Hh" then Done (2, fmt)
  else if is_opt opt "Ll" then Done (8, fmt)
  else if is_opt opt "T" then Done (8, fmt)
  else if is_opt opt "f" then Done (4, fmt)
  else if is_opt opt "d" then Done (8, fmt)
  else if is_opt opt "x" then Done (1, fmt)
  else if is_opt opt "c" then
    '(n, fmt) ← getnum fmt 1;
    Done (size_t n, fmt)
  else if is_opt opt "iI" then
    '(sz, fmt) ← getnum fmt 4;
    if sz >? MAXINTSIZE then
      luaL_error ("integral size " +:+ pretty sz +:+ " is larger than limit of " +:+ pretty MAXINTSIZE)
    else Done (size_t sz, fmt)
  else Done (0, fmt).

Definition gettoalign (len : Z) (h : Header) (opt size : Z) : Z :=
  if (size =? 0) || (opt =? 99) then 0
  else
    let size := if size >? size_t (align h) then size_t (align h) else size in
    cint (Z.land (size_t (size - Z.land len (size_t (size - 1)))) (size_t (size - 1))).

Definition char_string (c : Z) : string := String (ascii_of_N (Z.to_N c)) EmptyString.

Definition controloptions (opt : Z) (fmt : bytes) (h : Header) : outcome (Header * bytes) :=
  if is_opt opt " " then Done (h, fmt)
  else if is_opt opt ">" then Done ({| endian := BIG; align := align h |}, fmt)
  else if is_opt opt "<" then Done ({| endian := LITTLE; align := align h |}, fmt)
  else if is_opt opt "!" then
    '(a, fmt) ← getnum fmt MAXALIGN;
    if negb (isp2 a) then luaL_error ("alignment " +:+ pretty a +:+ " is not a power of 2")
    else Done ({| endian := endian h; align := a |}, fmt)
  else Raise (ArgError 1 ("invalid format option '" +:+ char_string opt +:+ "'")).

(** ** Numbers in memory *)

(** The loops that write the bytes of [value], at the indices [idx]. *)
Fixpoint put_loop (idx : list Z) (buff : bytes) (value : Z) : outcome bytes :=
  match idx with
  | [] => Done buff
  | i :: idx =>
      buff ← mem_set buff i (Z.land value 0xff);
      put_loop idx buff (Z.shiftr value 8)
  end.

(** The loops that read bytes at [base + idx]. *)
Fixpoint get_loop (idx : list Z) (m : bytes) (base l : Z) : outcome Z :=
  match idx with
  | [] => Done l
  | i :: idx =>
      c ← mem_get m (base + i);
      get_loop idx m base (Z.lor (size_t (Z.shiftl l 8)) c)
  end.

(** The bytes of an integer of [n] bytes in memory, lowest first, and back. *)
Fixpoint le_bytes (n : nat) (z : Z) : bytes :=
  match n with
  | O => []
  | S n => z mod 256 :: le_bytes n (z / 256)
  end.

Fixpoint le_value (s : bytes) : Z :=
  match s with
  | [] => 0
  | c :: s => c + 256 * le_value s
  end.

(** [while (i < --size)] *)
Fixpoint swap_loop (fuel : nat) (b : bytes) (i size : Z) : outcome bytes :=
  match fuel with
  | O => Undef NoTermination
  | S fuel =>
      let size := size - 1 in
      if i <? size then
        temp ← mem_get b i;
        c ← mem_get b size;
        b ← mem_set b i c;
        b ← mem_set b size temp;
        swap_loop fuel b (i + 1) size
      else Done b
  end.

Definition correctbytes (b : bytes) (size endian : Z) : outcome bytes :=
  if negb (endian =? native_endian) then swap_loop (S (Z.to_nat size)) b 0 size else Done b.

(** [~0 << n] on [unsigned long] *)
Definition high_mask (n : Z) : outcome Z :=
  if (0 <=? n) && (n <? 64) then Done (size_t (Z.shiftl size_max n)) else Undef BadShift.

Definition getinteger (m : bytes) (base endian : Z) (issigned : bool) (size : Z) : outcome double :=
  l ← (if endian =? BIG then get_loop (seqZ 0 size) m base 0
       else get_loop (reverse (seqZ 0 size)) m base 0);
  if negb issigned then Done (double_of_Z l)
  else
    mask ← high_mask (size * 8 - 1);
    let l := if negb (Z.land l mask =? 0) then Z.lor l mask else l in
    Done (double_of_Z (long l)).

(** [memchr(data+pos, '\0', n)], as an index: the bytes are read one by one. *)
Fixpoint memchr0 (m : bytes) (fuel : nat) (pos n : Z) : outcome (option Z) :=
  if n =? 0 then Done None
  else
    match fuel with
    | O => Undef OutOfBounds
    | S fuel =>
        c ← mem_get m pos;
        if c =? 0 then Done (Some pos) else memchr0 m fuel (pos + 1) (n - 1)
    end.

Section handlers.
Context `{LuaAux}.
(** Has Lua's stack room for two more values when [n] results are on it? *)
Context (checkstack : Z -> bool).
Implicit Types (L : list value).

(** The initial contents of [buff] are never read. *)
Definition putinteger L (arg endian size : Z) : outcome bytes :=
  n ← luaL_checknumber L arg;
  value ← (if dbl_neg n then v ← long_of_double n; Done (size_t v) else ulong_of_double n);
  buff ← (if endian =? LITTLE then put_loop (seqZ 0 size) (replicate 32 0) value
          else put_loop (reverse (seqZ 0 size)) (replicate 32 0) value);
  mem_sub buff 0 size.

(** One option of [b_pack] after the alignment: the bytes added, the next argument, the
    size counted, the header and the format. *)
Definition pack_option L (opt size : Z) (fmt : bytes) (h : Header) (arg : Z)
    : outcome (bytes * Z * Z * Header * bytes) :=
  if is_opt opt int_opts then
    s ← putinteger L arg (endian h) (cint size);
    Done (s, arg + 1, size, h, fmt)
  else if is_opt opt "x" then Done ([0], arg, size, h, fmt)
  else if is_opt opt "f" then
    n ← luaL_checknumber L arg;
    f ← correctbytes (le_bytes 4 (ieee_encode binary32 (narrow n))) (cint size) (endian h);
    s ← mem_sub f 0 size;
    Done (s, arg + 1, size, h, fmt)
  else if is_opt opt "d" then
    d ← luaL_checknumber L arg;
    d ← correctbytes (le_bytes 8 (ieee_encode binary64 d)) (cint size) (endian h);
    s ← mem_sub d 0 size;
    Done (s, arg + 1, size, h, fmt)
  else if is_opt opt "cs" then
    s ← luaL_checklstring L arg;
    let arg := arg + 1 in
    let l := zlen s in
    let size := if size =? 0 then l else size in
    _ ← luaL_argcheck (l >=? size) arg "string too short";
    s ← mem_sub (c_str s) 0 size;
    if is_opt opt "s" then Done (s ++ [0], arg, size_t (size + 1), h, fmt)
    else Done (s, arg, size, h, fmt)
  else
    '(h, fmt) ← controloptions opt fmt h;
    Done ([], arg, size, h, fmt).

Fixpoint pack_loop (fuel : nat) L (fmt : bytes) (h : Header) (arg totalsize : Z) (b : bytes) : outcome bytes :=
  match fmt with
  | [] => Done b
  | opt :: fmt =>
      match fuel with
      | O => Undef NoTermination
      | S fuel =>
          '(size, fmt) ← optsize opt fmt;
          let toalign := gettoalign totalsize h opt size in
          let totalsize := size_t (totalsize + toalign) in
          let b := b ++ replicate (Z.to_nat toalign) 0 in
          '(s, arg, size, h, fmt) ← pack_option L opt size fmt h arg;
          pack_loop fuel L fmt h arg (size_t (totalsize + size)) (b ++ s)
      end
  end.

(** A nil is pushed after the arguments. *)
Definition b_pack L : outcome (list value) :=
  fmt ← luaL_checklstring L 1;
  let fmt := until_nul (c_str fmt) in
  b ← pack_loop (length fmt) (L ++ [VNil]) fmt defaultoptions 2 0 [];
  Done [VStr b].

(** One option of [b_unpack] on the memory [data], with the results [res] on the stack. *)
Definition unpack_option (data : bytes) (ld pos opt size : Z) (fmt : bytes) (h : Header) (res : list value)
    : outcome (list value * Z * Header * bytes) :=
  if is_opt opt int_opts then
    v ← getinteger data pos (endian h) (is_lower opt) (cint size);
    Done (res ++ [VNum v], size, h, fmt)
  else if is_opt opt "x" then Done (res, size, h, fmt)
  else if is_opt opt "f" then
    f ← mem_sub data pos size;
    f ← correctbytes f 4 (endian h);
    Done (res ++ [VNum (widen (ieee_decode binary32 (le_value f)))], size, h, fmt)
  else if is_opt opt "d" then
    d ← mem_sub data pos size;
    d ← correctbytes d 8 (endian h);
    Done (res ++ [VNum (ieee_decode binary64 (le_value d))], size, h, fmt)
  else if is_opt opt "c" then
    '(size, res) ←
      (if size =? 0 then
         match last res ≫= lua_tonumberx with
         | None => luaL_error "format 'c0' needs a previous size"
         | Some d =>
             size ← ulong_of_double d;
             _ ← luaL_argcheck (size <=? size_t (ld - pos)) 2 "data string too short";
             Done (size, removelast res)
         end
       else Done (size, res));
    s ← mem_sub data pos size;
    Done (res ++ [VStr s], size, h, fmt)
  else if is_opt opt "s" then
    e ← memchr0 data (S (length data)) pos (size_t (ld - pos));
    match e with
    | None => luaL_error "unfinished string in data"
    | Some e =>
        let size := size_t (e - pos + 1) in
        s ← mem_sub data pos (size - 1);
        Done (res ++ [VStr s], size, h, fmt)
    end
  else
    '(h, fmt) ← controloptions opt fmt h;
    Done (res, size, h, fmt).

Fixpoint unpack_loop (fuel : nat) (data : bytes) (ld : Z) (fmt : bytes) (h : Header) (pos : Z) (res : list value)
    : outcome (list value) :=
  match fmt with
  | [] => Done (res ++ [VInt (long (size_t (pos + 1)))])
  | opt :: fmt =>
      match fuel with
      | O => Undef NoTermination
      | S fuel =>
          '(size, fmt) ← optsize opt fmt;
          let pos := size_t (pos + gettoalign pos h opt size) in
          _ ← luaL_argcheck (size <=? size_t (ld - pos)) 2 "data string too short";
          _ ← (if checkstack (zlen res) then Done tt else luaL_error "stack overflow (too many results)");
          '(res, size, h, fmt) ← unpack_option data ld pos opt size fmt h res;
          unpack_loop fuel data ld fmt h (size_t (pos + size)) res
      end
  end.

Definition b_unpack L : outcome (list value) :=
  fmt ← luaL_checklstring L 1;
  let fmt := until_nul (c_str fmt) in
  data ← luaL_checklstring L 2;
  let ld := zlen data in
  init ← luaL_optinteger L 3 1;
  let pos := size_t (size_t init - 1) in
  _ ← luaL_argcheck (pos <=? ld) 3 "initial position out of string";
  unpack_loop (length fmt) (c_str data) ld fmt defaultoptions pos [].

Fixpoint size_loop (fuel : nat) (fmt : bytes) (h : Header) (pos : Z) : outcome Z :=
  match fmt with
  | [] => Done pos
  | opt :: fmt =>
      match fuel with
      | O => Undef NoTermination
      | S fuel =>
          '(size, fmt) ← optsize opt fmt;
          let pos := size_t (pos + gettoalign pos h opt size) in
          if opt =? 115 then Raise (ArgError 1 "option 's' has no fixed size")
          else if (opt =? 99) && (size =? 0) then Raise (ArgError 1 "option 'c0' has no fixed size")
          else
            '(h, fmt) ← (if negb (is_alnum opt) then controloptions opt fmt h else Done (h, fmt));
            size_loop fuel fmt h (size_t (pos + size))
      end
  end.

Definition b_size L : outcome (list value) :=
  fmt ← luaL_checklstring L 1;
  let fmt := until_nul (c_str fmt) in
  pos ← size_loop (length fmt) fmt defaultoptions 0;
  Done [VInt (long pos)].

Definition thislib : list (string * (list value -> outcome (list value))) :=
  [("pack", b_pack); ("unpack", b_unpack); ("size", b_size)].

End handlers.

(** ** Integers in memory *)

Lemma length_le_bytes n z : length (le_bytes n z) = n.
Proof. revert z. induction n as [|n IH]; intros z; [done|]. simpl. by rewrite IH. Qed.

Lemma le_bytes_ok n z : bytes_ok (le_bytes n z).
Proof.
  revert z. induction n as [|n IH]; intros z; constructor; [|apply IH].
  unfold is_byte. by apply Z.mod_pos_bound.
Qed.

Lemma le_value_bytes n z : le_value (le_bytes n z) = z mod 256 ^ Z.of_nat n.
Proof.
  revert z. induction n as [|n IH]; intros z; cbn [le_bytes le_value]; [by rewrite Z.mod_1_r|].
  rewrite IH, Nat2Z.inj_succ, Z.pow_succ_r by lia.
  rewrite Z.rem_mul_r by (try lia; apply Z.pow_nonzero; lia). done.
Qed.

Lemma le_value_range s : bytes_ok s -> 0 <= le_value s < 256 ^ zlen s.
Proof.
  induction 1 as [|c s Hc Hs IH]; [done|]. cbn [le_value]. rewrite zlen_cons, Z.pow_add_r, Z.pow_1_r
    by (done || apply zlen_nonneg). unfold is_byte in Hc. lia.
Qed.

Lemma le_value_app s t : le_value (s ++ t) = le_value s + 256 ^ zlen s * le_value t.
Proof.
  induction s as [|c s IH]; cbn [app le_value]; [change (zlen (@nil Z)) with 0; lia|].
  rewrite IH, zlen_cons, Z.pow_add_r, Z.pow_1_r by (done || apply zlen_nonneg). lia.
Qed.

(** The bytes that the two loops write. *)
Definition int_bytes (endian size value : Z) : bytes :=
  let s := le_bytes (Z.to_nat size) value in
  if endian =? LITTLE then s else reverse s.

Lemma zlen_int_bytes e size v : 0 <= size -> zlen (int_bytes e size v) = size.
Proof.
  intros. unfold int_bytes, zlen. destruct (e =? LITTLE); rewrite ?length_reverse, length_le_bytes; lia.
Qed.

Lemma int_land_byte v : Z.land v 0xff = v mod 256.
Proof. change 0xff with (Z.ones 8). by apply Z.land_ones. Qed.

Lemma put_loop_little n p q v :
  (n <= length q)%nat ->
  put_loop (seqZ (zlen p) (Z.of_nat n)) (p ++ q) v = Done (p ++ le_bytes n v ++ drop n q).
Proof.
  revert p q v. induction n as [|n IH]; intros p q v Hn; [done|].
  destruct q as [|x q]; simpl in Hn; [lia|].
  rewrite seqZ_cons by lia. cbn [put_loop]. rewrite mem_set_done
    by (rewrite zlen_app, zlen_cons; pose proof (zlen_nonneg p); pose proof (zlen_nonneg q); lia).
  cbn [mbind outcome_bind]. replace (Z.to_nat (zlen p)) with (length p) by (unfold zlen; lia).
  rewrite insert_app_r_alt by done. rewrite Nat.sub_diag. cbn [insert list_insert].
  change (p ++ Z.land v 255 :: q) with (p ++ [Z.land v 255] ++ q). rewrite app_assoc.
  replace (Z.succ (zlen p)) with (zlen (p ++ [Z.land v 255])) by (rewrite zlen_app; done).
  replace (Z.pred (Z.of_nat (S n))) with (Z.of_nat n) by lia.
  rewrite IH by lia. rewrite int_land_byte, Z.shiftr_div_pow2, <- app_assoc by done. done.
Qed.

Lemma seqZ_reverse_S n : reverse (seqZ 0 (Z.of_nat (S n))) = Z.of_nat n :: reverse (seqZ 0 (Z.of_nat n)).
Proof.
  rewrite Nat2Z.inj_succ. replace (Z.succ (Z.of_nat n)) with (Z.of_nat n + 1) by lia.
  rewrite seqZ_app by lia. rewrite reverse_app. done.
Qed.

Lemma put_loop_big n q v :
  (n <= length q)%nat ->
  put_loop (reverse (seqZ 0 (Z.of_nat n))) q v = Done (reverse (le_bytes n v) ++ drop n q).
Proof.
  revert q v. induction n as [|n IH]; intros q v Hn; [done|].
  rewrite seqZ_reverse_S. cbn [put_loop]. rewrite mem_set_done by (unfold zlen; lia).
  cbn [mbind outcome_bind]. rewrite IH by (rewrite length_insert; lia).
  rewrite Nat2Z.id, drop_insert_ge, Nat.sub_diag by lia. cbn [le_bytes]. rewrite reverse_cons, <- app_assoc.
  rewrite int_land_byte, Z.shiftr_div_pow2 by done.
  destruct (drop n q) as [|x l] eqn:E.
  { apply (f_equal length) in E. rewrite length_drop in E. simpl in E. lia. }
  cbn [insert list_insert app]. do 3 f_equal.
  replace (S n) with (n + 1)%nat by lia. by rewrite <- drop_drop, E.
Qed.

Lemma put_bytes e size v :
  0 <= size <= 32 ->
  (buff ← (if e =? LITTLE then put_loop (seqZ 0 size) (replicate 32 0) v
           else put_loop (reverse (seqZ 0 size)) (replicate 32 0) v);
   mem_sub buff 0 size) = Done (int_bytes e size v).
Proof.
  intros Hs. replace size with (Z.of_nat (Z.to_nat size)) by lia. set (n := Z.to_nat size).
  assert (forall s, length s = n -> mem_sub (s ++ drop n (replicate 32 0)) 0 (Z.of_nat n) = Done s) as E.
  { intros s Hn. pose proof (zlen_nonneg (drop n (replicate 32 0))) as Hd.
    rewrite mem_sub_done by (rewrite ?zlen_app; unfold zlen in *; lia).
    unfold slice. by rewrite drop_0, Nat2Z.id, <- Hn, take_app_length. }
  unfold int_bytes. rewrite Nat2Z.id. destruct (e =? LITTLE).
  - pose proof (put_loop_little n [] (replicate 32 0) v) as P. cbn [app] in P. change (zlen (@nil Z)) with 0 in P.
    rewrite P by (rewrite length_replicate; lia). apply E, length_le_bytes.
  - rewrite put_loop_big by (rewrite length_replicate; lia). apply E. by rewrite length_reverse, length_le_bytes.
Qed.

(** Reading: the bytes met in the order of the indices make a big-endian number. *)
Lemma get_loop_spec idx cs m base l :
  Forall2 (fun i c => mem_get m (base + i) = Done c) idx cs -> bytes_ok cs ->
  0 <= l -> l * 256 ^ zlen cs + (256 ^ zlen cs - 1) <= size_max ->
  get_loop idx m base l = Done (l * 256 ^ zlen cs + le_value (reverse cs)).
Proof.
  intros H2. revert l. induction H2 as [|i c idx cs Hi H2 IH]; intros l Hok Hl Hb; cbn [get_loop].
  { change (zlen (@nil Z)) with 0. f_equal. cbn. lia. }
  apply Forall_cons in Hok as [Hc Hok]. rewrite Hi. cbn [mbind outcome_bind].
  rewrite zlen_cons, Z.pow_add_r, Z.pow_1_r in * by (done || apply zlen_nonneg).
  assert (1 <= 256 ^ zlen cs) as Hp.
  { assert (0 < 256 ^ zlen cs) by (apply Z.pow_pos_nonneg; [lia|apply zlen_nonneg]). lia. }
  assert (l * 256 <= size_max) by nia.
  rewrite size_small by (rewrite Z.shiftl_mul_pow2 by done; lia).
  rewrite (lor_low l c 8) by done. change (2 ^ 8) with 256.
  unfold is_byte in Hc. rewrite IH by (try done; nia).
  f_equal. rewrite reverse_cons, le_value_app. unfold zlen at 2 3. rewrite length_reverse. cbn [le_value].
  unfold zlen. lia.
Qed.

Lemma mem_get_app (pre s post : bytes) i :
  0 <= i < zlen s -> exists c, s !! Z.to_nat i = Some c /\ mem_get (pre ++ s ++ post) (zlen pre + i) = Done c.
Proof.
  intros Hi. destruct (lookup_lt_is_Some_2 s (Z.to_nat i)) as [c Hc]; [unfold zlen in Hi; lia|].
  exists c. split; [done|]. pose proof (zlen_nonneg pre). apply mem_get_done; [lia|].
  rewrite lookup_app_r by (unfold zlen; lia).
  replace (Z.to_nat (zlen pre + i) - length pre)%nat with (Z.to_nat i) by (unfold zlen; lia).
  rewrite lookup_app_l by (unfold zlen in Hi; lia). done.
Qed.

(** All the bytes of a part of the memory. *)
Lemma get_indices (pre s post : bytes) :
  Forall2 (fun i c => mem_get (pre ++ s ++ post) (zlen pre + i) = Done c) (seqZ 0 (zlen s)) s.
Proof.
  apply Forall2_same_length_lookup_2.
  { rewrite length_seqZ. unfold zlen. lia. }
  intros k i c Hi Hc. apply lookup_seqZ in Hi as [-> Hk].
  destruct (mem_get_app pre s post (0 + Z.of_nat k)) as (c' & Hc' & ->); [lia|].
  rewrite Z.add_0_l, Nat2Z.id in Hc'. congruence.
Qed.

Lemma get_bytes pre post e size v :
  1 <= size <= 8 -> e = BIG \/ e = LITTLE ->
  (if e =? BIG then get_loop (seqZ 0 size) (pre ++ int_bytes e size v ++ post) (zlen pre) 0
   else get_loop (reverse (seqZ 0 size)) (pre ++ int_bytes e size v ++ post) (zlen pre) 0)
  = Done (v mod 256 ^ size).
Proof.
  intros Hs He. pose proof (get_indices pre (int_bytes e size v) post) as G.
  pose proof (zlen_int_bytes e size v ltac:(lia)) as Hz. rewrite Hz in G.
  assert (256 ^ size <= 256 ^ 8) by (apply Z.pow_le_mono_r; lia).
  pose proof (le_bytes_ok (Z.to_nat size) v) as Hok. pose proof (length_le_bytes (Z.to_nat size) v) as Hlen.
  assert (le_value (le_bytes (Z.to_nat size) v) = v mod 256 ^ size) as Hv
    by (rewrite le_value_bytes; do 2 f_equal; lia).
  unfold int_bytes in *. destruct He as [-> | ->]; change (BIG =? LITTLE) with false in *;
    change (LITTLE =? LITTLE) with true in *; change (LITTLE =? BIG) with false; change (BIG =? BIG) with true; cbv iota in *.
  - rewrite (get_loop_spec _ _ _ _ _ G); [|by apply Forall_reverse|done|rewrite Hz; unfold size_max; lia].
    by rewrite reverse_involutive, Hv, Z.mul_0_l.
  - apply Forall2_reverse in G. rewrite (get_loop_spec _ _ _ _ _ G); [|by apply Forall_reverse|done|].
    + by rewrite reverse_involutive, Hv, Z.mul_0_l.
    + unfold zlen in *. rewrite length_reverse, Hz. unfold size_max. lia.
Qed.

(** Sign extension of a number of [size] bytes. *)
Lemma lor_1_ones n : 0 < n -> Z.lor 1 (Z.ones n) = Z.ones n.
Proof.
  intros Hn. apply Z.bits_inj'. intros i Hi. rewrite Z.lor_spec.
  destruct (Z.eq_dec i 0) as [->|]; [by rewrite !Z.ones_spec_low by lia|].
  rewrite (Z.bits_above_log2 1); [done|lia|]. simpl. lia.
Qed.

Lemma sign_extension size n :
  1 <= size <= 8 -> - 2 ^ (8 * size - 1) <= n < 2 ^ (8 * size - 1) ->
  exists mask, high_mask (size * 8 - 1) = Done mask /\
    let l := n mod 256 ^ size in
    long (if negb (Z.land l mask =? 0) then Z.lor l mask else l) = n.
Proof.
  intros Hs Hn. unfold high_mask. replace (size * 8 - 1) with (8 * size - 1) by lia.
  destruct (Z.leb_spec 0 (8 * size - 1)); [|lia]. destruct (Z.ltb_spec (8 * size - 1) 64); [|lia]. cbn [andb].
  eexists. split; [done|]. cbv zeta. change 256 with (2 ^ 8). rewrite <- Z.pow_mul_r by lia.
  assert (size = 1 \/ size = 2 \/ size = 3 \/ size = 4 \/ size = 5 \/ size = 6 \/ size = 7 \/ size = 8) as Hs' by lia.
  set (k := 8 * size - 1) in *. replace (8 * size) with (k + 1) by lia.
  assert (2 ^ (k + 1) = 2 * 2 ^ k) as E2 by (rewrite Z.pow_add_r by lia; lia).
  assert (0 < 2 ^ k) as Hk by (apply Z.pow_pos_nonneg; lia).
  assert (size_t (Z.shiftl size_max k) = Z.shiftl (2 ^ (64 - k) - 1) k) as Em.
  { assert (2 ^ (64 - k) * 2 ^ k = 2 ^ 64) as E64 by (rewrite <- Z.pow_add_r by lia; f_equal; lia).
    assert (2 ^ k <= 2 ^ 63) by (apply Z.pow_le_mono_r; lia).
    rewrite !Z.shiftl_mul_pow2 by lia. unfold wrap_u, size_max. symmetry.
    apply (Z.mod_unique _ _ (2 ^ k - 1)); lia. }
  rewrite Em. clear Em.
  (* the number is its sign bit and k other bits *)
  assert (exists q r, n mod 2 ^ (k + 1) = q * 2 ^ k + r /\ 0 <= r < 2 ^ k /\ (n < 0 /\ q = 1 /\ n = r - 2 ^ k \/ 0 <= n /\ q = 0 /\ n = r))
    as (q & r & -> & Hr & Hq).
  { destruct (Z.lt_ge_cases n 0).
    - exists 1, (n + 2 ^ k). split; [|lia]. symmetry. apply (Z.mod_unique _ _ (-1)); lia.
    - exists 0, n. split; [|lia]. rewrite Z.mod_small; lia. }
  assert (2 ^ (64 - k) - 1 = Z.ones (64 - k)) as -> by (rewrite Z.ones_equiv; lia).
  rewrite land_shiftl, Z.land_ones by lia.
  assert (2 ^ 1 <= 2 ^ (64 - k)) by (apply Z.pow_le_mono_r; lia). rewrite (Z.mod_small q) by lia.
  destruct Hq as [(Hn0 & -> & En)|(Hn0 & -> & En)].
  - destruct (Z.eqb_spec (1 * 2 ^ k) 0) as [E|_]; [lia|]. cbn [negb]. rewrite lor_shiftl, lor_1_ones by lia.
    rewrite Z.ones_equiv, <- Z.sub_1_r.
    rewrite Z.mul_sub_distr_r, <- Z.pow_add_r by lia. replace (64 - k + k) with 64 by lia.
    assert (2 ^ k <= 2 ^ 63) by (apply Z.pow_le_mono_r; lia).
    unfold wrap_s. replace (2 ^ 64 - 1 * 2 ^ k + r + 2 ^ (64 - 1)) with (n + 2 ^ 63 + 1 * 2 ^ 64) by lia.
    rewrite Z.mod_add by done. rewrite Z.mod_small; lia.
  - rewrite Z.mul_0_l. cbn [Z.eqb negb]. rewrite Z.add_0_l, <- En.
    assert (2 ^ k <= 2 ^ 63) by (apply Z.pow_le_mono_r; lia). apply long_small. range.
Qed.

Definition is_endian (e : Z) : Prop := e = BIG \/ e = LITTLE.

(** A signed or unsigned number that fits in [size] bytes, and in a double. *)
Definition fits (issigned : bool) (size n : Z) : Prop :=
  - 2 ^ 53 < n < 2 ^ 53 /\
  if issigned then - 2 ^ (8 * size - 1) <= n < 2 ^ (8 * size - 1) else 0 <= n < 256 ^ size.

Lemma getinteger_bytes pre post e issigned size n :
  1 <= size <= 8 -> is_endian e -> fits issigned size n ->
  getinteger (pre ++ int_bytes e size n ++ post) (zlen pre) e issigned size = Done (double_of_Z n).
Proof.
  intros Hs He [_ Hf]. unfold getinteger. rewrite get_bytes by done. cbn [mbind outcome_bind].
  destruct issigned; cbn [negb].
  - destruct (sign_extension size n Hs Hf) as (mask & -> & E). cbn [mbind outcome_bind].
    cbv zeta in *. by rewrite E.
  - by rewrite Z.mod_small.
Qed.

Lemma le_bytes_wrap n z : (n <= 8)%nat -> le_bytes n (size_t z) = le_bytes n z.
Proof.
  intros Hn. unfold wrap_u. change (2 ^ 64) with (256 ^ Z.of_nat 8).
  assert (forall k, (n <= k)%nat -> le_bytes n (z mod 256 ^ Z.of_nat k) = le_bytes n z) as E; [|by apply E].
  clear Hn. revert z. induction n as [|n IH]; intros z k Hk; [done|].
  destruct k as [|k]; [lia|]. cbn [le_bytes]. rewrite Nat2Z.inj_succ, Z.pow_succ_r by lia.
  rewrite Z.rem_mul_r by (try lia; apply Z.pow_nonzero; lia).
  rewrite (Z.mul_comm 256), Z.mod_add, Z.div_add by lia.
  rewrite Z.mod_mod, (Z.div_small (z mod 256)), Z.add_0_l by (try lia; by apply Z.mod_pos_bound).
  f_equal. apply IH. lia.
Qed.

Lemma int_bytes_wrap e size z : size <= 8 -> int_bytes e size (size_t z) = int_bytes e size z.
Proof. intros Hs. unfold int_bytes. by rewrite le_bytes_wrap by lia. Qed.

Section option_lemmas.
Context `{LuaAux}.
Implicit Types (L : list value).

Lemma checknumber_at L i v d :
  lua_arg L i = Some v -> lua_tonumberx v = Some d -> luaL_checknumber L i = Done d.
Proof. intros E1 E2. unfold luaL_checknumber. by rewrite E1; cbn; rewrite E2. Qed.

Lemma checklstring_at L i v s :
  lua_arg L i = Some v -> lua_tolstring v = Some s -> luaL_checklstring L i = Done s.
Proof. intros E1 E2. unfold luaL_checklstring. by rewrite E1; cbn; rewrite E2. Qed.

Lemma putinteger_bytes L arg v n e issigned size :
  lua_arg L arg = Some v -> lua_tonumberx v = Some (double_of_Z n) ->
  1 <= size <= 8 -> fits issigned size n ->
  putinteger L arg e size = Done (int_bytes e size n).
Proof.
  intros Ev Ed Hs [Hn Hf]. unfold putinteger. rewrite (checknumber_at _ _ _ _ Ev Ed). cbn [mbind outcome_bind].
  rewrite (proj2 (double_of_Z_exact n Hn)). destruct (Z.ltb_spec n 0).
  - rewrite long_of_double_exact by done. cbn [mbind outcome_bind].
    rewrite put_bytes by lia. by rewrite int_bytes_wrap by lia.
  - rewrite ulong_of_double_exact by lia. cbn [mbind outcome_bind]. by rewrite put_bytes by lia.
Qed.

End option_lemmas.

(** [correctbytes] reverses four or eight bytes, for the other byte order. *)
Definition ordered (endian : Z) (b : bytes) : bytes := if endian =? LITTLE then b else reverse b.

Lemma correctbytes_4 b e : length b = 4%nat -> correctbytes b 4 e = Done (ordered e b).
Proof.
  intros Hl. destruct b as [|b0 [|b1 [|b2 [|b3 [|]]]]]; try done. unfold correctbytes, ordered.
  change native_endian with LITTLE. by destruct (e =? LITTLE).
Qed.

Lemma correctbytes_8 b e : length b = 8%nat -> correctbytes b 8 e = Done (ordered e b).
Proof.
  intros Hl. destruct b as [|b0 [|b1 [|b2 [|b3 [|b4 [|b5 [|b6 [|b7 [|]]]]]]]]]; try done.
  unfold correctbytes, ordered. change native_endian with LITTLE. by destruct (e =? LITTLE).
Qed.

Lemma ordered_involutive e b : ordered e (ordered e b) = b.
Proof. unfold ordered. destruct (e =? LITTLE); [done|apply reverse_involutive]. Qed.

Lemma length_ordered e b : length (ordered e b) = length b.
Proof. unfold ordered. destruct (e =? LITTLE); [done|apply length_reverse]. Qed.

Lemma mem_sub_app {A} (pre s post : list A) : mem_sub (pre ++ s ++ post) (zlen pre) (zlen s) = Done s.
Proof.
  pose proof (zlen_nonneg pre). pose proof (zlen_nonneg s). pose proof (zlen_nonneg post).
  rewrite mem_sub_done by (rewrite ?zlen_app; lia). unfold slice, zlen.
  by rewrite !Nat2Z.id, drop_app_length, take_app_length.
Qed.

Lemma mem_sub_app_at {A} (m pre s post : list A) i n :
  m = pre ++ s ++ post -> i = zlen pre -> n = zlen s -> mem_sub m i n = Done s.
Proof. intros -> -> ->. apply mem_sub_app. Qed.

(** ** Alignment and lengths *)

Definition header_ok (h : Header) : Prop := is_endian (endian h) /\ 1 <= align h <= int_max.

Lemma defaultoptions_ok : header_ok defaultoptions.
Proof. split; [by right|]. simpl. range. Qed.

Lemma land_range x y : 0 <= y -> 0 <= Z.land x y <= y.
Proof.
  intros Hy. apply Z.ldiff_le; [done|]. apply Z.bits_inj'. intros i _.
  rewrite Z.ldiff_spec, Z.land_spec, Z.bits_0. by destruct (Z.testbit x i), (Z.testbit y i).
Qed.

Lemma gettoalign_range len h opt size :
  header_ok h -> 0 <= size -> 0 <= gettoalign len h opt size <= int_max.
Proof.
  intros [_ Ha] Hs. unfold gettoalign. destruct (Z.eqb_spec size 0); cbn [orb]; [range|].
  destruct (opt =? 99); [range|]. cbv zeta. rewrite (size_small (align h)) by range.
  set (size' := if size >? align h then align h else size).
  assert (1 <= size' <= int_max) as Hs'.
  { unfold size'. destruct (Z.gtb_spec size (align h)); range. }
  rewrite (size_small (size' - 1)) by range.
  pose proof (land_range (size_t (size' - Z.land len (size' - 1))) (size' - 1)).
  rewrite int_small by range. lia.
Qed.

Lemma getnum_loop_spec a fmt n fmt' :
  is_int a -> getnum_loop a fmt = Done (n, fmt') -> is_int n /\ (length fmt' <= length fmt)%nat.
Proof.
  revert a. induction fmt as [|c fmt IH]; intros a Ha; cbn [getnum_loop].
  { by intros [= <- <-]. }
  destruct (is_digit c) eqn:Hc; [|by intros [= <- <-]]. unfold chk_int.
  case_bool_decide; cbn [mbind outcome_bind]; [|done]. case_bool_decide; cbn [mbind outcome_bind]; [|done].
  unfold is_digit in Hc. apply andb_true_iff in Hc as [?%Z.leb_le ?%Z.leb_le].
  intros E. apply IH in E as [? ?]; [simpl; split; [done|lia]|range].
Qed.

Lemma getnum_spec fmt df n fmt' :
  is_int df -> getnum fmt df = Done (n, fmt') -> is_int n /\ (length fmt' <= length fmt)%nat.
Proof.
  intros Hd. unfold getnum. destruct fmt as [|c fmt]; [by intros [= <- <-]|].
  destruct (is_digit c); [|by intros [= <- <-]]. apply getnum_loop_spec. range.
Qed.

Lemma optsize_spec opt fmt size fmt' :
  optsize opt fmt = Done (size, fmt') -> 0 <= size <= size_max /\ (length fmt' <= length fmt)%nat.
Proof.
  unfold optsize. repeat (case_match; [intros [= <- <-]; split; [unfold size_max|]; lia|]).
  case_match.
  { destruct (getnum fmt 1) as [[n f]|e|u] eqn:E; cbn [mbind outcome_bind]; try done. intros [= <- <-].
    apply getnum_spec in E as [? ?]; [|range]. split; [apply size_range|done]. }
  case_match; [|intros [= <- <-]; split; [unfold size_max|]; lia].
  destruct (getnum fmt 4) as [[n f]|e|u] eqn:E; cbn [mbind outcome_bind]; try done.
  case_match; [done|]. intros [= <- <-]. apply getnum_spec in E as [? ?]; [|range].
  split; [apply size_range|done].
Qed.

Lemma controloptions_spec opt fmt h h' fmt' :
  header_ok h -> controloptions opt fmt h = Done (h', fmt') ->
  header_ok h' /\ (length fmt' <= length fmt)%nat.
Proof.
  intros [He Ha]. unfold controloptions. case_match; [by intros [= <- <-]|].
  case_match; [intros [= <- <-]; split; [split; [by left|done]|done]|].
  case_match; [intros [= <- <-]; split; [split; [by right|done]|done]|].
  case_match; [|done]. destruct (getnum fmt MAXALIGN) as [[n f]|e|u] eqn:E; cbn [mbind outcome_bind]; try done.
  destruct (isp2 n) eqn:Hp; cbn [negb]; [|done]. intros [= <- <-].
  apply getnum_spec in E as [? ?]; [|unfold MAXALIGN; range]. split; [|done]. split; [done|]. simpl.
  unfold isp2 in Hp. apply andb_true_iff in Hp as [?%Z.ltb_lt _]. range.
Qed.

(** ** Formats, arguments and results *)

Section loops.
Context `{LuaAux}.
Implicit Types (L : list value).

(** The stack holds [args] from slot [arg] on. *)
Definition args_at L (arg : Z) (args : list value) : Prop :=
  1 <= arg /\ forall i v, args !! i = Some v -> lua_arg L (arg + Z.of_nat i) = Some v.

Lemma args_at_cons L arg v args : args_at L arg (v :: args) -> lua_arg L arg = Some v /\ args_at L (arg + 1) args.
Proof.
  intros [H1 Ha]. split.
  - rewrite <- (Ha 0%nat v eq_refl). f_equal. lia.
  - split; [lia|]. intros i w Hi. rewrite <- (Ha (S i) w Hi). f_equal. lia.
Qed.

(** What the three loops do on the rest of a format: [pack] writes some bytes for the
    arguments; [unpack] on these bytes replaces the values [need] on top of its stack by
    [rs]; [size], if it succeeds, counts them. *)
Definition loops_agree L (fmt : bytes) (args need rs : list value) : Prop :=
  forall fuel h arg total b,
  args_at L arg args -> (length fmt <= fuel)%nat -> header_ok h -> 0 <= total ->
  exists out, pack_loop fuel L fmt h arg total b = Done (b ++ out) /\
    (forall checkstack fuel' pre post res,
       zlen pre = total -> zlen (pre ++ out ++ post) < long_max -> (length fmt <= fuel')%nat ->
       (forall n, n <= zlen (res ++ rs) + 1 -> checkstack n = true) ->
       unpack_loop checkstack fuel' (c_str (pre ++ out ++ post)) (zlen (pre ++ out ++ post)) fmt h total (res ++ need)
       = Done (res ++ rs ++ [VInt (zlen pre + zlen out + 1)])) /\
    (forall fuel' k, total + zlen out <= long_max -> size_loop fuel' fmt h total = Done k -> k = total + zlen out).

(** One option: what it does in the three loops. *)
Definition option_agrees L (opt size : Z) (fmt : bytes) (v : list value) (need vs : list value) (fmt' : bytes) : Prop :=
  forall h arg, args_at L arg v -> header_ok h ->
  exists s h', pack_option L opt size fmt h arg = Done (s, arg + zlen v, zlen s, h', fmt') /\
    header_ok h' /\ size <= zlen s /\
    (forall pre post res, zlen (pre ++ s ++ post) <= long_max ->
       unpack_option (c_str (pre ++ s ++ post)) (zlen (pre ++ s ++ post)) (zlen pre) opt size fmt h (res ++ need)
       = Done (res ++ vs, zlen s, h', fmt')) /\
    (opt = 115 \/ opt = 99 /\ size = 0 \/
     size = zlen s /\ (if negb (is_alnum opt) then controloptions opt fmt h else Done (h, fmt)) = Done (h', fmt')).

Lemma size_t_sum a b : 0 <= a -> 0 <= b -> a + b <= long_max -> size_t (a + b) = a + b.
Proof. intros. apply size_small. range. Qed.

Lemma args_at_app L arg v args : args_at L arg (v ++ args) -> args_at L arg v /\ args_at L (arg + zlen v) args.
Proof.
  intros [H1 Ha]. pose proof (zlen_nonneg v). split; split; try lia; intros i w Hi.
  - apply Ha. by apply lookup_app_l_Some.
  - rewrite <- (Ha (length v + i)%nat w).
    + f_equal. unfold zlen. lia.
    + rewrite lookup_app_r by lia. by replace (length v + i - length v)%nat with i by lia.
Qed.

Lemma option_step L opt size fmt fmt1 fmt' v args need vs need' rs :
  optsize opt fmt = Done (size, fmt1) -> (length fmt' <= length fmt)%nat ->
  option_agrees L opt size fmt1 v need (vs ++ need') fmt' ->
  (length need <= length (vs ++ rs) + 1)%nat ->
  loops_agree L fmt' args need' rs ->
  loops_agree L (opt :: fmt) (v ++ args) need (vs ++ rs).
Proof.
  intros Eo Hlen Hopt Hneed IH fuel h arg total b Ha Hf Hh Ht. destruct fuel as [|fuel]; [simpl in Hf; lia|].
  apply args_at_app in Ha as [Hv Ha]. destruct (optsize_spec _ _ _ _ Eo) as [Hsize _].
  cbn [pack_loop]. rewrite Eo. cbn [mbind outcome_bind].
  set (ta := gettoalign total h opt size).
  assert (0 <= ta <= int_max) as Hta by (apply gettoalign_range; [done|lia]).
  destruct (Hopt h arg Hv Hh) as (s & h' & Ep & Hh' & Hss & Hu & Hk). rewrite Ep. cbn [mbind outcome_bind].
  set (pad := replicate (Z.to_nat ta) 0).
  assert (zlen pad = ta) as Hpad by (unfold pad, zlen; rewrite length_replicate; lia).
  pose proof (zlen_nonneg s) as Hs0.
  destruct (IH fuel h' (arg + zlen v) (size_t (size_t (total + ta) + zlen s)) ((b ++ pad) ++ s) Ha)
    as (out & -> & Hun & Hsz); [simpl in Hf; lia|done|apply size_range|].
  pose proof (zlen_nonneg out) as Ho0.
  exists (pad ++ s ++ out). split; [by rewrite <- !app_assoc|]. split.
  - intros checkstack fuel' pre post res Hpre Hbound Hf' Hcs. destruct fuel' as [|fuel']; [simpl in Hf'; lia|].
    assert (pre ++ (pad ++ s ++ out) ++ post = (pre ++ pad) ++ s ++ (out ++ post)) as El by (by rewrite <- !app_assoc).
    rewrite El in *. pose proof Hbound as Hb'. rewrite !zlen_app in Hb'. pose proof (zlen_nonneg post). pose proof (zlen_nonneg pre).
    cbn [unpack_loop]. rewrite Eo. cbn [mbind outcome_bind]. fold ta.
    rewrite (size_t_sum total ta) by lia.
    assert (zlen (pre ++ pad) = total + ta) as Epp by (rewrite zlen_app; lia).
    destruct (Z.leb_spec size (size_t (zlen ((pre ++ pad) ++ s ++ out ++ post) - (total + ta)))) as [_|Hbad].
    2:{ rewrite size_small in Hbad by (rewrite !zlen_app; range). rewrite !zlen_app in Hbad. lia. }
    cbn [luaL_argcheck mbind outcome_bind]. rewrite Hcs.
    2:{ rewrite !zlen_app. unfold zlen. rewrite length_app in Hneed. lia. }
    cbn [mbind outcome_bind]. rewrite <- Epp, Hu by lia. cbn [mbind outcome_bind].
    rewrite size_t_sum by (rewrite ?Epp; lia).
    assert ((pre ++ pad) ++ s ++ out ++ post = ((pre ++ pad) ++ s) ++ out ++ post) as El2 by (by rewrite <- !app_assoc).
    rewrite !El2 in *.
    rewrite (app_assoc res vs need'). rewrite Epp.
    assert (size_t (size_t (total + ta) + zlen s) = total + ta + zlen s) as Est
      by (rewrite (size_t_sum total) by lia; apply size_t_sum; lia).
    rewrite Est in Hun. rewrite Hun.
    + rewrite <- !app_assoc, !zlen_app.
      match goal with |- Done (_ ++ _ ++ _ ++ [VInt ?x]) = Done (_ ++ _ ++ _ ++ [VInt ?y]) =>
        replace x with y by lia end. done.
    + rewrite !zlen_app. lia.
    + done.
    + simpl in Hf'. lia.
    + intros n Hn. apply Hcs. by rewrite app_assoc.
  - intros fuel' k Hbound Ek. destruct fuel' as [|fuel']; [done|]. cbn [size_loop] in Ek. rewrite Eo in Ek.
    cbn [mbind outcome_bind] in Ek. fold ta in Ek. rewrite !zlen_app in Hbound.
    rewrite (size_t_sum total ta) in * by lia.
    destruct (Z.eqb_spec opt 115); [done|].
    destruct ((opt =? 99) && (size =? 0)) eqn:Ec; [done|].
    destruct Hk as [?|[[-> ->]|[-> Ek']]]; [done|done|]. rewrite Ek' in Ek. cbn [mbind outcome_bind] in Ek.
    rewrite (size_t_sum (total + ta)) in * by lia. apply Hsz in Ek; [|lia]. rewrite !zlen_app. lia.
Qed.

Lemma loops_agree_end L args : loops_agree L [] args [] [].
Proof.
  intros fuel h arg total b Ha Hf Hh Ht. exists []. split; [destruct fuel; by rewrite app_nil_r|]. split.
  - intros checkstack fuel' pre post res Hpre Hbound _ _. cbn [app] in *.
    pose proof (zlen_nonneg pre). pose proof (zlen_nonneg post). rewrite zlen_app in Hbound.
    rewrite app_nil_r. change (zlen (@nil Z)) with 0. rewrite Z.add_0_r, Hpre.
    assert (long (size_t (total + 1)) = total + 1) as E by (rewrite size_small, long_small by range; done).
    by destruct fuel'; cbn [unpack_loop]; rewrite E.
  - intros fuel' k _ Ek. change (zlen (@nil Z)) with 0. destruct fuel'; injection Ek; lia.
Qed.

(** The rest of the memory behind a string. *)
Lemma c_str_app (pre s post : bytes) : c_str (pre ++ s ++ post) = pre ++ s ++ c_str post.
Proof. unfold c_str. by rewrite <- !app_assoc. Qed.

Lemma int_option L opt size fmt v n :
  is_opt opt int_opts = true -> 1 <= size <= 8 -> lua_tonumberx v = Some (double_of_Z n) ->
  fits (is_lower opt) size n ->
  option_agrees L opt size fmt [v] [] [VNum (double_of_Z n)] fmt.
Proof.
  intros Ho Hs Hv Hn h arg Ha Hh. apply args_at_cons in Ha as [Ha _].
  exists (int_bytes (endian h) size n), h. unfold pack_option, unpack_option. rewrite Ho.
  rewrite int_small, zlen_int_bytes by range.
  rewrite (putinteger_bytes L arg v n (endian h) (is_lower opt) size) by done. cbn [mbind outcome_bind].
  split_and!; [done|done|lia| |].
  - intros pre post res _. rewrite c_str_app, getinteger_bytes by (done || apply Hh).
    by rewrite app_nil_r.
  - right. right. split; [done|].
    unfold int_opts, is_opt in Ho. cbn in Ho. rewrite ?orb_true_iff, ?Z.eqb_eq in Ho.
    by destruct_or!; subst.
Qed.

Lemma pad_option L fmt : option_agrees L 120 1 fmt [] [] [] fmt.
Proof.
  intros h arg Ha Hh. exists [0], h. split_and!; [|done|done| |].
  - unfold pack_option. cbn. by rewrite Z.add_0_r.
  - intros pre post res _. by rewrite app_nil_r.
  - by right; right.
Qed.

(** Four or eight bytes written by [correctbytes] and read back. *)
Lemma float_option L fmt v d :
  lua_tonumberx v = Some d -> valid_binary 24 128 (narrow d) = true -> is_nan (narrow d) = false ->
  option_agrees L 102 4 fmt [v] [] [VNum (widen (narrow d))] fmt.
Proof.
  intros Hv Hd Hn h arg Ha Hh. apply args_at_cons in Ha as [Ha _].
  set (bs := le_bytes 4 (ieee_encode binary32 (narrow d))).
  assert (zlen (ordered (endian h) bs) = 4) as Hl by (unfold zlen; rewrite length_ordered; done).
  exists (ordered (endian h) bs), h. rewrite Hl. split_and!; [|done|lia| |by right; right].
  - unfold pack_option. change (is_opt 102 int_opts) with false. change (is_opt 102 "x") with false.
    change (is_opt 102 "f") with true. cbv iota. rewrite (checknumber_at _ _ _ _ Ha Hv). cbn [mbind outcome_bind].
    change (cint 4) with 4. rewrite correctbytes_4 by done. cbn [mbind outcome_bind].
    rewrite (mem_sub_app_at _ [] (ordered (endian h) bs) []); [done|by rewrite app_nil_r|done|done].
  - intros pre post res _. unfold unpack_option. change (is_opt 102 int_opts) with false.
    change (is_opt 102 "x") with false. change (is_opt 102 "f") with true. cbv iota.
    rewrite c_str_app, (mem_sub_app_at _ pre (ordered (endian h) bs) (c_str post)) by done. cbn [mbind outcome_bind].
    rewrite correctbytes_4 by (by rewrite length_ordered). cbn [mbind outcome_bind].
    rewrite ordered_involutive, app_nil_r. unfold bs. rewrite le_value_bytes.
    pose proof (ieee_encode_range binary32 ltac:(done) ltac:(done) (narrow d) Hd Hn) as Hr.
    change (2 ^ (1 + ebits binary32 + fbits binary32)) with (256 ^ Z.of_nat 4) in Hr.
    rewrite Z.mod_small by done. by rewrite (ieee_roundtrip binary32) by done.
Qed.

Lemma double_option L fmt v d :
  lua_tonumberx v = Some d -> valid_binary 53 1024 d = true -> is_nan d = false ->
  option_agrees L 100 8 fmt [v] [] [VNum d] fmt.
Proof.
  intros Hv Hd Hn h arg Ha Hh. apply args_at_cons in Ha as [Ha _].
  set (bs := le_bytes 8 (ieee_encode binary64 d)).
  assert (zlen (ordered (endian h) bs) = 8) as Hl by (unfold zlen; rewrite length_ordered; done).
  exists (ordered (endian h) bs), h. rewrite Hl. split_and!; [|done|lia| |by right; right].
  - unfold pack_option. change (is_opt 100 int_opts) with false. change (is_opt 100 "x") with false.
    change (is_opt 100 "f") with false. change (is_opt 100 "d") with true. cbv iota.
    rewrite (checknumber_at _ _ _ _ Ha Hv). cbn [mbind outcome_bind].
    change (cint 8) with 8. rewrite correctbytes_8 by done. cbn [mbind outcome_bind].
    rewrite (mem_sub_app_at _ [] (ordered (endian h) bs) []); [done|by rewrite app_nil_r|done|done].
  - intros pre post res _. unfold unpack_option. change (is_opt 100 int_opts) with false.
    change (is_opt 100 "x") with false. change (is_opt 100 "f") with false. change (is_opt 100 "d") with true. cbv iota.
    rewrite c_str_app, (mem_sub_app_at _ pre (ordered (endian h) bs) (c_str post)) by done. cbn [mbind outcome_bind].
    rewrite correctbytes_8 by (by rewrite length_ordered). cbn [mbind outcome_bind].
    rewrite ordered_involutive, app_nil_r. unfold bs. rewrite le_value_bytes.
    pose proof (ieee_encode_range binary64 ltac:(done) ltac:(done) d Hd Hn) as Hr.
    change (2 ^ (1 + ebits binary64 + fbits binary64)) with (256 ^ Z.of_nat 8) in Hr.
    rewrite Z.mod_small by done. by rewrite (ieee_roundtrip binary64) by done.
Qed.

(** [c]: the first [size] bytes of a string; [c0] is the whole string, counted by the
    number before it. *)
Lemma chars_option L fmt v s size :
  lua_tolstring v = Some s -> 0 < size -> size <= zlen s ->
  option_agrees L 99 size fmt [v] [] [VStr (slice s 0 size)] fmt.
Proof.
  intros Hv H0 Hs h arg Ha Hh. apply args_at_cons in Ha as [Ha _].
  assert (zlen (slice s 0 size) = size) as Hl by (apply zlen_slice; lia).
  exists (slice s 0 size), h. rewrite Hl. split_and!; [|done|lia| |by right; right].
  - unfold pack_option. change (is_opt 99 int_opts) with false. change (is_opt 99 "x") with false.
    change (is_opt 99 "f") with false. change (is_opt 99 "d") with false. change (is_opt 99 "cs") with true. cbv iota.
    rewrite (checklstring_at _ _ _ _ Ha Hv). cbn [mbind outcome_bind]. cbv zeta.
    destruct (Z.eqb_spec size 0); [lia|]. rewrite Z.geb_leb. destruct (Z.leb_spec size (zlen s)); [|lia].
    cbn [luaL_argcheck mbind outcome_bind].
    rewrite mem_sub_done by (unfold c_str; rewrite ?zlen_app; change (zlen [0]) with 1; lia). cbn [mbind outcome_bind].
    change (is_opt 99 "s") with false. cbv iota. change (zlen [v]) with 1. do 5 f_equal.
    unfold slice, c_str. rewrite drop_0, take_app_le; [by rewrite drop_0|]. unfold zlen in Hs. lia.
  - intros pre post res _. unfold unpack_option. change (is_opt 99 int_opts) with false.
    change (is_opt 99 "x") with false. change (is_opt 99 "f") with false. change (is_opt 99 "d") with false.
    change (is_opt 99 "c") with true. cbv iota. destruct (Z.eqb_spec size 0); [lia|]. cbn [mbind outcome_bind].
    rewrite c_str_app, (mem_sub_app_at _ pre (slice s 0 size) (c_str post)) by done. by rewrite app_nil_r.
Qed.

Lemma counted_option L fmt v s :
  lua_tolstring v = Some s -> zlen s < 2 ^ 53 -> (forall d, lua_tonumberx (VNum d) = Some d) ->
  option_agrees L 99 0 fmt [v] [VNum (double_of_Z (zlen s))] [VStr s] fmt.
Proof.
  intros Hv Hs Hnum h arg Ha Hh. apply args_at_cons in Ha as [Ha _]. pose proof (zlen_nonneg s).
  exists s, h. split_and!; [|done|lia| |by right; left].
  - unfold pack_option. change (is_opt 99 int_opts) with false. change (is_opt 99 "x") with false.
    change (is_opt 99 "f") with false. change (is_opt 99 "d") with false. change (is_opt 99 "cs") with true. cbv iota.
    rewrite (checklstring_at _ _ _ _ Ha Hv). cbn [mbind outcome_bind]. cbv zeta. cbn [Z.eqb].
    rewrite Z.geb_leb, Z.leb_refl. cbn [luaL_argcheck mbind outcome_bind].
    unfold c_str. rewrite (mem_sub_app_at _ [] s [0]) by done. done.
  - intros pre post res Hb. unfold unpack_option. change (is_opt 99 int_opts) with false.
    change (is_opt 99 "x") with false. change (is_opt 99 "f") with false. change (is_opt 99 "d") with false.
    change (is_opt 99 "c") with true. cbv iota. cbn [Z.eqb]. rewrite last_snoc. cbn [mbind option_bind].
    rewrite Hnum, ulong_of_double_exact by lia. cbn [mbind outcome_bind].
    rewrite !zlen_app in *. pose proof (zlen_nonneg pre). pose proof (zlen_nonneg post).
    rewrite size_small by range.
    destruct (Z.leb_spec (zlen s) (zlen pre + (zlen s + zlen post) - zlen pre)); [|lia].
    cbn [luaL_argcheck mbind outcome_bind]. rewrite removelast_last.
    by rewrite c_str_app, (mem_sub_app_at _ pre s (c_str post)) by done.
Qed.

Lemma memchr0_found pre s post fuel n :
  0 ∉ s -> (length s < fuel)%nat -> zlen s < n ->
  memchr0 (pre ++ s ++ 0 :: post) fuel (zlen pre) n = Done (Some (zlen pre + zlen s)).
Proof.
  revert pre fuel n. induction s as [|c s IH]; intros pre fuel n H0 Hf Hn; destruct fuel as [|fuel]; try (simpl in Hf; lia).
  - change (zlen (@nil Z)) with 0 in *. cbn [memchr0]. destruct (Z.eqb_spec n 0); [lia|].
    destruct (mem_get_app pre [0] post 0) as (c & [= <-] & E); [done|].
    rewrite Z.add_0_r in *. cbn [app] in *. by rewrite E.
  - apply not_elem_of_cons in H0 as [Hc H0]. rewrite zlen_cons in *. pose proof (zlen_nonneg s).
    cbn [memchr0]. destruct (Z.eqb_spec n 0); [lia|].
    destruct (mem_get_app pre [c] (s ++ 0 :: post) 0) as (c' & [= <-] & E); [done|].
    rewrite Z.add_0_r in E. cbn [app] in *. rewrite E. cbn [mbind outcome_bind].
    destruct (Z.eqb_spec c 0); [congruence|].
    change (pre ++ c :: s ++ 0 :: post) with (pre ++ [c] ++ s ++ 0 :: post). rewrite app_assoc.
    replace (zlen pre + 1) with (zlen (pre ++ [c])) by (rewrite zlen_app; done).
    rewrite IH; [|done|simpl in Hf; lia|lia]. rewrite zlen_app. change (zlen [c]) with 1. do 2 f_equal. lia.
Qed.

Lemma string_option L fmt v s :
  lua_tolstring v = Some s -> 0 ∉ s -> zlen s < long_max ->
  option_agrees L 115 0 fmt [v] [] [VStr s] fmt.
Proof.
  intros Hv Hn Hs h arg Ha Hh. apply args_at_cons in Ha as [Ha _]. pose proof (zlen_nonneg s).
  assert (zlen (s ++ [0]) = zlen s + 1) as Hl by apply zlen_app.
  exists (s ++ [0]), h. rewrite Hl. split_and!; [|done|lia| |by left].
  - unfold pack_option. change (is_opt 115 int_opts) with false. change (is_opt 115 "x") with false.
    change (is_opt 115 "f") with false. change (is_opt 115 "d") with false. change (is_opt 115 "cs") with true. cbv iota.
    rewrite (checklstring_at _ _ _ _ Ha Hv). cbn [mbind outcome_bind]. cbv zeta. cbn [Z.eqb].
    rewrite Z.geb_leb, Z.leb_refl. cbn [luaL_argcheck mbind outcome_bind].
    unfold c_str. rewrite (mem_sub_app_at _ [] s [0]) by done. cbn [mbind outcome_bind].
    change (is_opt 115 "s") with true. cbv iota. by rewrite size_small by range.
  - intros pre post res Hb. unfold unpack_option. change (is_opt 115 int_opts) with false.
    change (is_opt 115 "x") with false. change (is_opt 115 "f") with false. change (is_opt 115 "d") with false.
    change (is_opt 115 "c") with false. change (is_opt 115 "s") with true. cbv iota.
    rewrite !zlen_app in *. pose proof (zlen_nonneg pre). pose proof (zlen_nonneg post). change (zlen [0]) with 1 in *.
    rewrite size_small by range. unfold c_str.
    assert ((pre ++ (s ++ [0]) ++ post) ++ [0] = pre ++ s ++ 0 :: post ++ [0]) as -> by (by rewrite <- !app_assoc).
    rewrite memchr0_found; [|done|rewrite !length_app; lia|lia]. cbn [mbind outcome_bind]. cbv zeta.
    replace (zlen pre + zlen s - zlen pre + 1) with (zlen s + 1) by lia. rewrite size_small by range.
    rewrite (mem_sub_app_at _ pre s (0 :: post ++ [0])) by (done || lia). by rewrite app_nil_r.
Qed.

(** Control options, when the format allows them. *)
Lemma control_option L opt fmt fmt' :
  is_opt opt " ><!" = true ->
  (forall h, exists h', controloptions opt fmt h = Done (h', fmt')) ->
  option_agrees L opt 0 fmt [] [] [] fmt'.
Proof.
  intros Ho Hc h arg Ha Hh. destruct (Hc h) as [h' E]. exists [], h'.
  destruct (controloptions_spec _ _ _ _ _ Hh E) as [Hh' _].
  assert (opt = 32 \/ opt = 62 \/ opt = 60 \/ opt = 33) as Ho'.
  { unfold is_opt in Ho. cbn in Ho. rewrite ?orb_true_iff, ?Z.eqb_eq in Ho. lia. }
  split_and!; [|done|done| |].
  - change (zlen (@nil value)) with 0. rewrite Z.add_0_r. unfold pack_option.
    destruct_or! Ho'; subst; by rewrite E.
  - intros pre post res _. unfold unpack_option. destruct_or! Ho'; subst; by rewrite E.
  - right. right. split; [done|]. by destruct_or! Ho'; subst.
Qed.

End loops.

(** ** The contract of the library *)

Section contract.
Context `{LuaAux}.

(** [codes fmt args rs]: the arguments suit the format, and [rs] is what it keeps of them.
    - integers fit their size, of at most 8 bytes, and are exact as doubles;
    - [f] rounds to single precision; doubles are any numbers but NaN;
    - [cn] keeps the first n bytes of a longer string; an integer before [c0] is the
      length of its string, and is not kept;
    - the strings of [s] contain no NUL. *)
Inductive codes : bytes -> list value -> list value -> Prop :=
  | codes_end args : codes [] args []
  | codes_int opt fmt size fmt' v n args rs :
      is_opt opt int_opts = true -> optsize opt fmt = Done (size, fmt') -> 1 <= size <= 8 ->
      lua_tonumberx v = Some (double_of_Z n) -> fits (is_lower opt) size n ->
      codes fmt' args rs -> codes (opt :: fmt) (v :: args) (VNum (double_of_Z n) :: rs)
  | codes_counted opt fmt size fmt1 fmt' v w s args rs :
      is_opt opt int_opts = true -> optsize opt fmt = Done (size, 99 :: fmt1) -> 1 <= size <= 8 ->
      lua_tonumberx v = Some (double_of_Z (zlen s)) -> fits (is_lower opt) size (zlen s) ->
      optsize 99 fmt1 = Done (0, fmt') -> lua_tolstring w = Some s ->
      codes fmt' args rs -> codes (opt :: fmt) (v :: w :: args) (VStr s :: rs)
  | codes_pad fmt args rs : codes fmt args rs -> codes (120 :: fmt) args rs
  | codes_float fmt v d args rs :
      lua_tonumberx v = Some d -> valid_binary 24 128 (narrow d) = true -> is_nan (narrow d) = false ->
      codes fmt args rs -> codes (102 :: fmt) (v :: args) (VNum (widen (narrow d)) :: rs)
  | codes_double fmt v d args rs :
      lua_tonumberx v = Some d -> valid_binary 53 1024 d = true -> is_nan d = false ->
      codes fmt args rs -> codes (100 :: fmt) (v :: args) (VNum d :: rs)
  | codes_chars fmt size fmt' v s args rs :
      optsize 99 fmt = Done (size, fmt') -> lua_tolstring v = Some s -> 0 < size <= zlen s ->
      codes fmt' args rs -> codes (99 :: fmt) (v :: args) (VStr (slice s 0 size) :: rs)
  | codes_string fmt v s args rs :
      lua_tolstring v = Some s -> 0 ∉ s -> zlen s < long_max ->
      codes fmt args rs -> codes (115 :: fmt) (v :: args) (VStr s :: rs)
  | codes_control opt fmt fmt' args rs :
      is_opt opt " ><!" = true -> (forall h, exists h', controloptions opt fmt h = Done (h', fmt')) ->
      codes fmt' args rs -> codes (opt :: fmt) args rs.

Lemma optsize_length opt fmt size fmt' : optsize opt fmt = Done (size, fmt') -> (length fmt' <= length fmt)%nat.
Proof. by intros [_ ?]%optsize_spec. Qed.

Lemma codes_loops L fmt args rs : codes fmt args rs -> loops_agree L fmt args [] rs.
Proof.
  induction 1 as [args|opt fmt size fmt' v n args rs Ho Eo Hs Hv Hn _ IH
    |opt fmt size fmt1 fmt' v w s args rs Ho Eo Hs Hv Hn Ec Hw _ IH|fmt args rs _ IH
    |fmt v d args rs Hv Hd Hn _ IH|fmt v d args rs Hv Hd Hn _ IH
    |fmt size fmt' v s args rs Eo Hv Hs _ IH|fmt v s args rs Hv H0 Hs _ IH|opt fmt fmt' args rs Ho Hc _ IH].
  - apply loops_agree_end.
  - apply (option_step L opt size fmt fmt' fmt' [v] args [] [VNum (double_of_Z n)] [] rs); [done| | |simpl; lia|done].
    + by apply optsize_length in Eo.
    + by apply int_option.
  - pose proof (optsize_length _ _ _ _ Eo) as H1. pose proof (optsize_length _ _ _ _ Ec) as H2.
    apply (option_step L opt size fmt (99 :: fmt1) (99 :: fmt1) [v] (w :: args) [] []
      [VNum (double_of_Z (zlen s))] (VStr s :: rs)); [done|done| |simpl; lia|].
    + by apply int_option.
    + apply (option_step L 99 0 fmt1 fmt' fmt' [w] args [VNum (double_of_Z (zlen s))] [VStr s] [] rs);
        [done|done| |simpl; lia|done].
      apply counted_option; [done|apply Hn|apply tonumberx_num].
  - apply (option_step L 120 1 fmt fmt fmt [] args [] [] [] rs); [done|done|apply pad_option|simpl; lia|done].
  - apply (option_step L 102 4 fmt fmt fmt [v] args [] [VNum (widen (narrow d))] [] rs);
      [done|done|by apply float_option|simpl; lia|done].
  - apply (option_step L 100 8 fmt fmt fmt [v] args [] [VNum d] [] rs);
      [done|done|by apply double_option|simpl; lia|done].
  - apply (option_step L 99 size fmt fmt' fmt' [v] args [] [VStr (slice s 0 size)] [] rs);
      [done|by apply optsize_length in Eo|apply chars_option; (done || lia)|simpl; lia|done].
  - apply (option_step L 115 0 fmt fmt fmt [v] args [] [VStr s] [] rs);
      [done|done|by apply string_option|simpl; lia|done].
  - assert (opt = 32 \/ opt = 62 \/ opt = 60 \/ opt = 33) as Ho'.
    { unfold is_opt in Ho. cbn in Ho. rewrite ?orb_true_iff, ?Z.eqb_eq in Ho. lia. }
    apply (option_step L opt 0 fmt fmt fmt' [] args [] [] [] rs);
      [by destruct_or! Ho'; subst| |by apply control_option|simpl; lia|done].
    destruct (Hc defaultoptions) as [h' E].
    by destruct (controloptions_spec _ _ _ _ _ defaultoptions_ok E).
Qed.

(** The whole functions, from their loops. *)
Lemma codes_functions fmt args rs :
  codes fmt args rs -> lua_string fmt -> 0 ∉ fmt ->
  exists p, b_pack (VStr fmt :: args) = Done [VStr p] /\
    (forall checkstack, lua_string p -> zlen p < long_max ->
       (forall n, n <= zlen rs + 1 -> checkstack n = true) ->
       b_unpack checkstack [VStr fmt; VStr p] = Done (rs ++ [VInt (zlen p + 1)])) /\
    (forall k, zlen p <= long_max -> b_size [VStr fmt] = Done [VInt k] -> k = zlen p).
Proof.
  intros Hc Hf H0. assert (until_nul (c_str fmt) = fmt) as Ef by (unfold c_str; by apply until_nul_c_str).
  destruct (codes_loops ((VStr fmt :: args) ++ [VNil]) fmt args rs Hc (length fmt) defaultoptions 2 0 [])
    as (p & Ep & Hu & Hk); [|done|apply defaultoptions_ok|done|].
  { split; [done|]. intros i v Hi. unfold lua_arg. replace (Z.to_nat (2 + Z.of_nat i - 1)) with (S i) by lia.
    cbn [app lookup list_lookup]. by apply lookup_app_l_Some. }
  exists p. cbn [app] in Ep. split; [|split].
  - unfold b_pack. rewrite (checklstring_str _ 1 fmt) by done. cbn [mbind outcome_bind]. cbv zeta.
    cbn [app]. by rewrite Ef, Ep.
  - intros checkstack Hp Hl Hcs. unfold b_unpack.
    rewrite (checklstring_str _ 1 fmt), (checklstring_str _ 2 p) by done. cbn [mbind outcome_bind]. cbv zeta.
    change (luaL_optinteger [VStr fmt; VStr p] 3 1) with (Done 1 : outcome Z). cbn [mbind outcome_bind].
    change (size_t (size_t 1 - 1)) with 0. pose proof (zlen_nonneg p).
    destruct (Z.leb_spec 0 (zlen p)); [|lia]. cbn [luaL_argcheck mbind outcome_bind]. rewrite Ef.
    specialize (Hu checkstack (length fmt) [] [] []). cbn [app] in Hu. rewrite app_nil_r in Hu.
    by apply Hu.
  - intros k Hl Ek. unfold b_size in Ek. rewrite (checklstring_str _ 1 fmt) in Ek by done.
    cbn [mbind outcome_bind] in Ek. cbv zeta in Ek. rewrite Ef in Ek.
    destruct (size_loop (length fmt) fmt defaultoptions 0) as [pos|e|u] eqn:E; [|done..].
    injection Ek as <-. apply Hk in E; [|lia]. subst pos. pose proof (zlen_nonneg p).
    rewrite long_small; [lia|range].
Qed.

End contract.

(** ** Memory safety of [unpack] *)

(** The formats that [unpack] handles inside its data: up to the first option that raises an
    error, no alignment, integers of 1 to 8 bytes, no [c0], and no number that an [int] does
    not hold (nor ten times it, while it is read). *)
Fixpoint format_ok (fuel : nat) (fmt : bytes) : bool :=
  match fmt with
  | [] => true
  | opt :: fmt =>
      match fuel with
      | O => false
      | S fuel =>
          match optsize opt fmt with
          | Done (size, fmt') =>
              negb (is_opt opt "!")
              && (if is_opt opt int_opts then (1 <=? size) && (size <=? 8)
                  else if is_opt opt "c" then 0 <? size else true)
              && format_ok fuel fmt'
          | Raise _ => true
          | Undef _ => false
          end
      end
  end.

Lemma get_loop_defined idx m base l :
  Forall (fun i => 0 <= base + i < zlen m) idx -> exists l', get_loop idx m base l = Done l'.
Proof.
  intros Hi. revert l. induction Hi as [|i idx Hi _ IH]; intros l; [by eexists|].
  cbn [get_loop]. rewrite mem_get_lookup_total by done. apply IH.
Qed.

Lemma getinteger_safe m base e issigned size :
  1 <= size <= 8 -> 0 <= base -> base + size <= zlen m -> exists d, getinteger m base e issigned size = Done d.
Proof.
  intros Hs Hb Hm. unfold getinteger.
  assert (Forall (fun i => 0 <= base + i < zlen m) (seqZ 0 size)) as Hi.
  { apply Forall_forall. intros i Hi%elem_of_seqZ. lia. }
  assert (exists l, (if e =? BIG then get_loop (seqZ 0 size) m base 0
                     else get_loop (reverse (seqZ 0 size)) m base 0) = Done l) as [l ->].
  { destruct (e =? BIG); apply get_loop_defined; [done|by apply Forall_reverse]. }
  cbn [mbind outcome_bind]. destruct issigned; cbn [negb]; [|by eexists].
  unfold high_mask. destruct (Z.leb_spec 0 (size * 8 - 1)), (Z.ltb_spec (size * 8 - 1) 64); try lia.
  by eexists.
Qed.

Lemma memchr0_safe m fuel pos n :
  0 <= pos -> 0 <= n -> pos + n <= zlen m -> n < Z.of_nat fuel ->
  exists r, memchr0 m fuel pos n = Done r /\ forall e, r = Some e -> pos <= e < pos + n.
Proof.
  revert pos n. induction fuel as [|fuel IH]; intros pos n Hp Hn Hm Hf; [lia|]. cbn [memchr0].
  destruct (Z.eqb_spec n 0); [by exists None|].
  rewrite mem_get_lookup_total by lia. cbn [mbind outcome_bind].
  destruct (_ =? 0); [exists (Some pos); split; [done|intros e [= <-]; lia]|].
  destruct (IH (pos + 1) (n - 1)) as (r & -> & Hr); [lia..|]. exists r. split; [done|].
  intros e He. apply Hr in He. lia.
Qed.

Lemma gettoalign_1 len h opt size : align h = 1 -> 0 <= size -> gettoalign len h opt size = 0.
Proof.
  intros Ha Hs. unfold gettoalign. destruct (Z.eqb_spec size 0); cbn [orb]; [done|].
  destruct (opt =? 99); [done|]. cbv zeta. rewrite Ha. change (size_t 1) with 1.
  assert ((if size >? 1 then 1 else size) = 1) as -> by (destruct (Z.gtb_spec size 1); lia).
  change (size_t (1 - 1)) with 0. by rewrite !Z.land_0_r.
Qed.

Section safety.
Context `{LuaAux} (checkstack : Z -> bool).

(** One option at a position inside the data. *)
Lemma unpack_option_safe data pos opt size fmt fmt' h res :
  optsize opt fmt = Done (size, fmt') ->
  is_opt opt "!" = false ->
  (if is_opt opt int_opts then (1 <=? size) && (size <=? 8)
   else if is_opt opt "c" then 0 <? size else true) = true ->
  zlen data <= long_max -> 0 <= pos -> pos + size <= zlen data -> align h = 1 ->
  safe (fun '(_, size', h', fmt1) => 0 <= size' /\ pos + size' <= zlen data /\ align h' = 1 /\ fmt1 = fmt')
    (unpack_option (c_str data) (zlen data) pos opt size fmt' h res).
Proof.
  intros Eo Hno Hok Hd Hp Hs Ha. pose proof (proj1 (optsize_spec _ _ _ _ Eo)) as Hsz.
  assert (zlen (c_str data) = zlen data + 1) as Hl by apply zlen_app.
  unfold unpack_option. destruct (is_opt opt int_opts).
  { apply andb_true_iff in Hok as [?%Z.leb_le ?%Z.leb_le]. rewrite int_small by range.
    destruct (getinteger_safe (c_str data) pos (endian h) (is_lower opt) size) as [d ->]; [lia..|].
    simpl. split_and!; (done || lia). }
  destruct (is_opt opt "x"); [simpl; split_and!; (done || lia)|].
  destruct (is_opt opt "f") eqn:Hof.
  { assert (size = 4) as ->.
    { unfold is_opt in Hof. cbn in Hof. rewrite orb_false_r in Hof. apply Z.eqb_eq in Hof as ->. by injection Eo. }
    rewrite mem_sub_done by lia. cbn [mbind outcome_bind].
    rewrite correctbytes_4 by (unfold slice; rewrite length_take, length_drop; unfold zlen in *; lia).
    simpl. split_and!; (done || lia). }
  destruct (is_opt opt "d") eqn:Hod.
  { assert (size = 8) as ->.
    { unfold is_opt in Hod. cbn in Hod. rewrite orb_false_r in Hod. apply Z.eqb_eq in Hod as ->. by injection Eo. }
    rewrite mem_sub_done by lia. cbn [mbind outcome_bind].
    rewrite correctbytes_8 by (unfold slice; rewrite length_take, length_drop; unfold zlen in *; lia).
    simpl. split_and!; (done || lia). }
  destruct (is_opt opt "c").
  { apply Z.ltb_lt in Hok. destruct (Z.eqb_spec size 0); [lia|]. cbn [mbind outcome_bind].
    rewrite mem_sub_done by lia. simpl. split_and!; (done || lia). }
  destruct (is_opt opt "s").
  { rewrite (size_small (zlen data - pos)) by range.
    destruct (memchr0_safe (c_str data) (S (length (c_str data))) pos (zlen data - pos)) as (r & -> & Hr);
      [lia|lia|lia|unfold zlen in *; lia|].
    cbn [mbind outcome_bind]. destruct r as [e|]; [|done]. specialize (Hr e eq_refl). cbv zeta.
    rewrite size_small by range. rewrite mem_sub_done by lia. simpl. split_and!; (done || lia). }
  unfold controloptions. destruct (is_opt opt " "); [simpl; split_and!; (done || lia)|].
  destruct (is_opt opt ">"); [simpl; split_and!; (done || lia)|].
  destruct (is_opt opt "<"); [simpl; split_and!; (done || lia)|]. by rewrite Hno.
Qed.

Lemma unpack_loop_safe fuel data fmt h pos res :
  zlen data <= long_max -> 0 <= pos <= zlen data -> align h = 1 -> format_ok fuel fmt = true ->
  defined (unpack_loop checkstack fuel (c_str data) (zlen data) fmt h pos res).
Proof.
  intros Hd. revert fmt h pos res. induction fuel as [|fuel IH]; intros fmt h pos res Hp Ha Hf.
  { by destruct fmt. }
  destruct fmt as [|opt fmt]; [done|]. cbn [format_ok] in Hf. cbn [unpack_loop].
  destruct (optsize opt fmt) as [[size fmt']|e|u] eqn:Eo; [|done..]. cbn [mbind outcome_bind].
  pose proof (proj1 (optsize_spec _ _ _ _ Eo)) as Hsz.
  rewrite !andb_true_iff, negb_true_iff in Hf. destruct Hf as [[Hno Hok] Hf].
  rewrite gettoalign_1, Z.add_0_r, !(size_small pos), (size_small (zlen data - pos)) by (done || range).
  destruct (Z.leb_spec size (zlen data - pos)); [|done]. cbn [luaL_argcheck mbind outcome_bind].
  destruct (checkstack (zlen res)); [|done]. cbn [mbind outcome_bind].
  pose proof (unpack_option_safe data pos opt size fmt fmt' h res Eo Hno Hok Hd ltac:(lia) ltac:(lia) Ha) as S.
  destruct (unpack_option _ _ _ _ _ _ _ _) as [[[[res' size'] h'] fmt1]|e|u]; [|done..].
  destruct S as (H1 & H2 & H3 & ->). cbn [mbind outcome_bind].
  rewrite size_small by range. by apply IH; [lia|..].
Qed.

Lemma b_unpack_safe L :
  (forall f, luaL_checklstring L 1 = Done f -> format_ok (length (until_nul (c_str f))) (until_nul (c_str f)) = true) ->
  defined (b_unpack checkstack L).
Proof.
  intros Hf. unfold b_unpack. destruct (luaL_checklstring L 1) as [f|e|u] eqn:E1; [|done|].
  2:{ pose proof (checklstring_defined L 1) as D. by rewrite E1 in D. }
  cbn [mbind outcome_bind]. cbv zeta. destruct (luaL_checklstring L 2) as [data|e|u] eqn:E2; [|done|].
  2:{ pose proof (checklstring_defined L 2) as D. by rewrite E2 in D. }
  cbn [mbind outcome_bind]. destruct (luaL_optinteger L 3 1) as [i|e|u] eqn:E3; [|done|].
  2:{ pose proof (optinteger_defined L 3 1) as D. by rewrite E3 in D. }
  cbn [mbind outcome_bind]. pose proof (size_range (size_t i - 1)).
  destruct (Z.leb_spec (size_t (size_t i - 1)) (zlen data)); [|done]. cbn [luaL_argcheck mbind outcome_bind].
  apply unpack_loop_safe; [apply (checklstring_ok _ _ _ E2)|lia|done|by apply Hf].
Qed.

End safety.

(** ** Properties *)

Section properties.
Context `{LuaAux}.

(** C2. [struct.unpack] reads back what [struct.pack] writes: for every format without
    format errors (any sequence of byte orders, alignments, paddings, integers of 1 to 8
    bytes, floats, doubles, fixed, counted and zero-terminated strings) and arguments that
    suit it, [pack] succeeds and [unpack] of its result gives the same values and the
    position after the end. *)
Theorem struct_roundtrip fmt args rs checkstack :
  codes fmt args rs -> lua_string fmt -> 0 ∉ fmt -> (forall n, n <= zlen rs + 1 -> checkstack n = true) ->
  exists p, b_pack (VStr fmt :: args) = Done [VStr p] /\
    (lua_string p -> zlen p < long_max ->
     b_unpack checkstack [VStr fmt; VStr p] = Done (rs ++ [VInt (zlen p + 1)])).
Proof.
  intros Hc Hf H0 Hcs. destruct (codes_functions fmt args rs Hc Hf H0) as (p & Ep & Hu & _).
  exists p. split; [exact Ep|]. intros. by apply Hu.
Qed.

(** C23. When [struct.size] gives a size for a format, it is the length of what
    [struct.pack] writes for it, alignment included. *)
Theorem struct_size_packed fmt args rs k :
  codes fmt args rs -> lua_string fmt -> 0 ∉ fmt -> b_size [VStr fmt] = Done [VInt k] ->
  exists p, b_pack (VStr fmt :: args) = Done [VStr p] /\ (zlen p <= long_max -> k = zlen p).
Proof.
  intros Hc Hf H0 Ek. destruct (codes_functions fmt args rs Hc Hf H0) as (p & Ep & _ & Hk).
  exists p. split; [exact Ep|]. intros. by apply Hk.
Qed.

(** C22. Whatever the data, the position and the other arguments, [struct.unpack] has no
    undefined behaviour, and terminates, for the formats ([format_ok]) that have, before the
    first option that raises an error if there is one, no option '!', only integers of 1 to
    8 bytes, only positive character counts and only numbers that can be read without
    overflow of an [int] (a longer one is undefined behaviour itself:
    [struct_number_overflow]). *)
Theorem struct_unpack_safe L checkstack :
  (forall f, luaL_checklstring L 1 = Done f -> format_ok (length (until_nul (c_str f))) (until_nul (c_str f)) = true) ->
  defined (b_unpack checkstack L).
Proof. apply b_unpack_safe. Qed.

(** A number of eleven digits overflows the [int] in which it is read, whatever the data. *)
Theorem struct_number_overflow checkstack data :
  lua_string data -> b_unpack checkstack [VStr (string_bytes "c99999999999"); VStr data] = Undef SignedOverflow.
Proof.
  intros Hd. unfold b_unpack. rewrite (checklstring_str _ 1 (string_bytes "c99999999999")) by (done || by_decision).
  rewrite (checklstring_str _ 2 data) by done. cbn [mbind outcome_bind]. cbv zeta.
  change (luaL_optinteger _ 3 1) with (Done 1 : outcome Z). cbn [mbind outcome_bind].
  change (size_t (size_t 1 - 1)) with 0. pose proof (zlen_nonneg data).
  destruct (Z.leb_spec 0 (zlen data)); [|lia]. cbn [luaL_argcheck mbind outcome_bind]. reflexivity.
Qed.

(** With alignment it does read outside its data: the padding of the format "!4bi"
    moves the position beyond a one-byte string, where the test on the remaining length
    wraps around, and the integer is read from the memory behind the string. *)
Theorem struct_unpack_overread checkstack c :
  is_byte c -> (forall n, n <= 1 -> checkstack n = true) ->
  b_unpack checkstack [VStr [33; 52; 98; 105]; VStr [c]] = Undef OutOfBounds.
Proof.
  intros Hc Hcs. assert (lua_string [c]) as Hs by (split; [by apply Forall_singleton|done]).
  unfold b_unpack. rewrite (checklstring_str _ 1 [33; 52; 98; 105]) by (done || by_decision).
  rewrite (checklstring_str _ 2 [c]) by done. cbn [mbind outcome_bind]. cbv zeta.
  change (luaL_optinteger _ 3 1) with (Done 1 : outcome Z). cbn [mbind outcome_bind].
  change (size_t (size_t 1 - 1) <=? zlen [c]) with true. cbn [luaL_argcheck mbind outcome_bind].
  change (until_nul (c_str [33; 52; 98; 105])) with [33; 52; 98; 105].
  destruct (getinteger_safe (c_str [c]) 0 LITTLE true 1) as [d Ed]; [lia|lia|done|].
  change (size_t (size_t 1 - 1)) with 0. cbn [length].
  change (unpack_loop checkstack 4 (c_str [c]) (zlen [c]) [33; 52; 98; 105] defaultoptions 0 [])
    with (_ ← (if checkstack 0 then Done tt else luaL_error "stack overflow (too many results)");
          unpack_loop checkstack 3 (c_str [c]) 1 [98; 105] {| endian := LITTLE; align := 4 |} 0 []).
  rewrite Hcs by lia. cbn [mbind outcome_bind].
  change (unpack_loop checkstack 3 (c_str [c]) 1 [98; 105] {| endian := LITTLE; align := 4 |} 0 [])
    with (_ ← (if checkstack 0 then Done tt else luaL_error "stack overflow (too many results)");
          '(res, size, h, fmt) ← (v ← getinteger (c_str [c]) 0 LITTLE true 1;
             Done ([VNum v], 1, {| endian := LITTLE; align := 4 |}, [105]));
          unpack_loop checkstack 2 (c_str [c]) 1 fmt h (size_t (0 + size)) res).
  rewrite Hcs by lia. cbn [mbind outcome_bind]. rewrite Ed. cbn [mbind outcome_bind].
  change (unpack_loop checkstack 2 (c_str [c]) 1 [105] {| endian := LITTLE; align := 4 |} (size_t (0 + 1)) [VNum d])
    with (_ ← (if checkstack 1 then Done tt else luaL_error "stack overflow (too many results)");
          Undef (A := list value) OutOfBounds).
  by rewrite Hcs.
Qed.

End properties.

(** ** Witnesses *)

(** The format ">!4bi3I1c0ds". *)
Definition sample_format : bytes := [62; 33; 52; 98; 105; 51; 73; 49; 99; 48; 100; 115].
Definition sample_args : list value :=
  [VInt (-5); VInt (-70000); VInt 2; VStr [104; 105]; VInt 7; VStr [65]].
Definition sample_results : list value :=
  [VNum (double_of_Z (-5)); VNum (double_of_Z (-70000)); VStr [104; 105]; VNum (double_of_Z 7); VStr [65]].

Lemma sample_codes : codes (H := lua_strict) sample_format sample_args sample_results.
Proof.
  apply codes_control with [33; 52; 98; 105; 51; 73; 49; 99; 48; 100; 115];
    [done|intros h; eexists; reflexivity|].
  apply codes_control with [98; 105; 51; 73; 49; 99; 48; 100; 115];
    [done|intros h; eexists; reflexivity|].
  apply (codes_int _ _ 1 [105; 51; 73; 49; 99; 48; 100; 115]); [done|done|done|done|by split|].
  apply (codes_int _ _ 3 [73; 49; 99; 48; 100; 115]); [done|done|done|done|by split|].
  apply (codes_counted _ _ 1 [48; 100; 115] [100; 115]); [done|done|done|done|by split|done|done|].
  apply codes_double; [done|done|done|].
  apply codes_string; [done|by_decision|done|]. apply codes_end.
Qed.

Lemma struct_roundtrip_witness :
  exists p, b_pack (H := lua_strict) (VStr sample_format :: sample_args) = Done [VStr p] /\
    b_unpack (H := lua_strict) (fun _ => true) [VStr sample_format; VStr p]
    = Done (sample_results ++ [VInt (zlen p + 1)]).
Proof.
  assert (lua_string sample_format) as Hf by by_decision.
  assert (0 ∉ sample_format) as H0 by by_decision.
  destruct (struct_roundtrip (H := lua_strict) sample_format sample_args sample_results (fun _ => true)
    sample_codes Hf H0 (fun _ _ => eq_refl)) as (p & Ep & Hu).
  exists p. split; [exact Ep|].
  assert (p = [251; 0; 0; 254; 238; 144; 2; 104; 105; 0; 0; 0; 64; 28; 0; 0; 0; 0; 0; 0; 65; 0]) as ->.
  { assert (b_pack (H := lua_strict) (VStr sample_format :: sample_args)
      = Done [VStr [251; 0; 0; 254; 238; 144; 2; 104; 105; 0; 0; 0; 64; 28; 0; 0; 0; 0; 0; 0; 65; 0]]) as E
      by (vm_compute; reflexivity). rewrite E in Ep. by injection Ep as <-. }
  apply Hu; by_decision.
Defined.

(** The format "!4bi" takes eight bytes. *)
Lemma struct_size_packed_witness :
  exists p, b_pack (H := lua_strict) [VStr [33; 52; 98; 105]; VInt 1; VInt 2] = Done [VStr p] /\
    (zlen p <= long_max -> 8 = zlen p).
Proof.
  assert (lua_string [33; 52; 98; 105]) as Hf by by_decision.
  assert (0 ∉ [33; 52; 98; 105]) as H0 by by_decision.
  refine (struct_size_packed (H := lua_strict) [33; 52; 98; 105] [VInt 1; VInt 2]
    [VNum (double_of_Z 1); VNum (double_of_Z 2)] 8 _ Hf H0 eq_refl).
  apply codes_control with [98; 105]; [done|intros h; eexists; reflexivity|].
  apply (codes_int _ _ 1 [105]); [done|done|done|done|by split|].
  apply (codes_int _ _ 4 []); [done|done|done|done|by split|]. apply codes_end.
Defined.

Lemma struct_unpack_safe_witness :
  defined (b_unpack (H := lua_strict) (fun _ => true) [VStr [62; 73; 50; 115]; VStr [1; 2; 3]; VInt 2]).
Proof.
  apply (struct_unpack_safe (H := lua_strict) [VStr [62; 73; 50; 115]; VStr [1; 2; 3]; VInt 2]).
  intros f Ef. assert (luaL_checklstring (H := lua_strict) [VStr [62; 73; 50; 115]; VStr [1; 2; 3]; VInt 2] 1
    = Done [62; 73; 50; 115]) as E by (vm_compute; reflexivity).
  rewrite E in Ef. injection Ef as <-. reflexivity.
Defined.

Lemma struct_unpack_overread_witness :
  is_byte 1 /\
  b_unpack (H := lua_strict) (fun _ => true) [VStr [33; 52; 98; 105]; VStr [1]] = Undef OutOfBounds.
Proof.
  assert (is_byte 1) as Hc by by_decision. split; [exact Hc|].
  exact (struct_unpack_overread (H := lua_strict) (fun _ => true) 1 Hc (fun _ _ => eq_refl)).
Defined.
