(* ===== verification/PollApi.v ===== *)
(** * What the three backends of util-src/poll.c have in common

    The library keeps, for each watched descriptor, whether the program wants to read or
    to write: the interest map.  [poll_op] and [interest_step] are the contract of the
    methods add, set and del on that map; [PollBackend] is the interface that the files
    PollFds (poll), Select (select) and Epoll (epoll) implement, with a refinement theorem
    for any sequence of calls.  A backend may fail for reasons that the map does not know,
    as the kernel's memory: its [fault] says when. *)

From stdpp Require Import base tactics numbers list strings gmap.
From Stdlib Require Import ZArith Lia SpecFloat.
From S2P Require Import Prelude LuaApi Ieee.

Local Open Scope Z_scope.

(** ** The system *)

Class Posix := {
  strerror : Z -> bytes;
  EBADF : Z; EEXIST : Z; EMFILE : Z; ENOENT : Z; EINTR : Z;
}.

(** [luaL_pushfail], the message of an error and its number. *)
Definition sys_fail `{Posix} (e : Z) : list value := [pushfail; VStr (strerror e); VInt e].

Definition timeout_result : list value := [VNil; literal "timeout"].
Definition signal_result : list value := [VNil; literal "signal"].

(** The __tostring method; [STATE_MT] is the name of the metatable, [percent_p] the text of
    an address. *)
Definition Ltos (STATE_MT : string) (percent_p : Z -> string) (L : list value) : outcome (list value) :=
  state ← luaL_checkudata L 1 STATE_MT;
  Done [literal (STATE_MT +:+ ": " +:+ percent_p state)].

(** [(int)x] of a double: the integer part must fit. *)
Definition int_of_double (x : double) : outcome Z :=
  match trunc x with
  | Some z => if bool_decide (is_int z) then Done z else Undef BadConversion
  | None => Undef BadConversion
  end.

(** [timeout * 1000] as the [int] that [poll] and [epoll_wait] take. *)
Definition timeout_ms (timeout : double) : outcome Z :=
  int_of_double (SFmul 53 1024 timeout (double_of_Z 1000)).

(** [timeout >= 0] and [timeout == 0.0] *)
Definition dbl_nonneg (x : double) : bool := SFleb (S754_zero false) x.
Definition dbl_zero (x : double) : bool := SFeqb x (S754_zero false).

(** What the result of a system call means: an error code, or ready descriptors. *)
Definition wait_failed `{Posix} (ret errno : Z) : option (list value) :=
  if ret =? 0 then Some timeout_result
  else if (ret <? 0) && (errno =? EINTR) then Some signal_result
  else if ret <? 0 then Some (sys_fail errno)
  else None.

(** ** The contract of add, set and del *)

Abbreviation interest := (gmap Z (bool * bool)).

(** The arguments after the object; [None] is a flag that is absent or nil. *)
Inductive poll_op :=
  | Add (fd : Z) (r w : option bool)
  | Set_ (fd : Z) (r w : option bool)
  | Del (fd : Z).

Definition op_fd (o : poll_op) : Z := match o with Add fd _ _ | Set_ fd _ _ | Del fd => fd end.

(** What is particular to a backend: which descriptors it refuses to add, and whether an
    absent flag of [set] keeps the previous one (otherwise it is false). *)
Record policy := {
  refused : interest -> Z -> option Z;
  keeps : bool;
}.

Definition flag (o : option bool) : bool := default false o.

Definition updated (P : policy) (o : option bool) (old : bool) : bool :=
  if keeps P then default old o else flag o.

Definition interest_step `{Posix} (P : policy) (m : interest) (o : poll_op) : interest * list value :=
  match o with
  | Add fd r w =>
      match refused P m fd with
      | Some e => (m, sys_fail e)
      | None => (<[fd := (flag r, flag w)]> m, [VBool true])
      end
  | Set_ fd r w =>
      match m !! fd with
      | Some (r0, w0) => (<[fd := (updated P r r0, updated P w w0)]> m, [VBool true])
      | None => (m, sys_fail ENOENT)
      end
  | Del fd =>
      match m !! fd with
      | Some _ => (delete fd m, [VBool true])
      | None => (m, sys_fail ENOENT)
      end
  end.

(** A run of calls and their results. *)
Fixpoint interest_run `{Posix} (P : policy) (m : interest) (os : list poll_op) : interest * list (list value) :=
  match os with
  | [] => (m, [])
  | o :: os =>
      let '(m, r) := interest_step P m o in
      let '(m, rs) := interest_run P m os in
      (m, r :: rs)
  end.

(** ** The interface of a backend *)

(** The Lua arguments of a call on the object at address [p]. *)
Definition flag_value (o : option bool) : value := match o with Some b => VBool b | None => VNil end.

Definition op_args (self : value) (o : poll_op) : list value :=
  match o with
  | Add fd r w | Set_ fd r w => [self; VInt fd; flag_value r; flag_value w]
  | Del fd => [self; VInt fd]
  end.

(** What a call returns when the system does, or does not, fail it with an error number of its
    own: then nothing changes. *)
Definition answered `{Posix} (P : policy) (fault : option Z) (m : interest) (o : poll_op) : interest * list value :=
  match fault with Some e => (m, sys_fail e) | None => interest_step P m o end.

Fixpoint answered_run `{Posix} (P : policy) (m : interest) (os : list poll_op) (fs : list (option Z))
    : interest * list (list value) :=
  match os with
  | [] => (m, [])
  | o :: os =>
      let '(m, r) := answered P (default None (head fs)) m o in
      let '(m, rs) := answered_run P m os (tail fs) in
      (m, r :: rs)
  end.

(** Without faults the answers are those of the contract. *)
Lemma answered_run_none `{Posix} P m os fs :
  Forall (fun f => f = None) fs -> answered_run P m os fs = interest_run P m os.
Proof.
  revert m fs. induction os as [|o os IH]; intros m fs Hf; [done|]. cbn [answered_run interest_run].
  assert (default None (head fs) = None /\ Forall (fun f => f = None) (tail fs)) as [-> Ht].
  { destruct Hf as [|f fs ->]; by cbn. }
  cbn [answered]. destruct (interest_step P m o) as [m1 r]. by rewrite IH.
Qed.

(** A backend over a type of states: its three methods, the relation between a state and
    the interest map it stands for, the calls it is defined on, the errors of the system,
    and the refinement of every call. *)
Class PollBackend `{LuaAux, Posix} (St : Type) := {
  backend_policy : policy;
  backend_mt : string;
  method : poll_op -> St -> list value -> outcome (St * list value);
  represents : St -> interest -> Prop;
  call_ok : poll_op -> Prop;
  fault : St -> poll_op -> option Z;
  method_refines st m o p :
    represents st m -> call_ok o -> is_int (op_fd o) ->
    let '(m', r) := answered backend_policy (fault st o) m o in
    exists st', method o st (op_args (VUserdata backend_mt p) o) = Done (st', r) /\ represents st' m';
}.

Section backend.
Context `{PollBackend St}.

Fixpoint method_run (st : St) (p : Z) (os : list poll_op) : outcome (St * list (list value)) :=
  match os with
  | [] => Done (st, [])
  | o :: os =>
      '(st, r) ← method o st (op_args (VUserdata backend_mt p) o);
      '(st, rs) ← method_run st p os;
      Done (st, r :: rs)
  end.

(** The faults of a run, each in the state that its call finds. *)
Fixpoint faults (st : St) (p : Z) (os : list poll_op) : list (option Z) :=
  match os with
  | [] => []
  | o :: os =>
      fault st o :: match method o st (op_args (VUserdata backend_mt p) o) with Done (st, _) => faults st p os | _ => [] end
  end.

Lemma method_run_answers st m p os :
  represents st m -> Forall (fun o => call_ok o /\ is_int (op_fd o)) os ->
  let '(m', rs) := answered_run backend_policy m os (faults st p os) in
  exists st', method_run st p os = Done (st', rs) /\ represents st' m'.
Proof.
  intros Hr Hos. revert st m Hr. induction Hos as [|o os [Hok Hfd] _ IH]; intros st m Hr; [by exists st|].
  cbn [answered_run method_run faults head tail from_option id]. pose proof (method_refines st m o p Hr Hok Hfd) as Hm.
  destruct (answered backend_policy (fault st o) m o) as [m1 r]. destruct Hm as (st1 & -> & Hr1).
  specialize (IH st1 m1 Hr1). destruct (answered_run backend_policy m1 os _) as [m2 rs].
  destruct IH as (st2 & E & Hr2). exists st2. split; [|done]. cbn [mbind outcome_bind]. by rewrite E.
Qed.

(** A backend that never fails for the system. *)
Lemma method_run_refines st m p os :
  (forall st o, fault st o = None) -> represents st m -> Forall (fun o => call_ok o /\ is_int (op_fd o)) os ->
  let '(m', rs) := interest_run backend_policy m os in
  exists st', method_run st p os = Done (st', rs) /\ represents st' m'.
Proof.
  intros Hf Hr Hos. rewrite <- (answered_run_none backend_policy m os (faults st p os)); [by apply method_run_answers|].
  clear - Hf. revert st. induction os as [|o os IH]; intros st; cbn [faults]; constructor; [done|].
  by destruct (method o st _) as [[st1 r]| |].
Qed.

End backend.

(** ** Arguments *)

Section arguments.
Context `{LuaAux}.

(** The truth of a flag in a slot. *)
Lemma toboolean_flag L i o : lua_arg L i = Some (flag_value o) -> lua_toboolean L i = flag o.
Proof. unfold lua_toboolean. intros ->. by destruct o as [[]|]. Qed.

Lemma isnoneornil_flag L i o :
  lua_arg L i = Some (flag_value o) -> lua_isnoneornil L i = match o with Some _ => false | None => true end.
Proof. unfold lua_isnoneornil. intros ->. by destruct o. Qed.

Lemma checkudata_self L i t p : lua_arg L i = Some (VUserdata t p) -> luaL_checkudata L i t = Done p.
Proof. unfold luaL_checkudata. intros ->. by rewrite String.eqb_refl. Qed.

Lemma checkinteger_fd L i fd :
  lua_arg L i = Some (VInt fd) -> is_int fd -> luaL_checkinteger L i = Done fd /\ cint fd = fd.
Proof. intros E Hfd. split; [apply checkinteger_int; [done|range]|by apply int_small]. Qed.

End arguments.

(** ** A concrete system: the error numbers of Linux, without messages *)

Definition linux_errors : Posix := {|
  strerror _ := [];
  EBADF := 9; EEXIST := 17; EMFILE := 24; ENOENT := 2; EINTR := 4;
|}.
