(* ===== verification/PollFds.v ===== *)
(** * util-src/poll.c with USE_POLL

    The state is the C structure: an array of MAX_WATCHED [pollfd]s, of which the first
    [count] are watched, and the index [processed] from which [wait] reports, downwards,
    the events of the last [poll].  The theorems: add, set and del implement the interest
    map; every ready descriptor is reported exactly once; a deleted one is not reported. *)

From stdpp Require Import base tactics numbers list strings gmap.
From Stdlib Require Import ZArith Lia SpecFloat.
From S2P Require Import Prelude LuaApi Ieee PollApi.

Local Open Scope Z_scope.

Definition MAX_WATCHED : Z := 10000.
Definition STATE_MT : string := "util.poll<poll>".

Record pollfd := { fd : Z; events : Z; revents : Z }.

Record Lpoll_state := { processed : Z; count : Z; fds : list pollfd }.

(** The system call: it returns a count, and an error number when that is negative; it
    fills in [revents] and leaves the rest of each entry. *)
Abbreviation sys_poll := (list pollfd -> Z -> Z * list Z * Z).

(** The flags of <poll.h>. *)
Class PollFlags := { POLLIN : Z; POLLOUT : Z; POLLERR : Z; POLLHUP : Z }.

Section handlers.
Context `{LuaAux, Posix, PollFlags}.
Implicit Types (L : list value) (st : Lpoll_state).

Definition mask (r w : bool) : Z := Z.lor (if r then POLLIN else 0) (if w then POLLOUT else 0).

(** [for(i = 0; i < count; i++) if(events[i].fd == fd)]: the index where it stops. *)
Fixpoint find_fd (es : list pollfd) (x : Z) : option nat :=
  match es with
  | [] => None
  | e :: es => if fd e =? x then Some O else S <$> find_fd es x
  end.

(** The same loop in [Lset], which also stops at an entry that is not used. *)
Fixpoint find_set (es : list pollfd) (x : Z) : option nat :=
  match es with
  | [] => None
  | e :: es => if fd e =? x then Some O else if fd e =? -1 then None else S <$> find_set es x
  end.

Definition watched st : list pollfd := take (Z.to_nat (count st)) (fds st).

Definition Ladd st L : outcome (Lpoll_state * list value) :=
  _ ← luaL_checkudata L 1 STATE_MT;
  n ← luaL_checkinteger L 2;
  let x := cint n in
  let wantread := lua_toboolean L 3 in
  let wantwrite := lua_toboolean L 4 in
  if x <? 0 then Done (st, sys_fail EBADF)
  else
    match find_fd (watched st) x with
    | Some _ => Done (st, sys_fail EEXIST)
    | None =>
        if count st >=? MAX_WATCHED then Done (st, sys_fail EMFILE)
        else
          es ← mem_set (fds st) (count st) {| fd := x; events := mask wantread wantwrite; revents := 0 |};
          Done ({| processed := processed st; count := count st + 1; fds := es |}, [VBool true])
    end.

Definition Lset st L : outcome (Lpoll_state * list value) :=
  _ ← luaL_checkudata L 1 STATE_MT;
  n ← luaL_checkinteger L 2;
  let x := cint n in
  let wantread := lua_toboolean L 3 in
  let wantwrite := lua_toboolean L 4 in
  match find_set (watched st) x with
  | Some i =>
      e ← mem_get (fds st) (Z.of_nat i);
      es ← mem_set (fds st) (Z.of_nat i) {| fd := fd e; events := mask wantread wantwrite; revents := revents e |};
      Done ({| processed := processed st; count := count st; fds := es |}, [VBool true])
  | None => Done (st, sys_fail ENOENT)
  end.

Definition Ldel st L : outcome (Lpoll_state * list value) :=
  _ ← luaL_checkudata L 1 STATE_MT;
  n ← luaL_checkinteger L 2;
  let x := cint n in
  if count st =? 0 then Done (st, sys_fail ENOENT)
  else
    match find_fd (watched st) x with
    | Some i =>
        last ← mem_get (fds st) (count st - 1);
        es ← mem_set (fds st) (Z.of_nat i) last;
        last ← mem_get es (count st - 1);
        es ← mem_set es (count st - 1) {| fd := -1; events := events last; revents := revents last |};
        Done ({| processed := processed st; count := count st - 1; fds := es |}, [VBool true])
    | None => Done (st, sys_fail ENOENT)
    end.

Definition readable (e : pollfd) : bool := negb (Z.land (revents e) (Z.lor (Z.lor POLLIN POLLHUP) POLLERR) =? 0).
Definition writable (e : pollfd) : bool := negb (Z.land (revents e) POLLOUT =? 0).

(** [for(i = processed - 1; i >= 0; i--)]: [k = i + 1] iterations are left. *)
Fixpoint push_loop (k : nat) st : outcome (Lpoll_state * list value) :=
  match k with
  | O => Done (st, [])
  | S i =>
      e ← mem_get (fds st) (Z.of_nat i);
      if negb (fd e =? -1) && negb (revents e =? 0) then
        es ← mem_set (fds st) (Z.of_nat i) {| fd := fd e; events := events e; revents := 0 |};
        Done ({| processed := Z.of_nat i; count := count st; fds := es |},
              [VInt (fd e); VBool (readable e); VBool (writable e)])
      else push_loop i st
  end.

Definition Lpushevent st : outcome (Lpoll_state * list value) := push_loop (Z.to_nat (processed st)) st.

Definition fill_revents (es : list pollfd) (rs : list Z) : list pollfd :=
  zip_with (fun e r => {| fd := fd e; events := events e; revents := r |}) es rs.

Definition Lwait (poll : sys_poll) st L : outcome (Lpoll_state * list value) :=
  _ ← luaL_checkudata L 1 STATE_MT;
  '(st, ret) ← Lpushevent st;
  if negb (bool_decide (ret = [])) then Done (st, ret)
  else
    timeout ← luaL_checknumber L 2;
    _ ← luaL_argcheck (dbl_nonneg timeout) 1 "positive number expected";
    if dbl_zero timeout then Done (st, timeout_result)
    else
      ms ← timeout_ms timeout;
      let '(ret, rs, errno) := poll (watched st) ms in
      let st := {| processed := processed st; count := count st;
                   fds := fill_revents (watched st) rs ++ drop (Z.to_nat (count st)) (fds st) |} in
      match wait_failed ret errno with
      | Some r => Done (st, r)
      | None => Lpushevent {| processed := cint (count st); count := count st; fds := fds st |}
      end.

Definition Lnew : Lpoll_state :=
  {| processed := -1; count := 0;
     fds := replicate (Z.to_nat MAX_WATCHED) {| fd := -1; events := 0; revents := 0 |} |}.

End handlers.

(** ** The interest map of a state *)

Section refinement.
Context `{LuaAux, Posix, PollFlags}.
Implicit Types (st : Lpoll_state) (m : interest).

(** A watched descriptor and its entry. *)
Definition entry (w : Z * (bool * bool)) (e : pollfd) : Prop :=
  fd e = w.1 /\ events e = mask w.2.1 w.2.2.

(** The watched entries come first, without duplicates; the others have no descriptor;
    what [wait] has reported, or never saw, has no event left. *)
Record represents_with st m (ws : list (Z * (bool * bool))) (es rest : list pollfd) : Prop := {
  rep_fds : fds st = es ++ rest;
  rep_size : zlen (fds st) = MAX_WATCHED;
  rep_count : count st = zlen ws;
  rep_map : m = list_to_map ws;
  rep_nodup : NoDup ws.*1;
  rep_nonneg : Forall (fun w => 0 <= w.1) ws;
  rep_entries : Forall2 entry ws es;
  rep_unused : Forall (fun e => fd e = -1) rest;
  rep_processed : -1 <= processed st <= MAX_WATCHED;
  rep_reported i e : fds st !! i = Some e -> processed st <= Z.of_nat i < count st -> revents e = 0;
}.

Definition represents st m : Prop := exists ws es rest, represents_with st m ws es rest.

Definition poll_policy : policy := {|
  refused m x :=
    if x <? 0 then Some EBADF
    else match m !! x with
         | Some _ => Some EEXIST
         | None => if Z.of_nat (size m) >=? MAX_WATCHED then Some EMFILE else None
         end;
  keeps := false;
|}.

Lemma rep_length st m ws es rest : represents_with st m ws es rest -> length es = length ws.
Proof. intros R. symmetry. eapply Forall2_length, R. Qed.

Lemma rep_watched st m ws es rest : represents_with st m ws es rest -> watched st = es.
Proof.
  intros R. unfold watched. rewrite (rep_fds _ _ _ _ _ R), (rep_count _ _ _ _ _ R).
  unfold zlen. by rewrite Nat2Z.id, <- (rep_length _ _ _ _ _ R), take_app_length.
Qed.

(** Changing the flags of one descriptor. *)
Lemma list_to_map_update (ws : list (Z * (bool * bool))) i x rw :
  NoDup ws.*1 -> fst <$> ws !! i = Some x ->
  (list_to_map (<[i := (x, rw)]> ws) : interest) = <[x := rw]> (list_to_map ws).
Proof.
  revert i. induction ws as [|[y v] ws IH]; intros i Hnd Hi; [done|].
  apply NoDup_cons in Hnd as [Hy Hnd]. destruct i as [|i].
  - injection Hi as ->. cbn. by rewrite insert_insert_eq.
  - cbn in Hi. change (<[y := v]> (list_to_map (<[i := (x, rw)]> ws) : interest)
      = <[x := rw]> (<[y := v]> (list_to_map ws : interest))).
    rewrite (IH i) by done. apply insert_insert_ne. intros ->. apply Hy.
    destruct (ws !! i) as [[z u]|] eqn:E; [|done]. injection Hi as ->.
    apply list_elem_of_fmap. exists (x, u). split; [done|]. by apply list_elem_of_lookup_2 with i.
Qed.

Lemma find_fd_spec ws es x :
  Forall2 entry ws es -> NoDup ws.*1 ->
  match find_fd es x with
  | Some i => exists rw, ws !! i = Some (x, rw) /\ (list_to_map ws : interest) !! x = Some rw
  | None => (list_to_map ws : interest) !! x = None
  end.
Proof.
  intros He. induction He as [|[y rw] e ws es [Hfd _] _ IH]; intros Hnd; [done|].
  apply NoDup_cons in Hnd as [Hy Hnd]. cbn [find_fd]. simpl in Hfd. rewrite Hfd.
  destruct (Z.eqb_spec y x) as [->|Hne].
  - exists rw. split; [done|]. apply lookup_insert_eq.
  - specialize (IH Hnd). destruct (find_fd es x) as [i|]; cbn [fmap option_fmap option_map].
    + destruct IH as (rw' & Hi & Hm). exists rw'. split; [done|]. cbn. by rewrite lookup_insert_ne.
    + cbn. by rewrite lookup_insert_ne.
Qed.

Lemma find_set_fd ws es x :
  Forall2 entry ws es -> Forall (fun w => 0 <= w.1) ws -> find_set es x = find_fd es x.
Proof.
  intros He. induction He as [|w e ws es [Hfd _] _ IH]; intros Hn; [done|].
  apply Forall_cons in Hn as [Hw Hn]. cbn [find_fd find_set]. rewrite IH by done.
  destruct (fd e =? x); [done|]. destruct (Z.eqb_spec (fd e) (-1)); [lia|done].
Qed.

(** The entry at an index. *)
Lemma rep_lookup st m ws es rest i w :
  represents_with st m ws es rest -> ws !! i = Some w ->
  exists e, es !! i = Some e /\ entry w e /\ mem_get (fds st) (Z.of_nat i) = Done e /\ (i < length es)%nat
    /\ Z.of_nat i < zlen (fds st).
Proof.
  intros R Hw. destruct (Forall2_lookup_l _ _ _ _ _ (rep_entries _ _ _ _ _ R) Hw) as (e & He & Hent).
  pose proof (lookup_lt_Some _ _ _ He) as Hl.
  exists e. split_and!; [done..| |done|].
  - apply mem_get_done; [lia|]. rewrite Nat2Z.id, (rep_fds _ _ _ _ _ R). by apply lookup_app_l_Some.
  - rewrite (rep_fds _ _ _ _ _ R), zlen_app. pose proof (zlen_nonneg rest). unfold zlen in *. lia.
Qed.

(** ** add *)

Lemma add_represents st m ws es rest x r w :
  represents_with st m ws es rest -> 0 <= x -> m !! x = None -> count st < MAX_WATCHED ->
  exists es', mem_set (fds st) (count st) {| fd := x; events := mask r w; revents := 0 |} = Done es' /\
    represents {| processed := processed st; count := count st + 1; fds := es' |} (<[x := (r, w)]> m).
Proof.
  intros R Hx Hm Hc. pose proof (rep_length _ _ _ _ _ R) as Hlen.
  pose proof (rep_size _ _ _ _ _ R) as Hsize. pose proof (rep_count _ _ _ _ _ R) as Hcount.
  pose proof (zlen_nonneg ws) as Hn. eexists. split; [apply mem_set_done; lia|].
  set (e' := {| fd := x; events := mask r w; revents := 0 |}).
  assert (exists e0 rest', rest = e0 :: rest') as (e0 & rest' & ->).
  { destruct rest as [|e0 rest']; [|by eauto]. exfalso.
    rewrite (rep_fds _ _ _ _ _ R), app_nil_r in Hsize. unfold zlen in *. lia. }
  assert (<[Z.to_nat (count st) := e']> (fds st) = (es ++ [e']) ++ rest') as E.
  { rewrite (rep_fds _ _ _ _ _ R). replace (Z.to_nat (count st)) with (length es) by (unfold zlen in *; lia).
    rewrite insert_app_r_alt, Nat.sub_diag by done. by rewrite <- app_assoc. }
  exists (ws ++ [(x, (r, w))]), (es ++ [e']), rest'. split; cbn [fds count processed].
  - exact E.
  - unfold zlen in *. by rewrite length_insert.
  - rewrite zlen_app. change (zlen [(x, (r, w))]) with 1. lia.
  - rewrite (rep_map _ _ _ _ _ R) in *.
    assert (x ∉ ws.*1) as Hnin by (by apply not_elem_of_list_to_map).
    rewrite list_to_map_snoc by done. done.
  - rewrite fmap_app. apply NoDup_app. split_and!; [apply R| |apply NoDup_singleton].
    intros y Hy ->%list_elem_of_singleton. revert Hy. apply not_elem_of_list_to_map.
    by rewrite <- (rep_map _ _ _ _ _ R).
  - apply Forall_app. split; [apply R|]. by apply Forall_singleton.
  - apply Forall2_app; [apply R|]. constructor; [done|constructor].
  - pose proof (rep_unused _ _ _ _ _ R) as Hu. by apply Forall_cons in Hu as [_ ?].
  - apply R.
  - intros i e Hi Hrange. destruct (decide (i = Z.to_nat (count st))) as [->|Hne].
    + rewrite list_lookup_insert_eq in Hi by (unfold zlen in *; lia). by injection Hi as <-.
    + rewrite list_lookup_insert_ne in Hi by done. apply (rep_reported _ _ _ _ _ R i e Hi). lia.
Qed.

(** ** set *)

Lemma set_represents st m ws es rest x rw i r w :
  represents_with st m ws es rest -> ws !! i = Some (x, rw) ->
  exists e es', mem_get (fds st) (Z.of_nat i) = Done e /\
    mem_set (fds st) (Z.of_nat i) {| fd := fd e; events := mask r w; revents := revents e |} = Done es' /\
    represents {| processed := processed st; count := count st; fds := es' |} (<[x := (r, w)]> m).
Proof.
  intros R Hw. destruct (rep_lookup _ _ _ _ _ i _ R Hw) as (e & He & [Hfd _] & Hget & Hi & Hz).
  exists e. eexists. split; [exact Hget|]. split; [apply mem_set_done; lia|].
  rewrite Nat2Z.id. set (e' := {| fd := fd e; events := mask r w; revents := revents e |}).
  exists (<[i := (x, (r, w))]> ws), (<[i := e']> es), rest. split; cbn [fds count processed].
  - rewrite (rep_fds _ _ _ _ _ R). by apply insert_app_l.
  - pose proof (rep_size _ _ _ _ _ R). unfold zlen in *. by rewrite length_insert.
  - rewrite (rep_count _ _ _ _ _ R). unfold zlen. by rewrite length_insert.
  - rewrite (rep_map _ _ _ _ _ R). symmetry. apply list_to_map_update; [apply R|].
    by rewrite Hw.
  - rewrite list_fmap_insert. cbn. rewrite list_insert_id; [apply R|].
    by rewrite list_lookup_fmap, Hw.
  - apply Forall_insert; [apply R|]. pose proof (rep_nonneg _ _ _ _ _ R) as Hn.
    rewrite Forall_lookup in Hn. apply (Hn i _ Hw).
  - apply Forall2_insert; [apply R|]. split; [done|]. done.
  - apply R.
  - apply R.
  - intros j f Hj Hrange. destruct (decide (j = i)) as [->|Hne].
    + rewrite list_lookup_insert_eq in Hj by (unfold zlen in Hz; lia). injection Hj as <-. cbn.
      apply (rep_reported _ _ _ _ _ R i e); [|done]. rewrite (rep_fds _ _ _ _ _ R). by apply lookup_app_l_Some.
    + rewrite list_lookup_insert_ne in Hj by done. by apply (rep_reported _ _ _ _ _ R j f).
Qed.

(** ** del *)

(** Removing an element by putting the last one in its place. *)
Lemma swap_remove_perm {A} (l : list A) z i y :
  (l ++ [z]) !! i = Some y -> l ++ [z] ≡ₚ y :: <[i := z]> l.
Proof.
  intros Hi. destruct (decide (i < length l)%nat) as [Hlt|Hge].
  - rewrite lookup_app_l in Hi by done. rewrite insert_take_drop by done.
    rewrite <- (take_drop_middle l i y Hi) at 1.
    rewrite <- (Permutation_middle (take i l) (drop (S i) l) z), <- (Permutation_middle (take i l) (drop (S i) l) y).
    cbn [app]. apply perm_skip. symmetry. apply Permutation_cons_append.
  - rewrite list_insert_ge by lia. pose proof (lookup_lt_Some _ _ _ Hi) as Hl. rewrite length_app in Hl.
    simpl in Hl. replace i with (length l) in Hi by lia.
    rewrite lookup_app_r, Nat.sub_diag in Hi by done. injection Hi as <-.
    symmetry. apply Permutation_cons_append.
Qed.

Lemma list_to_map_remove (ws ws' : list (Z * (bool * bool))) x rw :
  NoDup ws.*1 -> ws ≡ₚ (x, rw) :: ws' ->
  (list_to_map ws' : interest) = delete x (list_to_map ws) /\ NoDup ws'.*1.
Proof.
  intros Hnd E. assert (NoDup (x :: ws'.*1)) as Hnd'.
  { change (x :: ws'.*1) with (((x, rw) :: ws').*1). by rewrite <- E. }
  apply NoDup_cons in Hnd' as [Hx Hnd'']. split; [|done].
  rewrite (list_to_map_proper ws ((x, rw) :: ws')) by done. cbn.
  rewrite delete_insert_id; [done|]. by apply not_elem_of_list_to_map.
Qed.

(** The state after [Ldel] found the entry [i]. *)
(** The reads and writes of the array that put the last entry [l] into the gap [i]. *)
Lemma remove_run (es0 : list pollfd) l rest i dead :
  (i <= length es0)%nat ->
  mem_get (es0 ++ l :: rest) (zlen es0) = Done l /\
  mem_set (es0 ++ l :: rest) (Z.of_nat i) l = Done (<[i := l]> es0 ++ l :: rest) /\
  mem_get (<[i := l]> es0 ++ l :: rest) (zlen es0) = Done l /\
  mem_set (<[i := l]> es0 ++ l :: rest) (zlen es0) dead = Done (<[i := l]> es0 ++ dead :: rest).
Proof.
  intros Hi. pose proof (zlen_nonneg es0). pose proof (zlen_nonneg rest).
  assert (zlen (<[i := l]> es0) = zlen es0) as Hzi by (unfold zlen; by rewrite length_insert).
  assert (forall es1, mem_get (es1 ++ l :: rest) (zlen es1) = Done l) as Hget.
  { intros es1. apply mem_get_done; [apply zlen_nonneg|]. unfold zlen.
    by rewrite Nat2Z.id, lookup_app_r, Nat.sub_diag by done. }
  split; [done|]. split; [|split; [by rewrite <- Hzi|]].
  - rewrite mem_set_done by (rewrite ?zlen_app, ?zlen_cons; unfold zlen in *; lia). rewrite Nat2Z.id. f_equal.
    destruct (decide (i < length es0)%nat); [by apply insert_app_l|].
    assert (i = length es0) as -> by lia.
    rewrite (list_insert_ge es0) by lia. by rewrite insert_app_r_alt, Nat.sub_diag by done.
  - rewrite mem_set_done by (rewrite zlen_app, zlen_cons; lia).
    replace (Z.to_nat (zlen es0)) with (length (<[i := l]> es0)) by (rewrite length_insert; unfold zlen; lia).
    by rewrite insert_app_r_alt, Nat.sub_diag by done.
Qed.

Lemma del_represents st m ws es rest x rw i :
  represents_with st m ws es rest -> ws !! i = Some (x, rw) ->
  exists l e es1 es2 ws' es', mem_get (fds st) (count st - 1) = Done l /\
    mem_set (fds st) (Z.of_nat i) l = Done es1 /\ mem_get es1 (count st - 1) = Done l /\
    mem_set es1 (count st - 1) {| fd := -1; events := events l; revents := revents l |} = Done es2 /\
    es !! i = Some e /\ fd e = x /\ es ≡ₚ e :: es' /\
    represents_with {| processed := processed st; count := count st - 1; fds := es2 |} (delete x m) ws' es'
      ({| fd := -1; events := events l; revents := revents l |} :: rest).
Proof.
  intros R Hw. destruct (rep_lookup _ _ _ _ _ i _ R Hw) as (e & He & [Hfd _] & _ & Hi & Hz).
  pose proof (rep_length _ _ _ _ _ R) as Hlen. pose proof (rep_count _ _ _ _ _ R) as Hc.
  pose proof (rep_fds _ _ _ _ _ R) as Hf. pose proof (rep_size _ _ _ _ _ R) as Hsz.
  destruct es as [|l es0 _] using rev_ind; [simpl in Hi; lia|].
  destruct ws as [|wl ws0 _] using rev_ind; [done|].
  assert (length es0 = length ws0) as Hl0 by (rewrite !length_app in Hlen; simpl in Hlen; lia).
  assert (count st - 1 = zlen es0) as Hc1 by (rewrite Hc, zlen_app; unfold zlen; simpl; lia).
  rewrite Hc1. rewrite <- app_assoc in Hf. cbn [app] in Hf.
  set (dead := {| fd := -1; events := events l; revents := revents l |}).
  assert (i <= length es0)%nat as Hi0 by (rewrite length_app in Hi; simpl in Hi; lia).
  destruct (remove_run es0 l rest i dead Hi0) as (G1 & S1 & G2 & S2).
  exists l, e, (<[i := l]> es0 ++ l :: rest), (<[i := l]> es0 ++ dead :: rest), (<[i := wl]> ws0), (<[i := l]> es0).
  pose proof (zlen_nonneg es0) as Hn0. pose proof (zlen_nonneg rest) as Hnr.
  assert (zlen (<[i := l]> es0) = zlen es0) as Hzi by (unfold zlen; by rewrite length_insert).
  pose proof (rep_entries _ _ _ _ _ R) as Hent. apply Forall2_app_inv in Hent as [Hent0 Hentl]; [|done].
  split_and!.
  - by rewrite Hf.
  - by rewrite Hf.
  - done.
  - done.
  - done.
  - done.
  - by apply swap_remove_perm.
  - destruct (list_to_map_remove _ _ _ _ (rep_nodup _ _ _ _ _ R) (swap_remove_perm ws0 wl i _ Hw)) as [Hm' Hnd'].
    split; cbn [fds count processed].
    + done.
    + rewrite <- Hsz, Hf, !zlen_app, !zlen_cons, Hzi. done.
    + unfold zlen. rewrite length_insert. lia.
    + by rewrite (rep_map _ _ _ _ _ R), Hm'.
    + done.
    + pose proof (rep_nonneg _ _ _ _ _ R) as Hnn. rewrite (swap_remove_perm ws0 wl i _ Hw) in Hnn.
      by apply Forall_cons in Hnn as [_ ?].
    + apply Forall2_insert; [done|]. by apply Forall2_cons in Hentl as [? _].
    + constructor; [done|]. apply R.
    + apply R.
    + intros j f Hj Hrange. rewrite lookup_app_l in Hj
        by (rewrite length_insert; unfold zlen in *; lia).
      destruct (decide (j = i)) as [->|Hne].
      * rewrite list_lookup_insert_eq in Hj by (unfold zlen in *; lia). injection Hj as <-.
        apply (rep_reported _ _ _ _ _ R (length es0)); [|unfold zlen in *; lia].
        by rewrite Hf, lookup_app_r, Nat.sub_diag by done.
      * rewrite list_lookup_insert_ne in Hj by done.
        apply (rep_reported _ _ _ _ _ R j); [|unfold zlen in *; lia].
        rewrite Hf. by apply lookup_app_l_Some.
Qed.

(** ** Events that are waiting to be reported *)

Definition is_ready (e : pollfd) : Prop := fd e <> -1 /\ revents e <> 0.

#[export] Instance is_ready_dec e : Decision (is_ready e).
Proof. unfold is_ready. apply _. Defined.

Definition report (e : pollfd) : list value := [VInt (fd e); VBool (readable e); VBool (writable e)].

(** The entries below [processed] with an event, from the top. *)
Definition waiting st : list pollfd :=
  filter is_ready (reverse (take (Z.to_nat (processed st)) (fds st))).

Definition pending st : list (list value) := report <$> waiting st.

Definition reported (e : pollfd) : pollfd := {| fd := fd e; events := events e; revents := 0 |}.

Lemma is_ready_test e : negb (fd e =? -1) && negb (revents e =? 0) = bool_decide (is_ready e).
Proof.
  unfold is_ready. apply Bool.eq_true_iff_eq. rewrite andb_true_iff, !negb_true_iff, !Z.eqb_neq, bool_decide_eq_true.
  done.
Qed.

Lemma take_insert_same {A} (l : list A) i k x : (k <= i)%nat -> take k (<[i := x]> l) = take k l.
Proof. intros. by apply take_insert_ge. Qed.

Lemma poll_push_loop_spec k st :
  (k <= length (fds st))%nat ->
  match filter is_ready (reverse (take k (fds st))) with
  | [] => push_loop k st = Done (st, [])
  | e :: rest =>
      exists i, (i < k)%nat /\ fds st !! i = Some e /\
        push_loop k st = Done ({| processed := Z.of_nat i; count := count st; fds := <[i := reported e]> (fds st) |}, report e)
        /\ filter is_ready (reverse (take i (fds st))) = rest
        /\ (forall j f, (i < j < k)%nat -> fds st !! j = Some f -> ~ is_ready f)
  end.
Proof.
  induction k as [|k IH]; intros Hk; [done|]. cbn [push_loop].
  destruct (lookup_lt_is_Some_2 (fds st) k) as [e He]; [lia|].
  rewrite (mem_get_done _ _ e) by (try rewrite Nat2Z.id; (done || lia)). cbn [mbind outcome_bind].
  rewrite (take_S_r _ _ _ He), reverse_snoc, is_ready_test, filter_cons. specialize (IH ltac:(lia)).
  case_bool_decide as Hr.
  - rewrite decide_True by done. exists k. split_and!; [lia|done| |done|lia].
    rewrite mem_set_done by (unfold zlen; lia). by rewrite Nat2Z.id.
  - rewrite decide_False by done.
    destruct (filter is_ready (reverse (take k (fds st)))) as [|e' rest]; [done|].
    destruct IH as (i & Hi & He' & -> & Hrest & Hno). exists i. split_and!; [lia|done..|].
    intros j f Hj Hf. destruct (decide (j = k)) as [->|]; [|apply (Hno j); [lia|done]].
    by assert (f = e) as -> by congruence.
Qed.

Lemma rep_bounds st m ws es rest : represents_with st m ws es rest -> (Z.to_nat (processed st) <= length (fds st))%nat.
Proof.
  intros R. pose proof (rep_size _ _ _ _ _ R) as Hs. pose proof (rep_processed _ _ _ _ _ R).
  unfold zlen in Hs. lia.
Qed.

(** Reporting one event keeps the interest map. *)
Lemma poll_reported_represents st m ws es rest i e :
  represents_with st m ws es rest -> fds st !! i = Some e -> is_ready e ->
  (forall j f, Z.of_nat i < Z.of_nat j < processed st -> fds st !! j = Some f -> ~ is_ready f) ->
  Z.of_nat i < processed st ->
  represents {| processed := Z.of_nat i; count := count st; fds := <[i := reported e]> (fds st) |} m.
Proof.
  intros R He Hr Hno Hi. pose proof (rep_fds _ _ _ _ _ R) as Hf. pose proof (rep_count _ _ _ _ _ R) as Hc.
  pose proof (rep_length _ _ _ _ _ R) as Hlen. pose proof (rep_size _ _ _ _ _ R) as Hsz.
  pose proof (rep_unused _ _ _ _ _ R) as Hun. pose proof (lookup_lt_Some _ _ _ He) as Hil.
  assert (i < length es)%nat as Hie.
  { destruct (decide (i < length es)%nat) as [|Hge]; [done|]. exfalso. rewrite Hf, lookup_app_r in He by lia.
    rewrite Forall_lookup in Hun. apply Hun in He. by destruct Hr. }
  rewrite Hf, lookup_app_l in He by done.
  destruct (lookup_lt_is_Some_2 ws i ltac:(lia)) as [w Hw].
  destruct (Forall2_lookup_l _ _ _ _ _ (rep_entries _ _ _ _ _ R) Hw) as (e' & He' & Hent).
  assert (e' = e) as -> by congruence.
  exists ws, (<[i := reported e]> es), rest. split; cbn [fds count processed].
  - rewrite Hf. by apply insert_app_l.
  - rewrite <- Hsz. unfold zlen. by rewrite length_insert.
  - done.
  - apply R.
  - apply R.
  - apply R.
  - rewrite <- (list_insert_id ws i w) by done. apply Forall2_insert; [apply R|]. done.
  - done.
  - unfold MAX_WATCHED, zlen in *. lia.
  - intros j f Hj Hrange. destruct (decide (j = i)) as [->|Hne].
    + rewrite list_lookup_insert_eq in Hj by done. by injection Hj as <-.
    + rewrite list_lookup_insert_ne in Hj by done.
      destruct (Z.lt_ge_cases (Z.of_nat j) (processed st)) as [Hlt|Hge].
      * destruct (Z.eq_dec (revents f) 0) as [|Hrv]; [done|]. destruct (Hno j f); [lia|done|]. split; [|done].
        rewrite Hf, lookup_app_l in Hj by (unfold zlen in Hc; lia).
        destruct (Forall2_lookup_r _ _ _ _ _ (rep_entries _ _ _ _ _ R) Hj) as (wj & Hwj & [Hfd _]).
        pose proof (rep_nonneg _ _ _ _ _ R) as Hnn. rewrite Forall_lookup in Hnn. apply Hnn in Hwj. lia.
      * apply (rep_reported _ _ _ _ _ R j f Hj). lia.
Qed.

(** [Lpushevent] reports the first waiting event, if there is one. *)
Lemma poll_pushevent_spec st m :
  represents st m ->
  match pending st with
  | [] => Lpushevent st = Done (st, [])
  | r :: rs => exists st', Lpushevent st = Done (st', r) /\ represents st' m /\ pending st' = rs
  end.
Proof.
  intros (ws & es & rest & R). unfold Lpushevent, pending, waiting.
  pose proof (poll_push_loop_spec (Z.to_nat (processed st)) st (rep_bounds _ _ _ _ _ R)) as P.
  destruct (filter is_ready _) as [|e es'] eqn:E; [done|]. cbn [fmap list_fmap].
  destruct P as (i & Hi & He & -> & Hrest & Hno). eexists. split; [done|]. split.
  - apply (poll_reported_represents st m ws es rest i e); [done|done| | |lia].
    + assert (e ∈ filter is_ready (reverse (take (Z.to_nat (processed st)) (fds st)))) as Hin by (rewrite E; by left).
      by apply list_elem_of_filter in Hin as [? _].
    + intros j f Hj Hf. apply (Hno j f); [lia|done].
  - cbn [processed fds]. by rewrite Nat2Z.id, take_insert_ge, Hrest by done.
Qed.

(** Every entry with an event is waiting: the others are unused or were reported. *)
Lemma waiting_entries st m ws es rest :
  represents_with st m ws es rest -> waiting st = reverse (filter is_ready es).
Proof.
  intros R. unfold waiting. rewrite filter_reverse. f_equal.
  pose proof (rep_fds _ _ _ _ _ R) as Hf.
  assert (filter is_ready (fds st) = filter is_ready es) as <-.
  { rewrite Hf, filter_app. rewrite (filter_none _ rest), app_nil_r; [done|].
    eapply Forall_impl; [apply R|]. intros e He [Hne _]. done. }
  rewrite <- (take_drop (Z.to_nat (processed st)) (fds st)) at 2. rewrite filter_app.
  rewrite (filter_none _ (drop _ _)), app_nil_r; [done|].
  apply Forall_lookup. intros j e Hj [Hne Hrv]. rewrite lookup_drop in Hj.
  set (k := (Z.to_nat (processed st) + j)%nat) in *.
  destruct (decide (k < length es)%nat) as [Hlt|Hge].
  - apply Hrv, (rep_reported _ _ _ _ _ R k e Hj). pose proof (rep_count _ _ _ _ _ R).
    pose proof (rep_length _ _ _ _ _ R). unfold zlen in *. lia.
  - rewrite Hf, lookup_app_r in Hj by lia. pose proof (rep_unused _ _ _ _ _ R) as Hu.
    rewrite Forall_lookup in Hu. by apply Hu in Hj.
Qed.

Lemma rep_size_map st m ws es rest : represents_with st m ws es rest -> Z.of_nat (size m) = count st.
Proof.
  intros R. rewrite (rep_map _ _ _ _ _ R), (rep_count _ _ _ _ _ R), map_size_list_to_map by apply R. done.
Qed.

(** ** The methods, on well-typed arguments *)

Lemma poll_Ladd_refines st m x r w p :
  represents st m -> is_int x ->
  let '(m', res) := interest_step poll_policy m (Add x r w) in
  exists st', Ladd st (op_args (VUserdata STATE_MT p) (Add x r w)) = Done (st', res) /\ represents st' m'.
Proof.
  intros (ws & es & rest & R) Hx. unfold Ladd, interest_step. cbn [refused poll_policy op_args].
  rewrite (checkudata_self _ 1 STATE_MT p) by done. cbn [mbind outcome_bind].
  destruct (checkinteger_fd [VUserdata STATE_MT p; VInt x; flag_value r; flag_value w] 2 x eq_refl Hx) as [-> Ec].
  cbn [mbind outcome_bind]. cbv zeta. rewrite Ec.
  rewrite (toboolean_flag _ 3 r), (toboolean_flag _ 4 w) by done. rewrite (rep_watched _ _ _ _ _ R).
  assert (represents st m) as Rep by (by exists ws, es, rest).
  destruct (Z.ltb_spec x 0); [by exists st|].
  pose proof (find_fd_spec ws es x (rep_entries _ _ _ _ _ R) (rep_nodup _ _ _ _ _ R)) as F.
  rewrite (rep_size_map _ _ _ _ _ R). pose proof (rep_map _ _ _ _ _ R) as Em.
  destruct (find_fd es x) as [i|].
  - destruct F as (rw & _ & Hm). rewrite <- Em in Hm. rewrite Hm. by exists st.
  - rewrite <- Em in F. rewrite F. destruct (Z.geb_spec (count st) MAX_WATCHED) as [|Hlt]; [by exists st|].
    destruct (add_represents _ _ _ _ _ x (flag r) (flag w) R ltac:(lia) F Hlt) as (es' & -> & R').
    cbn [mbind outcome_bind]. by eexists.
Qed.

Lemma poll_Lset_refines st m x r w p :
  represents st m -> is_int x ->
  let '(m', res) := interest_step poll_policy m (Set_ x r w) in
  exists st', Lset st (op_args (VUserdata STATE_MT p) (Set_ x r w)) = Done (st', res) /\ represents st' m'.
Proof.
  intros (ws & es & rest & R) Hx. unfold Lset, interest_step. cbn [op_args].
  rewrite (checkudata_self _ 1 STATE_MT p) by done. cbn [mbind outcome_bind].
  destruct (checkinteger_fd [VUserdata STATE_MT p; VInt x; flag_value r; flag_value w] 2 x eq_refl Hx) as [-> Ec].
  cbn [mbind outcome_bind]. cbv zeta. rewrite Ec.
  rewrite (toboolean_flag _ 3 r), (toboolean_flag _ 4 w) by done. rewrite (rep_watched _ _ _ _ _ R).
  rewrite (find_set_fd ws) by apply R.
  pose proof (find_fd_spec ws es x (rep_entries _ _ _ _ _ R) (rep_nodup _ _ _ _ _ R)) as F.
  pose proof (rep_map _ _ _ _ _ R) as Em. destruct (find_fd es x) as [i|].
  - destruct F as ([r0 w0] & Hw & Hm). rewrite <- Em in Hm. rewrite Hm.
    destruct (set_represents _ _ _ _ _ x (r0, w0) i (flag r) (flag w) R Hw) as (e & es' & -> & E & R').
    cbn [mbind outcome_bind]. rewrite E. cbn [mbind outcome_bind]. by eexists.
  - rewrite <- Em in F. rewrite F. exists st. split; [done|]. by exists ws, es, rest.
Qed.

(** A descriptor that is not in the map has no entry, so none of its events waits. *)
Lemma rep_absent st m ws es rest x :
  represents_with st m ws es rest -> m !! x = None -> Forall (fun e => fd e <> x) es.
Proof.
  intros R Hm. apply Forall_forall. intros e [j Hj]%list_elem_of_lookup Hfd.
  destruct (Forall2_lookup_r _ _ _ _ _ (rep_entries _ _ _ _ _ R) Hj) as ([y rw] & Hw & [Hy _]).
  rewrite (rep_map _ _ _ _ _ R) in Hm. apply not_elem_of_list_to_map in Hm. apply Hm, list_elem_of_fmap.
  exists (y, rw). split; [simpl in *; congruence|]. by apply list_elem_of_lookup_2 with j.
Qed.

Lemma reports_others es x :
  Forall (fun e => fd e <> x) es ->
  filter (fun r => head r <> Some (VInt x)) (report <$> filter is_ready es) = report <$> filter is_ready es.
Proof.
  intros Hne. apply filter_all, Forall_fmap, Forall_forall. intros f [_ Hin]%list_elem_of_filter [= Hfx].
  rewrite Forall_forall in Hne. by apply (Hne f).
Qed.

Lemma poll_Ldel_refines st m x p :
  represents st m -> is_int x ->
  let '(m', res) := interest_step poll_policy m (Del x) in
  exists st', Ldel st (op_args (VUserdata STATE_MT p) (Del x)) = Done (st', res) /\ represents st' m'
    /\ pending st' ≡ₚ filter (fun r => head r <> Some (VInt x)) (pending st).
Proof.
  intros (ws & es & rest & R) Hx. unfold Ldel, interest_step. cbn [op_args].
  rewrite (checkudata_self _ 1 STATE_MT p) by done. cbn [mbind outcome_bind].
  destruct (checkinteger_fd [VUserdata STATE_MT p; VInt x] 2 x eq_refl Hx) as [-> Ec].
  cbn [mbind outcome_bind]. cbv zeta. rewrite Ec. rewrite (rep_watched _ _ _ _ _ R).
  assert (represents st m) as Rep by (by exists ws, es, rest).
  pose proof (find_fd_spec ws es x (rep_entries _ _ _ _ _ R) (rep_nodup _ _ _ _ _ R)) as F.
  pose proof (rep_map _ _ _ _ _ R) as Em. rewrite <- Em in F.
  assert (m !! x = None -> pending st ≡ₚ filter (fun r => head r <> Some (VInt x)) (pending st)) as Hnone.
  { intros Hm. unfold pending. rewrite (waiting_entries _ _ _ _ _ R), reverse_Permutation.
    by rewrite reports_others by by apply (rep_absent _ _ _ _ _ _ R). }
  destruct (Z.eqb_spec (count st) 0) as [E0|_].
  { assert (m !! x = None) as Hm.
    { rewrite Em. pose proof (rep_count _ _ _ _ _ R) as Hc. destruct ws; [done|].
      rewrite zlen_cons in Hc. pose proof (zlen_nonneg ws). lia. }
    rewrite Hm. exists st. auto. }
  destruct (find_fd es x) as [i|].
  - destruct F as (rw & Hw & Hm). rewrite Hm.
    destruct (del_represents _ _ _ _ _ x rw i R Hw)
      as (l & e & es1 & es2 & ws' & es' & -> & E1 & E2 & E3 & He & Hfd & Hperm & R').
    cbn [mbind outcome_bind]. rewrite E1. cbn [mbind outcome_bind]. rewrite E2. cbn [mbind outcome_bind].
    rewrite E3. cbn [mbind outcome_bind]. eexists. split; [done|]. split; [by eexists _, _, _|].
    unfold pending. rewrite (waiting_entries _ _ _ _ _ R), (waiting_entries _ _ _ _ _ R').
    pose proof (reports_others es' x (rep_absent _ _ _ _ _ _ R' (lookup_delete_eq m x))) as Eq.
    rewrite !reverse_Permutation, Hperm, filter_cons.
    destruct (decide (is_ready e)); [|by rewrite Eq].
    rewrite fmap_cons, filter_cons_False; [by rewrite Eq|]. cbn. rewrite Hfd. tauto.
  - rewrite F. exists st. auto.
Qed.

Lemma poll_Lnew_represents : represents Lnew ∅.
Proof.
  exists [], [], (replicate (Z.to_nat MAX_WATCHED) {| fd := -1; events := 0; revents := 0 |}).
  split; cbn [fds count processed Lnew]; try done.
  - constructor.
  - by apply Forall_replicate.
  - intros i e _ Hi. lia.
Qed.

(** ** wait *)

Lemma entries_fill ws es rs :
  Forall2 entry ws es -> length rs = length es -> Forall2 entry ws (fill_revents es rs).
Proof.
  intros He. revert rs. induction He as [|w e ws es Hw _ IH]; intros rs Hl; [destruct rs; [constructor|done]|].
  destruct rs as [|r rs]; [done|]. constructor; [exact Hw|]. apply IH. simpl in Hl. lia.
Qed.

(** The state after the system call, with all its events waiting. *)
Lemma polled_represents st m rs :
  represents st m -> length rs = length (watched st) ->
  let st' := {| processed := cint (count st); count := count st;
                fds := fill_revents (watched st) rs ++ drop (Z.to_nat (count st)) (fds st) |} in
  represents st' m /\ pending st' = report <$> reverse (filter is_ready (fill_revents (watched st) rs)).
Proof.
  intros (ws & es & rest & R) Hl. cbv zeta. rewrite (rep_watched _ _ _ _ _ R) in *.
  pose proof (rep_fds _ _ _ _ _ R) as Hf. pose proof (rep_count _ _ _ _ _ R) as Hc.
  pose proof (rep_length _ _ _ _ _ R) as Hlen. pose proof (rep_size _ _ _ _ _ R) as Hsz.
  pose proof (entries_fill _ _ _ (rep_entries _ _ _ _ _ R) Hl) as Hent.
  assert (length (fill_revents es rs) = length es) as Hfl by (rewrite Hlen; symmetry; by eapply Forall2_length).
  assert (drop (Z.to_nat (count st)) (fds st) = rest) as Hd.
  { rewrite Hf, Hc. unfold zlen. by rewrite Nat2Z.id, <- Hlen, drop_app_length. }
  assert (count st <= MAX_WATCHED) as Hmax.
  { rewrite <- Hsz, Hf, Hc. unfold zlen. rewrite length_app. lia. }
  pose proof (zlen_nonneg ws) as Hn.
  rewrite int_small by (unfold MAX_WATCHED in Hmax; range). rewrite Hd.
  assert (represents_with {| processed := count st; count := count st; fds := fill_revents es rs ++ rest |}
    m ws (fill_revents es rs) rest) as R'.
  { split; cbn [fds count processed]; try apply R; try done.
    - rewrite <- Hsz, Hf. unfold zlen. by rewrite !length_app, Hfl.
    - lia.
    - intros i e _ Hi. lia. }
  split; [by exists ws, (fill_revents es rs), rest|].
  unfold pending. by rewrite (waiting_entries _ _ _ _ _ R').
Qed.

(** A number of calls of [wait]. *)
Fixpoint waits (n : nat) (poll : sys_poll) st L : outcome (Lpoll_state * list (list value)) :=
  match n with
  | O => Done (st, [])
  | S n =>
      '(st, r) ← Lwait poll st L;
      '(st, rs) ← waits n poll st L;
      Done (st, r :: rs)
  end.

Lemma wait_pending poll st m L p r rs :
  represents st m -> lua_arg L 1 = Some (VUserdata STATE_MT p) -> pending st = r :: rs ->
  exists st', Lwait poll st L = Done (st', r) /\ represents st' m /\ pending st' = rs.
Proof.
  intros Hr HL Hp. unfold Lwait. rewrite (checkudata_self _ _ _ _ HL). cbn [mbind outcome_bind].
  pose proof (poll_pushevent_spec st m Hr) as P. rewrite Hp in P. destruct P as (st' & -> & Hr' & Hp').
  cbn [mbind outcome_bind]. exists st'. split; [|done].
  assert (r <> []) as Hne by (unfold pending in Hp; destruct (waiting st); [done|]; by injection Hp as <- _).
  by rewrite bool_decide_eq_false_2.
Qed.

Lemma poll_waits_pending poll m L p rs : forall st,
  represents st m -> lua_arg L 1 = Some (VUserdata STATE_MT p) -> pending st = rs ->
  exists st', waits (length rs) poll st L = Done (st', rs) /\ represents st' m /\ pending st' = [].
Proof.
  induction rs as [|r rs IH]; intros st Hr HL Hp; [by exists st|]. cbn [length waits].
  destruct (wait_pending poll st m L p r rs Hr HL Hp) as (st1 & -> & Hr1 & Hp1). cbn [mbind outcome_bind].
  destruct (IH st1 Hr1 HL Hp1) as (st2 & E & Hr2 & Hp2). rewrite E. cbn [mbind outcome_bind]. by exists st2.
Qed.

(** A call that has nothing to report asks the system. *)
Lemma wait_polls poll st m L p d ms ret rs errno :
  represents st m -> lua_arg L 1 = Some (VUserdata STATE_MT p) -> pending st = [] ->
  luaL_checknumber L 2 = Done d -> dbl_nonneg d = true -> dbl_zero d = false -> timeout_ms d = Done ms ->
  poll (watched st) ms = (ret, rs, errno) -> 0 < ret ->
  Lwait poll st L = Lpushevent {| processed := cint (count st); count := count st;
    fds := fill_revents (watched st) rs ++ drop (Z.to_nat (count st)) (fds st) |}.
Proof.
  intros Hr HL Hp Hd Hnn Hz Hms Hpoll Hret. unfold Lwait. rewrite (checkudata_self _ _ _ _ HL). cbn [mbind outcome_bind].
  pose proof (poll_pushevent_spec st m Hr) as P. rewrite Hp in P. rewrite P. cbn [mbind outcome_bind].
  rewrite bool_decide_eq_true_2 by done. cbn [negb]. rewrite Hd. cbn [mbind outcome_bind]. rewrite Hnn.
  cbn [luaL_argcheck mbind outcome_bind]. rewrite Hz, Hms. cbn [mbind outcome_bind]. rewrite Hpoll.
  unfold wait_failed. destruct (Z.eqb_spec ret 0); [lia|]. by destruct (Z.ltb_spec ret 0); [lia|].
Qed.

(** ** The backend *)

Definition poll_method (o : poll_op) : Lpoll_state -> list value -> outcome (Lpoll_state * list value) :=
  match o with Add _ _ _ => Ladd | Set_ _ _ _ => Lset | Del _ => Ldel end.

#[export, refine] Instance poll_backend : PollBackend Lpoll_state := {|
  backend_policy := poll_policy;
  backend_mt := STATE_MT;
  method := poll_method;
  PollApi.represents := represents;
  call_ok _ := True;
  fault _ _ := None;
|}.
Proof.
  intros st m o p Hr _ Hfd. cbn [answered]. destruct o as [x r w|x r w|x]; cbn [poll_method].
  - by apply poll_Ladd_refines.
  - by apply poll_Lset_refines.
  - pose proof (poll_Ldel_refines st m x p Hr Hfd) as D. destruct (interest_step poll_policy m (Del x)).
    destruct D as (st' & ? & ? & _). by exists st'.
Defined.

End refinement.

(** ** Properties *)

Section properties.
Context `{LuaAux, Posix, PollFlags}.

(** C5. On the poll backend any sequence of add, set and del calls on a new object returns,
    call by call, what the interest map says (EBADF for a negative descriptor, EEXIST for
    one already watched, EMFILE beyond 10000, ENOENT for one not watched), and the array
    of pollfds ends up with exactly the descriptors and flags of the map. *)
Theorem poll_refines_interest os p :
  Forall (fun o => is_int (op_fd o)) os ->
  let '(m, rs) := interest_run poll_policy ∅ os in
  exists st, method_run Lnew p os = Done (st, rs) /\ represents st m.
Proof.
  intros Hos. apply (method_run_refines (H1 := poll_backend) Lnew ∅ p os (fun _ _ => eq_refl) poll_Lnew_represents).
  eapply Forall_impl; [exact Hos|]. by intros o Ho.
Qed.

(** C29. When [poll] reports events, that many successive calls of [wait] return each watched
    descriptor with an event exactly once, with its readiness for reading (or error, or
    hang-up) and writing, from the end of the array to its start; only the first of these
    calls asks the system, and the interest map does not change. *)
Theorem poll_delivers_once poll st m L p d ms ret rs errno :
  represents st m -> lua_arg L 1 = Some (VUserdata STATE_MT p) -> pending st = [] ->
  luaL_checknumber L 2 = Done d -> dbl_nonneg d = true -> dbl_zero d = false -> timeout_ms d = Done ms ->
  poll (watched st) ms = (ret, rs, errno) -> 0 < ret -> length rs = length (watched st) ->
  let ready := report <$> reverse (filter is_ready (fill_revents (watched st) rs)) in
  exists st', waits (length ready) poll st L = Done (st', ready) /\ represents st' m /\ pending st' = [].
Proof.
  intros Hr HL Hp Hd Hnn Hz Hms Hpoll Hret Hl. destruct (polled_represents st m rs Hr Hl) as [Hr1 Hp1].
  cbv zeta. destruct (report <$> _) as [|r rest] eqn:E; [by exists st|]. cbn [length waits].
  rewrite (wait_polls poll st m L p d ms ret rs errno) by done.
  pose proof (poll_pushevent_spec _ m Hr1) as P. rewrite Hp1 in P. destruct P as (st1 & -> & Hr2 & Hp2).
  cbn [mbind outcome_bind]. destruct (poll_waits_pending poll m L p rest st1 Hr2 HL Hp2) as (st2 & -> & ? & ?).
  by exists st2.
Qed.

(** Deleting a descriptor drops its event from those still to be reported, and no other
    one, although [del] moves the last entry of the array into the gap. *)
Theorem poll_del_forgets st m x p :
  represents st m -> is_int x ->
  exists st' res, Ldel st [VUserdata STATE_MT p; VInt x] = Done (st', res) /\ represents st' (delete x m) /\
    res = (if decide (is_Some (m !! x)) then [VBool true] else sys_fail ENOENT) /\
    pending st' ≡ₚ filter (fun r => head r <> Some (VInt x)) (pending st).
Proof.
  intros Hr Hx. pose proof (poll_Ldel_refines st m x p Hr Hx) as D. cbn [interest_step] in D.
  destruct (m !! x) as [rw|] eqn:Hm; destruct D as (st' & E & Hr' & Hp); eexists st', _.
  - split; [exact E|]. split_and!; [done| |done]. by rewrite decide_True by by eexists.
  - split; [exact E|]. split_and!; [|by rewrite decide_False by (by intros []) |done].
    by rewrite delete_id.
Qed.

End properties.

(** ** Witnesses *)

Definition linux_poll : PollFlags := {| POLLIN := 1; POLLOUT := 4; POLLERR := 8; POLLHUP := 16 |}.

#[local] Existing Instances lua_strict linux_errors linux_poll.

Definition sample_ops : list poll_op :=
  [Add 5 (Some true) None; Add 5 None None; Set_ 7 None None; Add (-1) None None; Del 5].

Lemma poll_refines_interest_witness :
  Forall (fun o => is_int (op_fd o)) sample_ops /\
  (let '(m, rs) := interest_run poll_policy ∅ sample_ops in
   exists st, method_run Lnew 1 sample_ops = Done (st, rs) /\ represents st m) /\
  (interest_run poll_policy ∅ sample_ops).2
  = [[VBool true]; sys_fail EEXIST; sys_fail ENOENT; sys_fail EBADF; [VBool true]].
Proof.
  assert (Forall (fun o => is_int (op_fd o)) sample_ops) as Hos by by_decision.
  split; [exact Hos|]. split; [exact (poll_refines_interest sample_ops 1 Hos)|]. vm_compute. reflexivity.
Defined.

(** One descriptor, watched for reading. *)
Definition one_fd : Lpoll_state :=
  {| processed := -1; count := 1;
     fds := {| fd := 5; events := mask true false; revents := 0 |}
            :: replicate (Z.to_nat 9999) {| fd := -1; events := 0; revents := 0 |} |}.

Lemma one_fd_represents : represents one_fd {[ 5 := (true, false) ]}.
Proof.
  exists [(5, (true, false))], [{| fd := 5; events := mask true false; revents := 0 |}],
    (replicate (Z.to_nat 9999) {| fd := -1; events := 0; revents := 0 |}).
  split; cbn [fds count processed one_fd]; try done.
  - apply NoDup_singleton.
  - by apply Forall_singleton.
  - by constructor; [|constructor].
  - by apply Forall_replicate.
  - intros i e Hi Hr. assert (i = 0%nat) as -> by lia. by injection Hi as <-.
Qed.

Definition sample_wait : list value := [VUserdata STATE_MT 1; VInt 1].

(** [poll] reports that descriptor 5 is readable: one call of [wait] returns it. *)
Lemma poll_delivers_once_witness :
  exists st', waits 1 (fun _ _ => (1, [1], 0)) one_fd sample_wait
    = Done (st', [[VInt 5; VBool true; VBool false]]) /\ pending st' = [].
Proof.
  assert (luaL_checknumber sample_wait 2 = Done (double_of_Z 1)) as Hd by (vm_compute; reflexivity).
  assert (timeout_ms (double_of_Z 1) = Done 1000) as Hms by (vm_compute; reflexivity).
  destruct (poll_delivers_once (fun _ _ => (1, [1], 0)) one_fd {[ 5 := (true, false) ]} sample_wait 1
    (double_of_Z 1) 1000 1 [1] 0 one_fd_represents eq_refl eq_refl Hd eq_refl eq_refl Hms eq_refl
    eq_refl eq_refl) as (st' & E & _ & Hp).
  exists st'. split; [exact E|exact Hp].
Defined.

Lemma poll_del_forgets_witness :
  is_int 5 /\ exists st' res, Ldel one_fd [VUserdata STATE_MT 1; VInt 5] = Done (st', res) /\
    represents st' (delete 5 {[ 5 := (true, false) ]}).
Proof.
  assert (is_int 5) as Hx by by_decision. split; [exact Hx|].
  destruct (poll_del_forgets one_fd _ 5 1 one_fd_represents Hx) as (st' & res & E & Hr & _ & _).
  by exists st', res.
Defined.
