(* ===== verification/Select.v ===== *)
(** * util-src/poll.c with USE_SELECT

    The state is six [fd_set]s: bit arrays of FD_SETSIZE bits, as sets whose accesses are
    checked.  The theorems: add, set and del implement the interest map for descriptors
    that fit; each ready descriptor is reported exactly once, in increasing order; the
    descriptor FD_SETSIZE passes the range test of add and is written outside the set;
    after a signal, [wait] reports descriptors that are not ready. *)

From stdpp Require Import base tactics numbers list strings gmap.
From Stdlib Require Import ZArith Lia SpecFloat.
From S2P Require Import Prelude LuaApi Ieee PollApi.

Local Open Scope Z_scope.

Definition STATE_MT : string := "util.poll<select>".

(** The constant of <sys/select.h>. *)
Class FdSetSize := { FD_SETSIZE : Z; FD_SETSIZE_range : 0 < FD_SETSIZE < int_max }.

Abbreviation fd_set := (gset Z).

Record Lpoll_state := {
  processed : Z;
  wantread : fd_set; wantwrite : fd_set;
  readable : fd_set; writable : fd_set;
  all : fd_set; err : fd_set;
}.

(** The system call, on copies of three sets: its result, the sets it leaves and the error
    number. *)
Abbreviation sys_select := (fd_set -> fd_set -> fd_set -> Z * Z -> Z * fd_set * fd_set * fd_set * Z).

Section handlers.
Context `{LuaAux, Posix, FdSetSize}.
Implicit Types (L : list value) (st : Lpoll_state) (s : fd_set).

Definition in_set (fd : Z) : bool := (0 <=? fd) && (fd <? FD_SETSIZE).

Definition FD_ISSET (fd : Z) s : outcome bool :=
  if in_set fd then Done (bool_decide (fd ∈ s)) else Undef OutOfBounds.
Definition FD_SET (fd : Z) s : outcome fd_set :=
  if in_set fd then Done ({[ fd ]} ∪ s) else Undef OutOfBounds.
Definition FD_CLR (fd : Z) s : outcome fd_set :=
  if in_set fd then Done (s ∖ {[ fd ]}) else Undef OutOfBounds.

Definition FD_PUT (b : bool) (fd : Z) s : outcome fd_set := if b then FD_SET fd s else FD_CLR fd s.

Definition Ladd st L : outcome (Lpoll_state * list value) :=
  _ ← luaL_checkudata L 1 STATE_MT;
  n ← luaL_checkinteger L 2;
  let fd := cint n in
  let r := lua_toboolean L 3 in
  let w := lua_toboolean L 4 in
  if fd <? 0 then Done (st, sys_fail EBADF)
  else if fd >? FD_SETSIZE then Done (st, sys_fail EBADF)
  else
    present ← FD_ISSET fd (all st);
    if present : bool then Done (st, sys_fail EEXIST)
    else
      readable' ← FD_CLR fd (readable st);
      writable' ← FD_CLR fd (writable st);
      err' ← FD_CLR fd (err st);
      all' ← FD_SET fd (all st);
      wantread' ← FD_PUT r fd (wantread st);
      wantwrite' ← FD_PUT w fd (wantwrite st);
      Done ({| processed := processed st; wantread := wantread'; wantwrite := wantwrite';
               readable := readable'; writable := writable'; all := all'; err := err' |}, [VBool true]).

Definition Lset st L : outcome (Lpoll_state * list value) :=
  _ ← luaL_checkudata L 1 STATE_MT;
  n ← luaL_checkinteger L 2;
  let fd := cint n in
  present ← FD_ISSET fd (all st);
  if negb present then Done (st, sys_fail ENOENT)
  else
    wantread' ← (if negb (lua_isnoneornil L 3) then FD_PUT (lua_toboolean L 3) fd (wantread st)
                 else Done (wantread st));
    wantwrite' ← (if negb (lua_isnoneornil L 4) then FD_PUT (lua_toboolean L 4) fd (wantwrite st)
                  else Done (wantwrite st));
    Done ({| processed := processed st; wantread := wantread'; wantwrite := wantwrite';
             readable := readable st; writable := writable st; all := all st; err := err st |}, [VBool true]).

Definition Ldel st L : outcome (Lpoll_state * list value) :=
  _ ← luaL_checkudata L 1 STATE_MT;
  n ← luaL_checkinteger L 2;
  let fd := cint n in
  present ← FD_ISSET fd (all st);
  if negb present then Done (st, sys_fail ENOENT)
  else
    wantread' ← FD_CLR fd (wantread st);
    wantwrite' ← FD_CLR fd (wantwrite st);
    readable' ← FD_CLR fd (readable st);
    writable' ← FD_CLR fd (writable st);
    all' ← FD_CLR fd (all st);
    err' ← FD_CLR fd (err st);
    Done ({| processed := processed st; wantread := wantread'; wantwrite := wantwrite';
             readable := readable'; writable := writable'; all := all'; err := err' |}, [VBool true]).

(** [for(fd = processed + 1; fd < FD_SETSIZE; fd++)] *)
Fixpoint push_loop (fuel : nat) (fd : Z) st : outcome (Lpoll_state * list value) :=
  if fd <? FD_SETSIZE then
    match fuel with
    | O => Undef NoTermination
    | S fuel =>
        r ← FD_ISSET fd (readable st);
        w ← FD_ISSET fd (writable st);
        e ← FD_ISSET fd (err st);
        if r || w || e then
          readable' ← FD_CLR fd (readable st);
          writable' ← FD_CLR fd (writable st);
          err' ← FD_CLR fd (err st);
          Done ({| processed := fd; wantread := wantread st; wantwrite := wantwrite st;
                   readable := readable'; writable := writable'; all := all st; err := err' |},
                [VInt fd; VBool (r || e); VBool w])
        else push_loop fuel (fd + 1) st
    end
  else Done (st, []).

Definition Lpushevent st : outcome (Lpoll_state * list value) :=
  push_loop (Z.to_nat (FD_SETSIZE - (processed st + 1))) (processed st + 1) st.

Definition timeval (timeout : double) : outcome (Z * Z) :=
  tv_sec ← long_of_double timeout;
  us ← long_of_double (SFmul 53 1024 timeout (double_of_Z 1000000));
  Done (tv_sec, Z.rem us 1000000).

Definition Lwait (select : sys_select) st L : outcome (Lpoll_state * list value) :=
  _ ← luaL_checkudata L 1 STATE_MT;
  '(st, ret) ← Lpushevent st;
  if negb (bool_decide (ret = [])) then Done (st, ret)
  else
    timeout ← luaL_checknumber L 2;
    _ ← luaL_argcheck (dbl_nonneg timeout) 1 "positive number expected";
    if dbl_zero timeout then Done (st, timeout_result)
    else
      tv ← timeval timeout;
      let '(ret, r, w, e, errno) := select (wantread st) (wantwrite st) (all st) tv in
      let after p := {| processed := p; wantread := wantread st; wantwrite := wantwrite st;
                        readable := r; writable := w; all := all st; err := e |} in
      match wait_failed ret errno with
      | Some res => Done (after (processed st), res)
      | None => Lpushevent (after (-1))
      end.

Definition Lnew : Lpoll_state :=
  {| processed := FD_SETSIZE; wantread := ∅; wantwrite := ∅; readable := ∅; writable := ∅;
     all := ∅; err := ∅ |}.

(** ** The interest map of a state *)

(** The sets are what the map says, within the bit arrays; events are only recorded for
    watched descriptors. *)
Record represents st (m : interest) : Prop := {
  rep_all : all st = dom m;
  rep_range fd : fd ∈ all st -> 0 <= fd < FD_SETSIZE;
  rep_read fd : fd ∈ wantread st <-> exists w, m !! fd = Some (true, w);
  rep_write fd : fd ∈ wantwrite st <-> exists r, m !! fd = Some (r, true);
  rep_events : readable st ∪ writable st ∪ err st ⊆ dom m;
  rep_processed : -1 <= processed st;
}.

Definition select_policy : policy := {|
  refused m x :=
    if x <? 0 then Some EBADF else if x >? FD_SETSIZE then Some EBADF
    else match m !! x with Some _ => Some EEXIST | None => None end;
  keeps := true;
|}.

(** Descriptors for which the accesses to the sets are inside them. *)
Definition in_bounds (o : poll_op) : Prop :=
  match o with
  | Add fd _ _ => fd <> FD_SETSIZE
  | Set_ fd _ _ | Del fd => 0 <= fd < FD_SETSIZE
  end.

Lemma in_set_true fd : 0 <= fd < FD_SETSIZE -> in_set fd = true.
Proof. intros. unfold in_set. by zcase. Qed.

Lemma FD_ISSET_done fd s : 0 <= fd < FD_SETSIZE -> FD_ISSET fd s = Done (bool_decide (fd ∈ s)).
Proof. intros. unfold FD_ISSET. by rewrite in_set_true. Qed.

Lemma FD_SET_done fd s : 0 <= fd < FD_SETSIZE -> FD_SET fd s = Done ({[ fd ]} ∪ s).
Proof. intros. unfold FD_SET. by rewrite in_set_true. Qed.

Lemma FD_CLR_done fd s : 0 <= fd < FD_SETSIZE -> FD_CLR fd s = Done (s ∖ {[ fd ]}).
Proof. intros. unfold FD_CLR. by rewrite in_set_true. Qed.

Definition put (b : bool) (fd : Z) s : fd_set := if b then {[ fd ]} ∪ s else s ∖ {[ fd ]}.

Lemma FD_PUT_done b fd s : 0 <= fd < FD_SETSIZE -> FD_PUT b fd s = Done (put b fd s).
Proof. intros. destruct b; [by apply FD_SET_done|by apply FD_CLR_done]. Qed.

Lemma elem_of_put b fd s x : x ∈ put b fd s <-> if decide (x = fd) then b = true else x ∈ s.
Proof.
  unfold put. destruct b; case_decide as Hx; rewrite ?elem_of_union, ?elem_of_difference, elem_of_singleton;
    split; intros; try tauto; try done.
Qed.

(** The flags of one descriptor. *)
Lemma some_read (a b : bool) : (exists w, Some (a, b) = Some (true, w)) <-> a = true.
Proof. split; [by intros (w & [= -> _])|intros ->; by exists b]. Qed.
Lemma some_write (a b : bool) : (exists r, Some (a, b) = Some (r, true)) <-> b = true.
Proof. split; [by intros (w & [= _ ->])|intros ->; by exists a]. Qed.
Lemma none_read : (exists w : bool, None = Some (true, w)) <-> False.
Proof. split; [by intros [? [=]]|done]. Qed.
Lemma none_write : (exists r : bool, None = Some (r, true)) <-> False.
Proof. split; [by intros [? [=]]|done]. Qed.

Lemma select_Lnew_represents : represents Lnew ∅.
Proof.
  pose proof FD_SETSIZE_range. split; cbn; try done; try lia.
  - intros fd. rewrite lookup_empty. split; [done|]. by intros [? [=]].
  - intros fd. rewrite lookup_empty. split; [done|]. by intros [? [=]].
Qed.

Lemma present_spec st m x :
  represents st m -> bool_decide (x ∈ all st) = match m !! x with Some _ => true | None => false end.
Proof.
  intros R. rewrite (rep_all _ _ R). destruct (m !! x) as [v|] eqn:Hm.
  - apply bool_decide_eq_true, elem_of_dom. by eexists.
  - by apply bool_decide_eq_false, not_elem_of_dom.
Qed.

Lemma select_Ladd_refines st m x r w p :
  represents st m -> x <> FD_SETSIZE -> is_int x ->
  let '(m', res) := interest_step select_policy m (Add x r w) in
  exists st', Ladd st (op_args (VUserdata STATE_MT p) (Add x r w)) = Done (st', res) /\ represents st' m'.
Proof.
  intros R Hne Hx. unfold Ladd, interest_step. cbn [refused select_policy op_args].
  rewrite (checkudata_self _ 1 STATE_MT p) by done. cbn [mbind outcome_bind].
  destruct (checkinteger_fd [VUserdata STATE_MT p; VInt x; flag_value r; flag_value w] 2 x eq_refl Hx) as [-> Ec].
  cbn [mbind outcome_bind]. cbv zeta. rewrite Ec.
  rewrite (toboolean_flag _ 3 r), (toboolean_flag _ 4 w) by done.
  destruct (Z.ltb_spec x 0); [by exists st|]. rewrite !Z.gtb_ltb.
  destruct (Z.ltb_spec FD_SETSIZE x); [by exists st|].
  rewrite FD_ISSET_done by lia. cbn [mbind outcome_bind]. rewrite (present_spec _ m) by done.
  destruct (m !! x) as [v|] eqn:Hm; [by exists st|].
  rewrite !FD_CLR_done by lia. cbn [mbind outcome_bind]. rewrite FD_SET_done by lia. cbn [mbind outcome_bind].
  rewrite !FD_PUT_done by lia. cbn [mbind outcome_bind]. eexists. split; [done|]. split; cbn.
  - by rewrite dom_insert_L, (rep_all _ _ R).
  - intros fd [->%elem_of_singleton|Hfd]%elem_of_union; [lia|]. by apply (rep_range _ _ R).
  - intros fd. rewrite elem_of_put. case_decide as Hfd; [subst|rewrite lookup_insert_ne by done; apply R].
    by rewrite lookup_insert_eq, some_read.
  - intros fd. rewrite elem_of_put. case_decide as Hfd; [subst|rewrite lookup_insert_ne by done; apply R].
    by rewrite lookup_insert_eq, some_write.
  - rewrite dom_insert_L. pose proof (rep_events _ _ R). set_solver.
  - apply R.
Qed.

Lemma select_Lset_refines st m x r w p :
  represents st m -> 0 <= x < FD_SETSIZE -> is_int x ->
  let '(m', res) := interest_step select_policy m (Set_ x r w) in
  exists st', Lset st (op_args (VUserdata STATE_MT p) (Set_ x r w)) = Done (st', res) /\ represents st' m'.
Proof.
  intros R Hr Hx. unfold Lset, interest_step. cbn [op_args].
  rewrite (checkudata_self _ 1 STATE_MT p) by done. cbn [mbind outcome_bind].
  destruct (checkinteger_fd [VUserdata STATE_MT p; VInt x; flag_value r; flag_value w] 2 x eq_refl Hx) as [-> Ec].
  cbn [mbind outcome_bind]. cbv zeta. rewrite Ec, FD_ISSET_done by done. cbn [mbind outcome_bind].
  rewrite (present_spec _ m) by done. destruct (m !! x) as [[r0 w0]|] eqn:Hm; [|by exists st]. cbn [negb].
  rewrite (isnoneornil_flag _ 3 r), (isnoneornil_flag _ 4 w), (toboolean_flag _ 3 r), (toboolean_flag _ 4 w) by done.
  assert (forall o s, (if negb (match o with Some _ => false | None => true end) then FD_PUT (flag o) x s else Done s)
    = Done (match o with Some b => put b x s | None => s end)) as E.
  { intros [b|] s; [|done]. by apply FD_PUT_done. }
  rewrite !E. cbn [mbind outcome_bind]. eexists. split; [done|].
  assert (dom (<[x := (updated select_policy r r0, updated select_policy w w0)]> m) = dom m) as Ed.
  { rewrite dom_insert_L. apply elem_of_dom_2 in Hm. set_solver. }
  split; cbn [all wantread wantwrite readable writable err processed].
  - by rewrite Ed, (rep_all _ _ R).
  - apply (rep_range _ _ R).
  - intros fd. pose proof (rep_read _ _ R fd) as Hread. destruct (decide (fd = x)) as [->|Hne].
    + rewrite lookup_insert_eq, some_read. destruct r as [b|]; [by rewrite elem_of_put, decide_True by done|].
      by rewrite Hread, Hm, some_read.
    + rewrite lookup_insert_ne by done. destruct r; [rewrite elem_of_put, decide_False by done|]; done.
  - intros fd. pose proof (rep_write _ _ R fd) as Hwrite. destruct (decide (fd = x)) as [->|Hne].
    + rewrite lookup_insert_eq, some_write. destruct w as [b|]; [by rewrite elem_of_put, decide_True by done|].
      by rewrite Hwrite, Hm, some_write.
    + rewrite lookup_insert_ne by done. destruct w; [rewrite elem_of_put, decide_False by done|]; done.
  - rewrite Ed. apply R.
  - apply R.
Qed.

Lemma select_Ldel_refines st m x p :
  represents st m -> 0 <= x < FD_SETSIZE -> is_int x ->
  let '(m', res) := interest_step select_policy m (Del x) in
  exists st', Ldel st (op_args (VUserdata STATE_MT p) (Del x)) = Done (st', res) /\ represents st' m'.
Proof.
  intros R Hr Hx. unfold Ldel, interest_step. cbn [op_args].
  rewrite (checkudata_self _ 1 STATE_MT p) by done. cbn [mbind outcome_bind].
  destruct (checkinteger_fd [VUserdata STATE_MT p; VInt x] 2 x eq_refl Hx) as [-> Ec].
  cbn [mbind outcome_bind]. cbv zeta. rewrite Ec, FD_ISSET_done by done. cbn [mbind outcome_bind].
  rewrite (present_spec _ m) by done. destruct (m !! x) as [v|] eqn:Hm; [|by exists st]. cbn [negb].
  rewrite !FD_CLR_done by done. cbn [mbind outcome_bind]. eexists. split; [done|].
  split; cbn [all wantread wantwrite readable writable err processed].
  - by rewrite dom_delete_L, (rep_all _ _ R).
  - intros fd Hfd. apply (rep_range _ _ R). set_solver.
  - intros fd. pose proof (rep_read _ _ R fd) as Hread.
    rewrite elem_of_difference, elem_of_singleton, Hread. destruct (decide (fd = x)) as [->|Hne].
    + rewrite lookup_delete_eq, none_read. tauto.
    + rewrite lookup_delete_ne by done. tauto.
  - intros fd. pose proof (rep_write _ _ R fd) as Hwrite.
    rewrite elem_of_difference, elem_of_singleton, Hwrite. destruct (decide (fd = x)) as [->|Hne].
    + rewrite lookup_delete_eq, none_write. tauto.
    + rewrite lookup_delete_ne by done. tauto.
  - rewrite dom_delete_L. pose proof (rep_events _ _ R). set_solver.
  - apply R.
Qed.

(** ** Events that are waiting to be reported *)

Definition has_event st (fd : Z) : Prop := fd ∈ readable st ∪ writable st ∪ err st.

#[export] Instance has_event_dec st fd : Decision (has_event st fd).
Proof. unfold has_event. apply _. Defined.

Definition report st (fd : Z) : list value :=
  [VInt fd; VBool (bool_decide (fd ∈ readable st) || bool_decide (fd ∈ err st)); VBool (bool_decide (fd ∈ writable st))].

(** The descriptors above [processed] with an event, in increasing order. *)
Definition waiting st : list Z :=
  filter (has_event st) (seqZ (processed st + 1) (FD_SETSIZE - (processed st + 1))).

Definition pending st : list (list value) := report st <$> waiting st.

(** The state after the event of [fd] was reported. *)
Definition reported st (fd : Z) : Lpoll_state :=
  {| processed := fd; wantread := wantread st; wantwrite := wantwrite st;
     readable := readable st ∖ {[ fd ]}; writable := writable st ∖ {[ fd ]};
     all := all st; err := err st ∖ {[ fd ]} |}.

Lemma has_event_test st fd :
  bool_decide (fd ∈ readable st) || bool_decide (fd ∈ writable st) || bool_decide (fd ∈ err st)
  = bool_decide (has_event st fd).
Proof.
  unfold has_event. apply Bool.eq_true_iff_eq.
  rewrite !orb_true_iff, !bool_decide_eq_true, !elem_of_union. done.
Qed.

Lemma select_push_loop_spec fuel fd st :
  0 <= fd -> FD_SETSIZE - fd <= Z.of_nat fuel ->
  match filter (has_event st) (seqZ fd (FD_SETSIZE - fd)) with
  | [] => push_loop fuel fd st = Done (st, [])
  | x :: xs => push_loop fuel fd st = Done (reported st x, report st x) /\ fd <= x < FD_SETSIZE
               /\ xs = filter (has_event st) (seqZ (x + 1) (FD_SETSIZE - (x + 1)))
  end.
Proof.
  revert fd. induction fuel as [|fuel IH]; intros fd Hfd Hf; cbn [push_loop].
  { rewrite seqZ_nil by lia. cbn. by destruct (Z.ltb_spec fd FD_SETSIZE); [lia|]. }
  destruct (Z.ltb_spec fd FD_SETSIZE) as [Hlt|Hge]; [|by rewrite seqZ_nil by lia].
  rewrite !FD_ISSET_done, !FD_CLR_done by lia. cbn [mbind outcome_bind].
  rewrite has_event_test, seqZ_cons, filter_cons by lia.
  replace (Z.succ fd) with (fd + 1) by lia. replace (Z.pred (FD_SETSIZE - fd)) with (FD_SETSIZE - (fd + 1)) by lia.
  destruct (decide (has_event st fd)) as [He|He].
  - by rewrite bool_decide_eq_true_2.
  - rewrite bool_decide_eq_false_2 by done. specialize (IH (fd + 1) ltac:(lia) ltac:(lia)).
    destruct (filter _ _) as [|x xs]; [done|]. destruct IH as (-> & ? & ->). split_and!; (done || lia).
Qed.

Lemma select_reported_represents st m fd : represents st m -> 0 <= fd -> represents (reported st fd) m.
Proof.
  intros R Hfd. split; cbn [reported all wantread wantwrite readable writable err processed]; try apply R; [|lia].
  pose proof (rep_events _ _ R) as He. etrans; [|exact He].
  repeat apply union_mono; apply subseteq_difference_l; done.
Qed.

(** Reporting one descriptor does not change what the higher ones report. *)
Lemma reported_pending st x :
  pending (reported st x) = report st <$> filter (has_event st) (seqZ (x + 1) (FD_SETSIZE - (x + 1))).
Proof.
  unfold pending, waiting. cbn [reported processed].
  assert (forall s : fd_set, forall y, x < y -> y ∈ s ∖ {[ x ]} <-> y ∈ s) as E.
  { intros s y Hy. rewrite elem_of_difference, elem_of_singleton. split; [by intros [? _]|intros; split; [done|lia]]. }
  assert (Forall (fun y => x < y) (seqZ (x + 1) (FD_SETSIZE - (x + 1)))) as Hall.
  { apply Forall_forall. intros y Hy%elem_of_seqZ. lia. }
  induction Hall as [|y ys Hy _ IH]; [done|]. rewrite !filter_cons.
  assert (has_event (reported st x) y <-> has_event st y) as He.
  { unfold has_event. cbn [reported readable writable err]. by rewrite !elem_of_union, !E. }
  destruct (decide (has_event (reported st x) y)), (decide (has_event st y)); try tauto.
  rewrite !fmap_cons, IH. f_equal. unfold report. cbn [reported readable writable err].
  by rewrite !(bool_decide_ext _ _ (E _ y Hy)).
Qed.

Lemma select_pushevent_spec st m :
  represents st m ->
  match pending st with
  | [] => Lpushevent st = Done (st, [])
  | r :: rs => exists st', Lpushevent st = Done (st', r) /\ represents st' m /\ pending st' = rs
  end.
Proof.
  intros R. pose proof (rep_processed _ _ R). unfold Lpushevent.
  pose proof (select_push_loop_spec (Z.to_nat (FD_SETSIZE - (processed st + 1))) (processed st + 1) st ltac:(lia) ltac:(lia)) as P.
  unfold pending, waiting. destruct (filter _ _) as [|x xs]; [done|]. cbn [fmap list_fmap].
  destruct P as (-> & Hx & ->). exists (reported st x). split; [done|].
  split; [apply select_reported_represents; [done|lia]|apply reported_pending].
Qed.

(** ** wait *)

Fixpoint waits (n : nat) (select : sys_select) st L : outcome (Lpoll_state * list (list value)) :=
  match n with
  | O => Done (st, [])
  | S n =>
      '(st, r) ← Lwait select st L;
      '(st, rs) ← waits n select st L;
      Done (st, r :: rs)
  end.

Lemma select_waits_pending select m L p rs : forall st,
  represents st m -> lua_arg L 1 = Some (VUserdata STATE_MT p) -> pending st = rs ->
  exists st', waits (length rs) select st L = Done (st', rs) /\ represents st' m /\ pending st' = [].
Proof.
  induction rs as [|r rs IH]; intros st R HL Hp; [by exists st|]. cbn [length waits]. unfold Lwait at 1.
  rewrite (checkudata_self _ _ _ _ HL). cbn [mbind outcome_bind].
  pose proof (select_pushevent_spec st m R) as P. rewrite Hp in P. destruct P as (st1 & -> & R1 & Hp1).
  cbn [mbind outcome_bind].
  assert (r <> []) as Hne by (unfold pending in Hp; destruct (waiting st); [done|]; by injection Hp as <- _).
  rewrite bool_decide_eq_false_2 by done. cbn [negb mbind outcome_bind].
  destruct (IH st1 R1 HL Hp1) as (st2 & E & R2 & Hp2). rewrite E. by exists st2.
Qed.

(** The state after the system call. *)
Definition selected st (p : Z) (r w e : fd_set) : Lpoll_state :=
  {| processed := p; wantread := wantread st; wantwrite := wantwrite st;
     readable := r; writable := w; all := all st; err := e |}.

(** The call leaves subsets of the sets it was given. *)
Lemma selected_represents st m p r w e :
  represents st m -> -1 <= p -> r ⊆ wantread st -> w ⊆ wantwrite st -> e ⊆ all st ->
  represents (selected st p r w e) m.
Proof.
  intros R Hp Hr Hw He. split; cbn [selected all wantread wantwrite readable writable err processed]; try apply R; [|done].
  intros x. rewrite !elem_of_union, <- (rep_all _ _ R). intros [[Hx|Hx]|Hx]; [| |by apply He].
  - apply Hr, (rep_read _ _ R) in Hx as [b Hb]. rewrite (rep_all _ _ R). apply elem_of_dom. by eexists.
  - apply Hw, (rep_write _ _ R) in Hx as [b Hb]. rewrite (rep_all _ _ R). apply elem_of_dom. by eexists.
Qed.

(** A call that has nothing to report asks the system. *)
Lemma wait_selects select st m L p d tv ret r w e errno :
  represents st m -> lua_arg L 1 = Some (VUserdata STATE_MT p) -> pending st = [] ->
  luaL_checknumber L 2 = Done d -> dbl_nonneg d = true -> dbl_zero d = false -> timeval d = Done tv ->
  select (wantread st) (wantwrite st) (all st) tv = (ret, r, w, e, errno) ->
  Lwait select st L = match wait_failed ret errno with
                      | Some res => Done (selected st (processed st) r w e, res)
                      | None => Lpushevent (selected st (-1) r w e)
                      end.
Proof.
  intros R HL Hp Hd Hnn Hz Htv Hsel. unfold Lwait. rewrite (checkudata_self _ _ _ _ HL). cbn [mbind outcome_bind].
  pose proof (select_pushevent_spec st m R) as P. rewrite Hp in P. rewrite P. cbn [mbind outcome_bind].
  rewrite bool_decide_eq_true_2 by done. cbn [negb]. rewrite Hd. cbn [mbind outcome_bind]. rewrite Hnn.
  cbn [luaL_argcheck mbind outcome_bind]. rewrite Hz, Htv. cbn [mbind outcome_bind]. by rewrite Hsel.
Qed.

Definition select_method (o : poll_op) : Lpoll_state -> list value -> outcome (Lpoll_state * list value) :=
  match o with Add _ _ _ => Ladd | Set_ _ _ _ => Lset | Del _ => Ldel end.

#[export, refine] Instance select_backend : PollBackend Lpoll_state := {|
  backend_policy := select_policy;
  backend_mt := STATE_MT;
  method := select_method;
  PollApi.represents := represents;
  call_ok := in_bounds;
  fault _ _ := None;
|}.
Proof.
  intros st m o p Hr Hok Hfd. cbn [answered]. destruct o as [x r w|x r w|x]; cbn [select_method].
  - by apply select_Ladd_refines.
  - by apply select_Lset_refines.
  - by apply select_Ldel_refines.
Defined.

End handlers.

(** ** Properties *)

Section properties.
Context `{LuaAux, Posix, FdSetSize}.

(** C16. On the select backend any sequence of add, set and del calls on a new object, with
    descriptors inside the sets, returns call by call what the interest map says (an absent
    flag of [set] keeps the previous one), and the sets end up as the map. *)
Theorem select_refines_interest os p :
  Forall (fun o => in_bounds o /\ is_int (op_fd o)) os ->
  let '(m, rs) := interest_run select_policy ∅ os in
  exists st, method_run Lnew p os = Done (st, rs) /\ represents st m.
Proof.
  intros Hos. exact (method_run_refines (H1 := select_backend) Lnew ∅ p os (fun _ _ => eq_refl) select_Lnew_represents Hos).
Qed.

(** When [select] reports events, that many successive calls of [wait] return each
    descriptor with an event exactly once, in increasing order, and only the first call
    asks the system. *)
Theorem select_delivers_once select st m L p d tv ret r w e errno :
  represents st m -> lua_arg L 1 = Some (VUserdata STATE_MT p) -> pending st = [] ->
  luaL_checknumber L 2 = Done d -> dbl_nonneg d = true -> dbl_zero d = false -> timeval d = Done tv ->
  select (wantread st) (wantwrite st) (all st) tv = (ret, r, w, e, errno) -> 0 < ret ->
  r ⊆ wantread st -> w ⊆ wantwrite st -> e ⊆ all st ->
  let ready := pending (selected st (-1) r w e) in
  exists st', waits (length ready) select st L = Done (st', ready) /\ represents st' m /\ pending st' = [].
Proof.
  intros R HL Hp Hd Hnn Hz Htv Hsel Hret Hr Hw He ready.
  pose proof (selected_represents st m (-1) r w e R ltac:(lia) Hr Hw He) as R1.
  destruct ready as [|x rest] eqn:E; [by exists st|]. cbn [length waits].
  rewrite (wait_selects select st m L p d tv ret r w e errno) by done.
  unfold wait_failed. destruct (Z.eqb_spec ret 0); [lia|]. destruct (Z.ltb_spec ret 0); [lia|]. cbn [andb].
  pose proof (select_pushevent_spec _ m R1) as P. subst ready. rewrite E in P. destruct P as (st1 & -> & R2 & Hp2).
  cbn [mbind outcome_bind]. destruct (select_waits_pending select m L p rest st1 R2 HL Hp2) as (st2 & -> & ? & ?).
  by exists st2.
Qed.

(** The range test of [add] lets the descriptor FD_SETSIZE through, which is outside the
    bit arrays. *)
Theorem select_add_out_of_bounds st p r w :
  Ladd st [VUserdata STATE_MT p; VInt FD_SETSIZE; r; w] = Undef OutOfBounds.
Proof.
  pose proof FD_SETSIZE_range. unfold Ladd. rewrite (checkudata_self _ 1 STATE_MT p) by done.
  cbn [mbind outcome_bind].
  destruct (checkinteger_fd [VUserdata STATE_MT p; VInt FD_SETSIZE; r; w] 2 FD_SETSIZE eq_refl) as [-> Ec]; [range|].
  cbn [mbind outcome_bind]. cbv zeta. rewrite Ec, Z.gtb_ltb, Z.ltb_irrefl.
  destruct (Z.ltb_spec FD_SETSIZE 0); [lia|]. unfold FD_ISSET, in_set. by rewrite Z.ltb_irrefl, andb_false_r.
Qed.

(** When [select] is interrupted by a signal it leaves the sets as they are, copies of
    the interest sets: the following calls of [wait] report every watched descriptor above
    the last one reported as readable, and as writable if that is wanted, although nothing
    is ready. *)
Theorem select_spurious_events select st m L p d tv :
  represents st m -> lua_arg L 1 = Some (VUserdata STATE_MT p) -> pending st = [] ->
  luaL_checknumber L 2 = Done d -> dbl_nonneg d = true -> dbl_zero d = false -> timeval d = Done tv ->
  select (wantread st) (wantwrite st) (all st) tv = (-1, wantread st, wantwrite st, all st, EINTR) ->
  exists st', Lwait select st L = Done (st', signal_result) /\
    pending st' = (fun fd => [VInt fd; VBool true; VBool (bool_decide (fd ∈ wantwrite st))])
                  <$> filter (fun fd => fd ∈ all st) (seqZ (processed st + 1) (FD_SETSIZE - (processed st + 1))).
Proof.
  intros R HL Hp Hd Hnn Hz Htv Hsel.
  rewrite (wait_selects select st m L p d tv _ _ _ _ _ R HL Hp Hd Hnn Hz Htv Hsel).
  unfold wait_failed. cbn [Z.eqb]. rewrite Z.eqb_refl. cbn [Z.ltb Z.compare andb]. eexists. split; [done|].
  unfold pending, waiting. cbn [selected processed].
  assert (forall x, has_event (selected st (processed st) (wantread st) (wantwrite st) (all st)) x <-> x ∈ all st) as He.
  { intros x. unfold has_event. cbn [selected readable writable err]. rewrite !elem_of_union.
    pose proof (rep_read _ _ R x) as H1'. pose proof (rep_write _ _ R x) as H2'. rewrite (rep_all _ _ R), elem_of_dom.
    rewrite H1', H2'. split; [|by right]. intros [[[b ->]|[b ->]]|?]; by eauto. }
  rewrite (list_filter_iff _ (fun fd => fd ∈ all st)) by exact He.
  apply list_fmap_ext. intros i x Hi. unfold report. cbn [selected readable writable err].
  assert (x ∈ all st) as Hx.
  { apply list_elem_of_lookup_2 in Hi. by apply list_elem_of_filter in Hi as [? _]. }
  by rewrite (bool_decide_eq_true_2 (x ∈ all st)), orb_true_r by done.
Qed.

End properties.

(** ** Witnesses *)

Lemma linux_fd_setsize : 0 < 1024 < int_max.
Proof. range. Qed.
Definition linux_select : FdSetSize := {| FD_SETSIZE := 1024; FD_SETSIZE_range := linux_fd_setsize |}.

#[local] Existing Instances lua_strict linux_errors linux_select.

Definition sample_ops : list poll_op :=
  [Add 5 (Some true) None; Add 5 None None; Set_ 5 None (Some true); Set_ 7 None None; Add 2000 None None].

#[export] Instance in_bounds_dec o : Decision (in_bounds o).
Proof. destruct o; unfold in_bounds; apply _. Defined.

Lemma select_refines_interest_witness :
  Forall (fun o => in_bounds o /\ is_int (op_fd o)) sample_ops /\
  (let '(m, rs) := interest_run select_policy ∅ sample_ops in
   exists st, method_run Lnew 1 sample_ops = Done (st, rs) /\ represents st m) /\
  interest_run select_policy ∅ sample_ops
  = ({[ 5 := (true, true) ]}, [[VBool true]; sys_fail EEXIST; [VBool true]; sys_fail ENOENT; sys_fail EBADF]).
Proof.
  assert (Forall (fun o => in_bounds o /\ is_int (op_fd o)) sample_ops) as Hos by by_decision.
  split; [exact Hos|]. split; [exact (select_refines_interest sample_ops 1 Hos)|]. vm_compute. reflexivity.
Defined.

(** Descriptors 5 and 7, watched for reading and for writing. *)
Definition two_fds : Lpoll_state :=
  {| processed := 1024; wantread := {[ 5 ]}; wantwrite := {[ 7 ]}; readable := ∅; writable := ∅;
     all := {[ 5; 7 ]}; err := ∅ |}.

Definition two_map : interest := {[ 5 := (true, false); 7 := (false, true) ]}.

Lemma two_fds_represents : represents two_fds two_map.
Proof.
  split; cbn [two_fds all wantread wantwrite readable writable err processed].
  - by vm_compute.
  - intros fd. rewrite elem_of_union, !elem_of_singleton. cbn. lia.
  - intros fd. rewrite elem_of_singleton. unfold two_map. split.
    + intros ->. by exists false.
    + intros [w Hw]. apply lookup_insert_Some in Hw as [[? _]|[_ Hw]]; [done|].
      by apply lookup_singleton_Some in Hw as [_ [=]].
  - intros fd. rewrite elem_of_singleton. unfold two_map. split.
    + intros ->. by exists false.
    + intros [w Hw]. apply lookup_insert_Some in Hw as [[_ [=]]|[_ Hw]].
      by apply lookup_singleton_Some in Hw as [? _].
  - set_solver.
  - lia.
Qed.

Definition fd5 : fd_set := {[ 5 ]}.
Definition fd7 : fd_set := {[ 7 ]}.

Definition sample_wait : list value := [VUserdata STATE_MT 1; VInt 1].

Lemma select_sample_timeout : luaL_checknumber sample_wait 2 = Done (double_of_Z 1).
Proof. by vm_compute. Qed.

Lemma sample_timeval : timeval (double_of_Z 1) = Done (1, 0).
Proof. by vm_compute. Qed.

Lemma select_delivers_once_witness :
  exists st', waits 2 (fun r w _ _ => (2, r, w, ∅, 0)) two_fds sample_wait
    = Done (st', [[VInt 5; VBool true; VBool false]; [VInt 7; VBool false; VBool true]]) /\ pending st' = [].
Proof.
  assert (pending two_fds = []) as Hp by (vm_compute; reflexivity).
  destruct (select_delivers_once (fun r w _ _ => (2, r, w, ∅, 0)) two_fds two_map sample_wait 1 (double_of_Z 1) (1, 0)
    2 fd5 fd7 ∅ 0 two_fds_represents eq_refl Hp select_sample_timeout eq_refl eq_refl sample_timeval eq_refl
    eq_refl (reflexivity _) (reflexivity _) (empty_subseteq _)) as (st' & E & _ & Hp').
  exists st'. split; [|exact Hp'].
  assert (pending (selected two_fds (-1) fd5 fd7 ∅)
    = [[VInt 5; VBool true; VBool false]; [VInt 7; VBool false; VBool true]]) as Er by (vm_compute; reflexivity).
  cbv zeta in E. rewrite Er in E. exact E.
Defined.

Lemma select_spurious_events_witness :
  exists st', Lwait (fun r w e _ => (-1, r, w, e, EINTR))
    {| processed := 5; wantread := {[ 5 ]}; wantwrite := {[ 7 ]}; readable := ∅; writable := ∅;
       all := {[ 5; 7 ]}; err := ∅ |} sample_wait = Done (st', signal_result) /\
    pending st' = [[VInt 7; VBool true; VBool true]].
Proof.
  set (st := {| processed := 5; wantread := {[ 5 ]}; wantwrite := {[ 7 ]}; readable := ∅; writable := ∅;
    all := {[ 5; 7 ]}; err := ∅ |} : Lpoll_state).
  assert (represents st two_map) as R by (destruct two_fds_represents; by split).
  assert (pending st = []) as Hp by (vm_compute; reflexivity).
  destruct (select_spurious_events (fun r w e _ => (-1, r, w, e, EINTR)) st two_map sample_wait 1 (double_of_Z 1) (1, 0)
    R eq_refl Hp select_sample_timeout eq_refl eq_refl sample_timeval eq_refl) as (st' & E & Hp').
  exists st'. split; [exact E|]. rewrite Hp'. vm_compute. reflexivity.
Defined.
