(* ===== verification/Epoll.v ===== *)
(** * util-src/poll.c with USE_EPOLL

    The interest map is kept by the kernel; the C structure has the descriptor of the
    epoll instance and the events of the last [epoll_wait], which [wait] reports from the
    last to the first.  The kernel is a parameter: a state, [epoll_ctl] and its documented
    behaviour on the interest list, failures of its own included.  The theorems: add, set
    and del implement the interest map, or report the error of the kernel; every event is reported exactly once, by one system call; a descriptor deleted
    after that call is still reported; the instance is closed once. *)

From stdpp Require Import base tactics numbers list strings gmap.
From Stdlib Require Import ZArith Lia SpecFloat.
From S2P Require Import Prelude LuaApi Ieee PollApi.

Local Open Scope Z_scope.

Definition MAX_EVENTS : Z := 256.
Definition STATE_MT : string := "util.poll<epoll>".

(** [struct epoll_event], of whose [data] the program uses [fd]. *)
Record epoll_event := { data_fd : Z; events : Z }.

Record Lpoll_state := { processed : Z; epoll_fd : Z; evs : list epoll_event }.

(** The flags of <sys/epoll.h>. *)
Class EpollFlags := { EPOLLIN : Z; EPOLLOUT : Z; EPOLLERR : Z; EPOLLHUP : Z; EPOLLRDHUP : Z }.

Inductive ctl := EPOLL_CTL_ADD | EPOLL_CTL_MOD | EPOLL_CTL_DEL.

(** The interest list after an operation, or the error number that epoll_ctl(2) documents for
    it when the descriptor is on the list, or is not. *)
Definition ctl_result `{Posix} (o : ctl) (x : Z) (ev : epoll_event) (l : gmap Z epoll_event) : Z + gmap Z epoll_event :=
  match o, l !! x with
  | EPOLL_CTL_ADD, Some _ => inl EEXIST
  | EPOLL_CTL_ADD, None | EPOLL_CTL_MOD, Some _ => inr (<[x := ev]> l)
  | EPOLL_CTL_DEL, Some _ => inr (delete x l)
  | EPOLL_CTL_MOD, None | EPOLL_CTL_DEL, None => inl ENOENT
  end.

(** The kernel: its state, [epoll_ctl] (result, error number, new state), the interest list
    of an instance, and the error with which a call fails for another reason, if it does:
    the descriptor is not open or cannot be polled (EBADF, EPERM), memory or the limit of
    watches is exhausted (ENOMEM, ENOSPC), and whatever else the system has.  A call that
    fails leaves the interest list as it was. *)
Class Epoll `{Posix} (K : Type) := {
  epoll_ctl : K -> Z -> ctl -> Z -> epoll_event -> Z * Z * K;
  interest_list : K -> Z -> option (gmap Z epoll_event);
  ctl_failure : K -> Z -> ctl -> Z -> option Z;
  epoll_ctl_law k ep o l x ev : interest_list k ep = Some l ->
    match ctl_failure k ep o x with
    | Some e => exists k', epoll_ctl k ep o x ev = (-1, e, k') /\ interest_list k' ep = Some l
    | None =>
        match ctl_result o x ev l with
        | inl e => exists k', epoll_ctl k ep o x ev = (-1, e, k') /\ interest_list k' ep = Some l
        | inr l' => exists e k', epoll_ctl k ep o x ev = (0, e, k') /\ interest_list k' ep = Some l'
        end
    end;
}.

Section handlers.
Context `{LuaAux, Posix, EpollFlags, !Epoll K}.
Implicit Types (L : list value) (st : Lpoll_state) (k : K).

(** [epoll_wait] on a descriptor, a limit and a timeout: its result, the events it writes
    at the start of the array, the error number and the new state of the kernel. *)
Abbreviation sys_epoll_wait := (K -> Z -> Z -> Z -> Z * list epoll_event * Z * K).

Definition mask (r w : bool) : Z :=
  Z.lor (Z.lor (if r then EPOLLIN else 0) (if w then EPOLLOUT else 0)) (Z.lor (Z.lor EPOLLERR EPOLLHUP) EPOLLRDHUP).

Definition Ladd k st L : outcome (K * Lpoll_state * list value) :=
  _ ← luaL_checkudata L 1 STATE_MT;
  n ← luaL_checkinteger L 2;
  let fd := cint n in
  let wantread := lua_toboolean L 3 in
  let wantwrite := lua_toboolean L 4 in
  if fd <? 0 then Done (k, st, sys_fail EBADF)
  else
    let event := {| data_fd := fd; events := mask wantread wantwrite |} in
    let '(ret, errno, k) := epoll_ctl k (epoll_fd st) EPOLL_CTL_ADD fd event in
    if ret <? 0 then Done (k, st, sys_fail errno)
    else Done (k, st, [VBool true]).

Definition Lset k st L : outcome (K * Lpoll_state * list value) :=
  _ ← luaL_checkudata L 1 STATE_MT;
  n ← luaL_checkinteger L 2;
  let fd := cint n in
  let wantread := lua_toboolean L 3 in
  let wantwrite := lua_toboolean L 4 in
  let event := {| data_fd := fd; events := mask wantread wantwrite |} in
  let '(ret, errno, k) := epoll_ctl k (epoll_fd st) EPOLL_CTL_MOD fd event in
  if ret =? 0 then Done (k, st, [VBool true])
  else Done (k, st, sys_fail errno).

(** [event.events] is not initialised before EPOLL_CTL_DEL, which ignores the event:
    [uninit] stands for its value. *)
Definition Ldel (uninit : Z) k st L : outcome (K * Lpoll_state * list value) :=
  _ ← luaL_checkudata L 1 STATE_MT;
  n ← luaL_checkinteger L 2;
  let fd := cint n in
  let event := {| data_fd := fd; events := uninit |} in
  let '(ret, errno, k) := epoll_ctl k (epoll_fd st) EPOLL_CTL_DEL fd event in
  if ret =? 0 then Done (k, st, [VBool true])
  else Done (k, st, sys_fail errno).

Definition readable (e : epoll_event) : bool :=
  negb (Z.land (events e) (Z.lor (Z.lor (Z.lor EPOLLIN EPOLLHUP) EPOLLRDHUP) EPOLLERR) =? 0).
Definition writable (e : epoll_event) : bool := negb (Z.land (events e) EPOLLOUT =? 0).

Definition Lpushevent st : outcome (Lpoll_state * list value) :=
  if processed st >? 0 then
    let i := processed st - 1 in
    event ← mem_get (evs st) i;
    Done ({| processed := i; epoll_fd := epoll_fd st; evs := evs st |},
          [VInt (data_fd event); VBool (readable event); VBool (writable event)])
  else Done (st, []).

(** The array after the kernel wrote [es] at its start; it writes at most as many events as
    it is asked for, which is the length of the array. *)
Definition fill_events (es : list epoll_event) st : list epoll_event := es ++ drop (length es) (evs st).

Definition Lwait (epoll_wait : sys_epoll_wait) k st L : outcome (K * Lpoll_state * list value) :=
  _ ← luaL_checkudata L 1 STATE_MT;
  '(st, ret) ← Lpushevent st;
  if negb (bool_decide (ret = [])) then Done (k, st, ret)
  else
    timeout ← luaL_checknumber L 2;
    _ ← luaL_argcheck (dbl_nonneg timeout) 1 "positive number expected";
    if dbl_zero timeout then Done (k, st, timeout_result)
    else
      ms ← timeout_ms timeout;
      let '(ret, es, errno, k) := epoll_wait k (epoll_fd st) MAX_EVENTS ms in
      let st := {| processed := processed st; epoll_fd := epoll_fd st; evs := fill_events es st |} in
      match wait_failed ret errno with
      | Some r => Done (k, st, r)
      | None =>
          '(st, r) ← Lpushevent {| processed := ret; epoll_fd := epoll_fd st; evs := evs st |};
          Done (k, st, r)
      end.

Definition Lgetfd st L : outcome (list value) :=
  _ ← luaL_checkudata L 1 STATE_MT;
  Done [VInt (epoll_fd st)].

(** [close] returns a result, an error number and the new state. *)
Definition Lgc (close : K -> Z -> Z * Z * K) k st L : K * Lpoll_state * outcome (list value) :=
  match luaL_checkudata L 1 STATE_MT with
  | Done _ =>
      if epoll_fd st =? -1 then (k, st, Done [])
      else
        let '(ret, errno, k) := close k (epoll_fd st) in
        if ret =? 0 then (k, {| processed := processed st; epoll_fd := -1; evs := evs st |}, Done [])
        else (k, st, Raise (ErrorObject (strerror errno)))
  | Raise e => (k, st, Raise e)
  | Undef u => (k, st, Undef u)
  end.

(** [events] holds what was in the allocated block; [create] is the result of
    [epoll_create1] and the error number after it, [p] the address of the object. *)
Definition Lnew (block : list epoll_event) (create : Z * Z) (p : Z) : Lpoll_state * list value :=
  let st := {| processed := 0; epoll_fd := -1; evs := block |} in
  let '(epoll_fd', errno) := create in
  if epoll_fd' <=? 0 then (st, sys_fail errno)
  else ({| processed := 0; epoll_fd := epoll_fd'; evs := block |}, [VUserdata STATE_MT p]).

End handlers.

(** ** The interest list of the kernel *)

Section refinement.
Context `{LuaAux, Posix, EpollFlags, !Epoll K}.
Implicit Types (st : Lpoll_state) (k : K) (m : interest).

Definition entry (x : Z) (rw : bool * bool) : epoll_event := {| data_fd := x; events := mask rw.1 rw.2 |}.

(** The instance is open and its interest list is the map. *)
Definition represents (s : K * Lpoll_state) m : Prop :=
  exists l, interest_list s.1 (epoll_fd s.2) = Some l /\ forall x, l !! x = entry x <$> m !! x.

Definition epoll_policy : policy := {|
  refused m x := if x <? 0 then Some EBADF else match m !! x with Some _ => Some EEXIST | None => None end;
  keeps := false;
|}.

(** The call of the kernel that a method makes, and the error of its own that the kernel has
    for it; [add] does not get to the kernel with a negative descriptor. *)
Definition op_ctl (o : poll_op) : ctl :=
  match o with Add _ _ _ => EPOLL_CTL_ADD | Set_ _ _ _ => EPOLL_CTL_MOD | Del _ => EPOLL_CTL_DEL end.

Definition epoll_fault (s : K * Lpoll_state) (o : poll_op) : option Z :=
  match o with
  | Add x _ _ => if x <? 0 then None else ctl_failure s.1 (epoll_fd s.2) EPOLL_CTL_ADD x
  | _ => ctl_failure s.1 (epoll_fd s.2) (op_ctl o) (op_fd o)
  end.

Lemma represents_insert k st m l x rw :
  interest_list k (epoll_fd st) = Some (<[x := entry x rw]> l) -> (forall y, l !! y = entry y <$> m !! y) ->
  represents (k, st) (<[x := rw]> m).
Proof.
  intros Hl Hm. exists (<[x := entry x rw]> l). split; [done|]. intros y.
  destruct (decide (y = x)) as [->|]; by simplify_map_eq.
Qed.

Lemma represents_delete k st m l x :
  interest_list k (epoll_fd st) = Some (delete x l) -> (forall y, l !! y = entry y <$> m !! y) ->
  represents (k, st) (delete x m).
Proof.
  intros Hl Hm. exists (delete x l). split; [done|]. intros y.
  destruct (decide (y = x)) as [->|]; by simplify_map_eq.
Qed.

(** The common start of the three methods. *)
Ltac enter Hx :=
  rewrite (checkudata_self _ 1 STATE_MT _) by reflexivity; cbn [mbind outcome_bind];
  match goal with
  | |- context [luaL_checkinteger ?L 2] =>
      let Ec := fresh "Ec" in destruct (checkinteger_fd L 2 _ eq_refl Hx) as [-> Ec];
      cbn [mbind outcome_bind]; cbv zeta; rewrite Ec
  end.

Lemma represents_same k k' st m l :
  interest_list k' (epoll_fd st) = Some l -> (forall y, l !! y = entry y <$> m !! y) -> represents (k', st) m.
Proof. intros Hl Hm. by exists l. Qed.

Lemma epoll_Ladd_refines k st m x r w p :
  represents (k, st) m -> is_int x ->
  let '(m', res) := answered epoll_policy (epoll_fault (k, st) (Add x r w)) m (Add x r w) in
  exists s, Ladd k st (op_args (VUserdata STATE_MT p) (Add x r w)) = Done (s, res) /\ represents s m'.
Proof.
  intros (l & Hl & Hm) Hx. unfold Ladd, answered, interest_step. cbn [op_args]. enter Hx. cbn [refused epoll_policy epoll_fault fst snd].
  destruct (Z.ltb_spec x 0) as [Hneg|Hpos]; [exists (k, st); split; [done|by exists l]|].
  rewrite (toboolean_flag _ 3 r), (toboolean_flag _ 4 w) by done.
  pose proof (epoll_ctl_law k (epoll_fd st) EPOLL_CTL_ADD l x (entry x (flag r, flag w)) Hl) as A.
  unfold ctl_result in A. rewrite Hm in A. unfold entry in A. cbn [fst snd] in A.
  destruct (ctl_failure _ _ _ _) as [e|]; [|destruct (m !! x) as [v|] eqn:E; cbn [fmap option_fmap option_map] in A].
  - destruct A as (k' & -> & Hl'). exists (k', st). split; [done|by eapply represents_same].
  - destruct A as (k' & -> & Hl'). exists (k', st). split; [done|by eapply represents_same].
  - destruct A as (e & k' & -> & Hl'). exists (k', st). split; [done|by apply (represents_insert k' st m l)].
Qed.

Lemma epoll_Lset_refines k st m x r w p :
  represents (k, st) m -> is_int x ->
  let '(m', res) := answered epoll_policy (epoll_fault (k, st) (Set_ x r w)) m (Set_ x r w) in
  exists s, Lset k st (op_args (VUserdata STATE_MT p) (Set_ x r w)) = Done (s, res) /\ represents s m'.
Proof.
  intros (l & Hl & Hm) Hx. unfold Lset, answered, interest_step. cbn [op_args epoll_fault op_ctl op_fd fst snd]. enter Hx.
  rewrite (toboolean_flag _ 3 r), (toboolean_flag _ 4 w) by done.
  pose proof (epoll_ctl_law k (epoll_fd st) EPOLL_CTL_MOD l x (entry x (flag r, flag w)) Hl) as A.
  unfold ctl_result in A. rewrite Hm in A. unfold entry in A. cbn [fst snd] in A.
  destruct (ctl_failure _ _ _ _) as [e|]; [|destruct (m !! x) as [[r0 w0]|] eqn:E; cbn [fmap option_fmap option_map] in A].
  - destruct A as (k' & -> & Hl'). exists (k', st). split; [done|by eapply represents_same].
  - destruct A as (e & k' & -> & Hl'). exists (k', st). split; [done|by apply (represents_insert k' st m l)].
  - destruct A as (k' & -> & Hl'). exists (k', st). split; [done|by eapply represents_same].
Qed.

Lemma epoll_Ldel_refines u k st m x p :
  represents (k, st) m -> is_int x ->
  let '(m', res) := answered epoll_policy (epoll_fault (k, st) (Del x)) m (Del x) in
  exists s, Ldel u k st (op_args (VUserdata STATE_MT p) (Del x)) = Done (s, res) /\ represents s m'
            /\ processed s.2 = processed st /\ evs s.2 = evs st.
Proof.
  intros (l & Hl & Hm) Hx. unfold Ldel, answered, interest_step. cbn [op_args epoll_fault op_ctl op_fd fst snd]. enter Hx.
  pose proof (epoll_ctl_law k (epoll_fd st) EPOLL_CTL_DEL l x {| data_fd := x; events := u |} Hl) as A.
  unfold ctl_result in A. rewrite Hm in A.
  destruct (ctl_failure _ _ _ _) as [e|]; [|destruct (m !! x) as [v|] eqn:E; cbn [fmap option_fmap option_map] in A].
  - destruct A as (k' & -> & Hl'). exists (k', st). split; [done|]. split; [by eapply represents_same|done].
  - destruct A as (e & k' & -> & Hl'). exists (k', st). split; [done|]. split; [|done].
    by apply (represents_delete k' st m l).
  - destruct A as (k' & -> & Hl'). exists (k', st). split; [done|]. split; [by eapply represents_same|done].
Qed.

Definition epoll_method (u : Z) (o : poll_op) (s : K * Lpoll_state) : list value -> outcome (K * Lpoll_state * list value) :=
  match o with
  | Add _ _ _ => Ladd s.1 s.2
  | Set_ _ _ _ => Lset s.1 s.2
  | Del _ => Ldel u s.1 s.2
  end.

#[export, refine] Instance epoll_backend (u : Z) : PollBackend (K * Lpoll_state) := {|
  backend_policy := epoll_policy;
  backend_mt := STATE_MT;
  method := epoll_method u;
  PollApi.represents := represents;
  call_ok _ := True;
  fault := epoll_fault;
|}.
Proof.
  intros [k st] m o p Hr _ Hfd. destruct o as [x r w|x r w|x]; cbn [epoll_method fst snd].
  - by apply epoll_Ladd_refines.
  - by apply epoll_Lset_refines.
  - pose proof (epoll_Ldel_refines u k st m x p Hr Hfd) as D. destruct (answered epoll_policy _ m (Del x)).
    destruct D as (s & ? & ? & _). by exists s.
Defined.

(** A new instance has an empty interest list. *)
Lemma epoll_Lnew_represents block ep errno p k st r :
  0 < ep -> interest_list k ep = Some ∅ -> Lnew block (ep, errno) p = (st, r) -> represents (k, st) ∅.
Proof.
  intros Hep Hl. unfold Lnew. destruct (Z.leb_spec ep 0); [lia|]. intros [= <- _]. exists ∅. split; [done|].
  intros x. by rewrite !lookup_empty.
Qed.

(** ** Events that are waiting to be reported *)

Definition report (e : epoll_event) : list value := [VInt (data_fd e); VBool (readable e); VBool (writable e)].

Definition pending st : list (list value) := report <$> reverse (take (Z.to_nat (processed st)) (evs st)).

Lemma epoll_pushevent_spec st :
  processed st <= zlen (evs st) ->
  match pending st with
  | [] => Lpushevent st = Done (st, [])
  | r :: rs => exists st', Lpushevent st = Done (st', r) /\ pending st' = rs /\ r <> []
                           /\ processed st' <= zlen (evs st')
  end.
Proof.
  intros Hlen. unfold Lpushevent, pending. rewrite Z.gtb_ltb. destruct (Z.ltb_spec 0 (processed st)) as [Hp|Hp].
  - replace (Z.to_nat (processed st)) with (S (Z.to_nat (processed st - 1))) by lia.
    destruct (lookup_lt_is_Some_2 (evs st) (Z.to_nat (processed st - 1))) as [e He]; [unfold zlen in Hlen; lia|].
    rewrite (take_S_r _ _ _ He), reverse_snoc. cbn [fmap list_fmap].
    rewrite (mem_get_done _ _ e) by (done || lia). cbn [mbind outcome_bind].
    eexists. split; [done|]. cbn [processed evs]. split_and!; [done|done|lia].
  - by replace (Z.to_nat (processed st)) with O by lia.
Qed.

Fixpoint waits (n : nat) epoll_wait k st L : outcome (K * Lpoll_state * list (list value)) :=
  match n with
  | O => Done (k, st, [])
  | S n =>
      '(k, st, r) ← Lwait epoll_wait k st L;
      '(k, st, rs) ← waits n epoll_wait k st L;
      Done (k, st, r :: rs)
  end.

(** Calls that report waiting events do not reach the kernel. *)
Lemma epoll_waits_pending epoll_wait k L p rs : forall st,
  lua_arg L 1 = Some (VUserdata STATE_MT p) -> processed st <= zlen (evs st) -> pending st = rs ->
  exists st', waits (length rs) epoll_wait k st L = Done (k, st', rs) /\ pending st' = [].
Proof.
  induction rs as [|r rs IH]; intros st HL Hlen Hp; [by exists st|]. cbn [length waits]. unfold Lwait at 1.
  rewrite (checkudata_self _ _ _ _ HL). cbn [mbind outcome_bind].
  pose proof (epoll_pushevent_spec st Hlen) as P. rewrite Hp in P. destruct P as (st1 & -> & Hp1 & Hne & Hlen1).
  cbn [mbind outcome_bind]. rewrite bool_decide_eq_false_2 by done. cbn [negb mbind outcome_bind].
  destruct (IH st1 HL Hlen1 Hp1) as (st2 & E & Hp2). rewrite E. by exists st2.
Qed.

(** The first call of [wait] when nothing is waiting. *)
Lemma wait_asks epoll_wait k st L p d ms ret es errno k' :
  lua_arg L 1 = Some (VUserdata STATE_MT p) -> processed st <= zlen (evs st) -> pending st = [] ->
  luaL_checknumber L 2 = Done d -> dbl_nonneg d = true -> dbl_zero d = false -> timeout_ms d = Done ms ->
  epoll_wait k (epoll_fd st) MAX_EVENTS ms = (ret, es, errno, k') -> 0 < ret ->
  Lwait epoll_wait k st L =
    ('(st, r) ← Lpushevent {| processed := ret; epoll_fd := epoll_fd st; evs := fill_events es st |};
     Done (k', st, r)).
Proof.
  intros HL Hlen Hp Hd Hnn Hz Hms Hw Hret. unfold Lwait. rewrite (checkudata_self _ _ _ _ HL). cbn [mbind outcome_bind].
  pose proof (epoll_pushevent_spec st Hlen) as P. rewrite Hp in P. rewrite P. cbn [mbind outcome_bind].
  rewrite bool_decide_eq_true_2 by done. cbn [negb]. rewrite Hd. cbn [mbind outcome_bind]. rewrite Hnn. cbn [luaL_argcheck mbind outcome_bind].
  rewrite Hz, Hms. cbn [mbind outcome_bind]. rewrite Hw. cbv zeta. unfold wait_failed.
  destruct (Z.eqb_spec ret 0); [lia|]. destruct (Z.ltb_spec ret 0); [lia|]. done.
Qed.

(** What is waiting after the system call. *)
Lemma filled_pending st ret es :
  zlen es = ret ->
  pending {| processed := ret; epoll_fd := epoll_fd st; evs := fill_events es st |} = report <$> reverse es.
Proof.
  intros <-. unfold pending, fill_events. cbn [processed evs]. unfold zlen. by rewrite Nat2Z.id, take_app_length.
Qed.

End refinement.

(** ** Properties *)

Section properties.
Context `{LuaAux, Posix, EpollFlags, !Epoll K}.
Implicit Types (st : Lpoll_state) (k : K) (m : interest).

(** C12. On the epoll backend, any sequence of add, set and del calls on any descriptors
    returns call by call what the interest map says (EBADF for adding a negative
    descriptor, EEXIST for one already watched, ENOENT for one not watched), except that a
    call which the kernel refuses with an error of its own ([ctl_failure]: the descriptor is
    not open or cannot be polled, no memory, too many watches) returns nil and that error
    and changes nothing.  The kernel's interest list ends up with exactly the descriptors of
    the map, each with itself as data and with the mask of its flags.  When the kernel
    refuses no call, the results are those of the map alone. *)
Theorem epoll_refines_interest u k st m os p :
  represents (k, st) m -> Forall (fun o => is_int (op_fd o)) os ->
  let fs := faults (H1 := epoll_backend u) (k, st) p os in
  let '(m', rs) := answered_run epoll_policy m os fs in
  (exists s, method_run (H1 := epoll_backend u) (k, st) p os = Done (s, rs) /\ represents s m') /\
  (Forall (fun f => f = None) fs -> interest_run epoll_policy m os = (m', rs)).
Proof.
  intros Hr Hos. pose proof (method_run_answers (H1 := epoll_backend u) (k, st) m p os Hr) as R.
  pose proof (answered_run_none epoll_policy m os (faults (H1 := epoll_backend u) (k, st) p os)) as N. cbv zeta.
  cbn [backend_policy epoll_backend] in R.
  destruct (answered_run epoll_policy m os _) as [m' rs]. split; [|intros Hf; by rewrite N].
  apply R. eapply Forall_impl; [exact Hos|]. by intros o Ho.
Qed.

(** C30. When [epoll_wait] returns [ret > 0] events, that many successive calls of [wait]
    return each of them exactly once, from the last to the first, with the descriptor that
    add or set stored; only the first call asks the kernel. *)
Theorem epoll_delivers_once epoll_wait k st L p d ms ret es errno k' :
  lua_arg L 1 = Some (VUserdata STATE_MT p) -> processed st <= zlen (evs st) -> pending st = [] ->
  luaL_checknumber L 2 = Done d -> dbl_nonneg d = true -> dbl_zero d = false -> timeout_ms d = Done ms ->
  epoll_wait k (epoll_fd st) MAX_EVENTS ms = (ret, es, errno, k') -> 0 < ret -> zlen es = ret ->
  exists st', waits (length es) epoll_wait k st L = Done (k', st', report <$> reverse es) /\ pending st' = [].
Proof.
  intros HL Hlen Hp Hd Hnn Hz Hms Hw Hret Hes. pose proof (filled_pending st ret es Hes) as F.
  assert (length es = length (report <$> reverse es)) as -> by by rewrite length_fmap, length_reverse.
  destruct (report <$> reverse es) as [|r rs] eqn:E.
  { apply (f_equal length) in E. rewrite length_fmap, length_reverse in E. unfold zlen in Hes. cbn in E. lia. }
  cbn [length waits]. rewrite (wait_asks epoll_wait k st L p d ms ret es errno k') by done.
  assert (ret <= zlen (fill_events es st)) as Hb.
  { unfold fill_events. rewrite zlen_app. pose proof (zlen_nonneg (drop (length es) (evs st))). lia. }
  pose proof (epoll_pushevent_spec {| processed := ret; epoll_fd := epoll_fd st; evs := fill_events es st |} Hb) as P.
  rewrite F in P. destruct P as (st1 & -> & Hp1 & _ & Hlen1). cbn [mbind outcome_bind].
  destruct (epoll_waits_pending epoll_wait k' L p rs st1 HL Hlen1 Hp1) as (st2 & -> & ?). by exists st2.
Qed.

(** Deleting a descriptor does not withdraw the events already fetched: when the event
    on top is one of the deleted descriptor, del returns true, the descriptor is out of
    the kernel's interest list, and the next [wait] still reports it. *)
Theorem epoll_reports_deleted u epoll_wait k st m x p L e rs :
  represents (k, st) m -> ctl_failure k (epoll_fd st) EPOLL_CTL_DEL x = None -> is_int x -> is_Some (m !! x) ->
  0 < processed st <= zlen (evs st) -> pending st = report e :: rs -> data_fd e = x ->
  lua_arg L 1 = Some (VUserdata STATE_MT p) ->
  exists k' st' st'', Ldel u k st (op_args (VUserdata STATE_MT p) (Del x)) = Done (k', st', [VBool true]) /\
    represents (k', st') (delete x m) /\
    Lwait epoll_wait k' st' L = Done (k', st'', [VInt x; VBool (readable e); VBool (writable e)]).
Proof.
  intros R Hpo Hx [v Hv] Hlen Hp He HL.
  pose proof (epoll_Ldel_refines u k st m x p R Hx) as D. cbn [epoll_fault op_ctl op_fd fst snd] in D.
  rewrite Hpo in D. unfold answered, interest_step in D. rewrite Hv in D.
  destruct D as ([k' st'] & Hd & R' & Hproc & Hevs). cbn [snd] in Hproc, Hevs.
  assert (pending st' = report e :: rs) as Hp' by (unfold pending; by rewrite Hproc, Hevs).
  pose proof (epoll_pushevent_spec st' ltac:(rewrite Hproc, Hevs; lia)) as P. rewrite Hp' in P.
  destruct P as (st'' & Hpush & _ & Hne & _). exists k', st', st''. split_and!; [done..|].
  unfold Lwait. rewrite (checkudata_self _ _ _ _ HL). cbn [mbind outcome_bind]. rewrite Hpush. cbn [mbind outcome_bind].
  rewrite bool_decide_eq_false_2 by done. cbn [negb]. unfold report. by rewrite He.
Qed.

(** The finalizer closes the epoll descriptor, marks the object and does nothing when
    it runs again; when [close] fails it raises the system's message and keeps the
    descriptor. *)
Theorem epoll_gc_closes_once close k st p :
  epoll_fd st <> -1 ->
  let L := [VUserdata STATE_MT p] in
  let '(ret, errno, k1) := close k (epoll_fd st) in
  let '(k2, st2, r) := Lgc close k st L in
  k2 = k1 /\
  (ret = 0 -> r = Done [] /\ epoll_fd st2 = -1 /\ Lgc close k2 st2 L = (k2, st2, Done [])) /\
  (ret <> 0 -> r = Raise (ErrorObject (strerror errno)) /\ st2 = st).
Proof.
  intros Hfd. cbv zeta. unfold Lgc at 1. rewrite (checkudata_self _ 1 STATE_MT p) by done.
  destruct (Z.eqb_spec (epoll_fd st) (-1)); [done|]. destruct (close k (epoll_fd st)) as [[ret errno] k1].
  destruct (Z.eqb_spec ret 0) as [->|Hr]; (split; [done|]); (split; [intros Hr'|intros Hr']); try done.
Qed.

(** A new object starts with nothing to report; when [epoll_create1] succeeds with
    descriptor 0 (standard input closed) the constructor reports a failure, with whatever
    error number was left, and its object, which will be finalized, does not hold the
    descriptor: it is never closed. *)
Theorem epoll_new_zero block errno p (close : K -> Z -> Z * Z * K) k q :
  exists st, Lnew block (0, errno) p = (st, sys_fail errno) /\ pending st = [] /\
    Lgc close k st [VUserdata STATE_MT q] = (k, st, Done []).
Proof.
  eexists. split; [reflexivity|]. split; [done|]. unfold Lgc. by rewrite (checkudata_self _ 1 STATE_MT q).
Qed.

End properties.

(** ** Witnesses: a kernel that keeps the interest lists, of at most two descriptors below 8 *)

Definition linux_epoll : EpollFlags :=
  {| EPOLLIN := 1; EPOLLOUT := 4; EPOLLERR := 8; EPOLLHUP := 16; EPOLLRDHUP := 8192 |}.

#[local] Existing Instances lua_strict linux_errors linux_epoll.

Abbreviation kernel := (gmap Z (gmap Z epoll_event)).

Definition kernel_failure (k : kernel) (ep : Z) (o : ctl) (x : Z) : option Z :=
  if negb ((0 <=? x) && (x <? 8)) then Some EBADF
  else match o, k !! ep with
       | EPOLL_CTL_ADD, Some l => if bool_decide (l !! x = None) && (2 <=? Z.of_nat (size l)) then Some 28 else None
       | _, _ => None
       end.

Definition kernel_ctl (k : kernel) (ep : Z) (o : ctl) (x : Z) (ev : epoll_event) : Z * Z * kernel :=
  match kernel_failure k ep o x, k !! ep with
  | Some e, _ => (-1, e, k)
  | None, None => (-1, EBADF, k)
  | None, Some l => match ctl_result o x ev l with inl e => (-1, e, k) | inr l' => (0, 0, <[ep := l']> k) end
  end.

#[local, refine] Instance kernel_epoll : Epoll kernel := {|
  epoll_ctl := kernel_ctl;
  interest_list k ep := k !! ep;
  ctl_failure := kernel_failure;
|}.
Proof.
  intros k ep o l x ev Hl. unfold kernel_ctl. destruct (kernel_failure k ep o x) as [e|]; [by exists k|]. rewrite Hl.
  destruct (ctl_result o x ev l) as [e|l']; [by exists k|]. exists 0, (<[ep := l']> k). by rewrite lookup_insert_eq.
Defined.

Definition k0 : kernel := {[ 3 := ∅ ]}.
(** The array that lua_newuserdata allocated, which happens to be zero. *)
Definition array : list epoll_event := replicate 256 {| data_fd := 0; events := 0 |}.

Definition st0 : Lpoll_state := {| processed := 0; epoll_fd := 3; evs := array |}.

Lemma k0_represents : represents (k0, st0) ∅.
Proof. exists ∅. split; [done|]. intros x. by rewrite !lookup_empty. Qed.

(** The fourth descriptor is one too many, the last one is not open. *)
Definition sample_ops : list poll_op :=
  [Add 5 (Some true) None; Add 5 None None; Set_ 5 None (Some true); Set_ 7 None None; Add (-1) None None;
   Add 6 None None; Add 7 None None; Del 6; Del 9].

Lemma epoll_refines_interest_witness :
  exists s, method_run (H1 := epoll_backend 0) (k0, st0) 1 sample_ops
    = Done (s, [[VBool true]; sys_fail EEXIST; [VBool true]; sys_fail ENOENT; sys_fail EBADF;
                [VBool true]; sys_fail 28; [VBool true]; sys_fail EBADF]) /\
    represents s {[ 5 := (false, true) ]}.
Proof.
  pose proof (epoll_refines_interest 0 k0 st0 ∅ sample_ops 1 k0_represents
    ltac:(repeat (constructor; [by_decision|]); constructor)) as E.
  cbv zeta in E. destruct (answered_run _ _ _ _) as [m rs] eqn:Er. vm_compute in Er. injection Er as <- <-.
  destruct E as [E _]. exact E.
Defined.

Definition sample_wait : list value := [VUserdata STATE_MT 1; VInt 1].

Lemma epoll_sample_timeout : luaL_checknumber sample_wait 2 = Done (double_of_Z 1).
Proof. by vm_compute. Qed.

Lemma sample_ms : timeout_ms (double_of_Z 1) = Done 1000.
Proof. by vm_compute. Qed.

(** Descriptor 5 is readable, 7 is writable and was hung up. *)
Definition two_events : list epoll_event := [{| data_fd := 5; events := 1 |}; {| data_fd := 7; events := 20 |}].

Lemma epoll_delivers_once_witness :
  exists st', waits 2 (fun k _ _ _ => (2, two_events, 0, k)) k0 st0 sample_wait
    = Done (k0, st', [[VInt 7; VBool true; VBool true]; [VInt 5; VBool true; VBool false]]) /\ pending st' = [].
Proof.
  exact (epoll_delivers_once (fun k _ _ _ => (2, two_events, 0, k)) k0 st0 sample_wait 1 (double_of_Z 1) 1000 2
    two_events 0 k0 eq_refl ltac:(vm_compute; done) eq_refl epoll_sample_timeout eq_refl eq_refl sample_ms eq_refl
    ltac:(lia) eq_refl).
Defined.

Definition k1 : kernel := {[ 3 := {[ 5 := entry 5 (true, false) ]} ]}.
Definition st1 : Lpoll_state := {| processed := 1; epoll_fd := 3; evs := <[0%nat := {| data_fd := 5; events := 1 |}]> array |}.

Lemma k1_represents : represents (k1, st1) {[ 5 := (true, false) ]}.
Proof.
  exists {[ 5 := entry 5 (true, false) ]}. split; [done|]. intros x. destruct (decide (x = 5)) as [->|]; by simplify_map_eq.
Qed.

Lemma epoll_reports_deleted_witness :
  exists k' st' st'', Ldel 0 k1 st1 [VUserdata STATE_MT 1; VInt 5] = Done (k', st', [VBool true]) /\
    represents (k', st') (delete 5 {[ 5 := (true, false) ]}) /\
    Lwait (fun k _ _ _ => (0, [], 0, k)) k' st' sample_wait = Done (k', st'', [VInt 5; VBool true; VBool false]).
Proof.
  exact (epoll_reports_deleted 0 (fun k _ _ _ => (0, [], 0, k)) k1 st1 {[ 5 := (true, false) ]} 5 1 sample_wait
    {| data_fd := 5; events := 1 |} [] k1_represents eq_refl ltac:(by_decision) (ex_intro _ _ eq_refl)
    ltac:(vm_compute; done) eq_refl eq_refl eq_refl).
Defined.

Definition kernel_close (k : kernel) (x : Z) : Z * Z * kernel := (0, 0, delete x k).

Lemma epoll_gc_closes_once_witness :
  Lgc kernel_close k0 st0 [VUserdata STATE_MT 1]
  = (∅ : kernel, {| processed := 0; epoll_fd := -1; evs := array |}, Done []) /\
  Lgc kernel_close (∅ : kernel) {| processed := 0; epoll_fd := -1; evs := array |} [VUserdata STATE_MT 1]
  = (∅ : kernel, {| processed := 0; epoll_fd := -1; evs := array |}, Done []).
Proof.
  pose proof (epoll_gc_closes_once kernel_close k0 st0 1 ltac:(done)) as G. cbn in G.
  destruct G as (_ & G & _). destruct (G eq_refl) as (_ & _ & E). split; [by vm_compute|exact E].
Defined.
