(* ===== verification/Signal.v ===== *)
(** * util-src/signal.c: signals delivered to Lua

    The C signal handler only records the signal and installs a debug hook; the hook runs
    the Lua handlers at the next instruction of the interpreter.  The data and the
    operations are functions; their interleaving (signals arrive at any point, even inside
    the hook or a Lua handler) is a labelled step relation.  The theorems, by induction on
    runs: the queue stays in its array and the handlers run in the order of arrival; no
    signal is lost when at most 32 wait, no handler raises and none arrives between the
    last handler and the reset of the queue; signals that wait have the hook installed,
    which calls all their handlers once it fires; the program's own hook comes back; an error
    in a handler stops the delivery of signals for good, and so does a signal that is
    caught when the module is loaded a second time.

    A call of the C handler is one step (it is not interrupted by another signal), the
    program does not change its debug hooks itself, and signal(2) is that of BSD and
    Linux, which leaves the handler installed. *)

From stdpp Require Import base tactics numbers list strings gmap.
From Stdlib Require Import ZArith Lia SpecFloat.
From S2P Require Import Prelude LuaApi.

Local Open Scope Z_scope.

Definition MAX_PENDING_SIGNALS : Z := 32.

(** The macros of <signal.h> that are defined, with their values, and the signals for
    which [signal] accepts a handler. *)
Class Signals := { signum : string -> option Z; catchable : Z -> bool }.

Definition signal_names : list string :=
  ["SIGABRT"; "SIGFPE"; "SIGILL"; "SIGINT"; "SIGSEGV"; "SIGTERM"; "SIGHUP"; "SIGQUIT"; "SIGTRAP"; "SIGKILL";
   "SIGUSR1"; "SIGUSR2"; "SIGPIPE"; "SIGALRM"; "SIGCHLD"; "SIGCONT"; "SIGSTOP"; "SIGTTIN"; "SIGTTOU"; "SIGIOT";
   "SIGBUS"; "SIGCLD"; "SIGURG"; "SIGXCPU"; "SIGXFSZ"; "SIGVTALRM"; "SIGPROF"; "SIGWINCH"; "SIGPOLL"; "SIGIO";
   "SIGSTKFLT"; "SIGSYS"].

(** A debug hook: its function, its mask and its count; [Program] is a function the
    program installed. *)
Inductive hook_fn := NULL | sighook | Program (h : Z).
Record lua_Hook := { hook : hook_fn; hookmask : Z; hookcount : Z }.

#[export] Instance hook_fn_eq_dec : EqDecision hook_fn.
Proof. solve_decision. Defined.

Definition no_hook : lua_Hook := {| hook := NULL; hookmask := 0; hookcount := 0 |}.

(** [lua_sethook] turns hooks off when there is no function or no event. *)
Definition lua_hook (f : hook_fn) (mask count : Z) : lua_Hook :=
  if bool_decide (f = NULL) || (mask =? 0) then {| hook := NULL; hookmask := 0; hookcount := count |}
  else {| hook := f; hookmask := mask; hookcount := count |}.

(** LUA_MASKCALL | LUA_MASKRET | LUA_MASKCOUNT *)
Definition sighook_mask : Z := Z.lor (Z.lor (Z.shiftl 1 0) (Z.shiftl 1 1)) (Z.shiftl 1 3).

(** The static variables, and what the operations read and write outside the module: the
    hooks of the Lua threads, the integer keys of the table LUA_SIGNAL of the registry,
    and the signals whose action is [handle]. *)
Record state := {
  Lsig : option Z;
  Hsig : hook_fn; Hmask : Z; Hcount : Z;
  signals : list Z; nsig : Z;
  hooks : Z -> lua_Hook;
  handlers : gmap Z value;
  caught : gset Z;
}.

Section operations.
Context `{LuaAux, Signals}.
Implicit Types (st : state) (L : list value).

(** The table of the C source, and the string keys [luaopen] gives to LUA_SIGNAL. *)
Definition lua_signals : list (string * Z) :=
  omap (fun name => sig ← signum name; Some (name, sig)) signal_names.

Definition signal_table : gmap bytes Z :=
  foldl (fun t '(name, sig) => <[string_bytes name := sig]> t) ∅ lua_signals.

Definition set_hook (t : Z) (h : lua_Hook) st : state :=
  {| Lsig := Lsig st; Hsig := Hsig st; Hmask := Hmask st; Hcount := Hcount st;
     signals := signals st; nsig := nsig st;
     hooks := fun t' => if decide (t' = t) then h else hooks st t';
     handlers := handlers st; caught := caught st |}.

Definition save_hook (h : lua_Hook) st : state :=
  {| Lsig := Lsig st; Hsig := hook h; Hmask := hookmask h; Hcount := hookcount h;
     signals := signals st; nsig := nsig st; hooks := hooks st; handlers := handlers st; caught := caught st |}.

Definition set_queue (q : list Z) (n : Z) st : state :=
  {| Lsig := Lsig st; Hsig := Hsig st; Hmask := Hmask st; Hcount := Hcount st;
     signals := q; nsig := n; hooks := hooks st; handlers := handlers st; caught := caught st |}.

Definition handle (sig : Z) st : outcome state :=
  st ← (if nsig st =? 0 then
          match Lsig st with
          | Some t => Done (set_hook t (lua_hook sighook sighook_mask 1) (save_hook (hooks st t) st))
          | None => Undef OutOfBounds
          end
        else Done st);
  if nsig st <? MAX_PENDING_SIGNALS then
    q ← mem_set (signals st) (nsig st) sig;
    Done (set_queue q (nsig st + 1) st)
  else Done st.

(** The first statement of [sighook], on the thread [t]. *)
Definition sighook_enter (t : Z) st : state := set_hook t (lua_hook (Hsig st) (Hmask st) (Hcount st)) st.

(** [nsig = 0] *)
Definition sighook_reset st : state := set_queue (signals st) 0 st.

Definition luaL_checkany L i : outcome value :=
  match lua_arg L i with Some v => Done v | None => Raise (ArgError i "value expected") end.

Definition value_tointeger (v : value) : Z := default 0 (lua_tointegerx v).

(** The signal an argument designates, in [l_signal]: a number, or a name of the table. *)
Definition signal_arg L i : outcome Z :=
  v ← luaL_checkany L i;
  match type_of v, v with
  | LUA_TNUMBER, _ => Done (cint (value_tointeger v))
  | LUA_TSTRING, VStr s =>
      match signal_table !! s with
      | Some sig => Done (cint (value_tointeger (VInt sig)))
      | None => luaL_error "invalid signal string"
      end
  | _, _ =>
      _ ← luaL_checknumber L i;
      luaL_error "unreachable: invalid number was accepted"
  end.

Definition set_handler (sig : Z) (v : option value) (c : gset Z) (t : option Z) st : state :=
  {| Lsig := t; Hsig := Hsig st; Hmask := Hmask st; Hcount := Hcount st;
     signals := signals st; nsig := nsig st; hooks := hooks st;
     handlers := partial_alter (fun _ => v) sig (handlers st); caught := c |}.

(** [l_signal] on the thread [t]. *)
Definition l_signal (t : Z) L st : outcome (state * list value) :=
  sig ← signal_arg L 1;
  if (lua_gettop L =? 1) || bool_decide (lua_arg L 2 = Some VNil) then
    let old := default VNil (handlers st !! sig) in
    Done (set_handler sig None (caught st ∖ {[ sig ]}) (Lsig st) st, [old])
  else
    _ ← luaL_checktype L 2 LUA_TFUNCTION;
    let ok := catchable sig in
    let c := if ok then {[ sig ]} ∪ caught st else caught st in
    Done (set_handler sig (lua_arg L 2) c (Some t) st, [VBool ok]).

(** What [raise] does when it returns 0 is to run the action of the signal. *)
Definition raise_signal (raise : Z -> Z) (sig : Z) st : outcome (state * Z) :=
  let ret := raise sig in
  st ← (if (ret =? 0) && bool_decide (sig ∈ caught st) then handle sig st else Done st);
  Done (st, ret).

Definition l_raise (raise : Z -> Z) L st : outcome (state * list value) :=
  v ← luaL_checkany L 1;
  match type_of v, v with
  | LUA_TNUMBER, _ =>
      '(st, ret) ← raise_signal raise (cint (value_tointeger v)) st;
      Done (st, [VInt ret])
  | LUA_TSTRING, VStr s =>
      match signal_table !! s with
      | Some sig =>
          '(st, ret) ← raise_signal raise (cint (value_tointeger (VInt sig))) st;
          Done (st, [VInt ret])
      | None => luaL_error "invalid signal string"
      end
  | _, _ => _ ← luaL_checknumber L 1; Done (st, [default VNil (last L)])
  end.

(** [l_kill] returns what the system call returns. *)
Definition l_kill (kill : Z -> Z -> Z) L : outcome (list value) :=
  _ ← luaL_checknumber L 1;
  v ← luaL_checkany L 2;
  let pid := cint (value_tointeger (default VNil (lua_arg L 1))) in
  match type_of v, v with
  | LUA_TNUMBER, _ => Done [VInt (kill pid (cint (value_tointeger v)))]
  | LUA_TSTRING, VStr s =>
      match signal_table !! s with
      | Some sig => Done [VInt (kill pid (cint (value_tointeger (VInt sig))))]
      | None => luaL_error "invalid signal string"
      end
  | _, _ => _ ← luaL_checknumber L 2; Done [default VNil (last L)]
  end.

(** The state after [luaopen_prosody_util_signal], in a program with its own hooks. *)
Definition signal_start (own : Z -> lua_Hook) : state :=
  {| Lsig := None; Hsig := NULL; Hmask := 0; Hcount := 0;
     signals := replicate (Z.to_nat MAX_PENDING_SIGNALS) 0; nsig := 0;
     hooks := own; handlers := ∅; caught := ∅ |}.

End operations.

(** ** Interleaving *)

(** Where [sighook] is: not running; before the test of its loop; inside a Lua handler;
    between the end of the loop and the reset of [nsig]. *)
Inductive phase :=
  | Idle
  | Loop (t i : Z)
  | Calling (t i : Z)
  | Leaving (t : Z).

Inductive label :=
  | Arrive (sig : Z)              (* the C handler runs *)
  | Fire (t : Z)                  (* the interpreter calls the hook of thread t *)
  | Call (sig : Z) (f : value)    (* the hook calls a Lua handler *)
  | Return                        (* which returns *)
  | Fail                          (* it raises, or there is none: the error leaves the hook *)
  | Exit                          (* the loop ends *)
  | Reset                         (* nsig = 0 *)
  | Lua (t : Z) (L : list value). (* the program calls l_signal *)

Abbreviation machine := (state * phase)%type.

Definition lua_runs (ph : phase) : Prop := match ph with Idle | Calling _ _ => True | _ => False end.

Section machine.
Context `{LuaAux, Signals}.
Implicit Types (st : state) (m : machine) (tr : list label).

Inductive step : machine -> label -> machine -> Prop :=
  | step_arrive st ph sig st' :
      sig ∈ caught st -> handle sig st = Done st' -> step (st, ph) (Arrive sig) (st', ph)
  | step_fire st t :
      hook (hooks st t) = sighook -> step (st, Idle) (Fire t) (sighook_enter t st, Loop t 0)
  | step_call st t i sig f :
      i < nsig st -> mem_get (signals st) i = Done sig -> handlers st !! sig = Some f ->
      step (st, Loop t i) (Call sig f) (st, Calling t i)
  | step_nil st t i sig :
      i < nsig st -> mem_get (signals st) i = Done sig -> handlers st !! sig = None ->
      step (st, Loop t i) Fail (st, Idle)
  | step_return st t i : step (st, Calling t i) Return (st, Loop t (i + 1))
  | step_raise st t i : step (st, Calling t i) Fail (st, Idle)
  | step_exit st t i : nsig st <= i -> step (st, Loop t i) Exit (st, Leaving t)
  | step_reset st t : step (st, Leaving t) Reset (sighook_reset st, Idle)
  | step_lua st ph t L st' r :
      lua_runs ph -> l_signal t L st = Done (st', r) -> step (st, ph) (Lua t L) (st', ph).

(** The same relation as a function, which evaluates runs. *)
Definition next m (l : label) : option machine :=
  match l, m with
  | Arrive sig, (st, ph) =>
      if bool_decide (sig ∈ caught st) then
        match handle sig st with Done st' => Some (st', ph) | _ => None end
      else None
  | Fire t, (st, Idle) => if bool_decide (hook (hooks st t) = sighook) then Some (sighook_enter t st, Loop t 0) else None
  | Call sig f, (st, Loop t i) =>
      if (i <? nsig st) && bool_decide (mem_get (signals st) i = Done sig) && bool_decide (handlers st !! sig = Some f)
      then Some (st, Calling t i) else None
  | Fail, (st, Loop t i) =>
      if i <? nsig st then
        match mem_get (signals st) i with
        | Done sig => match handlers st !! sig with None => Some (st, Idle) | Some _ => None end
        | _ => None
        end
      else None
  | Fail, (st, Calling t i) => Some (st, Idle)
  | Return, (st, Calling t i) => Some (st, Loop t (i + 1))
  | Exit, (st, Loop t i) => if nsig st <=? i then Some (st, Leaving t) else None
  | Reset, (st, Leaving t) => Some (sighook_reset st, Idle)
  | Lua t L, (st, Idle) | Lua t L, (st, Calling _ _ ) =>
      match l_signal t L st with Done (st', _) => Some (st', m.2) | _ => None end
  | _, _ => None
  end.

Lemma next_step m l m' : next m l = Some m' -> step m l m'.
Proof.
  destruct m as [st ph], l as [sig|t|sig f| | | | |t L], ph as [|t0 i|t0 i|t0]; cbn [next snd]; intros E; simplify_eq;
    repeat (case_match; simplify_eq);
    repeat match goal with
    | H : bool_decide _ = true |- _ => apply bool_decide_eq_true in H
    | H : _ && _ = true |- _ => apply andb_true_iff in H as [? ?]
    | H : (_ <? _) = true |- _ => apply Z.ltb_lt in H
    | H : (_ <=? _) = true |- _ => apply Z.leb_le in H
    end; eauto using step.
  all: try (by eapply step_lua).
Qed.

Fixpoint execute m tr : option machine :=
  match tr with [] => Some m | l :: tr => next m l ≫= (fun m1 => execute m1 tr) end.

Inductive run : machine -> list label -> machine -> Prop :=
  | run_nil m : run m [] m
  | run_cons m l m1 tr m2 : step m l m1 -> run m1 tr m2 -> run m (l :: tr) m2.

Lemma execute_run tr m m' : execute m tr = Some m' -> run m tr m'.
Proof.
  revert m. induction tr as [|l tr IH]; intros m; cbn; [intros [= ->]; constructor|].
  destruct (next m l) as [m1|] eqn:E; [|done]. cbn. intros Hr. econstructor; [by apply next_step|by apply IH].
Qed.

Lemma run_app m tr1 m1 tr2 m2 : run m tr1 m1 -> run m1 tr2 m2 -> run m (tr1 ++ tr2) m2.
Proof. induction 1; cbn; eauto using run. Qed.

(** An invariant of the steps, and of what was done before, holds at the end of a run. *)
Lemma run_ind_trace (P : list label -> machine -> Prop) :
  (forall pre m l m', P pre m -> step m l m' -> P (pre ++ [l]) m') ->
  forall pre m tr m', P pre m -> run m tr m' -> P (pre ++ tr) m'.
Proof.
  intros HP pre m tr m' H0' Hr. revert pre H0'. induction Hr as [m|m l m1 tr m2 Hs _ IH]; intros pre HPm.
  - by rewrite app_nil_r.
  - rewrite cons_middle, app_assoc. eauto.
Qed.

Definition arrivals : list label -> list Z := omap (fun l => match l with Arrive sig => Some sig | _ => None end).
Definition calls : list label -> list Z := omap (fun l => match l with Call sig _ => Some sig | _ => None end).

Definition queue st : list Z := take (Z.to_nat (nsig st)) (signals st).

(** ** The queue and the hooks *)

(** The queue is in its array; a caught signal finds the thread for the hook; the values
    called are functions. *)
Record wf st : Prop := {
  wf_array : zlen (signals st) = MAX_PENDING_SIGNALS;
  wf_nsig : 0 <= nsig st <= MAX_PENDING_SIGNALS;
  wf_thread : caught st = ∅ \/ is_Some (Lsig st);
  wf_handlers sig v : handlers st !! sig = Some v -> type_of v = LUA_TFUNCTION;
}.

Lemma zlen_queue st : wf st -> zlen (queue st) = nsig st.
Proof.
  intros W. pose proof (wf_array _ W) as Ha. pose proof (wf_nsig _ W). unfold queue, zlen in *.
  rewrite length_take. lia.
Qed.

(** What the handler leaves as it is. *)
Definition same_rest st st' : Prop :=
  Lsig st' = Lsig st /\ handlers st' = handlers st /\ caught st' = caught st.

(** [handle]: the signal is queued if there is room; the hook is installed, and the
    program's own saved, when the queue was empty. *)
Lemma handle_spec sig st :
  wf st -> is_Some (Lsig st) ->
  exists st', handle sig st = Done st' /\ wf st' /\ same_rest st st' /\
    queue st' = (if nsig st <? MAX_PENDING_SIGNALS then queue st ++ [sig] else queue st) /\
    nsig st' = (if nsig st <? MAX_PENDING_SIGNALS then nsig st + 1 else nsig st) /\
    (if nsig st =? 0 then exists t, Lsig st = Some t /\
       (forall t', hooks st' t' = if decide (t' = t) then lua_hook sighook sighook_mask 1 else hooks st t') /\
       lua_hook (Hsig st') (Hmask st') (Hcount st')
         = lua_hook (hook (hooks st t)) (hookmask (hooks st t)) (hookcount (hooks st t))
     else hooks st' = hooks st /\ Hsig st' = Hsig st /\ Hmask st' = Hmask st /\ Hcount st' = Hcount st).
Proof.
  intros W [t Ht]. pose proof (wf_array _ W) as Ha. pose proof (wf_nsig _ W) as Hn. unfold handle. rewrite Ht.
  set (st1 := if nsig st =? 0 then set_hook t (lua_hook sighook sighook_mask 1) (save_hook (hooks st t) st) else st).
  assert (signals st1 = signals st /\ nsig st1 = nsig st /\ Lsig st1 = Lsig st /\ handlers st1 = handlers st
    /\ caught st1 = caught st) as (E1 & E2 & E3 & E4 & E5) by (subst st1; by case_match).
  replace (if nsig st =? 0 then _ else _) with (Done st1) by (subst st1; by case_match). cbn [mbind outcome_bind].
  rewrite E1, E2. destruct (Z.ltb_spec (nsig st) MAX_PENDING_SIGNALS) as [Hlt|Hge].
  - rewrite mem_set_done by lia. cbn [mbind outcome_bind]. eexists. split; [done|]. split.
    { split; cbn; [unfold zlen; by rewrite length_insert|lia|rewrite E3, E5; apply W|rewrite E4; apply W]. }
    split; [done|]. split; [|split; [done|]].
    + unfold queue. cbn. replace (Z.to_nat (nsig st + 1)) with (S (Z.to_nat (nsig st))) by lia.
      rewrite (take_S_r _ _ sig) by (apply list_lookup_insert_eq; unfold zlen in Ha; lia).
      f_equal. by apply take_insert_ge.
    + subst st1. case_match; [|done]. exists t. by split_and!.
  - exists st1. split; [done|]. split.
    { split; [by rewrite E1|lia|rewrite E3, E5; apply W|rewrite E4; apply W]. }
    split; [done|]. split; [by unfold queue; rewrite E1, E2|]. split; [done|].
    subst st1. case_match; [|done]. exists t. by split_and!.
Qed.

(** The hooks are the program's own, or the one of [t] is [sighook] and its own is saved. *)
Definition quiet (own : Z -> lua_Hook) st : Prop := forall t, hooks st t = own t.

Definition armed (own : Z -> lua_Hook) st (t : Z) : Prop :=
  (forall t', hooks st t' = if decide (t' = t) then lua_hook sighook sighook_mask 1 else own t') /\
  lua_hook (Hsig st) (Hmask st) (Hcount st) = own t.

(** Hooks a program can have, and none is that of the module. *)
Definition program_hooks (own : Z -> lua_Hook) : Prop :=
  forall t, hook (own t) <> sighook /\ lua_hook (hook (own t)) (hookmask (own t)) (hookcount (own t)) = own t.

Lemma armed_iff own st t :
  program_hooks own -> (forall t', hooks st t' = if decide (t' = t) then lua_hook sighook sighook_mask 1 else own t') ->
  forall t', hook (hooks st t') = sighook <-> t' = t.
Proof.
  intros Hown Ha t'. rewrite Ha. case_decide as Hd; [done|]. split; [|done]. intros E. by apply Hown in E.
Qed.

Definition hooked own st (ph : phase) : Prop :=
  match ph with
  | Idle => (nsig st = 0 /\ quiet own st) \/ (0 < nsig st /\ exists t, armed own st t) \/ (0 < nsig st /\ quiet own st)
  | Loop _ i => 0 < nsig st /\ quiet own st /\ 0 <= i <= nsig st
  | Calling _ i => 0 < nsig st /\ quiet own st /\ 0 <= i < nsig st
  | Leaving _ => 0 < nsig st /\ quiet own st
  end.

(** How many signals of the queue were handled. *)
Definition handled own st (ph : phase) (n : nat) : Prop :=
  match ph with
  | Idle => quiet own st \/ n = O
  | Loop _ i => n = Z.to_nat i
  | Calling _ i => n = Z.to_nat (i + 1)
  | Leaving _ => True
  end.

(** The invariant of a machine after the trace [pre]: the arrivals since the last reset
    begin with the queue, whose first [n] were called; the calls before were a
    subsequence of the arrivals before. *)
Record inv own (pre : list label) st (ph : phase) : Prop := {
  inv_wf : wf st;
  inv_hooked : hooked own st ph;
  inv_calls : exists A B C n, arrivals pre = A ++ B /\ calls pre = C ++ take n (queue st) /\ C `sublist_of` A /\
    queue st = take (Z.to_nat MAX_PENDING_SIGNALS) B /\ (n <= length (queue st))%nat /\ handled own st ph n;
}.

Lemma arrivals_app tr1 tr2 : arrivals (tr1 ++ tr2) = arrivals tr1 ++ arrivals tr2.
Proof. apply omap_app. Qed.
Lemma calls_app tr1 tr2 : calls (tr1 ++ tr2) = calls tr1 ++ calls tr2.
Proof. apply omap_app. Qed.

Lemma wf_same st st' :
  wf st -> signals st' = signals st -> nsig st' = nsig st -> (caught st' = ∅ \/ is_Some (Lsig st')) ->
  (forall sig v, handlers st' !! sig = Some v -> type_of v = LUA_TFUNCTION) -> wf st'.
Proof. intros W E1 E2 Hc Hh. split; [rewrite E1; apply W|rewrite E2; apply W|done|done]. Qed.

Lemma length_queue st : wf st -> length (queue st) = Z.to_nat (nsig st).
Proof. intros W. pose proof (zlen_queue st W). unfold zlen in *. lia. Qed.

(** ** Every step keeps the invariant *)

Lemma handle_hooked own sig st st' ph :
  program_hooks own -> wf st -> hooked own st ph -> handle sig st = Done st' -> is_Some (Lsig st) -> hooked own st' ph.
Proof.
  intros Hown W Hh E HL. destruct (handle_spec sig st W HL) as (st1 & E' & _ & _ & _ & Hn & Hk).
  rewrite E in E'. injection E' as <-. pose proof (wf_nsig _ W) as Hb. unfold MAX_PENDING_SIGNALS in *.
  assert (nsig st <= nsig st') as Hle by (case_match; lia).
  destruct (Z.eqb_spec (nsig st) 0) as [Hz|Hnz].
  - destruct Hk as (t & _ & Ht & Hsave). assert (0 < nsig st') as Hpos by (rewrite Hn, Hz; done).
    destruct ph; cbn [hooked] in *; try lia. destruct Hh as [[_ Hq]|[[? _]|[? _]]]; try lia.
    right; left. split; [done|]. exists t. split.
    + intros t'. rewrite Ht. case_decide; [done|]. apply Hq.
    + rewrite Hsave, Hq. apply Hown.
  - destruct Hk as (E1 & E2 & E3 & E4).
    assert (quiet own st -> quiet own st') as Hquiet by (intros Hq t; rewrite E1; apply Hq).
    destruct ph; cbn [hooked] in *.
    + destruct Hh as [[? _]|[[? [t [A1 A2]]]|[? ?]]]; [lia| |].
      * right; left. split; [lia|]. exists t. split; [by rewrite E1|by rewrite E2, E3, E4].
      * right; right. split; [lia|auto].
    + destruct Hh as (? & ? & ?). split; [lia|]. split; [auto|lia].
    + destruct Hh as (? & ? & ?). split; [lia|]. split; [auto|lia].
    + destruct Hh as (? & ?). split; [lia|auto].
Qed.

Lemma arrive_inv own pre sig st st' ph :
  program_hooks own -> inv own pre st ph -> sig ∈ caught st -> handle sig st = Done st' ->
  inv own (pre ++ [Arrive sig]) st' ph.
Proof.
  intros Hown [W Hh (A & B & C & n & EA & EC & Hsub & Hq & Hn & Hd)] Hc E.
  assert (is_Some (Lsig st)) as HL by (destruct (wf_thread _ W) as [Hc'|?]; [set_solver|done]).
  pose proof (handle_hooked own sig st st' ph Hown W Hh E HL) as Hh'.
  destruct (handle_spec sig st W HL) as (st1 & E' & W' & _ & Hq' & Hn' & Hk). rewrite E in E'. injection E' as <-.
  split; [done..|]. pose proof (length_queue _ W) as Hlen. pose proof (wf_nsig _ W) as Hb.
  assert (queue st' = take (Z.to_nat MAX_PENDING_SIGNALS) (B ++ [sig])) as Hq2.
  { rewrite Hq'. unfold MAX_PENDING_SIGNALS in *. destruct (Z.ltb_spec (nsig st) 32) as [Hlt|Hge].
    - rewrite Hq in Hlen. rewrite length_take in Hlen. rewrite Hq, !take_ge; [done| |]; try rewrite length_app; cbn; lia.
    - rewrite Hq in Hlen. rewrite length_take in Hlen. rewrite Hq, take_app_le; [done|]. lia. }
  assert (take n (queue st') = take n (queue st) /\ (length (queue st) <= length (queue st'))%nat) as [Et Hle].
  { rewrite Hq'. case_match; [|done]. rewrite take_app_le by done. rewrite length_app. split; [done|lia]. }
  assert (arrivals (pre ++ [Arrive sig]) = A ++ (B ++ [sig]) /\ calls (pre ++ [Arrive sig]) = calls pre) as [EA' EC'].
  { rewrite arrivals_app, calls_app, EA, <- app_assoc. split; [done|]. apply app_nil_r. }
  destruct ph as [|t i|t i|t]; cbn [handled] in Hd.
  2-4: exists A, (B ++ [sig]), C, n; rewrite Et, EC', EC; split_and!; (done || lia).
  destruct (Z.eqb_spec (nsig st) 0) as [Hz|Hnz].
  - exists A, (B ++ [sig]), C, O. rewrite EC', EC. split_and!; try done; [|lia|by right].
    cbn. f_equal. assert (n = O) as -> by lia. done.
  - exists A, (B ++ [sig]), C, n. rewrite Et, EC', EC. split_and!; try (done || lia).
    destruct Hd as [Hd|Hd]; [left|by right]. intros t. destruct Hk as (-> & _). apply Hd.
Qed.

(** [l_signal] touches neither the queue nor the hooks. *)
Lemma l_signal_spec t L st st' r :
  wf st -> l_signal t L st = Done (st', r) ->
  wf st' /\ signals st' = signals st /\ nsig st' = nsig st /\ hooks st' = hooks st /\
  Hsig st' = Hsig st /\ Hmask st' = Hmask st /\ Hcount st' = Hcount st.
Proof.
  intros W. unfold l_signal. destruct (signal_arg L 1) as [sig|e|u]; cbn [mbind outcome_bind]; [|done..].
  case_match.
  - intros [= <- <-]. split; [|done]. apply (wf_same st); try done.
    + cbn. destruct (wf_thread _ W) as [->|?]; [left; set_solver|by right].
    + cbn. intros s v. destruct (decide (s = sig)) as [->|]; [by rewrite lookup_partial_alter_eq|].
      rewrite lookup_partial_alter_ne by done. apply (wf_handlers _ W).
  - unfold luaL_checktype. destruct (bool_decide (type_of <$> _ = _)) eqn:Ht; cbn [mbind outcome_bind]; [|done].
    apply bool_decide_eq_true in Ht. intros [= <- <-].
    split; [|done]. apply (wf_same st); try done; cbn; [by right|].
    intros s v. destruct (decide (s = sig)) as [->|].
    + rewrite lookup_partial_alter_eq. intros Hv. rewrite Hv in Ht. by injection Ht.
    + rewrite lookup_partial_alter_ne by done. apply (wf_handlers _ W).
Qed.

(** A step that leaves the queue as it is and calls the signals [new]. *)
Lemma quiet_step own pre l st st' ph ph' new :
  inv own pre st ph -> wf st' -> queue st' = queue st -> hooked own st' ph' ->
  arrivals [l] = [] -> calls [l] = new ->
  (forall n, (n <= length (queue st))%nat -> handled own st ph n ->
     exists n', handled own st' ph' n' /\ (n' <= length (queue st))%nat /\
                take n' (queue st) = take n (queue st) ++ new) ->
  inv own (pre ++ [l]) st' ph'.
Proof.
  intros [W Hh (A & B & C & n & EA & EC & Hsub & Hq & Hn & Hd)] W' Eq Hh' El Ecl Hstep. split; [done..|].
  destruct (Hstep n Hn Hd) as (n' & Hd' & Hn' & E). exists A, B, C, n'.
  rewrite arrivals_app, calls_app, El, app_nil_r, Ecl, EC, Eq, E, app_assoc. by split_and!.
Qed.

Lemma mem_get_queue st i sig : i < nsig st -> 0 <= i -> mem_get (signals st) i = Done sig -> queue st !! Z.to_nat i = Some sig.
Proof.
  intros Hi Hpos. unfold mem_get, queue. destruct (Z.ltb_spec i 0); [lia|].
  destruct (signals st !! Z.to_nat i) eqn:E; [|done]. intros [= ->]. rewrite lookup_take_lt by lia. done.
Qed.

Lemma fire_inv own pre st t :
  program_hooks own -> inv own pre st Idle -> hook (hooks st t) = sighook ->
  inv own (pre ++ [Fire t]) (sighook_enter t st) (Loop t 0).
Proof.
  intros Hown I Ht. pose proof (inv_wf _ _ _ _ I) as W. pose proof (inv_hooked _ _ _ _ I) as Hh. cbn in Hh.
  assert (~ quiet own st) as Hnq by (intros Hq; rewrite Hq in Ht; by apply (Hown t)).
  destruct Hh as [[_ ?]|[(Hpos & t0 & A1 & A2)|[_ ?]]]; [done| |done].
  assert (t = t0) as <- by (rewrite A1 in Ht; case_decide; [done|by apply Hown in Ht]).
  apply (quiet_step own pre _ st _ Idle _ []); try done.
  - apply (wf_same st); try done; apply W.
  - cbn. split; [done|]. split; [|lia]. intros t'. cbn. case_decide as Hd; [by subst|].
    rewrite A1. by rewrite decide_False.
  - intros n Hn [Hq| ->]; [done|]. exists O. by split_and!.
Qed.

Lemma step_inv own pre m l m' :
  program_hooks own -> inv own pre m.1 m.2 -> step m l m' -> inv own (pre ++ [l]) m'.1 m'.2.
Proof.
  intros Hown I Hs. pose proof (inv_wf _ _ _ _ I) as W. pose proof (inv_hooked _ _ _ _ I) as Hh.
  pose proof (length_queue _ W) as Hlen. destruct Hs; cbn [fst snd hooked] in *.
  - by eapply arrive_inv.
  - by apply fire_inv.
  - destruct Hh as (? & ? & ?). apply (quiet_step own pre _ st st (Loop t i) _ [sig]); try done; [cbn; split_and!; (done || lia)|].
    intros n Hn Hd. cbn [handled] in *. subst n. exists (Z.to_nat (i + 1)). split_and!; [done|lia|].
    replace (Z.to_nat (i + 1)) with (S (Z.to_nat i)) by lia. apply take_S_r. apply mem_get_queue; (done || lia).
  - destruct Hh as (? & ? & ?). apply (quiet_step own pre _ st st (Loop t i) _ []); try done; [by right; right|].
    intros n Hn Hd. exists n. rewrite app_nil_r. split_and!; [by left|done..].
  - destruct Hh as (? & ? & ?). apply (quiet_step own pre _ st st (Calling t i) _ []); try done; [cbn; split_and!; (done || lia)|].
    intros n Hn Hd. exists n. rewrite app_nil_r. by split_and!.
  - destruct Hh as (? & ? & ?). apply (quiet_step own pre _ st st (Calling t i) _ []); try done; [by right; right|].
    intros n Hn Hd. exists n. rewrite app_nil_r. split_and!; [by left|done..].
  - destruct Hh as (? & ? & ?). apply (quiet_step own pre _ st st (Loop t i) _ []); try done.
    intros n Hn Hd. exists n. rewrite app_nil_r. by split_and!.
  - destruct I as [_ _ (A & B & C & n & EA & EC & Hsub & Hq & Hn & _)]. destruct Hh as (? & Hquiet). split.
    + split; cbn; [apply W|done|apply W|apply W].
    + left. done.
    + exists (A ++ B), [], (C ++ take n (queue st)), O. rewrite arrivals_app, calls_app, EA, EC, !app_nil_r.
      split_and!; try done; [|by right]. apply sublist_app; [done|]. rewrite Hq.
      etrans; apply sublist_take.
  - destruct (l_signal_spec t L st st' r W) as (W' & E1 & E2 & E3 & E4 & E5 & E6); [done|].
    assert (forall own, quiet own st' <-> quiet own st) as Eq by (intros o; unfold quiet; by rewrite E3).
    assert (queue st' = queue st) as EQ by (unfold queue; by rewrite E1, E2).
    apply (quiet_step own pre _ st st' ph _ []); try done.
    + destruct ph; cbn [hooked] in *; unfold armed; rewrite ?E2, ?E3, ?E4, ?E5, ?E6, ?Eq; done.
    + intros n Hn Hd. exists n. rewrite app_nil_r. split_and!; [|done..].
      destruct ph; cbn [handled] in *; rewrite ?Eq; done.
Qed.

Lemma start_inv own : program_hooks own -> inv own [] (signal_start own) Idle.
Proof.
  intros Hown. split.
  - split; cbn; [done|done|by left|]. intros sig v Hv. by rewrite lookup_empty in Hv.
  - by left.
  - exists [], [], [], O. split_and!; try done. by right.
Qed.

Lemma run_inv_from own pre m tr m' :
  program_hooks own -> inv own pre m.1 m.2 -> run m tr m' -> inv own (pre ++ tr) m'.1 m'.2.
Proof.
  intros Hown. apply (run_ind_trace (fun pre m => inv own pre m.1 m.2)). intros. by eapply step_inv.
Qed.

Lemma run_inv own tr m :
  program_hooks own -> run (signal_start own, Idle) tr m -> inv own tr m.1 m.2.
Proof. intros Hown. apply (run_inv_from own []); [done|]. by apply start_inv. Qed.

(** ** Runs in which nothing is lost *)

(** At most 32 signals between two resets, none while [sighook] leaves, no error: [n] is
    the number of signals since the last reset, [w] is true between Exit and Reset. *)
Fixpoint calm (n : Z) (w : bool) tr : bool :=
  match tr with
  | [] => true
  | Arrive _ :: tr => negb w && (n <? MAX_PENDING_SIGNALS) && calm (n + 1) w tr
  | Exit :: tr => calm n true tr
  | Reset :: tr => calm 0 false tr
  | Fail :: _ => false
  | _ :: tr => calm n w tr
  end.

Definition leaving (ph : phase) : bool := match ph with Leaving _ => true | _ => false end.

(** The signals whose handlers have to be called before the reset. *)
Definition todo (m : machine) : list Z :=
  match m.2 with
  | Idle => queue m.1
  | Loop _ i => drop (Z.to_nat i) (queue m.1)
  | Calling _ i => drop (Z.to_nat (i + 1)) (queue m.1)
  | Leaving _ => []
  end.

Lemma calm_arrive own pre sig st st' ph :
  inv own pre st ph -> sig ∈ caught st -> handle sig st = Done st' -> leaving ph = false -> nsig st < MAX_PENDING_SIGNALS ->
  nsig st' = nsig st + 1 /\ todo (st', ph) = todo (st, ph) ++ [sig].
Proof.
  intros I Hc E Hl Hlt. pose proof (inv_wf _ _ _ _ I) as W. pose proof (inv_hooked _ _ _ _ I) as Hh.
  assert (is_Some (Lsig st)) as HL by (destruct (wf_thread _ W) as [Hc'|?]; [set_solver|done]).
  destruct (handle_spec sig st W HL) as (st1 & E' & _ & _ & Hq & Hn & _). rewrite E in E'. injection E' as <-.
  rewrite (proj2 (Z.ltb_lt _ _) Hlt) in Hq, Hn. split; [done|].
  pose proof (length_queue _ W) as Hlen. unfold todo.
  destruct ph; cbn [fst snd hooked leaving] in *; rewrite ?Hq; try done; destruct Hh as (? & ? & ?);
    rewrite drop_app_le by lia; done.
Qed.

Lemma calm_step own pre m l m' tr :
  program_hooks own -> inv own pre m.1 m.2 -> step m l m' -> calm (nsig m.1) (leaving m.2) (l :: tr) = true ->
  calm (nsig m'.1) (leaving m'.2) tr = true /\ todo m ++ arrivals [l] = calls [l] ++ todo m'.
Proof.
  intros Hown I Hs. pose proof (inv_wf _ _ _ _ I) as W. pose proof (inv_hooked _ _ _ _ I) as Hh.
  pose proof (length_queue _ W) as Hlen.
  destruct Hs as [st ph sig st' Hc E|st t Ht|st t i sig f Hi Hg Hf|st t i sig Hi Hg Hf|st t i|st t i|st t i Hi|st t|st ph t L st' r Hph E];
    cbn [fst snd hooked leaving calm] in *.
  - rewrite !andb_true_iff, negb_true_iff, Z.ltb_lt. intros [[Hl Hlt] Htr].
    destruct (calm_arrive own pre sig st st' ph I Hc E Hl Hlt) as [-> ->]. by split.
  - intros Htr. split; [done|]. by rewrite app_nil_r.
  - intros Htr. split; [done|]. rewrite app_nil_r. unfold todo; cbn [fst snd].
    destruct Hh as (? & ? & ?). replace (Z.to_nat (i + 1)) with (S (Z.to_nat i)) by lia.
    rewrite (drop_S _ sig (Z.to_nat i)); [done|]. apply mem_get_queue; (done || lia).
  - done.
  - intros Htr. split; [done|]. apply app_nil_r.
  - done.
  - intros Htr. split; [done|]. destruct Hh as (? & ? & ?). unfold todo; cbn [fst snd].
    rewrite drop_ge by lia. done.
  - done.
  - destruct (l_signal_spec t L st st' r W E) as (_ & E1 & E2 & _). rewrite E2. intros Htr. split; [done|].
    rewrite app_nil_r. assert (queue st' = queue st) as EQ by (unfold queue; by rewrite E1, E2).
    unfold todo. destruct ph; cbn [fst snd]; by rewrite ?EQ.
Qed.

Lemma calm_run own pre m tr m' :
  program_hooks own -> inv own pre m.1 m.2 -> run m tr m' -> calm (nsig m.1) (leaving m.2) tr = true ->
  arrivals pre = calls pre ++ todo m -> arrivals (pre ++ tr) = calls (pre ++ tr) ++ todo m'.
Proof.
  intros Hown I Hr. revert pre I. induction Hr as [m|m l m1 tr m2 Hs _ IH]; intros pre I Hc E.
  - by rewrite app_nil_r.
  - rewrite cons_middle, app_assoc. destruct (calm_step own pre m l m1 tr Hown I Hs Hc) as [Hc1 Ht].
    apply IH; [by eapply step_inv|done|].
    rewrite arrivals_app, calls_app, E, <- !app_assoc. f_equal. exact Ht.
Qed.

(** ** The hook is installed *)

(** Unless an error left the hook, signals that wait have it installed. *)
Definition awake own (m : machine) : Prop := m.2 = Idle -> 0 < nsig m.1 -> exists t, armed own m.1 t.

Lemma awake_step own pre m l m' :
  program_hooks own -> inv own pre m.1 m.2 -> awake own m -> step m l m' -> l <> Fail -> awake own m'.
Proof.
  intros Hown I A Hs Hl. pose proof (step_inv own pre m l m' Hown I Hs) as [_ Hh' _].
  pose proof (inv_wf _ _ _ _ I) as W. unfold awake in *.
  destruct Hs as [st ph sig st' Hc E|st t Ht| | | | | |st t|st ph t L st' r Hph E]; cbn [fst snd] in *; try done.
  - intros -> Hpos. destruct Hh' as [[? _]|[[_ Ha]|[_ Hq]]]; [lia|done|].
    assert (is_Some (Lsig st)) as HL by (destruct (wf_thread _ W) as [Hc'|?]; [set_solver|done]).
    destruct (handle_spec sig st W HL) as (st1 & E' & _ & _ & _ & _ & Hk). rewrite E in E'. injection E' as <-.
    assert (exists t, hook (hooks st' t) = sighook) as [t Ht].
    { destruct (Z.eqb_spec (nsig st) 0) as [Hz|Hnz].
      - destruct Hk as (t & _ & Hk & _). exists t. by rewrite Hk, decide_True.
      - destruct (A eq_refl) as (t & Ha & _); [pose proof (wf_nsig _ W); lia|].
        exists t. destruct Hk as (-> & _). by rewrite Ha, decide_True. }
    exfalso. rewrite Hq in Ht. by apply (Hown t).
  - intros -> Hpos. destruct (l_signal_spec t L st st' r W E) as (_ & _ & E2 & E3 & E4 & E5 & E6).
    unfold armed. rewrite E3, E4, E5, E6. apply A; [done|lia].
Qed.

Lemma awake_run own pre m tr m' :
  program_hooks own -> inv own pre m.1 m.2 -> awake own m -> run m tr m' -> Forall (fun l => l <> Fail) tr -> awake own m'.
Proof.
  intros Hown I A Hr. revert pre I A. induction Hr as [|m l m1 tr m2 Hs _ IH]; intros pre I A Hf; [done|].
  apply Forall_cons in Hf as [Hl Hf]. apply (IH (pre ++ [l])); [by eapply step_inv|by eapply awake_step|done].
Qed.

Lemma awake_from_start own tr m :
  program_hooks own -> run (signal_start own, Idle) tr m -> Forall (fun l => l <> Fail) tr -> awake own m.
Proof.
  intros Hown Hr. apply (awake_run own [] (signal_start own, Idle) tr m Hown (start_inv own Hown)); [|done]. intros _ Hn. cbn in Hn. lia.
Qed.

Lemma calm_no_fail n w tr : calm n w tr = true -> Forall (fun l => l <> Fail) tr.
Proof.
  revert n w. induction tr as [|l tr IH]; intros n w Hc; [done|].
  destruct l; cbn [calm] in Hc; rewrite ?andb_true_iff in Hc; try done; constructor; try done;
    first [by eapply IH|destruct Hc as [_ Hc]; by eapply IH].
Qed.

(** ** The hook runs to its end *)

(** The steps of the hook itself, the handlers that it calls returning. *)
Definition of_hook (l : label) : Prop :=
  match l with Call _ _ | Return | Exit | Reset => True | _ => False end.

Lemma loop_run st t k : forall i,
  0 <= i -> i + Z.of_nat k = nsig st -> (forall sig, sig ∈ queue st -> is_Some (handlers st !! sig)) -> wf st ->
  exists tr, run (st, Loop t i) tr (st, Loop t (nsig st)) /\ calls tr = drop (Z.to_nat i) (queue st) /\
    Forall of_hook tr /\ length tr = (2 * k)%nat.
Proof.
  induction k as [|k IH]; intros i Hi Hk Hf W; pose proof (length_queue _ W) as Hlen.
  - assert (i = nsig st) as -> by lia. exists []. split; [constructor|]. rewrite drop_ge by lia. done.
  - destruct (IH (i + 1)) as (tr & Hr & Hc & Ho & Hl); [lia..|done|done|].
    destruct (lookup_lt_is_Some_2 (queue st) (Z.to_nat i)) as [sig Hsig]; [lia|].
    destruct (Hf sig) as [f Hfs]; [by apply list_elem_of_lookup_2 with (Z.to_nat i)|].
    exists (Call sig f :: Return :: tr). split_and!.
    + econstructor; [apply step_call with (sig := sig); [lia| |done]|econstructor; [apply step_return|done]].
      apply mem_get_done; [done|]. unfold queue in Hsig. by apply lookup_take_Some in Hsig as [? _].
    + cbn. rewrite (drop_S _ sig (Z.to_nat i)) by done. f_equal. fold (calls tr). rewrite Hc. f_equal. lia.
    + by repeat constructor.
    + cbn [length]. lia.
Qed.

(** Where the hook can be after it fired on [t] in [st] and made the steps [ls]. *)
Inductive hook_at st t : list label -> machine -> Prop :=
  | at_loop ls i : 0 <= i <= nsig st -> calls ls = take (Z.to_nat i) (queue st) -> length ls = Z.to_nat (2 * i) ->
      hook_at st t ls (st, Loop t i)
  | at_call ls i : 0 <= i < nsig st -> calls ls = take (Z.to_nat (i + 1)) (queue st) -> length ls = Z.to_nat (2 * i + 1) ->
      hook_at st t ls (st, Calling t i)
  | at_leave ls : calls ls = queue st -> length ls = Z.to_nat (2 * nsig st + 1) -> hook_at st t ls (st, Leaving t)
  | at_end ls : calls ls = queue st -> length ls = Z.to_nat (2 * nsig st + 2) -> hook_at st t ls (sighook_reset st, Idle).

Lemma hook_at_step st t ls m l m' :
  wf st -> hook_at st t ls m -> step m l m' -> of_hook l -> hook_at st t (ls ++ [l]) m'.
Proof.
  intros W Hat Hs Ho. pose proof (length_queue _ W) as Hlen. pose proof (wf_nsig _ W).
  destruct Hat as [ls i Hi Hc Hl|ls i Hi Hc Hl|ls Hc Hl|ls Hc Hl]; inversion Hs; subst; try done.
  - apply at_call; [lia| |rewrite length_app; cbn [length]; lia]. rewrite calls_app, Hc. cbn [calls omap list_omap].
    replace (Z.to_nat (i + 1)) with (S (Z.to_nat i)) by lia. symmetry. apply take_S_r. apply mem_get_queue; (done || lia).
  - apply at_leave; [|rewrite length_app; cbn [length]; lia]. rewrite calls_app, Hc, app_nil_r. apply take_ge. lia.
  - apply at_loop; [lia|by rewrite calls_app, app_nil_r|rewrite length_app; cbn [length]; lia].
  - apply at_end; [by rewrite calls_app, app_nil_r|rewrite length_app; cbn [length]; lia].
Qed.

Lemma hook_at_run st t ls m :
  wf st -> run (st, Loop t 0) ls m -> Forall of_hook ls -> hook_at st t ls m.
Proof.
  intros W Hr. apply (run_ind_trace (fun ls m => Forall of_hook ls -> hook_at st t ls m)) with (pre := []) (m := (st, Loop t 0)); [| |done].
  - intros pre m1 l m2 IH Hs [Hp [Hl _]%Forall_cons]%Forall_app. apply (hook_at_step st t pre m1 l m2 W (IH Hp) Hs Hl).
  - intros _. apply at_loop; [pose proof (wf_nsig _ W); lia|done|done].
Qed.

(** From each of these points the hook ends, having called the whole queue. *)
Lemma hook_at_ends st t ls m :
  wf st -> (forall sig, sig ∈ queue st -> is_Some (handlers st !! sig)) -> hook_at st t ls m ->
  exists ls', run m ls' (sighook_reset st, Idle) /\ Forall of_hook ls' /\ calls (ls ++ ls') = queue st /\
    length (ls ++ ls') = Z.to_nat (2 * nsig st + 2).
Proof.
  intros W Hf Hat. pose proof (length_queue _ W) as Hlen. pose proof (wf_nsig _ W).
  assert (Hleave : run (st, Leaving t) [Reset] (sighook_reset st, Idle)) by (econstructor; [apply step_reset|constructor]).
  assert (Hexit : run (st, Loop t (nsig st)) [Exit; Reset] (sighook_reset st, Idle)) by (econstructor; [by apply step_exit|done]).
  destruct Hat as [ls i Hi Hc Hl|ls i Hi Hc Hl|ls Hc Hl|ls Hc Hl].
  - destruct (loop_run st t (Z.to_nat (nsig st - i)) i) as (tr & Hr & Ec & Ho & El); [lia..|done|done|].
    exists (tr ++ [Exit; Reset]). split_and!; [by eapply run_app|apply Forall_app; split; [done|by repeat constructor]| |].
    + rewrite !calls_app, Hc, Ec. cbn. rewrite app_nil_r. apply take_drop.
    + rewrite !length_app. cbn [length]. lia.
  - destruct (loop_run st t (Z.to_nat (nsig st - (i + 1))) (i + 1)) as (tr & Hr & Ec & Ho & El); [lia..|done|done|].
    exists (Return :: tr ++ [Exit; Reset]). split_and!.
    + econstructor; [apply step_return|by eapply run_app].
    + constructor; [done|]. apply Forall_app; split; [done|by repeat constructor].
    + rewrite calls_app. change (calls (Return :: tr ++ [Exit; Reset])) with (calls (tr ++ [Exit; Reset])).
      rewrite calls_app, Hc, Ec. cbn. rewrite app_nil_r. apply take_drop.
    + rewrite length_app. cbn [length]. rewrite length_app. cbn [length]. lia.
  - exists [Reset]. split_and!; [done|apply Forall_singleton; exact I|by rewrite calls_app, app_nil_r|rewrite length_app; cbn [length]; lia].
  - exists []. rewrite app_nil_r. split_and!; [constructor|done..].
Qed.

(** After an error: the queue is not empty and no hook is installed. *)
Definition dead own (m : machine) : Prop := m.2 = Idle /\ 0 < nsig m.1 /\ quiet own m.1 /\ wf m.1.

Lemma dead_step own m l m' : program_hooks own -> dead own m -> step m l m' -> dead own m' /\ calls [l] = [].
Proof.
  intros Hown (Hph & Hn & Hq & W) Hs.
  destruct Hs as [st ph sig st' Hc E|st t Ht| | | | | | |st ph t L st' r Hph' E]; cbn [fst snd] in *; try done.
  - assert (is_Some (Lsig st)) as HL by (destruct (wf_thread _ W) as [Hc'|?]; [set_solver|done]).
    destruct (handle_spec sig st W HL) as (st1 & E' & W' & _ & _ & Hn' & Hk). rewrite E in E'. injection E' as <-.
    destruct (Z.eqb_spec (nsig st) 0); [lia|]. destruct Hk as (Hk & _). split; [|done]. split_and!; cbn [fst snd]; try done.
    + rewrite Hn'. case_match; lia.
    + intros t. rewrite Hk. apply Hq.
  - exfalso. rewrite Hq in Ht. by apply (Hown t).
  - destruct (l_signal_spec t L st st' r W E) as (W' & E1 & E2 & E3 & _). split; [|done].
    split_and!; cbn [fst snd]; try done; [lia|]. intros t'. rewrite E3. apply Hq.
Qed.

Lemma dead_run own m tr m' : program_hooks own -> dead own m -> run m tr m' -> dead own m' /\ calls tr = [].
Proof.
  intros Hown D Hr. induction Hr as [m|m l m1 tr m2 Hs _ IH]; [by split|].
  destruct (dead_step own m l m1 Hown D Hs) as [D1 Hl]. destruct (IH D1) as [? Htr]. split; [done|].
  change (l :: tr) with ([l] ++ tr). by rewrite calls_app, Hl, Htr.
Qed.

Lemma arrive_leaving_run st t ss m : run (st, Leaving t) (Arrive <$> ss) m -> exists st', m = (st', Leaving t).
Proof.
  revert st. induction ss as [|x ss IH]; intros st Hr; inversion Hr as [|? ? m1 ? ? Hs Hr']; subst; [by exists st|].
  inversion Hs; subst. by eapply IH.
Qed.

End machine.

(** ** The table of names *)

Section names.
Context `{LuaAux, Signals}.

Definition add_name (t : gmap bytes Z) (p : string * Z) : gmap bytes Z := <[string_bytes p.1 := p.2]> t.

Lemma signal_table_foldl : signal_table = foldl add_name ∅ lua_signals.
Proof. unfold signal_table. generalize (∅ : gmap bytes Z). by induction lua_signals as [|[] l IH]; intros t; cbn. Qed.

Lemma foldl_other l t s : (forall p, p ∈ l -> string_bytes p.1 <> s) -> foldl add_name t l !! s = t !! s.
Proof.
  revert t. induction l as [|p l IH]; intros t Hl; [done|]. cbn [foldl]. rewrite IH by (intros; apply Hl; by right).
  unfold add_name. apply lookup_insert_ne, Hl. by left.
Qed.

Lemma foldl_name l t p : NoDup (string_bytes <$> l.*1) -> p ∈ l -> foldl add_name t l !! string_bytes p.1 = Some p.2.
Proof.
  revert t. induction l as [|q l IH]; intros t Hnd Hp; [by apply elem_of_nil in Hp|].
  apply NoDup_cons in Hnd as [Hx Hnd]. cbn [foldl]. apply elem_of_cons in Hp as [->|Hp]; [|by apply IH].
  rewrite foldl_other; [apply lookup_insert_eq|]. intros r Hr E. apply Hx. rewrite <- E.
  do 2 apply list_elem_of_fmap_2. done.
Qed.

Lemma names_nodup : NoDup (string_bytes <$> signal_names).
Proof. by_decision. Qed.

Lemma lua_signals_nodup : NoDup (string_bytes <$> lua_signals.*1).
Proof.
  pose proof names_nodup as Hnd. unfold lua_signals. induction signal_names as [|x l IH]; [constructor|].
  apply NoDup_cons in Hnd as [Hx Hnd]. cbn. destruct (signum x) as [n|]; cbn; [|by apply IH].
  constructor; [|by apply IH]. intros Hin. apply Hx. apply list_elem_of_fmap in Hin as (y & Ey & Hy).
  eapply list_elem_of_fmap_2'; [|exact Ey]. apply list_elem_of_fmap in Hy as ([z n'] & -> & Hz).
  apply list_elem_of_omap in Hz as (z' & Hz & E). destruct (signum z'); [|done]. by injection E as <- _.
Qed.

(** A name of the list designates the number it has in <signal.h>, any other string none. *)
Lemma signal_table_name name sig :
  name ∈ signal_names -> signum name = Some sig -> signal_table !! string_bytes name = Some sig.
Proof.
  intros Hn Hs. rewrite signal_table_foldl. apply (foldl_name _ _ (name, sig)); [apply lua_signals_nodup|].
  unfold lua_signals. apply list_elem_of_omap. exists name. by rewrite Hs.
Qed.

Lemma lua_signals_elem p : p ∈ lua_signals -> p.1 ∈ signal_names.
Proof.
  unfold lua_signals. generalize signal_names as l. intros l Hp. apply list_elem_of_omap in Hp as (z & Hz & E).
  destruct (signum z); [|done]. by injection E as <-.
Qed.

Lemma signal_table_other s :
  (forall name, name ∈ signal_names -> string_bytes name <> s) -> signal_table !! s = None.
Proof.
  intros Hs. rewrite signal_table_foldl. rewrite foldl_other.
  - rewrite lookup_empty. reflexivity.
  - intros p Hp. apply (Hs p.1), lua_signals_elem, Hp.
Qed.

End names.

(** ** Properties *)

Section properties.
Context `{LuaAux, Signals}.
Implicit Types (st : state) (m : machine) (tr : list label) (own : Z -> lua_Hook).

(** C24. However signals, the hook, the Lua handlers and calls of signal.signal interleave,
    the queue stays within its array of 32, the C handler finds the Lua thread it needs,
    and the Lua handlers are called for signals that arrived, in the order of arrival and
    never more often than they arrived. *)
Theorem signal_order own tr st ph :
  program_hooks own -> run (signal_start own, Idle) tr (st, ph) ->
  zlen (signals st) = MAX_PENDING_SIGNALS /\ 0 <= nsig st <= MAX_PENDING_SIGNALS /\
  (forall sig, sig ∈ caught st -> exists st', handle sig st = Done st') /\
  calls tr `sublist_of` arrivals tr.
Proof.
  intros Hown Hr. destruct (run_inv own tr _ Hown Hr) as [W _ (A & B & C & n & -> & -> & Hsub & Hq & _)]. cbn [fst snd] in *.
  split_and!; [apply W|apply W|apply W| |].
  - intros sig Hc. destruct (wf_thread _ W) as [?|HL]; [set_solver|].
    destruct (handle_spec sig st W HL) as (st' & E & _). by exists st'.
  - apply sublist_app; [done|]. rewrite Hq. etrans; apply sublist_take.
Qed.


(** C25. As long as no handler raised and no signal found its handler removed, signals that
    wait are delivered: the hook of exactly one thread is installed, and once it fires in
    that thread, and while the handlers that it calls return and nothing else happens, the
    hook can always go on to its end; whichever way it does, it has then called, after
    twice as many steps as signals waited and two more, the handlers of the whole queue in
    order, emptied the queue and put the hooks of the program back. *)
Theorem signal_delivers own tr st :
  program_hooks own -> run (signal_start own, Idle) tr (st, Idle) -> Forall (fun l => l <> Fail) tr -> 0 < nsig st ->
  (forall sig, sig ∈ queue st -> is_Some (handlers st !! sig)) ->
  exists t, (forall t', hook (hooks st t') = sighook <-> t' = t) /\
    (exists m, step (st, Idle) (Fire t) m) /\
    forall ls m, run (st, Idle) (Fire t :: ls) m -> Forall of_hook ls ->
      exists ls' st', run m ls' (st', Idle) /\ Forall of_hook ls' /\
        calls (ls ++ ls') = queue st /\ length (ls ++ ls') = Z.to_nat (2 * nsig st + 2) /\ nsig st' = 0 /\ quiet own st'.
Proof.
  intros Hown Hr Hnf Hn Hf. pose proof (run_inv own tr _ Hown Hr) as I. cbn [fst snd] in I.
  destruct (awake_from_start own tr (st, Idle) Hown Hr Hnf eq_refl Hn) as (t & Ha & Hs).
  cbn [fst] in Ha. pose proof (armed_iff own st t Hown Ha) as Ht. exists t. split; [done|].
  pose proof (fire_inv own tr st t Hown I (proj2 (Ht t) eq_refl)) as [W' Hh' _]. cbn [hooked] in Hh'.
  split; [eexists; apply step_fire; by apply Ht|].
  intros ls m Hrun Ho. inversion Hrun as [|? ? m1 ? ? Hfire Hrun']; subst. inversion Hfire; subst.
  destruct (hook_at_ends (sighook_enter t st) t ls m) as (ls' & Hr' & Ho' & Hc & Hl); [done|done|by apply hook_at_run|].
  exists ls', (sighook_reset (sighook_enter t st)). split_and!; [done..|apply Hh'].
Qed.

(** Whenever the hook is not running and no signal waits, the debug hooks of all
    threads are those the program had installed itself. *)
Theorem signal_hook_restored own tr st t :
  program_hooks own -> run (signal_start own, Idle) tr (st, Idle) -> nsig st = 0 -> hooks st t = own t.
Proof.
  intros Hown Hr Hn. destruct (run_inv own tr _ Hown Hr) as [_ Hh _]. cbn [fst snd hooked] in Hh.
  destruct Hh as [[_ Hq]|[[? _]|[? _]]]; [apply Hq|lia..].
Qed.

(** C40. An error in a Lua handler (or a signal whose handler was removed meanwhile) leaves
    [nsig] positive with the hook gone: whatever happens afterwards, no Lua handler is
    ever called again. *)
Theorem signal_error_stops own tr1 m1 m2 tr2 m3 :
  program_hooks own -> run (signal_start own, Idle) tr1 m1 -> step m1 Fail m2 -> run m2 tr2 m3 ->
  calls tr2 = [] /\ m3.2 = Idle /\ 0 < nsig m3.1.
Proof.
  intros Hown Hr Hs Hr2. pose proof (run_inv own tr1 _ Hown Hr) as [W Hh _].
  assert (dead own m2) as D.
  { inversion Hs; subst; cbn [fst snd hooked] in *; destruct Hh as (? & ? & ?); by split_and!. }
  destruct (dead_run own m2 tr2 m3 Hown D Hr2) as [(? & ? & _) ?]. by split_and!.
Qed.

(** The Lua handlers after [luaopen] ran once more: the registry has a new table. *)
Definition reloaded st : state :=
  {| Lsig := Lsig st; Hsig := Hsig st; Hmask := Hmask st; Hcount := Hcount st;
     signals := signals st; nsig := nsig st; hooks := hooks st; handlers := ∅; caught := caught st |}.

(** A signal that is caught when the module is loaded again ends the delivery of signals:
    the hook finds no handler and raises, and no Lua handler is ever called afterwards. *)
Theorem signal_reload_stops own tr st sig t :
  program_hooks own -> run (signal_start own, Idle) tr (st, Idle) -> nsig st = 0 -> sig ∈ caught st -> Lsig st = Some t ->
  exists m, run (reloaded st, Idle) [Arrive sig; Fire t; Fail] m /\
    forall tr2 m2, run m tr2 m2 -> calls tr2 = [].
Proof.
  intros Hown Hr Hn Hc Ht. destruct (run_inv own tr _ Hown Hr) as [W Hh _]. cbn [fst snd] in *.
  assert (Hq : quiet own st) by (destruct Hh as [[_ ?]|[[? _]|[? _]]]; [done|lia..]).
  assert (W0 : wf (reloaded st)) by (destruct W; by split).
  destruct (handle_spec sig (reloaded st) W0) as (st1 & E & W1 & (E1 & E2 & E3) & Eq & En & Hk); [by eexists|].
  cbn [reloaded nsig] in Eq, En, Hk. rewrite Hn in Eq, En, Hk. cbn in Eq, En, Hk.
  destruct Hk as (t' & Ht' & Hhk & Hsave). cbn in Ht'. rewrite Ht in Ht'. injection Ht' as <-.
  assert (Hmem : mem_get (signals (sighook_enter t st1)) 0 = Done sig).
  { change (signals (sighook_enter t st1)) with (signals st1). unfold queue in Eq. cbn [reloaded nsig] in Eq. rewrite En, Hn in Eq. cbn in Eq.
    destruct (signals st1) as [|x l]; [done|]. by injection Eq as ->. }
  exists (sighook_enter t st1, Idle). split.
  - eapply run_cons; [by apply step_arrive|]. eapply run_cons; [apply step_fire; by rewrite Hhk, decide_True|].
    eapply run_cons; [|apply run_nil]. eapply step_nil; [|exact Hmem|].
    + change (nsig (sighook_enter t st1)) with (nsig st1). lia.
    + change (handlers (sighook_enter t st1)) with (handlers st1). by rewrite E2.
  - intros tr2 m2 Hr2. eapply (dead_run own); [done| |exact Hr2]. split_and!; cbn [fst snd]; [done| | |].
    + change (nsig (sighook_enter t st1)) with (nsig st1). lia.
    + intros t'. unfold sighook_enter, set_hook. cbn [hooks]. case_decide as Hd.
      * subst t'. rewrite Hsave. cbn [reloaded hooks]. rewrite Hq. apply Hown.
      * rewrite Hhk, decide_False by done. apply Hq.
    + apply (wf_same st1); [done..| |apply W1]. right. exists t. by rewrite <- Ht.
Qed.

(** Signals that arrive after the hook's loop ended and before the queue is reset are
    lost: after the reset, the handlers called are only those of later signals. *)
Theorem signal_lost_in_window own tr1 st t ss m tr2 m2 :
  program_hooks own -> run (signal_start own, Idle) tr1 (st, Leaving t) ->
  run (st, Leaving t) ((Arrive <$> ss) ++ [Reset]) m -> run m tr2 m2 ->
  nsig m.1 = 0 /\ quiet own m.1 /\ calls tr2 `sublist_of` arrivals tr2.
Proof.
  intros Hown Hr1 Hrw Hr2. pose proof (run_app _ _ _ _ _ Hr1 Hrw) as Hr.
  pose proof (run_inv own _ _ Hown Hr) as [W Hh _].
  assert (m.2 = Idle /\ nsig m.1 = 0) as [Hph Hn].
  { clear - Hrw. revert st Hrw. induction ss as [|x ss IH]; intros st Hrw; inversion Hrw as [|? ? m1 ? ? Hs Hr']; subst.
    - inversion Hs; subst. by inversion Hr'; subst.
    - inversion Hs; subst. by eapply IH. }
  rewrite Hph in Hh. destruct Hh as [[_ Hq]|[[? _]|[? _]]]; [|lia..].
  split; [done|]. split; [done|]. destruct m as [st' ph']. cbn [fst snd] in *. subst ph'.
  assert (inv own [] st' Idle) as I.
  { split; [done|by left|]. exists [], [], [], O. split_and!; try done; [|unfold queue; rewrite Hn; cbn; lia|by right].
    unfold queue. by rewrite Hn. }
  destruct (run_inv_from own [] (st', Idle) tr2 m2 Hown I Hr2) as [_ _ (A & B & C & n & EA & EC & Hsub & Hq' & _)].
  cbn [app] in EA, EC. rewrite EA, EC. apply sublist_app; [done|]. rewrite Hq'. etrans; apply sublist_take.
Qed.

(** signal.signal with the name or the number of a signal: with a function it
    installs it and returns whether the system accepts a handler for that signal; without
    one, or with nil, it returns the function installed before, removes it and restores
    the default action. Other signals keep their handlers. *)
Theorem signal_set_clear v sig f t t' st :
  (v = VInt sig /\ is_int sig \/ exists name, v = VStr (string_bytes name) /\ name ∈ signal_names /\ signum name = Some sig /\ is_int sig) ->
  exists st1 st2, l_signal t [v; VFun f] st = Done (st1, [VBool (catchable sig)]) /\
    handlers st1 = <[sig := VFun f]> (handlers st) /\
    (catchable sig = true -> sig ∈ caught st1) /\ Lsig st1 = Some t /\
    l_signal t' [v] st1 = Done (st2, [VFun f]) /\ l_signal t' [v; VNil] st1 = Done (st2, [VFun f]) /\
    handlers st2 = delete sig (handlers st) /\ sig ∉ caught st2.
Proof.
  intros Hv.
  assert (forall rest, signal_arg (v :: rest) 1 = Done sig) as Hs.
  { intros rest. unfold signal_arg, luaL_checkany, value_tointeger.
    destruct Hv as [[-> Hi]|(name & -> & Hn & Es & Hi)];
      change (lua_arg (?x :: rest) 1) with (Some x); cbn [mbind outcome_bind type_of].
    - rewrite tointegerx_int by range. change (default 0 (Some sig)) with sig. by rewrite int_small.
    - rewrite (signal_table_name name sig) by done. rewrite tointegerx_int by range.
      change (default 0 (Some sig)) with sig. by rewrite int_small. }
  eexists _, _. split; [unfold l_signal; rewrite Hs; reflexivity|]. split; [done|]. split.
  { intros ->. apply elem_of_union_l, elem_of_singleton. done. }
  split; [done|]. split; [|split; [|split]].
  - unfold l_signal. rewrite Hs. cbn. by rewrite lookup_partial_alter_eq.
  - unfold l_signal. rewrite Hs. cbn. by rewrite lookup_partial_alter_eq.
  - apply map_eq. intros k. cbn. destruct (decide (k = sig)) as [->|].
    + by rewrite lookup_partial_alter_eq, lookup_delete_eq.
    + by rewrite !lookup_partial_alter_ne, lookup_delete_ne.
  - cbn. rewrite elem_of_difference, elem_of_singleton. tauto.
Qed.

(** A string that is not the name of a signal makes signal.signal, signal.raise and
    signal.kill raise "invalid signal string", before anything changes. *)
Theorem signal_bad_name s rest t raise kill pid st :
  (forall name, name ∈ signal_names -> string_bytes name <> s) -> is_Some (lua_tonumberx pid) ->
  l_signal t (VStr s :: rest) st = Raise (LuaError "invalid signal string") /\
  l_raise raise (VStr s :: rest) st = Raise (LuaError "invalid signal string") /\
  l_kill kill (pid :: VStr s :: rest) = Raise (LuaError "invalid signal string").
Proof.
  intros Hs [d Hd]. pose proof (signal_table_other s Hs) as E.
  assert (luaL_checknumber (pid :: VStr s :: rest) 1 = Done d) as En.
  { unfold luaL_checknumber. change (lua_arg (pid :: VStr s :: rest) 1) with (Some pid). cbn [mbind option_bind].
    by rewrite Hd. }
  unfold l_signal, signal_arg, l_raise, l_kill, luaL_checkany. rewrite En.
  change (lua_arg (VStr s :: rest) 1) with (Some (VStr s)).
  change (lua_arg (pid :: VStr s :: rest) 2) with (Some (VStr s)). cbn [mbind outcome_bind type_of]. by rewrite E.
Qed.

End properties.

(** ** Witnesses *)

(** Some signals of Linux; all but KILL and STOP accept a handler. *)
Definition linux_numbers : list (string * Z) :=
  [("SIGHUP"%string, 1); ("SIGINT"%string, 2); ("SIGKILL"%string, 9); ("SIGUSR1"%string, 10);
   ("SIGTERM"%string, 15); ("SIGSTOP"%string, 19)].

Definition linux_signals : Signals := {|
  signum name := match list_find (fun p => p.1 = name) linux_numbers with Some (_, (_, n)) => Some n | None => None end;
  catchable sig := (1 <=? sig) && (sig <=? 64) && negb (sig =? 9) && negb (sig =? 19);
|}.

#[local] Existing Instances lua_strict linux_signals.

Definition own_hooks (t : Z) : lua_Hook := no_hook.

Lemma own_hooks_ok : program_hooks own_hooks.
Proof. by split. Qed.

(** signal.signal("SIGTERM", f), then two signals and a run of the hook; a third one
    arrives while the first handler runs. *)
Definition sample_install : list label := [Lua 0 [VStr (string_bytes "SIGTERM"); VFun 7]].
Definition sample_trace : list label :=
  sample_install ++ [Arrive 15; Arrive 15; Fire 0; Call 15 (VFun 7); Arrive 15; Return;
   Call 15 (VFun 7); Return; Call 15 (VFun 7); Return; Exit; Reset].

Definition sample_end (tr : list label) : machine := default (signal_start own_hooks, Idle) (execute (signal_start own_hooks, Idle) tr).

Lemma sample_run : run (signal_start own_hooks, Idle) sample_trace ((sample_end sample_trace).1, Idle).
Proof. apply execute_run. vm_compute. reflexivity. Qed.

Lemma signal_order_witness : calls sample_trace `sublist_of` arrivals sample_trace /\ arrivals sample_trace = [15; 15; 15].
Proof.
  destruct (signal_order own_hooks sample_trace (sample_end sample_trace).1 Idle own_hooks_ok sample_run) as (_ & _ & _ & Hs).
  split; [exact Hs|done].
Defined.


Definition sample_pending : list label := sample_install ++ [Arrive 15; Arrive 15].

Lemma sample_pending_run : run (signal_start own_hooks, Idle) sample_pending ((sample_end sample_pending).1, Idle).
Proof. apply execute_run. vm_compute. reflexivity. Qed.

(** Two signals wait; the hook has called the first handler. *)
Lemma signal_delivers_witness :
  exists t m ls' st', run ((sample_end sample_pending).1, Idle) [Fire t; Call 15 (VFun 7)] m /\ run m ls' (st', Idle) /\
    calls (Call 15 (VFun 7) :: ls') = [15; 15] /\ nsig st' = 0.
Proof.
  destruct (signal_delivers own_hooks sample_pending (sample_end sample_pending).1 own_hooks_ok sample_pending_run)
    as (t & Ht & _ & Hd).
  - repeat constructor; discriminate.
  - vm_compute. reflexivity.
  - intros sig Hsig. assert (sig = 15) as ->.
    { assert (queue (sample_end sample_pending).1 = [15; 15]) as Eq by (vm_compute; reflexivity).
      rewrite Eq in Hsig. set_unfold. naive_solver. }
    vm_compute. by eexists.
  - assert (t = 0) as -> by (symmetry; apply Ht; vm_compute; reflexivity).
    pose (m := sample_end (sample_pending ++ [Fire 0; Call 15 (VFun 7)])).
    assert (run ((sample_end sample_pending).1, Idle) [Fire 0; Call 15 (VFun 7)] m) as Hr.
    { apply execute_run. vm_compute. reflexivity. }
    destruct (Hd [Call 15 (VFun 7)] m Hr ltac:(by repeat constructor)) as (ls' & st' & Hr' & _ & Hc & _ & Hn & _).
    exists 0, m, ls', st'. split_and!; [exact Hr|exact Hr'|etransitivity; [exact Hc|vm_compute; reflexivity]|exact Hn].
Defined.

Lemma signal_hook_restored_witness : hooks (sample_end sample_trace).1 0 = no_hook.
Proof.
  exact (signal_hook_restored own_hooks sample_trace (sample_end sample_trace).1 0 own_hooks_ok sample_run
    ltac:(vm_compute; reflexivity)).
Defined.

(** The first of two handlers raises; then more signals arrive. *)
Definition failing : list label := sample_pending ++ [Fire 0; Call 15 (VFun 7)].

Lemma failing_run : run (signal_start own_hooks, Idle) failing (sample_end failing).
Proof. apply execute_run. vm_compute. reflexivity. Qed.

Lemma signal_error_stops_witness :
  exists m3, run ((sample_end failing).1, Idle) [Arrive 15; Arrive 15] m3 /\ m3.2 = Idle /\ 0 < nsig m3.1.
Proof.
  set (m3 := sample_end (failing ++ [Fail; Arrive 15; Arrive 15])).
  assert (run ((sample_end failing).1, Idle) [Arrive 15; Arrive 15] m3) as Hr.
  { apply execute_run. vm_compute. reflexivity. }
  destruct (signal_error_stops own_hooks failing (sample_end failing) ((sample_end failing).1, Idle) [Arrive 15; Arrive 15] m3
    own_hooks_ok failing_run ltac:(apply next_step; vm_compute; reflexivity) Hr) as (_ & Hi & Hn).
  exists m3. by split_and!.
Defined.

Definition leaving_trace : list label :=
  sample_pending ++ [Fire 0; Call 15 (VFun 7); Return; Call 15 (VFun 7); Return; Exit].

Lemma leaving_run : run (signal_start own_hooks, Idle) leaving_trace ((sample_end leaving_trace).1, Leaving 0).
Proof. apply execute_run. vm_compute. reflexivity. Qed.

Lemma signal_lost_in_window_witness :
  exists m, run ((sample_end leaving_trace).1, Leaving 0) [Arrive 15; Reset] m /\ nsig m.1 = 0.
Proof.
  set (m := sample_end (leaving_trace ++ [Arrive 15; Reset])).
  assert (run ((sample_end leaving_trace).1, Leaving 0) [Arrive 15; Reset] m) as Hr by (apply execute_run; vm_compute; reflexivity).
  destruct (signal_lost_in_window own_hooks leaving_trace (sample_end leaving_trace).1 0 [15] m [] m own_hooks_ok leaving_run
    Hr (run_nil m)) as (Hn & _). by exists m.
Defined.

Lemma signal_set_clear_witness :
  exists st1 st2,
    l_signal 0 [VStr (string_bytes "SIGTERM"); VFun 7] (signal_start own_hooks) = Done (st1, [VBool true]) /\
    l_signal 0 [VStr (string_bytes "SIGTERM")] st1 = Done (st2, [VFun 7]) /\ 15 ∉ caught st2.
Proof.
  destruct (signal_set_clear (VStr (string_bytes "SIGTERM")) 15 7 0 0 (signal_start own_hooks)) as (st1 & st2 & E1 & _ & _ & _ & E2 & _ & _ & E3).
  - right. exists "SIGTERM"%string. split_and!; [done|by_decision|done|by_decision].
  - exists st1, st2. split_and!; [exact E1|exact E2|exact E3].
Defined.

Lemma signal_bad_name_witness :
  l_signal 0 [VStr [65]] (signal_start own_hooks) = Raise (LuaError "invalid signal string").
Proof.
  apply (signal_bad_name [65] [] 0 (fun _ => 0) (fun _ _ => 0) (VInt 1)); [|by eexists].
  apply Forall_forall. by_decision.
Defined.
