(* ===== verification/SignalFd.v ===== *)
(** * util-src/signal.c: descriptors that become readable when a signal arrives

    On Linux an object wraps a signalfd of the kernel.  Elsewhere it is a pipe: a static
    table of at most 32 objects, whose write ends the C handler [signal2fd] writes the
    signal to.  The theorems: a new object is notified of its signal, with all the others
    registered for it; what closing an object does to the table (it is right for the last
    one only) and that with 32 objects it reads outside the table; the Linux object. *)

From stdpp Require Import base tactics numbers list strings gmap.
From Stdlib Require Import ZArith Lia SpecFloat.
From S2P Require Import Prelude LuaApi.

Local Open Scope Z_scope.

Definition MAX_SIGNALFD : Z := 32.
Definition signalfd_mt : string := "signalfd".

(** The C structure; the kernel's object has no [write_fd]. *)
Record lsignalfd := { fd : Z; mask : gset Z; write_fd : Z }.

Definition zero_signalfd : lsignalfd := {| fd := 0; mask := ∅; write_fd := 0 |}.

(** The static variables. *)
Record table := { signalfds : list lsignalfd; signalfd_num : Z }.

Definition no_signalfds : table :=
  {| signalfds := replicate (Z.to_nat MAX_SIGNALFD) zero_signalfd; signalfd_num := 0 |}.

(** [sigaddset] on an empty set: nothing is added when [sig] is not a signal. *)
Class SigSets := { is_signal : Z -> bool }.

Section operations.
Context `{LuaAux, SigSets}.
Implicit Types (L : list value) (t : table) (o : lsignalfd).

Definition sigset (sig : Z) : gset Z := if is_signal sig then {[ sig ]} else ∅.

(** [for(i = 0; i < signalfd_num; i++)]: [n] iterations are left; the result is the list
    of the writes, each a descriptor and the signal. *)
Fixpoint signal2fd_loop (n : nat) (i : Z) (sig : Z) t : outcome (list (Z * Z)) :=
  match n with
  | O => Done []
  | S n =>
      e ← mem_get (signalfds t) i;
      ws ← signal2fd_loop n (i + 1) sig t;
      Done (if bool_decide (sig ∈ mask e) then (write_fd e, sig) :: ws else ws)
  end.

Definition signal2fd (sig : Z) t : outcome (list (Z * Z)) := signal2fd_loop (Z.to_nat (signalfd_num t)) 0 sig t.

(** [signal_ok]: what [signal(sig, signal2fd)] answers; [pipe]: the two ends, if it
    succeeds; [p]: the address of the object. *)
Definition l_signalfd (signal_ok : Z -> bool) (pipe : option (Z * Z)) (p : Z) L t
  : outcome (table * option lsignalfd * list value) :=
  n ← luaL_checkinteger L 1;
  let sig := cint n in
  if signalfd_num t >=? MAX_SIGNALFD then Done (t, None, [VNil])
  else if negb (signal_ok sig) then Done (t, None, [VNil])
  else
    match pipe with
    | None => Done (t, None, [VNil])
    | Some (r, w) =>
        let o := {| fd := r; mask := sigset sig; write_fd := w |} in
        fds ← mem_set (signalfds t) (signalfd_num t) o;
        Done ({| signalfds := fds; signalfd_num := signalfd_num t + 1 |}, Some o, [VUserdata signalfd_mt p])
    end.

Definition l_signalfd_getfd o L : outcome (list value) :=
  _ ← luaL_checkudata L 1 signalfd_mt;
  if fd o =? -1 then Done [VNil] else Done [VInt (fd o)].

(** [read] returns its result and the [int] at the start of the buffer. *)
Definition l_signalfd_read (read : Z -> Z * Z) o L : outcome (list value) :=
  _ ← luaL_checkudata L 1 signalfd_mt;
  let '(ret, signo) := read (fd o) in
  if ret <? 0 then Done [] else Done [VInt signo].

(** [for(i = signalfd_num; i > 0; i--)]: [i] iterations are left. *)
Fixpoint close_loop (i : nat) (x : Z) t : outcome table :=
  match i with
  | O => Done t
  | S i' =>
      e ← mem_get (signalfds t) (Z.of_nat i);
      t ← (if fd e =? x then
             last ← mem_get (signalfds t) (signalfd_num t);
             fds ← mem_set (signalfds t) (Z.of_nat i) last;
             Done {| signalfds := fds; signalfd_num := signalfd_num t - 1 |}
           else Done t);
      close_loop i' x t
  end.

Definition l_signalfd_close (close : Z -> Z) o L t : outcome (table * lsignalfd * list value) :=
  _ ← luaL_checkudata L 1 signalfd_mt;
  if negb (close (fd o) =? 0) then Done (t, o, [VBool false])
  else if negb (close (write_fd o) =? 0) then Done (t, o, [VBool false])
  else
    t ← close_loop (Z.to_nat (signalfd_num t)) (fd o) t;
    Done (t, {| fd := -1; mask := mask o; write_fd := write_fd o |}, [VBool true]).

(** ** With HAVE_SIGNALFD *)

(** The signals blocked in the process, and what [sigprocmask] and [signalfd] return for a
    set of signals. *)
Definition linux_signalfd (sigprocmask signalfd : gset Z -> Z) (p : Z) L (blocked : gset Z)
  : outcome (gset Z * option lsignalfd * list value) :=
  n ← luaL_checkinteger L 1;
  let m := sigset (cint n) in
  if negb (sigprocmask m =? 0) then Done (blocked, None, [VNil])
  else
    let blocked := blocked ∪ m in
    let r := signalfd m in
    if r =? -1 then Done (blocked, None, [VNil])
    else Done (blocked, Some {| fd := r; mask := m; write_fd := -1 |}, [VUserdata signalfd_mt p]).

Definition linux_signalfd_close (close : Z -> Z) o L : outcome (lsignalfd * list value) :=
  _ ← luaL_checkudata L 1 signalfd_mt;
  if negb (close (fd o) =? 0) then Done (o, [VBool false])
  else Done ({| fd := -1; mask := mask o; write_fd := write_fd o |}, [VBool true]).

End operations.

(** ** The registered objects *)

Section facts.
Context `{LuaAux, SigSets}.
Implicit Types (t : table) (o : lsignalfd).

Definition registered t : list lsignalfd := take (Z.to_nat (signalfd_num t)) (signalfds t).

(** What a signal makes the handler write. *)
Definition notifications (sig : Z) (os : list lsignalfd) : list (Z * Z) :=
  (fun o => (write_fd o, sig)) <$> filter (fun o => sig ∈ mask o) os.

Record wf t : Prop := {
  wf_size : zlen (signalfds t) = MAX_SIGNALFD;
  wf_num : 0 <= signalfd_num t <= MAX_SIGNALFD;
}.

Lemma length_registered t : wf t -> length (registered t) = Z.to_nat (signalfd_num t).
Proof. intros [Hs Hn]. unfold registered, zlen in *. rewrite length_take. lia. Qed.

Lemma signal2fd_loop_spec n i sig t :
  0 <= i -> i + Z.of_nat n <= zlen (signalfds t) ->
  signal2fd_loop n i sig t = Done (notifications sig (take n (drop (Z.to_nat i) (signalfds t)))).
Proof.
  revert i. induction n as [|n IH]; intros i Hi Hn; [done|]. cbn [signal2fd_loop].
  destruct (lookup_lt_is_Some_2 (signalfds t) (Z.to_nat i)) as [e He]; [unfold zlen in Hn; lia|].
  rewrite (mem_get_done _ _ e), IH by (done || lia). cbn [mbind outcome_bind]. rewrite (drop_S _ _ _ He).
  replace (Z.to_nat (i + 1)) with (S (Z.to_nat i)) by lia. cbn [take]. unfold notifications. rewrite filter_cons.
  case_bool_decide; case_decide; done.
Qed.

Lemma signal2fd_spec sig t : wf t -> signal2fd sig t = Done (notifications sig (registered t)).
Proof. intros [Hs Hn]. unfold signal2fd. rewrite signal2fd_loop_spec by lia. done. Qed.

Lemma registered_lookup t k : (k < Z.to_nat (signalfd_num t))%nat -> registered t !! k = signalfds t !! k.
Proof. apply lookup_take_lt. Qed.

(** The loop passes entries with another descriptor. *)
Lemma close_loop_skip x t j : forall i,
  (j <= i)%nat -> Z.of_nat i < zlen (signalfds t) ->
  (forall k e, (j < k <= i)%nat -> signalfds t !! k = Some e -> fd e <> x) ->
  close_loop i x t = close_loop j x t.
Proof.
  induction i as [|i IH]; intros Hji Hi Hne; [by assert (j = O) as -> by lia|].
  destruct (decide (j = S i)) as [->|Hd]; [done|]. cbn [close_loop].
  destruct (lookup_lt_is_Some_2 (signalfds t) (S i)) as [e He]; [unfold zlen in Hi; lia|].
  rewrite (mem_get_done _ (Z.of_nat (S i)) e) by (try rewrite Nat2Z.id; (done || lia)). cbn [mbind outcome_bind].
  destruct (Z.eqb_spec (fd e) x) as [Hx|_]; [by destruct (Hne (S i) e); [lia|..]|]. cbn [mbind outcome_bind].
  apply IH; [lia|lia|]. intros k e' Hk. apply Hne. lia.
Qed.

End facts.

(** ** Properties *)

Section properties.
Context `{LuaAux, SigSets}.
Implicit Types (t : table) (o : lsignalfd).

(** Without signalfd, signal.signalfd registers a new object while there are fewer
    than 32; from then on every signal is written to the pipes of all registered objects
    for that signal, the new one included, and to no other. With 32 it returns nil. *)
Theorem signalfd_registers signal_ok pr pw p n t :
  wf t -> is_int n -> signal_ok n = true ->
  if signalfd_num t <? MAX_SIGNALFD then
    exists t' o, l_signalfd signal_ok (Some (pr, pw)) p [VInt n] t = Done (t', Some o, [VUserdata signalfd_mt p]) /\
      wf t' /\ o = {| fd := pr; mask := sigset n; write_fd := pw |} /\
      (forall sig, signal2fd sig t' = Done (notifications sig (registered t) ++
         if decide (sig = n /\ is_signal n = true) then [(pw, sig)] else []))
  else l_signalfd signal_ok (Some (pr, pw)) p [VInt n] t = Done (t, None, [VNil]).
Proof.
  intros W Hn Hok. pose proof (wf_size _ W) as Hs. pose proof (wf_num _ W) as Hb. unfold l_signalfd.
  rewrite (checkinteger_int _ _ n) by (try done; range). cbn [mbind outcome_bind]. rewrite int_small, Z.geb_leb, Hok by done.
  destruct (Z.ltb_spec (signalfd_num t) MAX_SIGNALFD) as [Hlt|Hge]; destruct (Z.leb_spec MAX_SIGNALFD (signalfd_num t));
    try lia; [|done]. cbn [negb]. rewrite mem_set_done by lia. cbn [mbind outcome_bind].
  eexists _, _. split; [done|]. match goal with |- wf ?t' /\ _ => assert (wf t') as W' end.
  { split; cbn; [unfold zlen; by rewrite length_insert|lia]. }
  split; [done|]. split; [done|]. intros sig. rewrite signal2fd_spec by done. f_equal.
  unfold registered at 1. cbn [signalfds signalfd_num].
  replace (Z.to_nat (signalfd_num t + 1)) with (S (Z.to_nat (signalfd_num t))) by lia.
  rewrite (take_S_r _ _ {| fd := pr; mask := sigset n; write_fd := pw |})
    by (apply list_lookup_insert_eq; unfold zlen in Hs; lia).
  rewrite take_insert_ge by done. unfold notifications. rewrite filter_app, fmap_app. f_equal.
  rewrite filter_cons, filter_nil. cbn [mask]. unfold sigset. destruct (is_signal n) eqn:E.
  - destruct (decide (sig = n)) as [->|]; [rewrite decide_True, decide_True by set_solver; done|].
    rewrite decide_False, decide_False by set_solver. done.
  - rewrite decide_False, decide_False; [done|naive_solver|apply not_elem_of_empty].
Qed.

(** What closing the object of index [k] does, when the descriptors differ: the
    first object is never taken out of the table; for the others the entry after the last
    one, which is not in use, is copied in its place and the last object is dropped. Only
    closing the last object, of at least two, is right. *)
Theorem signalfd_close_effect close o k stale p t :
  wf t -> signalfd_num t < MAX_SIGNALFD -> registered t !! k = Some o ->
  (forall j e, (j <> k)%nat -> registered t !! j = Some e -> fd e <> fd o) ->
  signalfds t !! Z.to_nat (signalfd_num t) = Some stale -> fd stale <> fd o ->
  close (fd o) = 0 -> close (write_fd o) = 0 ->
  exists t', l_signalfd_close close o [VUserdata signalfd_mt p] t
      = Done (t', {| fd := -1; mask := mask o; write_fd := write_fd o |}, [VBool true]) /\ wf t' /\
    registered t' = if decide (k = O) then registered t
                    else take (Z.to_nat (signalfd_num t) - 1) (<[k := stale]> (registered t)).
Proof.
  intros W Hlt Hk Hdist Hst Hsne Hc1 Hc2. pose proof (wf_size _ W) as Hs. pose proof (wf_num _ W) as Hb.
  pose proof (lookup_lt_Some _ _ _ Hk) as Hkl. rewrite length_registered in Hkl by done.
  pose proof Hk as Hk'. rewrite registered_lookup in Hk' by done.
  assert (forall j e, (j <= Z.to_nat (signalfd_num t))%nat -> j <> k -> signalfds t !! j = Some e -> fd e <> fd o) as Hother.
  { intros j e Hj Hjk He. destruct (decide (j = Z.to_nat (signalfd_num t))) as [->|].
    - by assert (e = stale) as -> by congruence.
    - apply (Hdist j); [done|]. rewrite registered_lookup by lia. done. }
  unfold l_signalfd_close. change (luaL_checkudata _ 1 _) with (Done p). cbn [mbind outcome_bind].
  rewrite Hc1, Hc2. cbn [negb Z.eqb].
  rewrite (close_loop_skip (fd o) t k); [|lia|unfold zlen in *; lia|intros j e Hj; apply Hother; lia].
  destruct k as [|k'].
  - cbn [close_loop mbind outcome_bind]. exists t. by rewrite decide_True.
  - cbn [close_loop]. rewrite (mem_get_done _ (Z.of_nat (S k')) o) by (try rewrite Nat2Z.id; (done || lia)). cbn [mbind outcome_bind].
    rewrite Z.eqb_refl, (mem_get_done _ _ stale) by (done || lia). cbn [mbind outcome_bind].
    rewrite mem_set_done by (unfold zlen in *; lia). cbn [mbind outcome_bind]. rewrite Nat2Z.id.
    match goal with |- context [close_loop k' _ ?t'] => set (t1 := t') end.
    rewrite (close_loop_skip (fd o) t1 O); [|lia|unfold zlen in *; cbn; rewrite length_insert; lia|].
    2: { intros j e Hj. cbn [t1 signalfds]. rewrite list_lookup_insert_ne by lia. apply Hother; lia. }
    cbn [close_loop mbind outcome_bind]. exists t1. split; [done|]. split.
    { split; cbn; [unfold zlen; by rewrite length_insert|lia]. }
    rewrite decide_False by done. unfold registered. cbn [t1 signalfds signalfd_num].
    rewrite <- take_insert_lt, take_take by lia. f_equal. lia.
Qed.

(** With 32 objects, closing any of them reads outside the table. *)
Theorem signalfd_close_overread close o p t :
  wf t -> signalfd_num t = MAX_SIGNALFD -> close (fd o) = 0 -> close (write_fd o) = 0 ->
  l_signalfd_close close o [VUserdata signalfd_mt p] t = Undef OutOfBounds.
Proof.
  intros W Hn Hc1 Hc2. pose proof (wf_size _ W) as Hs. unfold l_signalfd_close.
  change (luaL_checkudata _ 1 _) with (Done p). cbn [mbind outcome_bind]. rewrite Hc1, Hc2, Hn. cbn [negb Z.eqb].
  change (Z.to_nat MAX_SIGNALFD) with (S 31). cbn [close_loop].
  assert (mem_get (signalfds t) (Z.of_nat 32) = Undef OutOfBounds) as ->; [|done].
  unfold mem_get. cbn [Z.ltb Z.compare Z.of_nat]. rewrite lookup_ge_None_2; [done|].
  unfold zlen, MAX_SIGNALFD in Hs. lia.
Qed.

(** On Linux, signal.signalfd blocks the signal, so that it is not delivered in any
    other way, before it asks for the descriptor, and gives an object for that signal, or
    nil when one of the two calls fails; the object's close releases the descriptor once:
    closing it again (or the finalizer) cannot close a descriptor that was reused. *)
Theorem signalfd_linux_object sigprocmask signalfd p n blocked close :
  is_int n -> (forall m, -1 <= signalfd m) -> close (-1) <> 0 ->
  exists blocked' r v, linux_signalfd sigprocmask signalfd p [VInt n] blocked = Done (blocked', r, [v]) /\
    match r with
    | Some o => v = VUserdata signalfd_mt p /\ sigset n ⊆ blocked' /\ mask o = sigset n /\ 0 <= fd o /\
        l_signalfd_getfd o [v] = Done [VInt (fd o)] /\
        (close (fd o) = 0 -> exists o', linux_signalfd_close close o [v] = Done (o', [VBool true]) /\
           l_signalfd_getfd o' [v] = Done [VNil] /\ linux_signalfd_close close o' [v] = Done (o', [VBool false]))
    | None => v = VNil /\ (sigprocmask (sigset n) <> 0 \/ signalfd (sigset n) = -1)
    end.
Proof.
  intros Hn Hfd Hc. unfold linux_signalfd. rewrite (checkinteger_int _ _ n) by (try done; range).
  cbn [mbind outcome_bind]. rewrite int_small by done. destruct (Z.eqb_spec (sigprocmask (sigset n)) 0) as [E|E]; cbn [negb].
  2: { eexists _, None, _. split; [done|]. split; [done|by left]. }
  destruct (Z.eqb_spec (signalfd (sigset n)) (-1)) as [E'|E'].
  { eexists _, None, _. split; [done|]. split; [done|by right]. }
  pose proof (Hfd (sigset n)). eexists _, (Some _), _. split; [done|]. cbn [fd mask]. split_and!; [done|set_solver|done|lia| |].
  - unfold l_signalfd_getfd. change (luaL_checkudata _ 1 _) with (Done p). cbn [mbind outcome_bind fd].
    by destruct (Z.eqb_spec (signalfd (sigset n)) (-1)).
  - intros Hc0. eexists. unfold linux_signalfd_close, l_signalfd_getfd. change (luaL_checkudata _ 1 _) with (Done p).
    cbn [mbind outcome_bind fd]. rewrite Hc0. cbn [negb Z.eqb fd]. split; [done|]. split; [done|].
    cbn [fd]. by destruct (Z.eqb_spec (close (-1)) 0).
Qed.

End properties.

(** ** Witnesses *)

#[local] Existing Instance lua_strict.
Definition linux_sigsets : SigSets := {| is_signal sig := (1 <=? sig) && (sig <=? 64) |}.
#[local] Existing Instance linux_sigsets.

Lemma no_signalfds_wf : wf no_signalfds.
Proof. by split. Qed.

Lemma signalfd_registers_witness :
  exists t o, l_signalfd (fun _ => true) (Some (3, 4)) 1 [VInt 15] no_signalfds = Done (t, Some o, [VUserdata signalfd_mt 1]) /\
    signal2fd 15 t = Done [(4, 15)].
Proof.
  destruct (signalfd_registers (fun _ => true) 3 4 1 15 no_signalfds no_signalfds_wf ltac:(by_decision) eq_refl)
    as (t & o & E & _ & _ & Hw).
  exists t, o. split; [exact E|]. rewrite Hw. vm_compute. reflexivity.
Defined.

(** Three objects, for the signals 10, 12 and 15. *)
Definition object (k sig : Z) : lsignalfd := {| fd := 3 + 2 * k; mask := {[ sig ]}; write_fd := 4 + 2 * k |}.

Definition three : table :=
  {| signalfds := [object 0 10; object 1 12; object 2 15] ++ replicate 29 zero_signalfd; signalfd_num := 3 |}.

Lemma three_wf : wf three.
Proof. by split. Qed.

Lemma three_distinct k : forall j e, (j <> k)%nat -> registered three !! j = Some e ->
  (k < 3)%nat -> fd e <> 3 + 2 * Z.of_nat k.
Proof. intros [|[|[|j]]] e Hj He Hk; [| | |done]; injection He as <-; cbn; lia. Qed.

(** Closing the first object changes nothing: its signal is still written to the closed
    pipe; closing the second one stops the notifications of the third. *)
Lemma signalfd_close_effect_witness :
  (exists t, l_signalfd_close (fun _ => 0) (object 0 10) [VUserdata signalfd_mt 1] three
     = Done (t, {| fd := -1; mask := {[ 10 ]}; write_fd := 4 |}, [VBool true]) /\ signal2fd 10 t = Done [(4, 10)]) /\
  (exists t, l_signalfd_close (fun _ => 0) (object 1 12) [VUserdata signalfd_mt 1] three
     = Done (t, {| fd := -1; mask := {[ 12 ]}; write_fd := 6 |}, [VBool true]) /\ signal2fd 15 t = Done []).
Proof.
  split.
  - destruct (signalfd_close_effect (fun _ => 0) (object 0 10) 0 zero_signalfd 1 three three_wf eq_refl eq_refl
      (fun j e Hj He => three_distinct 0 j e Hj He ltac:(lia)) eq_refl ltac:(done) eq_refl eq_refl) as (t & E & W & Ht).
    exists t. split; [exact E|]. rewrite (signal2fd_spec 10 t W), Ht. vm_compute. reflexivity.
  - destruct (signalfd_close_effect (fun _ => 0) (object 1 12) 1 zero_signalfd 1 three three_wf eq_refl eq_refl
      (fun j e Hj He => three_distinct 1 j e Hj He ltac:(lia)) eq_refl ltac:(done) eq_refl eq_refl) as (t & E & W & Ht).
    exists t. split; [exact E|]. rewrite (signal2fd_spec 15 t W), Ht. vm_compute. reflexivity.
Defined.

Definition full : table := {| signalfds := replicate 32 zero_signalfd; signalfd_num := 32 |}.

Lemma signalfd_close_overread_witness :
  l_signalfd_close (fun _ => 0) zero_signalfd [VUserdata signalfd_mt 1] full = Undef OutOfBounds.
Proof. apply (signalfd_close_overread (fun _ => 0) zero_signalfd 1 full); [by split|done|done|done]. Defined.

Lemma signalfd_linux_object_witness :
  linux_signalfd (fun _ => 0) (fun _ => 7) 1 [VInt 15] ∅
    = Done ({[ 15 ]}, Some {| fd := 7; mask := {[ 15 ]}; write_fd := -1 |}, [VUserdata signalfd_mt 1]) /\
  exists o, linux_signalfd_close (fun x => if x =? 7 then 0 else -1) {| fd := 7; mask := {[ 15 ]}; write_fd := -1 |}
    [VUserdata signalfd_mt 1] = Done (o, [VBool true]) /\ l_signalfd_getfd o [VUserdata signalfd_mt 1] = Done [VNil].
Proof.
  assert (linux_signalfd (fun _ => 0) (fun _ => 7) 1 [VInt 15] ∅
    = Done ({[ 15 ]}, Some {| fd := 7; mask := {[ 15 ]}; write_fd := -1 |}, [VUserdata signalfd_mt 1])) as E by (vm_compute; reflexivity).
  split; [exact E|].
  destruct (signalfd_linux_object (fun _ => 0) (fun _ => 7) 1 15 ∅ (fun x => if x =? 7 then 0 else -1)
    ltac:(by_decision) ltac:(intros; lia) ltac:(done)) as (b & r & v & E' & Hr).
  rewrite E in E'. injection E' as <- <- <-. destruct Hr as (_ & _ & _ & _ & _ & Hclose).
  destruct (Hclose eq_refl) as (o & E1 & E2 & _). by exists o.
Defined.
