(* ===== verification/Append.v ===== *)
(** * util-src/pposix.c: atomic_append and remove_blocks

    The stream and the file under it are a parameter, with what the C library and the
    system document of the calls: a write may be partial, what was written may be in the
    stream's buffer or in the file.  The theorem: at the end of a file, the data is
    appended entirely, or the file is as it was, or an error is raised. *)

From stdpp Require Import base tactics numbers list strings gmap.
From Stdlib Require Import ZArith Lia SpecFloat.
From S2P Require Import Prelude LuaApi PollApi.

Local Open Scope Z_scope.

Definition LUA_FILEHANDLE : string := "FILE*".

(** More error numbers. *)
Class FileErrors := { ENOSYS : Z; EOPNOTSUPP : Z; ENOSPC : Z }.

(** The calls on a stream, each with its result, the error number if it sets one, and the
    stream after it. *)
Class Stdio (F : Type) := {
  ftell : F -> Z;
  fallocate_keep : Z -> Z -> F -> Z * Z * F;       (* FALLOC_FL_KEEP_SIZE *)
  fallocate_collapse : Z -> Z -> F -> Z * Z * F;   (* FALLOC_FL_COLLAPSE_RANGE *)
  fwrite : bytes -> F -> Z * F;
  fflush : F -> Z * Z * F;
  ferror : F -> Z;
  fseek_set : Z -> F -> Z * F;
  ftruncate : Z -> F -> Z * Z * F;
}.

Section operations.
Context `{LuaAux, Posix, FileErrors, Stdio F}.
Implicit Types (L : list value) (f : F).

(** [if(errno != 0) err = errno] after a call that failed with [ret]. *)
Definition failure (ret errno : Z) : Z := if errno =? 0 then ret else errno.

(** The end of the function: back to the old size. *)
Definition roll_back (offset err : Z) f : F * outcome (list value) :=
  let '(_, f) := fseek_set offset f in
  let '(ret, errno, f) := ftruncate offset f in
  if negb (ret =? 0) then
    (f, Raise (ErrorObject (string_bytes "atomic_append() failed in ftruncate(): " ++ strerror errno)))
  else (f, Done (sys_fail err)).

Definition lc_atomic_append L f : F * outcome (list value) :=
  match luaL_checkudata L 1 LUA_FILEHANDLE, luaL_checklstring L 2 with
  | Done _, Done data =>
      let len := zlen data in
      let offset := ftell f in
      let '(ret, errno, f) := fallocate_keep offset len f in
      let err := failure ret errno in
      if negb (ret =? 0) && negb ((err =? ENOSYS) || (err =? EOPNOTSUPP)) then (f, Done (sys_fail err))
      else
        let '(n, f) := fwrite data f in
        if n =? len then
          let '(ret, errno, f) := fflush f in
          if ret =? 0 then (f, Done [VBool true])
          else roll_back offset errno f
        else roll_back offset (ferror f) f
  | Done _, Raise e | Raise e, _ => (f, Raise e)
  | Done _, Undef u | Undef u, _ => (f, Undef u)
  end.

(** With __linux__. *)
Definition lc_remove_blocks L f : F * outcome (list value) :=
  match (_ ← luaL_checkudata L 1 LUA_FILEHANDLE;
         offset ← luaL_checkinteger L 2;
         length ← luaL_checkinteger L 3;
         Done (offset, length)) with
  | Done (offset, length) =>
      let '(ret, errno, f) := fallocate_collapse offset length f in
      if negb (ret =? 0) then (f, Done (sys_fail (failure ret errno)))
      else (f, Done [VBool (ret =? 0)])
  | Raise e => (f, Raise e)
  | Undef u => (f, Undef u)
  end.

End operations.

(** ** What is documented of the calls *)

(** [disk] is the content of the file, [pending] what the stream's buffer holds; [at_end]
    says that the buffer goes to the end of the file. *)
Class StdioLaws F `{Stdio F} := {
  disk : F -> bytes;
  pending : F -> bytes;
  at_end : F -> Prop;
  ftell_end f : at_end f -> ftell f = zlen (disk f ++ pending f);
  fallocate_keep_same o n f :
    let f' := (fallocate_keep o n f).2 in disk f' = disk f /\ pending f' = pending f /\ (at_end f -> at_end f');
  fwrite_prefix d f : at_end f ->
    let '(n, f') := fwrite d f in
    0 <= n <= zlen d /\ at_end f' /\ (n = zlen d -> disk f' ++ pending f' = disk f ++ pending f ++ d) /\
    exists k, disk f' = disk f ++ take k (pending f ++ d);
  fflush_prefix f : at_end f ->
    let '(r, _, f') := fflush f in
    at_end f' /\ (r = 0 -> disk f' = disk f ++ pending f /\ pending f' = []) /\
    exists k, disk f' = disk f ++ take k (pending f);
  fseek_flushes o f : at_end f ->
    let '(r, f') := fseek_set o f in
    (r = 0 -> pending f' = []) /\ exists k, disk f' = disk f ++ take k (pending f);
  ftruncate_cuts n f :
    let '(r, _, f') := ftruncate n f in
    (r = 0 -> 0 <= n <= zlen (disk f) -> disk f' = take (Z.to_nat n) (disk f)) /\
    (r <> 0 -> disk f' = disk f) /\ (pending f = [] -> pending f' = []);
}.

Section facts.
Context `{LuaAux, Posix, FileErrors, StdioLaws F}.
Implicit Types (f : F).

(** The file only grew by [g]: it is cut back. *)
Lemma roll_back_spec old g err f :
  at_end f -> disk f = old ++ g ->
  let '(f', r) := roll_back (zlen old) err f in
  ((exists e, r = Raise (ErrorObject e)) /\ (exists g', disk f' = old ++ g') /\
   exists g, (ftruncate (zlen old) g).1.1 <> 0) \/
  (r = Done (sys_fail err) /\ disk f' = old /\ ((fseek_set (zlen old) f).1 = 0 -> pending f' = [])).
Proof.
  intros He Hd. unfold roll_back. pose proof (fseek_flushes (zlen old) f He) as Hs.
  destruct (fseek_set (zlen old) f) as [r1 f1]. destruct Hs as (Hp & k & Hk). rewrite Hd, <- app_assoc in Hk.
  pose proof (ftruncate_cuts (zlen old) f1) as Ht. destruct (ftruncate (zlen old) f1) as [[r2 e2] f2] eqn:E.
  destruct Ht as (Hok & Hno & Hpn). destruct (Z.eqb_spec r2 0) as [->|Hr]; cbn [negb].
  - right. split; [done|]. split; [|intros Hr1; auto]. rewrite Hok; [|done|].
    + rewrite Hk. unfold zlen. by rewrite Nat2Z.id, take_app_length.
    + rewrite Hk, zlen_app. pose proof (zlen_nonneg old). pose proof (zlen_nonneg (g ++ take k (pending f))). lia.
  - left. split; [by eexists|]. split; [eexists; rewrite Hno by done; exact Hk|].
    exists f1. by rewrite E.
Qed.

(** C6. atomic_append, called on a stream that stands at the end of its file and has nothing
    in its buffer, ends in one of three ways: true, and the file is the old one followed by
    the data; nil and an error, and the file is the old one (and, if fseek succeeded, nothing
    is left in the buffer that could still be written); or, only when ftruncate fails, a Lua
    error. Whatever the system calls return, the old content is never changed. On a stream
    that stands elsewhere it does not append ([append_elsewhere_cuts]). *)
Theorem append_all_or_nothing p data f :
  at_end f -> pending f = [] -> lua_string data ->
  let '(f', r) := lc_atomic_append [VUserdata LUA_FILEHANDLE p; VStr data] f in
  (r = Done [VBool true] /\ disk f' = disk f ++ data /\ pending f' = []) \/
  (exists err, r = Done (sys_fail err) /\ disk f' = disk f /\ ((forall g, (fseek_set (zlen (disk f)) g).1 = 0) -> pending f' = [])) \/
  ((exists e, r = Raise (ErrorObject e)) /\ (exists g, disk f' = disk f ++ g) /\ exists g, (ftruncate (zlen (disk f)) g).1.1 <> 0).
Proof.
  intros He Hp Hs. unfold lc_atomic_append. change (luaL_checkudata _ 1 _) with (@Done Z p).
  rewrite (checklstring_str _ 2 data) by done. cbv zeta.
  rewrite (ftell_end f He), Hp, app_nil_r. pose proof (fallocate_keep_same (zlen (disk f)) (zlen data) f) as Ha. cbv zeta in Ha.
  destruct (fallocate_keep (zlen (disk f)) (zlen data) f) as [[r0 e0] f0]. cbn [snd] in Ha. destruct Ha as (Hd0 & Hp0 & He0).
  specialize (He0 He). rewrite Hp in Hp0.
  destruct (negb (r0 =? 0) && negb _).
  { right; left. exists (failure r0 e0). by rewrite Hd0, Hp0. }
  pose proof (fwrite_prefix data f0 He0) as Hw. destruct (fwrite data f0) as [n f1]. rewrite Hd0, Hp0 in Hw.
  destruct Hw as (Hn & He1 & Hfull & k & Hd1). cbn [app] in *.
  assert (forall err f2 g, at_end f2 -> disk f2 = disk f ++ g ->
    let '(f', r) := roll_back (zlen (disk f)) err f2 in
    (r = Done [VBool true] /\ disk f' = disk f ++ data /\ pending f' = []) \/
    (exists err, r = Done (sys_fail err) /\ disk f' = disk f /\ ((forall g, (fseek_set (zlen (disk f)) g).1 = 0) -> pending f' = [])) \/
    ((exists e, r = Raise (ErrorObject e)) /\ (exists g, disk f' = disk f ++ g) /\ exists g, (ftruncate (zlen (disk f)) g).1.1 <> 0)) as Hroll.
  { intros err f2 g He2 Hd2. pose proof (roll_back_spec (disk f) g err f2 He2 Hd2) as R.
    destruct (roll_back _ err f2) as [f' r]. destruct R as [R|(-> & Hd & Hp')]; [by right; right|].
    right; left. exists err. split_and!; auto. }
  destruct (Z.eqb_spec n (zlen data)) as [->|Hne]; [|by eapply Hroll].
  pose proof (fflush_prefix f1 He1) as Hf. destruct (fflush f1) as [[r2 e2] f2]. destruct Hf as (He2 & Hok & k' & Hd2).
  destruct (Z.eqb_spec r2 0) as [->|Hr].
  - left. destruct (Hok eq_refl) as [Hd Hp2]. split; [done|]. split; [|done]. by rewrite Hd, Hfull.
  - eapply Hroll; [done|]. rewrite Hd2, Hd1, <- app_assoc. done.
Qed.

End facts.

(** ** Witness: a file of at most 8 bytes, a stream without buffer *)

Definition small_file : Type := bytes.

#[local, refine] Instance small_stdio : Stdio small_file := {|
  ftell f := zlen f;
  fallocate_keep _ _ f := (-1, 95, f);
  fallocate_collapse _ _ f := (-1, 95, f);
  fwrite d f := let k := Z.min (zlen d) (8 - zlen f) `max` 0 in (k, f ++ take (Z.to_nat k) d);
  fflush f := (0, 0, f);
  ferror _ := 1;
  fseek_set _ f := (0, f);
  ftruncate n f := (0, 0, take (Z.to_nat n) f);
|}.
Defined.

#[local, refine] Instance small_laws : StdioLaws small_file := {|
  disk f := f;
  pending _ := [];
  at_end _ := True;
|}.
Proof.
  - intros f _. by rewrite app_nil_r.
  - by intros.
  - intros d f _. cbn. pose proof (zlen_nonneg d). split; [lia|]. split; [done|]. split; [|by eexists].
    intros E. rewrite !app_nil_r, E. unfold zlen. by rewrite Nat2Z.id, take_ge.
  - intros f _. cbn. split; [done|]. split; [by rewrite app_nil_r|]. exists O. by rewrite app_nil_r.
  - intros o f _. cbn. split; [done|]. exists O. by rewrite app_nil_r.
  - intros n f. by cbn.
Defined.

#[local] Existing Instances lua_strict linux_errors.
#[local] Instance small_errors : FileErrors := {| ENOSYS := 38; EOPNOTSUPP := 95; ENOSPC := 28 |}.

Lemma append_all_or_nothing_witness :
  lc_atomic_append [VUserdata LUA_FILEHANDLE 1; VStr [4; 5]] ([1; 2; 3] : small_file) = ([1; 2; 3; 4; 5], Done [VBool true]) /\
  exists err, lc_atomic_append [VUserdata LUA_FILEHANDLE 1; VStr [4; 5; 6; 7; 8; 9]] ([1; 2; 3] : small_file)
    = ([1; 2; 3], Done (sys_fail err)).
Proof.
  split; [vm_compute; reflexivity|].
  pose proof (append_all_or_nothing 1 [4; 5; 6; 7; 8; 9] ([1; 2; 3] : small_file) I eq_refl ltac:(by_decision)) as A.
  destruct (lc_atomic_append _ _) as [f' r] eqn:E.
  assert (r <> Done [VBool true]) as Hr by (intros ->; vm_compute in E; congruence).
  destruct A as [[-> _]|[(err & -> & Hd & _)|(_ & _ & g & Ht)]]; [done| |by destruct Ht].
  exists err. cbn in Hd. by rewrite Hd.
Defined.

(** ** A stream that stands elsewhere *)

(** The content and the position of an unbuffered stream, on a system with room for 8 bytes:
    what is written goes over what is there. *)
Definition positioned : Type := bytes * Z.

#[local, refine] Instance positioned_stdio : Stdio positioned := {|
  ftell f := f.2;
  fallocate_keep _ _ f := (-1, 95, f);
  fallocate_collapse _ _ f := (-1, 95, f);
  fwrite d '(c, p) :=
    let d := take (Z.to_nat (8 - p)) d in
    (zlen d, (take (Z.to_nat p) c ++ d ++ drop (Z.to_nat (p + zlen d)) c, p + zlen d));
  fflush f := (0, 0, f);
  ferror _ := 1;
  fseek_set p f := (0, (f.1, p));
  ftruncate n f := (0, 0, (take (Z.to_nat n) f.1, f.2));
|}.
Defined.

(** On a stream in the middle of its file, atomic_append writes over the file, and when it
    cannot write all of the data it cuts the file off at the position: nil is returned and
    the rest of the file is lost. *)
Theorem append_elsewhere_cuts :
  lc_atomic_append [VUserdata LUA_FILEHANDLE 1; VStr [9; 9]] (([1; 2; 3; 4; 5], 2) : positioned)
  = (([1; 2; 9; 9; 5], 4), Done [VBool true]) /\
  lc_atomic_append [VUserdata LUA_FILEHANDLE 1; VStr [9; 9; 9; 9; 9; 9; 9]] (([1; 2; 3; 4; 5], 2) : positioned)
  = (([1; 2], 2), Done (sys_fail 1)).
Proof. split; vm_compute; reflexivity. Qed.
