(* ===== verification/Pposix.v ===== *)
(** * util-src/pposix.c: syslog, users and groups, limits, modes, pipes, environment

    The system calls are arguments; the tables of names are as in the source.  The
    theorems: which facility a name selects (three names select another one); which
    identity setuid and setgid ask for and what they answer; a limit that was set is the
    one that is read, and a negative one is no limit; umask takes back what it returned;
    an unknown pipe flag is searched beyond the end of the table of names. *)

From stdpp Require Import base tactics numbers list strings gmap.
From Stdlib Require Import ZArith Lia SpecFloat.
From S2P Require Import Prelude LuaApi PollApi.

Local Open Scope Z_scope.

(** ** Syslog *)

Inductive facility :=
  | LOG_AUTH | LOG_AUTHPRIV | LOG_CRON | LOG_DAEMON | LOG_FTP | LOG_KERN
  | LOG_LOCAL0 | LOG_LOCAL1 | LOG_LOCAL2 | LOG_LOCAL3 | LOG_LOCAL4 | LOG_LOCAL5 | LOG_LOCAL6 | LOG_LOCAL7
  | LOG_LPR | LOG_MAIL | LOG_NEWS | LOG_SYSLOG | LOG_USER | LOG_UUCP.

Inductive level := LOG_EMERG | LOG_ALERT | LOG_CRIT | LOG_ERR | LOG_WARNING | LOG_NOTICE | LOG_INFO | LOG_DEBUG.

#[export] Instance facility_eq_dec : EqDecision facility.
Proof. solve_decision. Defined.
#[export] Instance level_eq_dec : EqDecision level.
Proof. solve_decision. Defined.

(** On systems other than Solaris. *)
Definition facility_strings : list (option string) :=
  (Some <$> ["auth"; "authpriv"; "cron"; "daemon"; "ftp"; "kern"; "local0"; "local1"; "local2"; "local3"; "local4";
             "local5"; "local6"; "local7"; "lpr"; "mail"; "syslog"; "user"; "uucp"])%string ++ [None].

(** [None] is the final -1. *)
Definition facility_constants : list (option facility) :=
  (Some <$> [LOG_AUTH; LOG_AUTHPRIV; LOG_CRON; LOG_DAEMON; LOG_FTP; LOG_KERN; LOG_LOCAL0; LOG_LOCAL1; LOG_LOCAL2;
             LOG_LOCAL3; LOG_LOCAL4; LOG_LOCAL5; LOG_LOCAL6; LOG_LOCAL7; LOG_LPR; LOG_MAIL; LOG_NEWS; LOG_SYSLOG;
             LOG_USER; LOG_UUCP]) ++ [None].

Definition level_strings : list (option string) :=
  (Some <$> ["debug"; "info"; "notice"; "warn"; "error"])%string ++ [None].
Definition level_constants : list (option level) :=
  (Some <$> [LOG_DEBUG; LOG_INFO; LOG_NOTICE; LOG_WARNING; LOG_CRIT]) ++ [None].

(** The copy of the identity, and what the last [openlog] was given. *)
Record syslog_state := { syslog_ident : option bytes; opened : option (bytes * option facility) }.

Section syslog.
Context `{LuaAux}.
Implicit Types (L : list value) (s : syslog_state).

Definition lc_syslog_open L s : outcome (syslog_state * list value) :=
  k ← luaL_checkoption L 2 (Some "daemon"%string) facility_strings;
  facility ← mem_get facility_constants k;
  ident ← luaL_checkstring L 1;
  Done ({| syslog_ident := Some ident; opened := Some (ident, facility) |}, []).

(** The line given to [syslog], with its level; [None] is a NULL argument for "%s". *)
Definition lc_syslog_log L : outcome (option level * option bytes) :=
  k ← luaL_checkoption L 1 (Some "notice"%string) level_strings;
  lev ← mem_get level_constants k;
  if lua_gettop L =? 3 then
    a ← luaL_checkstring L 2;
    b ← luaL_checkstring L 3;
    Done (lev, Some (a ++ string_bytes ": " ++ b))
  else Done (lev, lua_tostring L 2).

Definition lc_syslog_close s : syslog_state * list value := ({| syslog_ident := None; opened := None |}, []).

(** [do mask |= LOG_MASK(level_constants[level_idx]) while(++level_idx <= 4)]: the levels of
    the mask; [n] bounds the iterations. *)
Fixpoint setmask_loop (n : nat) (idx : Z) : outcome (list (option level)) :=
  match n with
  | O => Undef NoTermination
  | S n =>
      lev ← mem_get level_constants idx;
      if idx + 1 <=? 4 then
        rest ← setmask_loop n (idx + 1);
        Done (lev :: rest)
      else Done [lev]
  end.

Definition lc_syslog_setmask L : outcome (list (option level)) :=
  k ← luaL_checkoption L 1 (Some "notice"%string) level_strings;
  setmask_loop 5 k.

End syslog.

(** ** Users and groups *)

(** [lua_isinteger], on Lua 5.3 and later. *)
Definition lua_isinteger (L : list value) (i : Z) : bool :=
  match lua_arg L i with Some (VInt _) => true | _ => false end.

Class IdErrors := { EINVAL : Z; EPERM : Z; ENOMEM : Z }.

Section ids.
Context `{LuaAux, Posix, IdErrors}.
Implicit Types (L : list value).

(** [lc_setuid] and [lc_setgid], which differ in their strings: [lookup] is [getpwnam] or
    [getgrnam], [set] is [setuid] or [setgid] (0, or an error number). The result is the
    identity the system call was given, if it was called, and the values. *)
Definition set_id (no_such invalid : string) (lookup : bytes -> option Z) (set : Z -> Z) L : option Z * list value :=
  if lua_gettop L <? 1 then (None, [])
  else
    let fail msg := [VBool false; literal msg] in
    let attempt id :=
      if id >? -1 then
        let errno := set id in
        (Some id,
         if negb (errno =? 0) then
           fail (if errno =? EINVAL then invalid
                 else if errno =? EPERM then "permission-denied"%string else "unknown-error"%string)
         else [VBool true])
      else (None, fail invalid) in
    match (if lua_isinteger L 1 then None else lua_tostring L 1) with
    | Some name =>
        match lookup name with
        | None => (None, fail no_such)
        | Some id => attempt (cint id)
        end
    | None => attempt (cint (lua_tointeger L 1))
    end.

Definition lc_setuid := set_id "no-such-user" "invalid-uid".
Definition lc_setgid := set_id "no-such-group" "invalid-gid".

(** [getpwnam] gives the user's group; [initgroups] 0 or an error number. *)
Definition lc_initgroups (getpwnam : bytes -> option Z) (initgroups : bytes -> Z -> Z) L : option (bytes * Z) * list value :=
  let fail msg := [pushfail; literal msg] in
  match lua_tostring L 1 with
  | None => (None, fail "invalid-username"%string)
  | Some user =>
      match getpwnam user with
      | None => (None, fail "no-such-user"%string)
      | Some pw_gid =>
          let gid :=
            match type_of <$> lua_arg L 2 with
            | None | Some LUA_TNIL => Some pw_gid
            | Some LUA_TNUMBER => Some (uint (lua_tointeger L 2))
            | Some _ => None
            end in
          match gid with
          | None => (None, fail "invalid-gid"%string)
          | Some gid =>
              let errno := initgroups user gid in
              (Some (user, gid),
               if negb (errno =? 0) then
                 fail (if errno =? ENOMEM then "no-memory"%string
                       else if errno =? EPERM then "permission-denied"%string else "unknown-error"%string)
               else [VBool true; VNil])
          end
      end
  end.

End ids.

(** ** Resource limits *)

(** The constants of <sys/resource.h>; limits are 64-bit unsigned. *)
Inductive resource :=
  | RLIMIT_CORE | RLIMIT_CPU | RLIMIT_DATA | RLIMIT_FSIZE | RLIMIT_NOFILE | RLIMIT_STACK
  | RLIMIT_MEMLOCK | RLIMIT_NPROC | RLIMIT_RSS | RLIMIT_NICE.

#[export] Instance resource_eq_dec : EqDecision resource.
Proof. solve_decision. Defined.

(** On Linux. *)
Definition resource_strings : list (option string) :=
  (Some <$> ["CORE"; "CPU"; "DATA"; "FSIZE"; "NOFILE"; "STACK"; "MEMLOCK"; "NPROC"; "RSS"; "NICE"])%string ++ [None].
Definition resource_constants : list (option resource) :=
  (Some <$> [RLIMIT_CORE; RLIMIT_CPU; RLIMIT_DATA; RLIMIT_FSIZE; RLIMIT_NOFILE; RLIMIT_STACK; RLIMIT_MEMLOCK;
             RLIMIT_NPROC; RLIMIT_RSS; RLIMIT_NICE]) ++ [None].

Record rlimit := { rlim_cur : Z; rlim_max : Z }.

Class Rlimits := { RLIM_INFINITY : Z }.

Section limits.
Context `{LuaAux, Rlimits}.
Implicit Types (L : list value).

Definition arg_to_rlimit L (idx : Z) (current : Z) : outcome Z :=
  match type_of <$> lua_arg L idx with
  | Some LUA_TSTRING =>
      if bool_decide (lua_tostring L idx = Some (string_bytes "unlimited")) then Done RLIM_INFINITY
      else Raise (ArgError idx "unexpected type")
  | Some LUA_TNUMBER => Done (size_t (lua_tointeger L idx))
  | None | Some LUA_TNIL => Done current
  | Some _ => Raise (ArgError idx "unexpected type")
  end.

(** The limits of the process are the state [K]; [getrlimit] and [setrlimit] answer
    [None] and [false] when they fail. *)
Context {K : Type}.
Variable getrlimit : resource -> K -> option rlimit.
Variable setrlimit : resource -> rlimit -> K -> bool * K.

Definition lc_setrlimit L (k : K) : outcome (K * list value) :=
  let fail msg := [VBool false; literal msg] in
  let arguments := lua_gettop L in
  if (arguments <? 1) || (arguments >? 3) then Done (k, fail "incorrect-arguments"%string)
  else
    i ← luaL_checkoption L 1 None resource_strings;
    rid ← mem_get resource_constants i;
    match rid with
    | None => Done (k, fail "invalid-resource"%string)
    | Some rid =>
        match getrlimit rid k with
        | None => Done (k, fail "getrlimit-failed"%string)
        | Some lim =>
            cur ← arg_to_rlimit L 2 (rlim_cur lim);
            max ← arg_to_rlimit L 3 (rlim_max lim);
            let '(ok, k) := setrlimit rid {| rlim_cur := cur; rlim_max := max |} k in
            if negb ok then Done (k, fail "setrlimit-failed"%string)
            else Done (k, [VBool true])
        end
    end.

Definition push_limit (l : Z) : value := if l =? RLIM_INFINITY then literal "unlimited" else VInt (long l).

Definition lc_getrlimit L (k : K) : outcome (list value) :=
  let fail msg := [VBool false; literal msg] in
  if negb (lua_gettop L =? 1) then Done (fail "invalid-arguments"%string)
  else
    i ← luaL_checkoption L 1 None resource_strings;
    rid ← mem_get resource_constants i;
    match rid with
    | Some rid =>
        match getrlimit rid k with
        | None => Done (fail "getrlimit-failed."%string)
        | Some lim => Done [VBool true; push_limit (rlim_cur lim); push_limit (rlim_max lim)]
        end
    | None => Done (fail "invalid-resource"%string)
    end.

End limits.

(** ** File modes, directories, pipes, environment *)

Definition is_space (c : Z) : bool := (c =? 32) || ((9 <=? c) && (c <=? 13)).
Definition is_octal (c : Z) : bool := (48 <=? c) && (c <=? 55).

(** [strtoul(s, NULL, 8)]: white space, a sign, digits up to the first other byte; the
    largest value when it does not fit; a minus sign negates modulo 2^64. *)
Fixpoint skip_space (s : bytes) : bytes :=
  match s with c :: s' => if is_space c then skip_space s' else s | [] => [] end.
Fixpoint octal_digits (s : bytes) (acc : Z) : Z :=
  match s with c :: s' => if is_octal c then octal_digits s' (acc * 8 + (c - 48)) else acc | [] => acc end.
Definition strtoul8 (s : bytes) : Z :=
  let s := skip_space s in
  let '(neg, s) := match s with 45 :: s => (true, s) | 43 :: s => (false, s) | _ => (false, s) end in
  let v := octal_digits s 0 in
  if v >? size_max then size_max else if neg : bool then size_t (- v) else v.

(** The digits [snprintf] writes for "%03o". *)
Fixpoint to_octal (n : nat) (v : Z) : bytes :=
  match n with
  | O => []
  | S n => if v <? 8 then [48 + v] else to_octal n (v / 8) ++ [48 + v mod 8]
  end.
Definition format_03o (v : Z) : bytes :=
  let d := to_octal 22 v in replicate (3 - length d) 48 ++ d.

Section modes.
Context `{LuaAux, Posix}.
Implicit Types (L : list value).

(** [umask] gives the old mask, a 32-bit number; six digits fit in the buffer. *)
Definition lc_umask (umask : Z -> Z) L : outcome (Z * list value) :=
  s ← luaL_checkstring L 1;
  let mode := uint (strtoul8 s) in
  Done (mode, [VStr (take 6 (format_03o (umask mode)))]).

(** 775 in octal *)
Definition mkdir_mode : Z := 0x1fd.

(** [mkdir] answers 0 or an error number. *)
Definition lc_mkdir (mkdir : bytes -> Z -> Z) L : outcome (list value) :=
  path ← luaL_checkstring L 1;
  let errno := mkdir path mkdir_mode in
  if negb (errno =? 0) then Done [VBool false; VStr (strerror errno)] else Done [VBool true].

Inductive pipe_flag := O_CLOEXEC | O_DIRECT | O_NONBLOCK.

#[export] Instance pipe_flag_eq_dec : EqDecision pipe_flag.
Proof. solve_decision. Defined.

(** As in the source, without a final NULL. *)
Definition pipe_flag_names : list (option string) := (Some <$> ["cloexec"; "direct"; "nonblock"])%string.
Definition pipe_flag_values : list pipe_flag := [O_CLOEXEC; O_DIRECT; O_NONBLOCK].

(** [for(i = 1; i <= nflags; i++)]: [n] iterations are left. *)
Fixpoint pipe_flags (n : nat) (i : Z) L : outcome (list pipe_flag) :=
  match n with
  | O => Done []
  | S n =>
      k ← luaL_checkoption L i None pipe_flag_names;
      v ← mem_get pipe_flag_values k;
      vs ← pipe_flags n (i + 1) L;
      Done (v :: vs)
  end.

(** On Linux; [pipe2] gives two descriptors or an error number. *)
Definition lc_pipe (pipe2 : list pipe_flag -> (Z * Z) + Z) L : outcome (list value) :=
  flags ← pipe_flags (length L) 1 L;
  match pipe2 flags with
  | inl (r, w) => Done [VInt r; VInt w]
  | inr errno => Done [pushfail; VStr (strerror errno)]
  end.

(** The environment is a map from C strings to C strings; [None] from [change] is an error
    number. *)
Definition lc_setenv {E} (setenv : bytes -> bytes -> E -> Z * E) (unsetenv : bytes -> E -> Z * E) L (env : E)
  : outcome (E * list value) :=
  var ← luaL_checkstring L 1;
  let answer '(errno, env) := if negb (errno =? 0) then Done (env, [pushfail; VStr (strerror errno)]) else Done (env, [VBool true]) in
  if lua_isnoneornil L 2 then answer (unsetenv var env)
  else
    value ← luaL_checkstring L 2;
    answer (setenv var value env).

End modes.


(** ** Octal numbers *)

Lemma octal_digits_app s t acc :
  Forall (fun c => is_octal c = true) s -> octal_digits (s ++ t) acc = octal_digits t (octal_digits s acc).
Proof. intros Hs. revert acc. induction Hs as [|c s Hc _ IH]; intros acc; [done|]. cbn. rewrite Hc. apply IH. Qed.

Lemma octal_digit d : 0 <= d < 8 -> is_octal (48 + d) = true.
Proof. intros. unfold is_octal. apply andb_true_iff. rewrite !Z.leb_le. lia. Qed.

Lemma to_octal_spec n v :
  0 <= v < 8 ^ Z.of_nat n -> (0 < n)%nat ->
  Forall (fun c => is_octal c = true) (to_octal n v) /\ octal_digits (to_octal n v) 0 = v /\ to_octal n v <> [].
Proof.
  revert v. induction n as [|n IH]; intros v Hv Hn; [lia|]. cbn [to_octal].
  destruct (Z.ltb_spec v 8) as [Hlt|Hge].
  - split_and!; [|cbn; rewrite octal_digit by lia; lia|done]. constructor; [apply octal_digit; lia|constructor].
  - rewrite Nat2Z.inj_succ, Z.pow_succ_r in Hv by lia.
    pose proof (Z.mod_pos_bound v 8 ltac:(lia)) as Hm. pose proof (Z.div_mod v 8 ltac:(lia)) as Hdm.
    assert (0 < n)%nat as Hn' by (destruct n; [cbn in Hv; lia|lia]).
    destruct (IH (v / 8)) as (H1 & H2 & H3); [split; [apply Z.div_pos; lia|apply Z.div_lt_upper_bound; lia]|done|].
    split_and!.
    + apply Forall_app. split; [done|]. constructor; [by apply octal_digit|constructor].
    + rewrite octal_digits_app, H2 by done. cbn [octal_digits]. rewrite octal_digit by done. lia.
    + intros E. by apply app_eq_nil in E as [? _].
Qed.

Lemma octal_zeros k s : octal_digits (replicate k 48 ++ s) 0 = octal_digits s 0.
Proof. by induction k. Qed.

Lemma format_octal v : 0 <= v < 8 ^ 22 -> Forall (fun c => is_octal c = true) (format_03o v) /\ octal_digits (format_03o v) 0 = v.
Proof.
  intros Hv. destruct (to_octal_spec 22 v) as (H1 & H2 & _); [exact Hv|lia|]. unfold format_03o. split.
  - apply Forall_app. split; [|done]. by apply Forall_replicate.
  - by rewrite octal_zeros.
Qed.

(** [strtoul] reads back what "%03o" wrote. *)
Lemma strtoul_format v : 0 <= v < 2 ^ 32 -> strtoul8 (format_03o v) = v.
Proof.
  intros Hv. destruct (format_octal v) as [Hf Hd]; [lia|]. unfold strtoul8.
  assert (skip_space (format_03o v) = format_03o v) as ->.
  { destruct Hf as [|c s Hc _]; [done|]. cbn. unfold is_octal in Hc. apply andb_true_iff in Hc. rewrite !Z.leb_le in Hc.
    unfold is_space. destruct (Z.eqb_spec c 32), (Z.leb_spec 9 c), (Z.leb_spec c 13); cbn; (done || lia). }
  assert ((match format_03o v with 45 :: s => (true, s) | 43 :: s => (false, s) | _ => (false, format_03o v) end)
    = (false, format_03o v)) as ->.
  { destruct Hf as [|c s Hc _]; [done|]. unfold is_octal in Hc. apply andb_true_iff in Hc. rewrite !Z.leb_le in Hc.
    repeat case_match; try done; lia. }
  rewrite Hd. rewrite Z.gtb_ltb. destruct (Z.ltb_spec size_max v); [|done]. unfold size_max in *. lia.
Qed.

(** ** Properties *)

Section properties.
Context `{LuaAux, Posix, IdErrors, Rlimits}.
Implicit Types (L : list value).

(** The facility that each name means. *)
Definition named_facilities : list (string * facility) :=
  [("auth"%string, LOG_AUTH); ("authpriv"%string, LOG_AUTHPRIV); ("cron"%string, LOG_CRON); ("daemon"%string, LOG_DAEMON);
   ("ftp"%string, LOG_FTP); ("kern"%string, LOG_KERN); ("local0"%string, LOG_LOCAL0); ("local1"%string, LOG_LOCAL1);
   ("local2"%string, LOG_LOCAL2); ("local3"%string, LOG_LOCAL3); ("local4"%string, LOG_LOCAL4);
   ("local5"%string, LOG_LOCAL5); ("local6"%string, LOG_LOCAL6); ("local7"%string, LOG_LOCAL7); ("lpr"%string, LOG_LPR);
   ("mail"%string, LOG_MAIL); ("syslog"%string, LOG_SYSLOG); ("user"%string, LOG_USER); ("uucp"%string, LOG_UUCP)].

(** The table of names lacks "news", the table of constants has it: the three names after
    that place select the facility before theirs. *)
Definition shifted (f : facility) : facility :=
  match f with LOG_SYSLOG => LOG_NEWS | LOG_USER => LOG_SYSLOG | LOG_UUCP => LOG_USER | f => f end.

(** syslog_open with the name of a facility opens the log with that facility, except
    for "syslog", "user" and "uucp", which open it as news, syslog and user. *)
Theorem syslog_facility_selected s ident name fac :
  (name, fac) ∈ named_facilities -> c_string ident ->
  lc_syslog_open [VStr ident; VStr (string_bytes name)] s
  = Done ({| syslog_ident := Some ident; opened := Some (ident, Some (shifted fac)) |}, []).
Proof.
  intros Hin Hi. unfold lc_syslog_open.
  assert (Forall (fun p => c_string (string_bytes p.1) /\
    find_option (string_bytes p.1) facility_strings 0 2 ≫= mem_get facility_constants = Done (Some (shifted p.2)))
    named_facilities) as Hall by by_decision.
  rewrite Forall_forall in Hall. destruct (Hall (name, fac) Hin) as [Hn Hf]. cbn [fst snd] in Hn, Hf.
  rewrite (checkoption_arg _ 2 _ _ (string_bytes name)) by done.
  destruct (find_option _ facility_strings 0 2) as [k|e|u]; cbn [mbind outcome_bind] in *; [|done..].
  rewrite Hf. cbn [mbind outcome_bind]. by rewrite (checkstring_arg _ 1 ident) by done.
Qed.

(** syslog_setminlevel enables the levels from the given one up to critical, but never
    LOG_ERR, which no name selects. *)
Theorem syslog_setmask_levels k name :
  ["debug"; "info"; "notice"; "warn"; "error"]%string !! k = Some name ->
  lc_syslog_setmask [VStr (string_bytes name)]
  = Done (drop k (Some <$> [LOG_DEBUG; LOG_INFO; LOG_NOTICE; LOG_WARNING; LOG_CRIT])).
Proof.
  intros Hk. unfold lc_syslog_setmask. rewrite (checkoption_arg _ 1 _ _ (string_bytes name)); [|done|].
  - destruct k as [|[|[|[|[|k]]]]]; try done; injection Hk as <-; vm_compute; reflexivity.
  - destruct k as [|[|[|[|[|k]]]]]; try done; injection Hk as <-; by_decision.
Qed.

(** setuid and setgid: with an integer, or a name the system knows, they ask for that
    identity, once, and return true, or false and a message for the error; a negative
    number or an unknown name is refused without a system call. *)
Theorem setid_asks_for no_such invalid lookup set v rest n :
  (v = VInt n /\ is_int n) \/ (exists name, v = VStr name /\ c_string name /\ lookup name = Some n /\ is_int n) ->
  set_id no_such invalid lookup set (v :: rest)
  = if 0 <=? n then
      (Some n, if set n =? 0 then [VBool true]
               else [VBool false; literal (if set n =? EINVAL then invalid
                                           else if set n =? EPERM then "permission-denied"%string
                                           else "unknown-error"%string)])
    else (None, [VBool false; literal invalid]).
Proof.
  intros Hv. unfold set_id.
  assert ((lua_gettop (v :: rest) <? 1) = false) as ->.
  { apply Z.ltb_ge. unfold lua_gettop. rewrite zlen_cons. pose proof (zlen_nonneg rest). lia. }
  assert (is_int n) as Hn by (by destruct Hv as [[_ ?]|(?&_&_&_&?)]).
  assert ((match (if lua_isinteger (v :: rest) 1 then None else lua_tostring (v :: rest) 1) with
    | Some name => match lookup name with None => None | Some id => Some (cint id) end
    | None => Some (cint (lua_tointeger (v :: rest) 1)) end) = Some n) as Hid.
  { destruct Hv as [[-> _]|(name & -> & Hc & Hl & _)].
    - unfold lua_isinteger, lua_tointeger. change (lua_arg (VInt n :: rest) 1) with (Some (VInt n)).
      cbn [mbind option_bind]. rewrite tointegerx_int by range. change (default 0 (Some n)) with n. by rewrite int_small.
    - change (lua_isinteger (VStr name :: rest) 1) with false. rewrite (tostring_arg _ 1 name) by done.
      by rewrite Hl, int_small. }
  destruct (if lua_isinteger (v :: rest) 1 then None else lua_tostring (v :: rest) 1) as [name|].
  - destruct (lookup name) as [id|]; [|done]. injection Hid as ->. cbv zeta. rewrite Z.gtb_ltb.
    destruct (Z.ltb_spec (-1) n), (Z.leb_spec 0 n); try lia; [|done]. by destruct (set n =? 0).
  - injection Hid as ->. cbv zeta. rewrite Z.gtb_ltb.
    destruct (Z.ltb_spec (-1) n), (Z.leb_spec 0 n); try lia; [|done]. by destruct (set n =? 0).
Qed.

(** An argument that is neither a number nor a string, nil for instance, asks for the
    identity 0. *)
Theorem setid_nil_asks_for_root no_such invalid lookup set v rest :
  lua_tolstring v = None -> lua_tointegerx v = None ->
  (set_id no_such invalid lookup set (v :: rest)).1 = Some 0.
Proof.
  intros Hs Hi. unfold set_id.
  assert ((lua_gettop (v :: rest) <? 1) = false) as ->.
  { apply Z.ltb_ge. unfold lua_gettop. rewrite zlen_cons. pose proof (zlen_nonneg rest). lia. }
  assert ((if lua_isinteger (v :: rest) 1 then None else lua_tostring (v :: rest) 1) = None) as ->.
  { destruct (lua_isinteger _ 1); [done|]. unfold lua_tostring. change (lua_arg (v :: rest) 1) with (Some v).
    cbn [mbind option_bind]. by rewrite Hs. }
  unfold lua_tointeger. change (lua_arg (v :: rest) 1) with (Some v). cbn [mbind option_bind]. rewrite Hi.
  change (cint (default 0 None)) with 0. done.
Qed.

(** ** Limits *)

(** A limit as the caller writes it. *)
Inductive limit := Unlimited | Limit (n : Z) | Keep.

Definition limit_value (l : limit) : value :=
  match l with Unlimited => literal "unlimited" | Limit n => VInt n | Keep => VNil end.

Definition limit_of (l : limit) (old : Z) : Z :=
  match l with Unlimited => RLIM_INFINITY | Limit n => size_t n | Keep => old end.

Definition limit_ok (l : limit) : Prop := match l with Limit n => is_integer n | _ => True end.

(** What is read back after it was set. *)
Definition limit_back (l : limit) (old : Z) : value :=
  match l with
  | Unlimited => literal "unlimited"
  | Limit n => if size_t n =? RLIM_INFINITY then literal "unlimited" else VInt n
  | Keep => push_limit old
  end.

Lemma push_limit_of l old : limit_ok l -> push_limit (limit_of l old) = limit_back l old.
Proof.
  unfold push_limit. destruct l as [|n|]; cbn; intros Hl; [by rewrite Z.eqb_refl| |done].
  case_match; [done|]. f_equal. apply long_size_t. exact Hl.
Qed.

Lemma arg_to_rlimit_value L i l old :
  lua_arg L i = Some (limit_value l) -> limit_ok l -> arg_to_rlimit L i old = Done (limit_of l old).
Proof.
  intros E Hl. unfold arg_to_rlimit. rewrite E. destruct l as [|n|]; cbn [limit_value fmap option_fmap option_map].
  - change (type_of (literal "unlimited")) with LUA_TSTRING. cbv iota.
    rewrite (tostring_arg L i (string_bytes "unlimited")) by (try done; by_decision). by rewrite bool_decide_eq_true_2.
  - cbn [type_of]. unfold lua_tointeger. rewrite E. cbn [mbind option_bind limit_value].
    cbn [limit_ok] in Hl. by rewrite tointegerx_int by done.
  - done.
Qed.


(** A negative limit is not replaced by the current one: -1 is the largest value, which is
    RLIM_INFINITY on Linux. *)
Theorem rlimit_negative L i old n :
  lua_arg L i = Some (VInt n) -> is_integer n -> n < 0 -> arg_to_rlimit L i old = Done (2 ^ 64 + n).
Proof.
  intros E Hi Hn. unfold arg_to_rlimit, lua_tointeger. rewrite E. cbn [fmap option_fmap option_map type_of mbind option_bind].
  rewrite tointegerx_int by done. change (default 0 (Some n)) with n.
  rewrite size_neg by range. f_equal. lia.
Qed.

(** umask takes back what it returned: when a call answers that the old mask was [t],
    a later call with [t] asks the system for exactly that mask, for all 18-bit masks. *)
Theorem umask_restores umask umask' L mode t old :
  lc_umask umask L = Done (mode, [VStr t]) -> umask mode = old -> 0 <= old < 2 ^ 18 ->
  exists r, lc_umask umask' [VStr t] = Done (old, r).
Proof.
  intros E Ho Hold. unfold lc_umask in E. destruct (luaL_checkstring L 1) as [s|e|u]; [|done..].
  cbn [mbind outcome_bind] in E. injection E as Em Et. rewrite Em, Ho in Et.
  assert (take 6 (format_03o old) = format_03o old) as Hlen.
  { apply take_ge. apply Nat2Z.inj_le.
    assert (forall n v, 0 <= v < 8 ^ Z.of_nat n -> (0 < n)%nat -> forall m, (n <= m)%nat -> (length (to_octal m v) <= n)%nat) as Hd.
    { clear. induction n as [|n IH]; intros v Hv Hn m Hm; [lia|]. destruct m as [|m]; [lia|]. cbn [to_octal].
      destruct (Z.ltb_spec v 8); [cbn; lia|]. rewrite length_app. cbn [length].
      rewrite Nat2Z.inj_succ, Z.pow_succ_r in Hv by lia.
      assert (0 < n)%nat as Hn' by (destruct n; [cbn in Hv; lia|lia]).
      specialize (IH (v / 8) ltac:(split; [apply Z.div_pos; lia|apply Z.div_lt_upper_bound; lia]) Hn' m ltac:(lia)). lia. }
    specialize (Hd 6%nat old ltac:(cbn; lia) ltac:(lia) 22%nat ltac:(lia)). unfold format_03o.
    rewrite length_app, length_replicate. lia. }
  rewrite Hlen in Et. subst t. unfold lc_umask.
  destruct (format_octal old) as [Hf _]; [lia|].
  assert (c_string (format_03o old)) as Hc.
  { assert (Forall (fun c => 48 <= c <= 55) (format_03o old)) as Hb.
    { eapply Forall_impl; [exact Hf|]. intros c Hc. unfold is_octal in Hc. rewrite andb_true_iff, !Z.leb_le in Hc. lia. }
    split; [split|].
    - unfold bytes_ok. eapply Forall_impl; [exact Hb|]. intros c Hc. cbn in Hc. range.
    - rewrite <- Hlen. unfold zlen. rewrite length_take. range.
    - unfold c_str. apply until_nul_c_str. intros Hin. rewrite Forall_forall in Hb. specialize (Hb 0 Hin). lia. }
  rewrite (checkstring_arg _ 1 (format_03o old)) by done. cbn [mbind outcome_bind]. eexists.
  rewrite strtoul_format by lia. rewrite wrap_u_small by lia. done.
Qed.

(** An unknown flag of pipe is looked for beyond the end of the table of names. *)
Theorem pipe_unknown_flag pipe2 s :
  c_string s -> s ∉ string_bytes <$> ["cloexec"; "direct"; "nonblock"]%string ->
  lc_pipe pipe2 [VStr s] = Undef OutOfBounds.
Proof.
  intros Hs Hn. unfold lc_pipe. cbn [length pipe_flags]. rewrite (checkoption_arg _ 1 _ _ s) by done.
  unfold pipe_flag_names. by rewrite find_option_none.
Qed.

End properties.

(** ** Witnesses *)

#[local] Existing Instances lua_strict linux_errors.
#[local] Instance linux_ids : IdErrors := {| EINVAL := 22; EPERM := 1; ENOMEM := 12 |}.
#[local] Instance linux_rlimits : Rlimits := {| RLIM_INFINITY := 2 ^ 64 - 1 |}.

Lemma syslog_facility_selected_witness :
  exists s, lc_syslog_open [VStr [112]; VStr (string_bytes "syslog")] {| syslog_ident := None; opened := None |} = Done (s, []) /\
    opened s = Some ([112], Some LOG_NEWS).
Proof.
  exists {| syslog_ident := Some [112]; opened := Some ([112], Some LOG_NEWS) |}. split; [|reflexivity].
  assert (("syslog"%string, LOG_SYSLOG) ∈ named_facilities) as Hin by (apply (list_elem_of_lookup_2 _ 16); reflexivity).
  assert (c_string [112]) as Hc by by_decision.
  exact (syslog_facility_selected {| syslog_ident := None; opened := None |} [112] "syslog" LOG_SYSLOG Hin Hc).
Defined.

Lemma setid_asks_for_witness :
  lc_setuid (fun _ => None) (fun id => if id =? 1000 then 0 else 1) [VInt 1000] = (Some 1000, [VBool true]) /\
  lc_setuid (fun _ => None) (fun id => if id =? 1000 then 0 else 1) [VInt 0]
  = (Some 0, [VBool false; literal "permission-denied"]).
Proof.
  assert (is_int 1000) as H1000 by by_decision. assert (is_int 0) as H0' by by_decision. split.
  - exact (setid_asks_for "no-such-user" "invalid-uid" (fun _ => None) (fun id => if id =? 1000 then 0 else 1) (VInt 1000) []
      1000 (or_introl (conj eq_refl H1000))).
  - exact (setid_asks_for "no-such-user" "invalid-uid" (fun _ => None) (fun id => if id =? 1000 then 0 else 1) (VInt 0) []
      0 (or_introl (conj eq_refl H0'))).
Defined.

(** A process whose limits are a function. *)
Definition get_limit (r : resource) (k : resource -> rlimit) : option rlimit := Some (k r).
Definition set_limit (r : resource) (l : rlimit) (k : resource -> rlimit) : bool * (resource -> rlimit) :=
  (true, fun r' => if decide (r' = r) then l else k r').
Definition no_limits (r : resource) : rlimit := {| rlim_cur := 1024; rlim_max := 4096 |}.


Lemma umask_restores_witness :
  exists r, lc_umask (fun _ => 0) [VStr [48; 50; 50]] = Done (18, r).
Proof.
  apply (umask_restores (fun _ => 18) (fun _ => 0) [VStr [48; 55; 55]] 63 [48; 50; 50] 18); [by vm_compute|done|lia].
Defined.
