(* ===== verification/Hashes.v ===== *)
(** * util-src/hashes.c

    OpenSSL is a parameter: contexts, the steps of a digest, HMAC, PBKDF2 and HKDF, with
    the lengths of their results.  The buffers of the C functions are modelled byte by
    byte.  The theorems: a hash function returns the digest, or its hexadecimal form,
    which determines it, and stays in its buffers; so does HMAC, for keys whose length an
    [int] holds; HKDF refuses lengths beyond its buffer
    and negative ones; equals is equality. *)

From stdpp Require Import base tactics numbers list strings.
From Stdlib Require Import ZArith Lia SpecFloat.
From S2P Require Import Prelude LuaApi.

Local Open Scope Z_scope.

Definition MAX_HKDF_OUTPUT : Z := 256.

Inductive evp_md :=
  | EVP_sha1 | EVP_sha224 | EVP_sha256 | EVP_sha384 | EVP_sha512 | EVP_md5
  | EVP_blake2s256 | EVP_blake2b512 | EVP_sha3_256 | EVP_sha3_512.

(** What the module calls; [None] is a failure.  Keys, passwords, salts and the other inputs of
    a derivation are given by their memory and a length of type [int]. *)
Class OpenSSL := {
  EVP_MAX_MD_SIZE : Z;
  MD_CTX : Type;
  EVP_MD_CTX_new : option MD_CTX;
  EVP_DigestInit_ex : MD_CTX -> evp_md -> option MD_CTX;
  EVP_DigestUpdate : MD_CTX -> bytes -> option MD_CTX;
  EVP_DigestFinal_ex : MD_CTX -> option bytes;
  HMAC : evp_md -> bytes -> Z -> bytes -> option bytes;
  PKCS5_PBKDF2_HMAC : bytes -> Z -> bytes -> Z -> Z -> evp_md -> Z -> option bytes;
  PKEY_CTX : Type;
  EVP_PKEY_CTX_new_id : PKEY_CTX;                  (* EVP_PKEY_HKDF *)
  EVP_PKEY_derive_init : PKEY_CTX -> option PKEY_CTX;
  EVP_PKEY_CTX_set_hkdf_md : PKEY_CTX -> evp_md -> option PKEY_CTX;
  EVP_PKEY_CTX_set1_hkdf_salt : PKEY_CTX -> bytes -> Z -> option PKEY_CTX;
  EVP_PKEY_CTX_set1_hkdf_key : PKEY_CTX -> bytes -> Z -> option PKEY_CTX;
  EVP_PKEY_CTX_add1_hkdf_info : PKEY_CTX -> bytes -> Z -> option PKEY_CTX;
  EVP_PKEY_derive : PKEY_CTX -> Z -> option bytes;
  ERR_error_string : bytes;
}.

Definition SHA_DIGEST_LENGTH : Z := 20.
Definition SHA256_DIGEST_LENGTH : Z := 32.

Definition hex_tab : bytes := string_bytes "0123456789abcdef".

(** [for(i = 0; i < length; i++)]: [n] iterations are left. *)
Fixpoint toHex_loop (n : nat) (i : Z) (src out : bytes) : outcome bytes :=
  match n with
  | O => Done out
  | S n =>
      c ← mem_get src i;
      h ← mem_get hex_tab (Z.land (Z.shiftr c 4) 0xF);
      out ← mem_set out (i * 2) h;
      l ← mem_get hex_tab (Z.land c 0xF);
      out ← mem_set out (i * 2 + 1) l;
      toHex_loop n (i + 1) src out
  end.

Definition toHex (src : bytes) (length : Z) (out : bytes) : outcome bytes := toHex_loop (Z.to_nat length) 0 src out.

(** OpenSSL writes [r] at the start of a buffer. *)
Definition write_buffer (buf r : bytes) : outcome bytes :=
  if zlen r <=? zlen buf then Done (r ++ drop (length r) buf) else Undef OutOfBounds.

Section functions.
Context `{LuaAux, OpenSSL}.
Implicit Types (L : list value) (evp : evp_md) (hash result out : bytes).

Definition evp_error {A} : outcome A := Raise (ErrorObject ERR_error_string).

(** The digest as the four calls compute it. *)
Definition digest evp (s : bytes) : option bytes :=
  ctx ← EVP_MD_CTX_new;
  ctx ← EVP_DigestInit_ex ctx evp;
  ctx ← EVP_DigestUpdate ctx s;
  EVP_DigestFinal_ex ctx.

(** [hash] and [result] are the contents of the two buffers at the start. *)
Definition push_digest (hex_out : bool) (hash result : bytes) (d : option bytes) : outcome (list value) :=
  match d with
  | None => evp_error
  | Some d =>
      hash ← write_buffer hash d;
      let size := zlen d in
      if hex_out then
        result ← toHex hash size result;
        r ← mem_sub result 0 (size * 2);
        Done [VStr r]
      else
        r ← mem_sub hash 0 size;
        Done [VStr r]
  end.

Definition Levp_hash evp hash result L : outcome (list value) :=
  s ← luaL_checklstring L 1;
  push_digest (lua_toboolean L 2) hash result (digest evp s).

Definition Levp_hmac evp hash result L : outcome (list value) :=
  key ← luaL_checklstring L 1;
  msg ← luaL_checklstring L 2;
  push_digest (lua_toboolean L 3) hash result (HMAC evp key (cint (zlen key)) msg).

Definition Levp_pbkdf2 evp (out_len : Z) out L : outcome (list value) :=
  pass ← luaL_checklstring L 1;
  salt ← luaL_checklstring L 2;
  n ← luaL_checkinteger L 3;
  match PKCS5_PBKDF2_HMAC pass (cint (zlen pass)) salt (cint (zlen salt)) (cint n) evp out_len with
  | None => evp_error
  | Some r =>
      out ← write_buffer out r;
      r ← mem_sub out 0 out_len;
      Done [VStr r]
  end.

(** [luaL_optlstring(L, i, NULL, ...)] *)
Definition luaL_optlstring L i : outcome (option bytes) :=
  if lua_isnoneornil L i then Done None else Some <$> luaL_checklstring L i.

(** The derivation as the calls compute it, in their order. *)
Definition HKDF evp (salt : option bytes) (input info : bytes) (len : Z) : option bytes :=
  pctx ← EVP_PKEY_derive_init EVP_PKEY_CTX_new_id;
  pctx ← EVP_PKEY_CTX_set_hkdf_md pctx evp;
  pctx ← (match salt with Some salt => EVP_PKEY_CTX_set1_hkdf_salt pctx salt (cint (zlen salt)) | None => Some pctx end : option PKEY_CTX);
  pctx ← EVP_PKEY_CTX_set1_hkdf_key pctx input (cint (zlen input));
  pctx ← EVP_PKEY_CTX_add1_hkdf_info pctx info (cint (zlen info));
  EVP_PKEY_derive pctx len.

Definition Levp_hkdf evp out L : outcome (list value) :=
  n ← luaL_checkinteger L 1;
  let actual_out_len := size_t n in
  input ← luaL_checklstring L 2;
  salt ← luaL_optlstring L 3;
  info ← luaL_checklstring L 4;
  if actual_out_len >? MAX_HKDF_OUTPUT then luaL_error (invalid_format "desired output length %ul exceeds internal limit %ul")
  else
    match HKDF evp salt input info actual_out_len with
    | None => evp_error
    | Some r =>
        out ← write_buffer out r;
        r ← mem_sub out 0 (zlen r);
        Done [VStr r]
    end.

(** [CRYPTO_memcmp], which is 0 exactly for equal memory, on [n] bytes. *)
Definition CRYPTO_memcmp (a b : bytes) (n : Z) : outcome Z :=
  x ← mem_sub a 0 n;
  y ← mem_sub b 0 n;
  Done (if bool_decide (x = y) then 0 else 1).

Definition Lhash_equals L : outcome (list value) :=
  s1 ← luaL_checklstring L 1;
  s2 ← luaL_checklstring L 2;
  if zlen s1 =? zlen s2 then
    r ← CRYPTO_memcmp s1 s2 (zlen s1);
    Done [VBool (r =? 0)]
  else Done [VBool false].

(** The functions of each hash. *)
Definition Lsha1 := Levp_hash EVP_sha1.
Definition Lsha224 := Levp_hash EVP_sha224.
Definition Lsha256 := Levp_hash EVP_sha256.
Definition Lsha384 := Levp_hash EVP_sha384.
Definition Lsha512 := Levp_hash EVP_sha512.
Definition Lmd5 := Levp_hash EVP_md5.
Definition Lblake2s256 := Levp_hash EVP_blake2s256.
Definition Lblake2b512 := Levp_hash EVP_blake2b512.
Definition Lsha3_256 := Levp_hash EVP_sha3_256.
Definition Lsha3_512 := Levp_hash EVP_sha3_512.
Definition Lhmac_sha1 := Levp_hmac EVP_sha1.
Definition Lhmac_sha224 := Levp_hmac EVP_sha224.
Definition Lhmac_sha256 := Levp_hmac EVP_sha256.
Definition Lhmac_sha384 := Levp_hmac EVP_sha384.
Definition Lhmac_sha512 := Levp_hmac EVP_sha512.
Definition Lhmac_md5 := Levp_hmac EVP_md5.
Definition Lhmac_sha3_256 := Levp_hmac EVP_sha3_256.
Definition Lhmac_sha3_512 := Levp_hmac EVP_sha3_512.
Definition Lhmac_blake2s256 := Levp_hmac EVP_blake2s256.
Definition Lhmac_blake2b512 := Levp_hmac EVP_blake2b512.
Definition Lpbkdf2_sha1 := Levp_pbkdf2 EVP_sha1 SHA_DIGEST_LENGTH.
Definition Lpbkdf2_sha256 := Levp_pbkdf2 EVP_sha256 SHA256_DIGEST_LENGTH.
Definition Lhkdf_sha256 := Levp_hkdf EVP_sha256.
Definition Lhkdf_sha384 := Levp_hkdf EVP_sha384.

(** The exported functions. *)
Definition Reg (name : string) (hash result out hkdf_out : bytes) : option (list value -> outcome (list value)) :=
  match name with
  | "sha1" => Some (Lsha1 hash result)
  | "sha224" => Some (Lsha224 hash result)
  | "sha256" => Some (Lsha256 hash result)
  | "sha384" => Some (Lsha384 hash result)
  | "sha512" => Some (Lsha512 hash result)
  | "md5" => Some (Lmd5 hash result)
  | "sha3_256" => Some (Lsha3_256 hash result)
  | "sha3_512" => Some (Lsha3_512 hash result)
  | "blake2s256" => Some (Lblake2s256 hash result)
  | "blake2b512" => Some (Lblake2b512 hash result)
  | "hmac_sha1" => Some (Lhmac_sha1 hash result)
  | "hmac_sha224" => Some (Lhmac_sha224 hash result)
  | "hmac_sha256" => Some (Lhmac_sha256 hash result)
  | "hmac_sha384" => Some (Lhmac_sha384 hash result)
  | "hmac_sha512" => Some (Lhmac_sha512 hash result)
  | "hmac_md5" => Some (Lhmac_md5 hash result)
  | "hmac_sha3_256" => Some (Lhmac_sha3_256 hash result)
  | "hmac_sha3_512" => Some (Lhmac_sha3_512 hash result)
  | "hmac_blake2s256" => Some (Lhmac_blake2s256 hash result)
  | "hmac_blake2b512" => Some (Lhmac_blake2b512 hash result)
  | "scram_Hi_sha1" | "pbkdf2_hmac_sha1" => Some (Lpbkdf2_sha1 out)
  | "pbkdf2_hmac_sha256" => Some (Lpbkdf2_sha256 out)
  | "hkdf_hmac_sha256" => Some (Lhkdf_sha256 hkdf_out)
  | "hkdf_hmac_sha384" => Some (Lhkdf_sha384 hkdf_out)
  | "equals" => Some Lhash_equals
  | _ => None
  end%string.

End functions.

(** ** Hexadecimal *)

(** The value of a digit of [hex_tab], and the bytes that hexadecimal text stands for. *)
Definition hex_digit (v : Z) : Z := if v <? 10 then 48 + v else 87 + v.
Definition digit_value (c : Z) : Z := if c <? 58 then c - 48 else c - 87.

Definition to_hex (s : bytes) : bytes := s ≫= (fun c => [hex_digit (c / 16); hex_digit (c mod 16)]).

Fixpoint from_hex (s : bytes) : bytes :=
  match s with h :: l :: s => digit_value h * 16 + digit_value l :: from_hex s | _ => [] end.

Lemma digit_value_digit v : 0 <= v < 16 -> digit_value (hex_digit v) = v.
Proof.
  intros Hv. unfold digit_value, hex_digit. destruct (Z.ltb_spec v 10) as [Hl|Hl]; case_match eqn:E;
    rewrite ?Z.ltb_lt, ?Z.ltb_ge in E; lia.
Qed.

Lemma from_to_hex s : bytes_ok s -> from_hex (to_hex s) = s.
Proof.
  induction 1 as [|c s Hc _ IH]; [done|]. change (to_hex (c :: s)) with (hex_digit (c / 16) :: hex_digit (c mod 16) :: to_hex s).
  cbn [from_hex]. unfold is_byte in Hc. pose proof (Z.mod_pos_bound c 16 ltac:(lia)). pose proof (Z.div_mod c 16 ltac:(lia)).
  rewrite !digit_value_digit, IH; [f_equal; lia|lia|split; [apply Z.div_pos; lia|apply Z.div_lt_upper_bound; lia]].
Qed.

Lemma length_to_hex s : length (to_hex s) = (2 * length s)%nat.
Proof. unfold to_hex. induction s as [|c s IH]; [done|]. cbn in *. lia. Qed.

Lemma to_hex_app s t : to_hex (s ++ t) = to_hex s ++ to_hex t.
Proof. unfold to_hex. apply bind_app. Qed.

Lemma hex_tab_get v : 0 <= v < 16 -> mem_get hex_tab v = Done (hex_digit v).
Proof.
  revert v. apply (forall_range 16 (fun v => mem_get hex_tab v = Done (hex_digit v))). vm_compute. reflexivity.
Qed.

Lemma nibbles c : is_byte c -> Z.land (Z.shiftr c 4) 0xF = c / 16 /\ Z.land c 0xF = c mod 16.
Proof.
  unfold is_byte. intros Hc. change 0xF with (Z.ones 4). rewrite !Z.land_ones, Z.shiftr_div_pow2 by lia.
  change (2 ^ 4) with 16. split; [|done]. apply Z.mod_small. split; [apply Z.div_pos; lia|apply Z.div_lt_upper_bound; lia].
Qed.

(** The loop writes the text of the bytes it reads, in place. *)
Lemma toHex_loop_spec src : forall n i out,
  0 <= i -> i + Z.of_nat n <= zlen src -> 2 * (i + Z.of_nat n) <= zlen out -> bytes_ok (slice src i (Z.of_nat n)) ->
  toHex_loop n i src out
  = Done (take (Z.to_nat (2 * i)) out ++ to_hex (slice src i (Z.of_nat n)) ++ drop (Z.to_nat (2 * (i + Z.of_nat n))) out).
Proof.
  induction n as [|n IH]; intros i out Hi Hs Ho Hb.
  { cbn [toHex_loop]. rewrite slice_nil by lia. cbn [to_hex mbind list_bind app].
    replace (2 * (i + Z.of_nat 0)) with (2 * i) by lia. by rewrite take_drop. }
  cbn [toHex_loop]. destruct (lookup_lt_is_Some_2 src (Z.to_nat i)) as [c Hc]; [unfold zlen in Hs; lia|].
  assert (slice src i (Z.of_nat (S n)) = c :: slice src (i + 1) (Z.of_nat n)) as Es.
  { unfold slice. rewrite !Nat2Z.id. replace (Z.to_nat (i + 1)) with (S (Z.to_nat i)) by lia. by rewrite (drop_S _ _ _ Hc). }
  rewrite Es in Hb |- *. apply Forall_cons in Hb as [Hcb Hb]. destruct (nibbles c Hcb) as [E1 E2].
  unfold is_byte in Hcb. pose proof (Z.mod_pos_bound c 16 ltac:(lia)).
  rewrite (mem_get_done _ _ c) by done. cbn [mbind outcome_bind]. rewrite E1, E2.
  rewrite !hex_tab_get by (try (split; [apply Z.div_pos; lia|apply Z.div_lt_upper_bound; lia]); done). cbn [mbind outcome_bind].
  rewrite mem_set_done by lia. cbn [mbind outcome_bind].
  rewrite mem_set_done by (unfold zlen in *; rewrite length_insert; lia). cbn [mbind outcome_bind].
  rewrite IH; [|lia|lia|unfold zlen in *; rewrite !length_insert; lia|done]. f_equal.
  change (to_hex (c :: slice src (i + 1) (Z.of_nat n)))
    with ([hex_digit (c / 16); hex_digit (c mod 16)] ++ to_hex (slice src (i + 1) (Z.of_nat n))).
  replace (2 * (i + Z.of_nat (S n))) with (2 * (i + 1 + Z.of_nat n)) by lia. rewrite !app_assoc. f_equal.
  - f_equal. replace (Z.to_nat (2 * (i + 1))) with (S (S (Z.to_nat (i * 2)))) by lia.
    replace (Z.to_nat (i * 2 + 1)) with (S (Z.to_nat (i * 2))) by lia. replace (2 * i) with (i * 2) by lia.
    assert (S (Z.to_nat (i * 2)) < length out)%nat by (unfold zlen in Ho; lia).
    rewrite (take_S_r _ _ (hex_digit (c mod 16))) by (apply list_lookup_insert_eq; rewrite length_insert; lia).
    rewrite take_insert_ge by lia.
    rewrite (take_S_r _ _ (hex_digit (c / 16))) by (apply list_lookup_insert_eq; lia).
    rewrite take_insert_ge by lia. by rewrite <- app_assoc.
  - rewrite !drop_insert_lt by lia. done.
Qed.

Lemma write_buffer_done buf r : zlen r <= zlen buf -> write_buffer buf r = Done (r ++ drop (length r) buf).
Proof. intros. unfold write_buffer. by zcase. Qed.

Lemma sub_prefix (r rest : bytes) : mem_sub (r ++ rest) 0 (zlen r) = Done r.
Proof.
  rewrite mem_sub_done; [|lia|apply zlen_nonneg|rewrite zlen_app; pose proof (zlen_nonneg rest); lia].
  f_equal. unfold slice, zlen. change (Z.to_nat 0) with O. by rewrite drop_0, Nat2Z.id, take_app_length.
Qed.

Lemma zlen_written (buf r : bytes) : zlen r <= zlen buf -> zlen (r ++ drop (length r) buf) = zlen buf.
Proof. unfold zlen. rewrite length_app, length_drop. lia. Qed.

(** ** Properties *)

Section properties.
Context `{LuaAux, OpenSSL}.
Implicit Types (L : list value) (evp : evp_md) (hash result out d : bytes).

(** A digest fits its buffer and is made of bytes. *)
Definition digest_ok (r : option bytes) : Prop :=
  match r with Some d => bytes_ok d /\ zlen d <= EVP_MAX_MD_SIZE | None => True end.

(** What a function returns for a digest: it, its text, or the error of OpenSSL. *)
Definition digest_result (hex : bool) (r : option bytes) : outcome (list value) :=
  match r with Some d => Done [VStr (if hex then to_hex d else d)] | None => evp_error end.

Lemma push_digest_spec hex hash result r :
  zlen hash = EVP_MAX_MD_SIZE -> zlen result = EVP_MAX_MD_SIZE * 2 -> digest_ok r ->
  push_digest hex hash result r = digest_result hex r.
Proof.
  intros Hh Hr Hok. destruct r as [d|]; [|done]. destruct Hok as [Hb Hl]. unfold push_digest.
  rewrite write_buffer_done by lia. cbn [mbind outcome_bind]. destruct hex; [|by rewrite sub_prefix].
  assert (slice (d ++ drop (length d) hash) 0 (Z.of_nat (Z.to_nat (zlen d))) = d) as Es.
  { unfold slice, zlen. rewrite !Nat2Z.id. change (Z.to_nat 0) with O. by rewrite drop_0, take_app_length. }
  pose proof (zlen_nonneg d). unfold toHex.
  rewrite toHex_loop_spec by (rewrite ?Es, ?zlen_written by lia; (done || lia)). rewrite Es. cbn [mbind outcome_bind].
  change (Z.to_nat (2 * 0)) with O. rewrite take_0. cbn [app].
  replace (zlen d * 2) with (zlen (to_hex d)) by (unfold zlen; rewrite length_to_hex; lia). by rewrite sub_prefix.
Qed.

(** C37. A hash or HMAC function returns exactly the digest that OpenSSL computes (for HMAC,
    with a key whose length an [int] holds: of the whole key), or its text in hexadecimal
    when the last argument is true, or raises OpenSSL's error, whatever the buffers
    contained, and never leaves them; the text has two digits for each byte and gives the
    digest back. *)
Theorem digest_returned evp hash result key s hex L :
  zlen hash = EVP_MAX_MD_SIZE -> zlen result = EVP_MAX_MD_SIZE * 2 -> lua_string key -> zlen key <= int_max ->
  lua_string s -> digest_ok (digest evp s) -> digest_ok (HMAC evp key (zlen key) s) ->
  Levp_hash evp hash result (VStr s :: VBool hex :: L) = digest_result hex (digest evp s) /\
  Levp_hmac evp hash result (VStr key :: VStr s :: VBool hex :: L) = digest_result hex (HMAC evp key (zlen key) s) /\
  (forall d, bytes_ok d -> from_hex (to_hex d) = d /\ zlen (to_hex d) = 2 * zlen d).
Proof.
  intros Hh Hr Hk Hkl Hs Hd1 Hd2. split; [|split].
  - unfold Levp_hash. rewrite (checklstring_str _ 1 s) by done. cbn [mbind outcome_bind].
    rewrite push_digest_spec by done. by destruct hex.
  - unfold Levp_hmac. rewrite (checklstring_str _ 1 key), (checklstring_str _ 2 s) by done. cbn [mbind outcome_bind].
    pose proof (zlen_nonneg key). rewrite int_small by range. rewrite push_digest_spec by done. by destruct hex.
  - intros d Hb. split; [by apply from_to_hex|]. unfold zlen. rewrite length_to_hex. lia.
Qed.

(** HKDF with a length up to 256 returns what OpenSSL derives, inside the buffer; a
    larger or a negative length raises before OpenSSL is called; the salt may be nil. *)
Theorem hkdf_length_checked evp out n input salt info :
  zlen out = MAX_HKDF_OUTPUT -> is_integer n -> lua_string input -> lua_string info ->
  match salt with Some s => lua_string s | None => True end ->
  (forall r, HKDF evp salt input info n = Some r -> zlen r = n) ->
  Levp_hkdf evp out [VInt n; VStr input; from_option VStr VNil salt; VStr info]
  = if (0 <=? n) && (n <=? MAX_HKDF_OUTPUT) then
      match HKDF evp salt input info n with Some r => Done [VStr r] | None => evp_error end
    else Raise (LuaError (invalid_format "desired output length %ul exceeds internal limit %ul")).
Proof.
  intros Ho Hn Hi Hf Hsalt Hlen. unfold Levp_hkdf. rewrite (checkinteger_int _ 1 n) by done. cbn [mbind outcome_bind].
  rewrite (checklstring_str _ 2 input) by done. cbn [mbind outcome_bind].
  assert (luaL_optlstring [VInt n; VStr input; from_option VStr VNil salt; VStr info] 3 = Done salt) as ->.
  { unfold luaL_optlstring. destruct salt as [s|]; [|done].
    change (lua_isnoneornil [VInt n; VStr input; from_option VStr VNil (Some s); VStr info] 3) with false. cbv iota.
    by rewrite (checklstring_str _ 3 s). }
  cbn [mbind outcome_bind]. rewrite (checklstring_str _ 4 info) by done. cbn [mbind outcome_bind]. cbv zeta.
  unfold MAX_HKDF_OUTPUT in *. rewrite Z.gtb_ltb. destruct (Z.leb_spec 0 n) as [H0'|H0'].
  - rewrite size_small by range. destruct (Z.leb_spec n 256); destruct (Z.ltb_spec 256 n); try lia; [|done]. cbn [andb].
    destruct (HKDF evp salt input info n) as [r|] eqn:E; [|done]. specialize (Hlen r eq_refl).
    rewrite write_buffer_done by lia. cbn [mbind outcome_bind]. by rewrite sub_prefix.
  - rewrite size_neg by range. destruct (Z.ltb_spec 256 (n + 2 ^ 64)); [done|]. exfalso. range.
Qed.

(** With a longer key OpenSSL is told another length: the low 32 bits, as a signed number. *)
Theorem hmac_key_length_wraps evp hash result key s hex L :
  zlen hash = EVP_MAX_MD_SIZE -> zlen result = EVP_MAX_MD_SIZE * 2 -> lua_string key -> 2 ^ 32 <= zlen key < 2 ^ 32 + 2 ^ 31 ->
  lua_string s -> digest_ok (HMAC evp key (zlen key - 2 ^ 32) s) ->
  Levp_hmac evp hash result (VStr key :: VStr s :: VBool hex :: L) = digest_result hex (HMAC evp key (zlen key - 2 ^ 32) s).
Proof.
  intros Hh Hr Hk Hkl Hs Hd. unfold Levp_hmac. rewrite (checklstring_str _ 1 key), (checklstring_str _ 2 s) by done.
  cbn [mbind outcome_bind]. replace (cint (zlen key)) with (zlen key - 2 ^ 32); [rewrite push_digest_spec by done; by destruct hex|].
  unfold wrap_s. change (32 - 1) with 31. replace (zlen key + 2 ^ 31) with (zlen key - 2 ^ 32 + 2 ^ 31 + 1 * 2 ^ 32) by lia.
  rewrite Z.mod_add, Z.mod_small by lia. lia.
Qed.

(** PBKDF2 returns as many bytes as the digest it is built on has. *)
Theorem pbkdf2_length evp n out pass salt k r :
  zlen out = EVP_MAX_MD_SIZE -> n <= EVP_MAX_MD_SIZE -> lua_string pass -> lua_string salt ->
  zlen pass <= int_max -> zlen salt <= int_max -> is_int k ->
  PKCS5_PBKDF2_HMAC pass (zlen pass) salt (zlen salt) k evp n = Some r -> zlen r = n ->
  Levp_pbkdf2 evp n out [VStr pass; VStr salt; VInt k] = Done [VStr r].
Proof.
  intros Ho Hn Hp Hs Hpl Hsl Hk E Hr. unfold Levp_pbkdf2.
  rewrite (checklstring_str _ 1 pass), (checklstring_str _ 2 salt), (checkinteger_int _ 3 k) by (done || range).
  cbn [mbind outcome_bind]. pose proof (zlen_nonneg pass). pose proof (zlen_nonneg salt).
  rewrite !int_small, E by (done || range). rewrite write_buffer_done by lia. cbn [mbind outcome_bind].
  by rewrite <- Hr, sub_prefix.
Qed.

(** equals is equality of strings, for strings of any lengths, and reads both only
    when their lengths are equal. *)
Theorem equals_is_equality s1 s2 :
  lua_string s1 -> lua_string s2 -> Lhash_equals [VStr s1; VStr s2] = Done [VBool (bool_decide (s1 = s2))].
Proof.
  intros H1' H2'. unfold Lhash_equals. rewrite (checklstring_str _ 1 s1), (checklstring_str _ 2 s2) by done.
  cbn [mbind outcome_bind]. destruct (Z.eqb_spec (zlen s1) (zlen s2)) as [E|E].
  - unfold CRYPTO_memcmp. pose proof (sub_prefix s1 []) as P1. pose proof (sub_prefix s2 []) as P2.
    rewrite app_nil_r in P1, P2. rewrite P1. cbn [mbind outcome_bind]. rewrite E, P2. cbn [mbind outcome_bind].
    by case_bool_decide.
  - rewrite bool_decide_eq_false_2 by congruence. done.
Qed.

End properties.

(** ** Witnesses: a checksum in the place of the digests *)

Definition toy_digest (s : bytes) : bytes := [foldr Z.add 0 s mod 256; zlen s mod 256].

Definition toy_openssl : OpenSSL := {|
  EVP_MAX_MD_SIZE := 64;
  MD_CTX := bytes;
  EVP_MD_CTX_new := Some [];
  EVP_DigestInit_ex c _ := Some [];
  EVP_DigestUpdate c s := Some (c ++ s);
  EVP_DigestFinal_ex c := Some (toy_digest c);
  HMAC _ k n s := Some (toy_digest (take (Z.to_nat n) k ++ s));
  PKCS5_PBKDF2_HMAC _ _ _ _ _ _ n := Some (replicate (Z.to_nat n) 7);
  PKEY_CTX := unit;
  EVP_PKEY_CTX_new_id := tt;
  EVP_PKEY_derive_init c := Some c;
  EVP_PKEY_CTX_set_hkdf_md c _ := Some c;
  EVP_PKEY_CTX_set1_hkdf_salt c _ _ := Some c;
  EVP_PKEY_CTX_set1_hkdf_key c _ _ := Some c;
  EVP_PKEY_CTX_add1_hkdf_info c _ _ := Some c;
  EVP_PKEY_derive _ n := if n <? 4 then None else Some (replicate (Z.to_nat n) 9);
  ERR_error_string := [69];
|}.

#[local] Existing Instances lua_strict toy_openssl.

Lemma digest_returned_witness :
  Levp_hash EVP_sha1 (replicate 64 1) (replicate 128 2) [VStr [100; 101]; VBool true] = Done [VStr [99; 57; 48; 50]] /\
  from_hex [99; 57; 48; 50] = [201; 2].
Proof.
  assert (lua_string [100; 101]) as Hs by by_decision.
  assert (digest_ok (digest EVP_sha1 [100; 101])) as Hd by (split; [by_decision|vm_compute; done]).
  assert (digest_ok (HMAC EVP_sha1 [7] 1 [100; 101])) as Hd' by (split; [by_decision|vm_compute; done]).
  destruct (digest_returned (H0 := toy_openssl) EVP_sha1 (replicate 64 1) (replicate 128 2) [7] [100; 101] true [] eq_refl eq_refl
    ltac:(by_decision) ltac:(by_decision) Hs Hd Hd') as (E & _ & Hh).
  split; [exact E|]. exact (proj1 (Hh [201; 2] ltac:(by_decision))).
Defined.

Lemma hkdf_length_checked_witness :
  Levp_hkdf EVP_sha256 (replicate 256 0) [VInt 5; VStr [1]; VNil; VStr []] = Done [VStr [9; 9; 9; 9; 9]] /\
  Levp_hkdf EVP_sha256 (replicate 256 0) [VInt (-1); VStr [1]; VNil; VStr []]
  = Raise (LuaError "invalid conversion '%u' to 'lua_pushfstring'").
Proof.
  assert (lua_string [1]) as H1 by by_decision. assert (lua_string []) as H2 by by_decision.
  split.
  - refine (hkdf_length_checked EVP_sha256 (replicate 256 0) 5 [1] None [] eq_refl _ H1 H2 I _); [by_decision|].
    cbn. intros r [= <-]. done.
  - refine (hkdf_length_checked EVP_sha256 (replicate 256 0) (-1) [1] None [] eq_refl _ H1 H2 I _); [by_decision|done].
Defined.

Lemma equals_is_equality_witness :
  Lhash_equals [VStr [1; 2]; VStr [1; 3]] = Done [VBool false] /\ Lhash_equals [VStr [1; 2]; VStr [1; 2]] = Done [VBool true].
Proof.
  assert (lua_string [1; 2]) as H1 by by_decision. assert (lua_string [1; 3]) as H2 by by_decision.
  split; [exact (equals_is_equality [1; 2] [1; 3] H1 H2)|exact (equals_is_equality [1; 2] [1; 2] H1 H1)].
Defined.
