(* ===== verification/Net.v ===== *)
(** * util-src/net.c

    Addresses as text and as bytes, and the list of the local addresses, which goes to a
    Lua table of the store of Table.  [inet_ntop], [inet_pton], [getifaddrs] and the
    classification of IPv6 addresses are a parameter.  The theorems: what ntop wrote, pton
    reads back; the local addresses are those the arguments ask for, in the system's
    order; the test for link-local IPv4 addresses is right on machines of both byte
    orders. *)

From stdpp Require Import base tactics numbers list strings gmap pretty.
From Stdlib Require Import ZArith Lia.
From S2P Require Import Prelude LuaApi PollApi Table.

Local Open Scope Z_scope.

Inductive family := AF_INET | AF_INET6 | AF_OTHER.

#[export] Instance family_eq_dec : EqDecision family.
Proof. solve_decision. Defined.

(** An interface address: its flags, and the socket address if there is one, with the
    bytes of [sin_addr] or [sin6_addr]. *)
Record ifaddrs := { ifa_flags : Z; ifa_addr : option (family * bytes) }.

(** The byte order of the machine. *)
Class Machine := { little_endian : bool }.

(** The C library: [inet_pton] gives its result, the error number and the address it
    wrote; [inet_ntop] a text, or an error number. *)
Class Inet := {
  inet_pton : family -> bytes -> Z * Z * bytes;
  inet_ntop : family -> bytes -> bytes + Z;
  IFF_LOOPBACK : Z;
  IN6_IS_ADDR_LINKLOCAL : bytes -> bool;
  IN6_IS_ADDR_V4MAPPED : bytes -> bool;
  IN6_IS_ADDR_V4COMPAT : bytes -> bool;
  EAFNOSUPPORT : Z;
  NET_EINVAL : Z;
}.

(** With a NULL at the end. *)
Definition type_strings : list (option string) := (Some <$> ["both"; "ipv4"; "ipv6"])%string ++ [None].

Section functions.
Context `{LuaAux, Posix, Machine, Inet}.
Implicit Types (L : list value) (h : store).

(** A 32-bit number in memory, and [htonl], whose result is in network order. *)
Definition load32 (b : bytes) : Z :=
  let v := foldl (fun acc c => acc * 256 + c) 0 in
  if little_endian then v (reverse b) else v b.

Definition htonl (x : Z) : Z :=
  load32 [Z.shiftr x 24 mod 256; Z.shiftr x 16 mod 256; Z.shiftr x 8 mod 256; x mod 256].

Definition ip4_linklocal : Z := htonl 0xa9fe0000.
Definition ip4_mask : Z := htonl 0xffff0000.

(** The text of one address, or [None] when the loop continues or [tmp] is NULL. *)
Definition address_text (ipv4 ipv6 link_local : bool) (a : ifaddrs) : option bytes :=
  match ifa_addr a with
  | None => None
  | Some (family, addr) =>
      if negb (Z.land (ifa_flags a) IFF_LOOPBACK =? 0) then None
      else if ipv4 && bool_decide (family = AF_INET) then
        if negb link_local && (Z.land (load32 addr) ip4_mask =? ip4_linklocal) then None
        else match inet_ntop family addr with inl t => Some t | inr _ => None end
      else if ipv6 && bool_decide (family = AF_INET6) then
        if negb link_local && IN6_IS_ADDR_LINKLOCAL addr then None
        else if IN6_IS_ADDR_V4MAPPED addr || IN6_IS_ADDR_V4COMPAT addr then None
        else match inet_ntop family addr with inl t => Some t | inr _ => None end
      else None
  end.

(** [for(a = addr; a; a = a->ifa_next)] *)
Fixpoint address_loop (ipv4 ipv6 link_local : bool) (t n : Z) (addrs : list ifaddrs) h : outcome store :=
  match addrs with
  | [] => Done h
  | a :: addrs =>
      match address_text ipv4 ipv6 link_local a with
      | Some text =>
          h ← lua_rawseti h t n (VStr text);
          address_loop ipv4 ipv6 link_local t (n + 1) addrs h
      | None => address_loop ipv4 ipv6 link_local t n addrs h
      end
  end.

(** [getifaddrs]: the list, or the error number. *)
Definition lc_local_addresses (getifaddrs : list ifaddrs + Z) L h : outcome (store * list value) :=
  type ← luaL_checkoption L 1 (Some "both"%string) type_strings;
  let link_local := lua_toboolean L 2 in
  let ipv4 := (type =? 0) || (type =? 1) in
  let ipv6 := (type =? 0) || (type =? 2) in
  match getifaddrs with
  | inr errno =>
      Done (h, [pushfail; VStr (string_bytes "getifaddrs failed (" ++ string_bytes (pretty errno)
                                ++ string_bytes "): " ++ strerror errno)])
  | inl addrs =>
      let '(h, t) := lua_createtable h 0 0 in
      h ← address_loop ipv4 ipv6 link_local t 1 addrs h;
      Done (h, [VTable t])
  end.

Definition lc_pton L : outcome (list value) :=
  ipaddr ← luaL_checkstring L 1;
  let family := if bool_decide (58 ∈ ipaddr) then AF_INET6 else AF_INET in
  let '(ret, errno, buf) := inet_pton family ipaddr in
  if ret =? 1 then
    s ← mem_sub buf 0 (if bool_decide (family = AF_INET6) then 16 else 4);
    Done [VStr s]
  else if ret =? -1 then Done (sys_fail errno)
  else Done (sys_fail NET_EINVAL).

Definition lc_ntop L : outcome (list value) :=
  ipaddr ← luaL_checklstring L 1;
  let l := zlen ipaddr in
  let convert family :=
    match inet_ntop family ipaddr with
    | inl t => Done [VStr t]
    | inr errno => Done (sys_fail errno)
    end in
  if l =? 16 then convert AF_INET6
  else if l =? 4 then convert AF_INET
  else Done (sys_fail EAFNOSUPPORT).

End functions.

(** What is documented of the conversions: the text of an address is a C string, it
    contains a colon exactly for IPv6, and it stands for the address. *)
Definition address_size (f : family) : Z := match f with AF_INET6 => 16 | _ => 4 end.

Class InetLaws `{Inet} := {
  ntop_pton f a t : (f = AF_INET \/ f = AF_INET6) -> zlen a = address_size f -> inet_ntop f a = inl t ->
    exists e rest, inet_pton f t = (1, e, a ++ rest);
  ntop_text f a t : (f = AF_INET \/ f = AF_INET6) -> zlen a = address_size f -> inet_ntop f a = inl t ->
    lua_string t /\ (0 ∉ t) /\ (58 ∈ t <-> f = AF_INET6);
}.

(** ** The link-local test and the loop *)

Section facts.
Context `{LuaAux, Posix, Machine, Inet}.
Implicit Types (h : store).

Lemma land_high v : 0 <= v < 2 ^ 32 -> Z.land v 0xffff0000 = Z.shiftl (v / 2 ^ 16) 16.
Proof.
  intros Hv. pose proof (Z.mod_pos_bound v (2 ^ 16) ltac:(lia)).
  rewrite (Z.div_mod v (2 ^ 16)) at 1 by lia. rewrite (Z.mul_comm (2 ^ 16)).
  change 0xffff0000 with (Z.shiftl (Z.ones 16) 16). rewrite land_shiftl, Z.land_ones, Z.shiftl_mul_pow2 by lia.
  rewrite (Z.mod_small (v / 2 ^ 16)); [done|]. split; [apply Z.div_pos; lia|apply Z.div_lt_upper_bound; lia].
Qed.

(** The comparison of masked numbers is a comparison of the first two bytes, whatever the
    byte order. *)
Lemma linklocal_test a b c d :
  is_byte a -> is_byte b -> is_byte c -> is_byte d ->
  (Z.land (load32 [a; b; c; d]) ip4_mask =? ip4_linklocal) = bool_decide (a = 169 /\ b = 254).
Proof.
  unfold is_byte. intros. unfold ip4_mask, ip4_linklocal, htonl, load32. destruct little_endian; cbn [reverse rev_append rev foldl].
  - change (Z.shiftr 0xffff0000 24 mod 256) with 255. change (reverse [a; b; c; d]) with [d; c; b; a].
    cbn [foldl]. match goal with |- (Z.land ?v ?m =? ?l) = _ => change m with (Z.ones 16); change l with 65193 end.
    rewrite Z.land_ones by lia. change (2 ^ 16) with 65536.
    assert ((((0 * 256 + d) * 256 + c) * 256 + b) * 256 + a = (b * 256 + a) + (d * 256 + c) * 65536) as -> by lia.
    rewrite Z.mod_add, Z.mod_small by lia. case_bool_decide as Hd; [apply Z.eqb_eq|apply Z.eqb_neq]; lia.
  - match goal with |- (Z.land ?v ?m =? ?l) = _ => change m with 0xffff0000; change l with 0xa9fe0000 end.
    rewrite land_high by lia. change (2 ^ 16) with 65536. rewrite Z.shiftl_mul_pow2 by lia.
    assert ((((0 * 256 + a) * 256 + b) * 256 + c) * 256 + d = (c * 256 + d) + (a * 256 + b) * 65536) as -> by lia.
    rewrite Z.div_add, Z.div_small by lia. change (2 ^ 16) with 65536.
    case_bool_decide as Hd; [apply Z.eqb_eq|apply Z.eqb_neq]; lia.
Qed.

(** Which addresses the arguments ask for. *)
Definition wanted (ipv4 ipv6 link_local : bool) (a : ifaddrs) : Prop :=
  Z.land (ifa_flags a) IFF_LOOPBACK = 0 /\
  match ifa_addr a with
  | Some (AF_INET, b) => ipv4 = true /\ (link_local = true \/ take 2 b <> [169; 254])
  | Some (AF_INET6, b) =>
      ipv6 = true /\ (link_local = true \/ IN6_IS_ADDR_LINKLOCAL b = false) /\
      IN6_IS_ADDR_V4MAPPED b = false /\ IN6_IS_ADDR_V4COMPAT b = false
  | _ => False
  end.

#[export] Instance wanted_dec i4 i6 ll a : Decision (wanted i4 i6 ll a).
Proof. unfold wanted. destruct (ifa_addr a) as [[[] b]|]; apply _. Defined.

Definition text_of (a : ifaddrs) : option bytes :=
  '(f, b) ← ifa_addr a;
  match inet_ntop f b with inl t => Some t | inr _ => None end.

(** IPv4 socket addresses have four bytes. *)
Definition addr_ok (a : ifaddrs) : Prop :=
  match ifa_addr a with Some (AF_INET, b) => bytes_ok b /\ zlen b = 4 | _ => True end.

Lemma address_text_wanted i4 i6 ll a :
  addr_ok a -> wanted i4 i6 ll a -> address_text i4 i6 ll a = text_of a.
Proof.
  unfold addr_ok, address_text, wanted, text_of. destruct (ifa_addr a) as [[f b]|]; [|tauto].
  cbn [mbind option_bind]. intros Hb [-> Hw]. cbn [negb Z.eqb]. destruct f; [| |done].
  - destruct Hb as [Hb Hlen], Hw as [-> Hll]. destruct b as [|b0 [|b1 [|b2 [|b3 [|]]]]]; unfold zlen in Hlen; cbn in Hlen; try lia.
    unfold bytes_ok in Hb. rewrite !Forall_cons in Hb. destruct Hb as (? & ? & ? & ? & _).
    rewrite linklocal_test by done. cbn [take] in Hll. rewrite (bool_decide_eq_true_2 (AF_INET = AF_INET)) by done. cbn [andb].
    assert (negb ll && bool_decide (b0 = 169 /\ b1 = 254) = false) as ->; [|done].
    destruct Hll as [->|Hne]; [done|]. rewrite bool_decide_eq_false_2, andb_false_r; [done|]. intros [-> ->]. done.
  - destruct Hw as (-> & Hll & -> & ->). rewrite (bool_decide_eq_false_2 (AF_INET6 = AF_INET)), andb_false_r by done.
    rewrite bool_decide_eq_true_2 by done. cbn [andb orb]. by destruct Hll as [->| ->]; [|rewrite andb_false_r].
Qed.

Lemma address_text_unwanted i4 i6 ll a :
  addr_ok a -> ~ wanted i4 i6 ll a -> address_text i4 i6 ll a = None.
Proof.
  unfold addr_ok, address_text, wanted. destruct (ifa_addr a) as [[f b]|]; [|done].
  destruct (Z.eqb_spec (Z.land (ifa_flags a) IFF_LOOPBACK) 0) as [Hl|Hl]; cbn [negb]; [|done].
  intros Hb Hw. destruct f.
  - destruct Hb as [Hb Hlen]. destruct b as [|b0 [|b1 [|b2 [|b3 [|]]]]]; unfold zlen in Hlen; cbn in Hlen; try lia.
    unfold bytes_ok in Hb. rewrite !Forall_cons in Hb. destruct Hb as (? & ? & ? & ? & _).
    rewrite linklocal_test by done. cbn [take] in Hw. rewrite (bool_decide_eq_false_2 (AF_INET = AF_INET6)), andb_false_r by done.
    destruct i4; [|done]. rewrite (bool_decide_eq_true_2 (AF_INET = AF_INET)) by done. cbn [andb]. destruct ll; [exfalso; apply Hw; auto|].
    cbn [negb andb]. case_bool_decide as Hd; [done|]. exfalso. apply Hw. repeat split; [done|]. right.
    intros [= -> ->]. by apply Hd.
  - rewrite (bool_decide_eq_false_2 (AF_INET6 = AF_INET)), andb_false_r by done. destruct i6; [|done].
    rewrite bool_decide_eq_true_2 by done. cbn [andb].
    destruct ll, (IN6_IS_ADDR_LINKLOCAL b), (IN6_IS_ADDR_V4MAPPED b), (IN6_IS_ADDR_V4COMPAT b); try done;
      exfalso; apply Hw; auto 10.
  - by rewrite !bool_decide_eq_false_2, !andb_false_r.
Qed.

Lemma address_texts i4 i6 ll addrs :
  Forall addr_ok addrs ->
  omap (address_text i4 i6 ll) addrs = omap text_of (filter (wanted i4 i6 ll) addrs).
Proof.
  induction 1 as [|a addrs Ha _ IH]; [done|]. rewrite filter_cons. cbn [omap list_omap]. fold (omap (address_text i4 i6 ll) addrs).
  rewrite IH. case_decide as Hw.
  - rewrite address_text_wanted by done. done.
  - by rewrite address_text_unwanted.
Qed.

(** The loop appends the texts to the table from index [n]. *)
Lemma address_loop_spec i4 i6 ll t addrs : forall n h,
  is_Some (h !! t) ->
  exists h', address_loop i4 i6 ll t n addrs h = Done h' /\
    appended h h' t n (VStr <$> omap (address_text i4 i6 ll) addrs).
Proof.
  induction addrs as [|a addrs IH]; intros n h Ht; [exists h; split; [done|apply appended_nil]|].
  cbn [address_loop omap list_omap]. destruct (address_text i4 i6 ll a) as [text|]; [|by apply IH].
  destruct (appended_step h t n (VStr text) (VStr <$> omap (address_text i4 i6 ll) addrs) Ht) as (h1 & -> & Ht1 & Hs).
  cbn [mbind outcome_bind]. destruct (IH (n + 1) h1 Ht1) as (h2 & -> & H2'). exists h2. split; [done|by apply Hs].
Qed.

(** ** The properties *)

(** The selection of the first argument. *)
Definition selected (type : option string) : bool * bool :=
  match type with
  | Some t => (bool_decide (t <> "ipv6"%string), bool_decide (t <> "ipv4"%string))
  | None => (true, true)
  end.

Definition address_type (type : option string) : Prop :=
  type = None \/ type = Some "both"%string \/ type = Some "ipv4"%string \/ type = Some "ipv6"%string.

(** The option in the first slot: nil is the default. *)
Lemma address_option type rest :
  address_type type ->
  exists k, luaL_checkoption (match type with Some t => literal t | None => VNil end :: rest) 1
              (Some "both"%string) type_strings = Done k /\
    selected type = ((k =? 0) || (k =? 1), (k =? 0) || (k =? 2)).
Proof.
  intros [->|[->|[->| ->]]]; unfold luaL_checkoption, lua_isnoneornil; cbn [lua_arg lookup list_lookup literal].
  - by exists 0.
  - exists 0. by rewrite (checkstring_arg _ 1 (string_bytes "both")) by (done || by_decision).
  - exists 1. by rewrite (checkstring_arg _ 1 (string_bytes "ipv4")) by (done || by_decision).
  - exists 2. by rewrite (checkstring_arg _ 1 (string_bytes "ipv6")) by (done || by_decision).
Qed.

(** C27. [local_addresses(type, link_local)] returns a new table that holds at 1, 2, ... the
    texts of the addresses of the system's list, in its order, that are not of a loopback
    interface, are of the family asked for, are not link-local unless the second argument
    is true, and are not IPv4 addresses in IPv6 form; no other table changes. *)
Theorem local_addresses_listed addrs type ll rest h :
  address_type type ->
  Forall addr_ok addrs ->
  exists h' t,
    lc_local_addresses (inl addrs) (match type with Some t => literal t | None => VNil end :: VBool ll :: rest) h
      = Done (h', [VTable t]) /\
    h !! t = None /\
    let texts := omap text_of (filter (wanted (selected type).1 (selected type).2 ll) addrs) in
    forall id k,
      raw_get h' id k =
        if decide (id = t) then
          match k with
          | inl j => if decide (1 <= j <= zlen texts) then default VNil (VStr <$> texts !! Z.to_nat (j - 1)) else VNil
          | inr _ => VNil
          end
        else raw_get h id k.
Proof.
  intros Htype Hok. unfold lc_local_addresses.
  destruct (address_option type (VBool ll :: rest) Htype) as (k & -> & ->). cbn [mbind outcome_bind fst snd].
  replace (lua_toboolean _ 2) with ll by by destruct ll.
  destruct (lua_createtable h 0 0) as [h0 t] eqn:E. destruct (createtable_new _ _ _ _ _ E) as (Hnew & Ht & Hraw0).
  set (i4 := (k =? 0) || (k =? 1)). set (i6 := (k =? 0) || (k =? 2)).
  destruct (address_loop_spec i4 i6 ll t addrs 1 h0 Ht) as (h' & -> & Hh'). cbn [mbind outcome_bind].
  exists h', t. split; [done|]. split; [done|]. rewrite address_texts in Hh' by done. cbv zeta. intros id key.
  rewrite (appended_new h h0 h' t _ Hraw0 Hh'). destruct (decide (id = t)); [|done]. destruct key as [j|]; [|done].
  rewrite list_lookup_fmap. unfold zlen. by rewrite length_fmap.
Qed.

(** C28. What ntop writes, pton reads back: four bytes are an IPv4 address, sixteen an IPv6
    address, and the text that ntop gives for either is turned into the same bytes. *)
Theorem net_roundtrip `{!InetLaws} a t :
  zlen a = 4 \/ zlen a = 16 ->
  lua_string a ->
  lc_ntop [VStr a] = Done [VStr t] ->
  lc_pton [VStr t] = Done [VStr a].
Proof.
  intros Hlen Ha. unfold lc_ntop. rewrite (checklstring_str _ 1 a) by done. cbn [mbind outcome_bind]. cbv zeta.
  assert (exists f, (f = AF_INET \/ f = AF_INET6) /\ zlen a = address_size f /\
            forall X Y : outcome (list value), (if zlen a =? 16 then X else if zlen a =? 4 then Y else Done (sys_fail EAFNOSUPPORT)) =
              match f with AF_INET6 => X | _ => Y end) as (f & Hf & Hsize & Hif).
  { destruct Hlen as [E|E]; rewrite E; [exists AF_INET|exists AF_INET6]; auto. }
  rewrite Hif. clear Hif. intros Hn.
  assert (inet_ntop f a = inl t) as E.
  { destruct Hf as [->| ->]; destruct (inet_ntop _ a) eqn:E; try done; by injection Hn as ->. }
  destruct (ntop_text f a t Hf Hsize E) as (Ht & Hnul & Hcolon).
  destruct (ntop_pton f a t Hf Hsize E) as (e & rest & Hpton).
  unfold lc_pton. rewrite (checkstring_arg _ 1 t) by (done || by apply c_string_bytes). cbn [mbind outcome_bind].
  assert ((if bool_decide (58 ∈ t) then AF_INET6 else AF_INET) = f) as ->.
  { destruct Hf as [->| ->]; [rewrite bool_decide_eq_false_2 by (intros ?%Hcolon; done)|rewrite bool_decide_eq_true_2 by (by apply Hcolon)]; done. }
  rewrite Hpton. cbn [Z.eqb Pos.eqb].
  assert ((if bool_decide (f = AF_INET6) then 16 else 4) = zlen a) as ->.
  { rewrite Hsize. by destruct Hf as [->| ->]. }
  pose proof (zlen_nonneg a). pose proof (zlen_nonneg rest).
  rewrite mem_sub_done by (rewrite ?zlen_app; lia). cbn [mbind outcome_bind].
  unfold slice. rewrite drop_0. unfold zlen. by rewrite Nat2Z.id, take_app_length.
Qed.

(** Other lengths are not addresses. *)
Lemma ntop_other_length a :
  lua_string a -> zlen a <> 4 -> zlen a <> 16 -> lc_ntop [VStr a] = Done (sys_fail EAFNOSUPPORT).
Proof.
  intros Ha H4 H16. unfold lc_ntop. rewrite (checklstring_str _ 1 a) by done. cbn [mbind outcome_bind]. cbv zeta.
  by destruct (Z.eqb_spec (zlen a) 16), (Z.eqb_spec (zlen a) 4).
Qed.

End facts.

(** ** Witnesses *)

(** A C library that writes each byte as two letters, after a colon for IPv6. *)
Definition letters (a : bytes) : bytes := a ≫= fun c => [97 + c / 16; 97 + c mod 16].
Fixpoint from_letters (t : bytes) : bytes :=
  match t with
  | x :: y :: t => (x - 97) * 16 + (y - 97) :: from_letters t
  | _ => []
  end.

Definition letter_ntop (f : family) (a : bytes) : bytes + Z :=
  if bool_decide (bytes_ok a /\ zlen a = address_size f)
  then inl ((if bool_decide (f = AF_INET6) then [58] else []) ++ letters a) else inr 97.
Definition letter_pton (f : family) (t : bytes) : Z * Z * bytes :=
  (1, 0, from_letters (if bool_decide (f = AF_INET6) then drop 1 t else t)).

Definition letter_inet : Inet := {|
  inet_pton := letter_pton;
  inet_ntop := letter_ntop;
  IFF_LOOPBACK := 8;
  IN6_IS_ADDR_LINKLOCAL a := bool_decide (take 2 a = [254; 128]);
  IN6_IS_ADDR_V4MAPPED a := bool_decide (take 12 a = [0; 0; 0; 0; 0; 0; 0; 0; 0; 0; 255; 255]);
  IN6_IS_ADDR_V4COMPAT a := bool_decide (take 12 a = replicate 12 0);
  EAFNOSUPPORT := 97;
  NET_EINVAL := 22;
|}.

Lemma from_letters_inverse a : bytes_ok a -> from_letters (letters a) = a.
Proof.
  induction 1 as [|c a Hc Ha IH]; [done|]. change (letters (c :: a)) with (97 + c / 16 :: 97 + c mod 16 :: letters a).
  cbn [from_letters]. rewrite IH. f_equal. unfold is_byte in Hc. Z.div_mod_to_equations. lia.
Qed.

Lemma letters_range a : bytes_ok a -> Forall (fun x => 97 <= x < 113) (letters a).
Proof.
  induction 1 as [|c a Hc Ha IH]; [constructor|]. unfold is_byte in Hc.
  change (letters (c :: a)) with (97 + c / 16 :: 97 + c mod 16 :: letters a). constructor; [Z.div_mod_to_equations; lia|].
  constructor; [Z.div_mod_to_equations; lia|done].
Qed.

Lemma letters_length a : zlen (letters a) = 2 * zlen a.
Proof.
  induction a as [|c a IH]; [done|]. change (letters (c :: a)) with (97 + c / 16 :: 97 + c mod 16 :: letters a).
  rewrite !zlen_cons, IH. lia.
Qed.

#[export] Instance letter_laws : @InetLaws letter_inet.
Proof.
  split; intros f a t Hf Hlen; cbn [inet_ntop inet_pton letter_inet]; unfold letter_ntop, letter_pton;
    case_bool_decide as Hd; try done; destruct Hd as [Ha _]; intros [= <-].
  - exists 0, []. rewrite app_nil_r. pose proof (from_letters_inverse a Ha) as E.
    destruct Hf as [->| ->]; [change (bool_decide (AF_INET = AF_INET6)) with false|change (bool_decide (AF_INET6 = AF_INET6)) with true];
      cbn [app]; rewrite ?skipn_cons, ?drop_0; by rewrite E.
  - pose proof (letters_range a Ha) as Hr. rewrite Forall_forall in Hr.
    assert (forall x, (x = 58 \/ 97 <= x < 113) -> is_byte x) as Hb by (unfold is_byte; lia).
    assert (forall x, x ∉ letters a \/ 97 <= x < 113) as Hin.
    { intros x. destruct (decide (x ∈ letters a)); [right; by apply Hr|by left]. }
    unfold lua_string, bytes_ok, long_max. rewrite zlen_app, letters_length, Hlen.
    destruct Hf as [->| ->]; [change (bool_decide (AF_INET = AF_INET6)) with false|change (bool_decide (AF_INET6 = AF_INET6)) with true];
      cbn [app address_size]; split_and!; try (cbv; discriminate).
    + apply Forall_forall. intros x Hx%Hr. auto.
    + destruct (Hin 0); [done|lia].
    + destruct (Hin 58); [done|lia].
    + apply Forall_cons. split; [auto|]. apply Forall_forall. intros x Hx%Hr. auto.
    + rewrite not_elem_of_cons. destruct (Hin 0); [done|lia].
    + split; [done|]. intros _. by left.
Qed.

Lemma net_roundtrip_witness :
  let Hx := lua_strict in let Hp := linux_errors in
  @lc_pton Hx Hp letter_inet [VStr (letters [10; 0; 0; 7])] = Done [VStr [10; 0; 0; 7]].
Proof.
  apply (@net_roundtrip lua_strict linux_errors letter_inet letter_laws [10; 0; 0; 7]);
    [by left|by_decision|vm_compute; reflexivity].
Defined.

Definition sample_machine : Machine := {| little_endian := true |}.
Definition sample_addrs : list ifaddrs := [
  {| ifa_flags := 9; ifa_addr := Some (AF_INET, [127; 0; 0; 1]) |};
  {| ifa_flags := 1; ifa_addr := None |};
  {| ifa_flags := 1; ifa_addr := Some (AF_INET, [192; 168; 0; 2]) |};
  {| ifa_flags := 1; ifa_addr := Some (AF_INET6, [254; 128; 0; 0; 0; 0; 0; 0; 0; 0; 0; 0; 0; 0; 0; 1]) |};
  {| ifa_flags := 1; ifa_addr := Some (AF_INET, [169; 254; 3; 4]) |}].

Lemma local_addresses_listed_witness :
  let Hx := lua_strict in let Hp := linux_errors in let Hm := sample_machine in let Hi := letter_inet in
  exists h' t,
    lc_local_addresses (inl sample_addrs) [VNil; VBool false] ∅ = Done (h', [VTable t]) /\
    raw_get h' t (inl 1) = VStr (letters [192; 168; 0; 2]) /\ raw_get h' t (inl 2) = VNil.
Proof.
  cbv zeta.
  destruct (@local_addresses_listed lua_strict linux_errors sample_machine letter_inet sample_addrs None false [] ∅)
    as (h' & t & E & _ & H).
  - by left.
  - unfold sample_addrs.
    repeat (apply Forall_cons; split; [unfold addr_ok; simpl; first [exact I|split; [by_decision|reflexivity]]|]).
    constructor.
  - exists h', t. split; [exact E|]. cbv zeta in H. clear E.
    split; rewrite H; (destruct (decide (t = t)) as [_|[]]; [|reflexivity]); vm_compute; reflexivity.
Defined.
