(* ===== verification/Cipher.v ===== *)
(** * Encryption in util-src/crypto.c

    AES in GCM and CTR mode.  OpenSSL is a parameter: contexts and the calls on them, with
    what is documented of a whole run as laws.  The theorems: what the encryption functions
    return the decryption functions turn back into the text, unless it is empty; in GCM
    mode decryption returns a text only for what encryption returns for that text; keys
    and vectors of other sizes are refused. *)

From stdpp Require Import base tactics numbers list strings pretty.
From Stdlib Require Import ZArith Lia.
From S2P Require Import Prelude LuaApi.

Local Open Scope Z_scope.

Inductive evp_cipher := EVP_aes_128_gcm | EVP_aes_256_gcm | EVP_aes_256_ctr.

#[export] Instance evp_cipher_eq_dec : EqDecision evp_cipher.
Proof. solve_decision. Defined.

(** The calls on a context: each gives its result, the context after it, and what it wrote.
    [Init_cipher] and [Init_key] are the two uses of the [Init_ex] functions; the update
    functions take the memory they read and the length they are given. *)
Class EVP := {
  CIPHER_CTX : Type;
  EVP_CIPHER_CTX_new : option CIPHER_CTX;
  EVP_EncryptInit_cipher : CIPHER_CTX -> evp_cipher -> Z * CIPHER_CTX;
  EVP_EncryptInit_key : CIPHER_CTX -> bytes -> bytes -> Z * CIPHER_CTX;
  EVP_EncryptUpdate : CIPHER_CTX -> bytes -> Z -> Z * CIPHER_CTX * bytes;
  EVP_EncryptFinal_ex : CIPHER_CTX -> Z * CIPHER_CTX * bytes;
  EVP_CTRL_AEAD_GET_TAG : CIPHER_CTX -> Z -> Z * bytes;
  EVP_DecryptInit_cipher : CIPHER_CTX -> evp_cipher -> Z * CIPHER_CTX;
  EVP_DecryptInit_key : CIPHER_CTX -> bytes -> bytes -> Z * CIPHER_CTX;
  EVP_DecryptUpdate : CIPHER_CTX -> bytes -> Z -> Z * CIPHER_CTX * bytes;
  EVP_CTRL_AEAD_SET_TAG : CIPHER_CTX -> bytes -> Z * CIPHER_CTX;
  EVP_DecryptFinal_ex : CIPHER_CTX -> Z * CIPHER_CTX * bytes;
}.

(** [if(...) { return luaL_error(...); }] for the condition to go on. *)
Definition require (ok : bool) (msg : string) : outcome unit := if ok then Done tt else luaL_error msg.

(** A context of the collector; an allocation that fails raises an error. *)
Definition new_managed_EVP_CIPHER_CTX `{EVP} : outcome CIPHER_CTX :=
  match EVP_CIPHER_CTX_new with
  | Some ctx => Done ctx
  | None => Raise (ErrorObject (string_bytes "not enough memory"))
  end.

Section functions.
Context `{LuaAux, EVP}.
Implicit Types (L : list value) (cipher : evp_cipher) (scratch : bytes).

(** encrypt(key, iv, plaintext) *)
Definition Levp_encrypt cipher (expected_key_len expected_iv_len tag_len : Z) scratch L : outcome (list value) :=
  key ← luaL_checklstring L 1;
  iv ← luaL_checklstring L 2;
  plaintext ← luaL_checklstring L 3;
  let plaintext_len := zlen plaintext in
  _ ← require (zlen key =? expected_key_len) ("key must be " +:+ pretty expected_key_len +:+ " bytes")%string;
  _ ← require (zlen iv =? expected_iv_len) ("iv must be " +:+ pretty expected_iv_len +:+ " bytes")%string;
  _ ← require (lua_gettop L <=? 3) ("Expected 3 arguments, got " +:+ pretty (lua_gettop L))%string;
  ctx ← new_managed_EVP_CIPHER_CTX;
  let '(ret, ctx) := EVP_EncryptInit_cipher ctx cipher in
  _ ← require (ret =? 1) "Error while initializing encryption engine";
  let '(ret, ctx) := EVP_EncryptInit_key ctx key iv in
  _ ← require (ret =? 1) "Error while initializing key/iv";
  let ciphertext := lua_memory scratch (size_t (plaintext_len + tag_len)) in
  let '(ret, ctx, out) := EVP_EncryptUpdate ctx plaintext (cint plaintext_len) in
  ciphertext ← mem_write ciphertext 0 out;
  let ciphertext_len := zlen out in
  _ ← require (ret =? 1) "Error while encrypting data";
  let '(ret, ctx, final) := EVP_EncryptFinal_ex ctx in
  ciphertext ← mem_write ciphertext ciphertext_len final;
  _ ← require (ret =? 1) "Error while encrypting final data";
  _ ← require (zlen final =? 0) "Non-zero final data";
  if tag_len >? 0 then
    let '(ret, tag) := EVP_CTRL_AEAD_GET_TAG ctx (cint tag_len) in
    ciphertext ← mem_write ciphertext ciphertext_len tag;
    _ ← require (ret =? 1) "Unable to read AEAD tag of encrypted data";
    r ← mem_sub ciphertext 0 (size_t (ciphertext_len + tag_len));
    Done [VStr r]
  else
    r ← mem_sub ciphertext 0 ciphertext_len;
    Done [VStr r].

Definition Laes_128_gcm_encrypt := Levp_encrypt EVP_aes_128_gcm 16 12 16.
Definition Laes_256_gcm_encrypt := Levp_encrypt EVP_aes_256_gcm 32 12 16.
Definition Laes_256_ctr_encrypt := Levp_encrypt EVP_aes_256_ctr 32 16 0.

(** decrypt(key, iv, ciphertext) *)
Definition Levp_decrypt cipher (expected_key_len expected_iv_len tag_len : Z) scratch L : outcome (list value) :=
  key ← luaL_checklstring L 1;
  iv ← luaL_checklstring L 2;
  ciphertext ← luaL_checklstring L 3;
  let ciphertext_len := zlen ciphertext in
  _ ← require (zlen key =? expected_key_len) ("key must be " +:+ pretty expected_key_len +:+ " bytes")%string;
  _ ← require (zlen iv =? expected_iv_len) ("iv must be " +:+ pretty expected_iv_len +:+ " bytes")%string;
  _ ← require (negb (ciphertext_len <=? tag_len))
        ("ciphertext must be at least " +:+ pretty tag_len +:+ " bytes (including tag)")%string;
  _ ← require (lua_gettop L <=? 3) ("Expected 3 arguments, got " +:+ pretty (lua_gettop L))%string;
  ctx ← new_managed_EVP_CIPHER_CTX;
  let '(ret, ctx) := EVP_DecryptInit_cipher ctx cipher in
  _ ← require (negb (ret =? 0)) "Error while initializing decryption engine";
  let '(ret, ctx) := EVP_DecryptInit_key ctx key iv in
  _ ← require (negb (ret =? 0)) "Error while initializing key/iv";
  let plaintext := lua_memory scratch ciphertext_len in
  let '(ret, ctx, out) := EVP_DecryptUpdate ctx ciphertext (cint (size_t (ciphertext_len - tag_len))) in
  plaintext ← mem_write plaintext 0 out;
  let plaintext_len := zlen out in
  _ ← require (negb (ret =? 0)) "Error while decrypting data";
  ctx ← (if tag_len >? 0 then
           tag ← mem_sub ciphertext (ciphertext_len - tag_len) tag_len;
           let '(ret, ctx) := EVP_CTRL_AEAD_SET_TAG ctx tag in
           _ ← require (negb (ret =? 0)) "Error while processing authentication tag";
           Done ctx
         else Done ctx);
  let '(ret, ctx, final) := EVP_DecryptFinal_ex ctx in
  plaintext ← mem_write plaintext plaintext_len final;
  if ret <=? 0 then Done [VNil; literal "verify-failed"]
  else
    r ← mem_sub plaintext 0 (plaintext_len + zlen final);
    Done [VStr r].

Definition Laes_128_gcm_decrypt := Levp_decrypt EVP_aes_128_gcm 16 12 16.
Definition Laes_256_gcm_decrypt := Levp_decrypt EVP_aes_256_gcm 32 12 16.
Definition Laes_256_ctr_decrypt := Levp_decrypt EVP_aes_256_ctr 32 16 0.

End functions.

(** ** What OpenSSL documents *)

Definition is_aead (c : evp_cipher) : bool := match c with EVP_aes_256_ctr => false | _ => true end.
Definition key_size (c : evp_cipher) : Z := match c with EVP_aes_128_gcm => 16 | _ => 32 end.
Definition iv_size (c : evp_cipher) : Z := match c with EVP_aes_256_ctr => 16 | _ => 12 end.
Definition tag_size (c : evp_cipher) : Z := if is_aead c then 16 else 0.

(** A run from a new context: these modes produce as many bytes as they are given, all of
    them in the update, with nothing left for the final call; [stream] and [unstream] are
    inverse.  The final call of a decryption in GCM mode succeeds exactly when the tag that
    was set is the tag [mac] of the text. *)
Class CipherLaws `{EVP} := {
  stream : evp_cipher -> bytes -> bytes -> bytes -> bytes;
  unstream : evp_cipher -> bytes -> bytes -> bytes -> bytes;
  mac : evp_cipher -> bytes -> bytes -> bytes -> bytes;
  stream_ok c key iv p : bytes_ok p -> bytes_ok (stream c key iv p) /\ zlen (stream c key iv p) = zlen p;
  unstream_ok c key iv p : bytes_ok p -> bytes_ok (unstream c key iv p) /\ zlen (unstream c key iv p) = zlen p;
  unstream_stream c key iv p : bytes_ok p -> unstream c key iv (stream c key iv p) = p;
  stream_unstream c key iv p : bytes_ok p -> stream c key iv (unstream c key iv p) = p;
  mac_ok c key iv p : bytes_ok p -> bytes_ok (mac c key iv p) /\ zlen (mac c key iv p) = 16;
  encrypt_run c key iv p :
    zlen key = key_size c -> zlen iv = iv_size c -> zlen p <= int_max ->
    exists c0 c1 c2 c3 c4,
      EVP_CIPHER_CTX_new = Some c0 /\ EVP_EncryptInit_cipher c0 c = (1, c1) /\
      EVP_EncryptInit_key c1 key iv = (1, c2) /\
      EVP_EncryptUpdate c2 p (zlen p) = (1, c3, stream c key iv p) /\
      EVP_EncryptFinal_ex c3 = (1, c4, []) /\
      (is_aead c = true -> EVP_CTRL_AEAD_GET_TAG c4 16 = (1, mac c key iv p));
  decrypt_run c key iv buf n :
    zlen key = key_size c -> zlen iv = iv_size c -> 0 < n <= int_max -> n <= zlen buf ->
    exists c0 c1 c2 c3,
      EVP_CIPHER_CTX_new = Some c0 /\ EVP_DecryptInit_cipher c0 c = (1, c1) /\
      EVP_DecryptInit_key c1 key iv = (1, c2) /\
      let p := unstream c key iv (slice buf 0 n) in
      EVP_DecryptUpdate c2 buf n = (1, c3, p) /\
      (is_aead c = false -> exists c4, EVP_DecryptFinal_ex c3 = (1, c4, [])) /\
      (is_aead c = true -> forall t, zlen t = 16 ->
        exists c4 c5, EVP_CTRL_AEAD_SET_TAG c3 t = (1, c4) /\
          EVP_DecryptFinal_ex c4 = (if bool_decide (t = mac c key iv p) then 1 else 0, c5, []));
}.

Section facts.
Context `{LuaAux, EVP, !CipherLaws}.
Implicit Types (c : evp_cipher) (key iv p ct scratch : bytes).

Definition encrypt_with c : bytes -> list value -> outcome (list value) :=
  match c with
  | EVP_aes_128_gcm => Laes_128_gcm_encrypt
  | EVP_aes_256_gcm => Laes_256_gcm_encrypt
  | EVP_aes_256_ctr => Laes_256_ctr_encrypt
  end.
Definition decrypt_with c : bytes -> list value -> outcome (list value) :=
  match c with
  | EVP_aes_128_gcm => Laes_128_gcm_decrypt
  | EVP_aes_256_gcm => Laes_256_gcm_decrypt
  | EVP_aes_256_ctr => Laes_256_ctr_decrypt
  end.

Lemma encrypt_with_sizes c : encrypt_with c = Levp_encrypt c (key_size c) (iv_size c) (tag_size c).
Proof. by destruct c. Qed.
Lemma decrypt_with_sizes c : decrypt_with c = Levp_decrypt c (key_size c) (iv_size c) (tag_size c).
Proof. by destruct c. Qed.

Lemma tag_size_range c : 0 <= tag_size c <= 16.
Proof. by destruct c. Qed.

Lemma bytes_ok_slice (s : bytes) i n : bytes_ok s -> bytes_ok (slice s i n).
Proof. intros Hs. unfold slice. by apply Forall_take, Forall_drop. Qed.

Definition key_args key iv text : list value := [VStr key; VStr iv; VStr text].

(** The arguments a call needs. *)
Definition good_key c key iv : Prop :=
  lua_string key /\ lua_string iv /\ zlen key = key_size c /\ zlen iv = iv_size c.

(** Encryption gives the stream and the tag. *)
Lemma encrypt_result c scratch key iv p :
  good_key c key iv -> bytes_ok p -> zlen p <= int_max ->
  encrypt_with c scratch (key_args key iv p)
  = Done [VStr (stream c key iv p ++ (if is_aead c then mac c key iv p else []))].
Proof.
  intros (Hk & Hi & Hks & Hiv) Hp Hlen. rewrite encrypt_with_sizes. unfold Levp_encrypt, key_args.
  pose proof (zlen_nonneg p). destruct (stream_ok c key iv p Hp) as [_ Hs]. destruct (mac_ok c key iv p Hp) as [_ Hm].
  rewrite (checklstring_str _ 1 key), (checklstring_str _ 2 iv), (checklstring_str _ 3 p)
    by (done || (split; [done|range])). cbn [mbind outcome_bind].
  rewrite Hks, Hiv, !Z.eqb_refl. change (lua_gettop _ <=? 3) with true. cbn [require mbind outcome_bind].
  destruct (encrypt_run c key iv p Hks Hiv Hlen) as (c0 & c1 & c2 & c3 & c4 & E0 & E1 & E2 & E3 & E4 & Etag).
  unfold new_managed_EVP_CIPHER_CTX. rewrite E0. cbn [mbind outcome_bind]. rewrite E1. cbn [Z.eqb Pos.eqb require mbind outcome_bind].
  rewrite E2. cbn [Z.eqb Pos.eqb require mbind outcome_bind]. rewrite int_small by range. rewrite E3.
  pose proof (tag_size_range c) as Ht.
  rewrite (size_small (zlen p + tag_size c)), (size_small (zlen (stream c key iv p) + tag_size c)) by range.
  set (buf := lua_memory scratch (zlen p + tag_size c)).
  assert (zlen buf = zlen p + tag_size c) as Hb by (apply zlen_lua_memory; lia).
  assert (zlen (stream c key iv p) <= zlen buf) as Hfit by lia.
  pose proof (write_after [] buf (stream c key iv p) Hfit) as W1. cbn [app] in W1.
  change (zlen (@nil Z)) with 0 in W1. rewrite W1. cbn [Z.eqb Pos.eqb require mbind outcome_bind]. rewrite E4.
  set (rest := drop _ buf). assert (zlen rest = tag_size c) as Hr.
  { unfold rest. unfold zlen in *. rewrite length_drop. lia. }
  rewrite write_after by (change (zlen (@nil Z)) with 0; lia). cbn [Z.eqb Pos.eqb require mbind outcome_bind length].
  change (zlen (@nil Z)) with 0. cbn [Z.eqb require mbind outcome_bind]. rewrite app_nil_r, drop_0.
  destruct (is_aead c) eqn:Haead.
  - assert (tag_size c = 16) as Ets by (unfold tag_size; by rewrite Haead). rewrite Ets in *.
    cbn [Z.gtb Z.compare]. change (cint 16) with 16. rewrite Etag by done.
    rewrite write_after by lia. cbn [Z.eqb Pos.eqb require mbind outcome_bind].
    rewrite <- Hm at 1. rewrite <- zlen_app, read_written. done.
  - assert (tag_size c = 0) as Ets by (unfold tag_size; by rewrite Haead). rewrite Ets in *.
    cbn [Z.gtb Z.compare]. rewrite read_written, app_nil_r. done.
Qed.

(** Decryption gives the text that [unstream] makes of all but the tag, if the tag is right. *)
Lemma decrypt_result c scratch key iv ct :
  good_key c key iv -> bytes_ok ct -> tag_size c < zlen ct <= int_max ->
  let p := unstream c key iv (slice ct 0 (zlen ct - tag_size c)) in
  decrypt_with c scratch (key_args key iv ct)
  = if is_aead c && negb (bool_decide (slice ct (zlen ct - 16) 16 = mac c key iv p))
    then Done [VNil; literal "verify-failed"] else Done [VStr p].
Proof.
  intros (Hk & Hi & Hks & Hiv) Hct Hlen p. rewrite decrypt_with_sizes. unfold Levp_decrypt, key_args.
  rewrite (checklstring_str _ 1 key), (checklstring_str _ 2 iv), (checklstring_str _ 3 ct)
    by (done || (split; [done|range])). cbn [mbind outcome_bind].
  pose proof (tag_size_range c) as Ht. assert ((zlen ct <=? tag_size c) = false) as -> by lia.
  rewrite Hks, Hiv, !Z.eqb_refl. change (lua_gettop _ <=? 3) with true. cbn [negb require mbind outcome_bind].
  rewrite size_small, int_small by range.
  set (n := zlen ct - tag_size c) in *.
  destruct (decrypt_run c key iv ct n Hks Hiv ltac:(lia) ltac:(lia)) as (c0 & c1 & c2 & c3 & E0 & E1 & E2 & E3 & Ectr & Egcm).
  fold p in E3, Egcm. unfold new_managed_EVP_CIPHER_CTX. rewrite E0. cbn [mbind outcome_bind]. rewrite E1.
  cbn [Z.eqb negb require mbind outcome_bind]. rewrite E2. cbn [Z.eqb negb require mbind outcome_bind]. rewrite E3.
  assert (zlen p = n) as Hp.
  { unfold p. rewrite (proj2 (unstream_ok _ _ _ _ (bytes_ok_slice ct 0 n Hct))). apply zlen_slice; lia. }
  set (buf := lua_memory scratch (zlen ct)).
  assert (zlen p <= zlen buf) as Hfit by (unfold buf; rewrite zlen_lua_memory; lia).
  pose proof (write_after [] buf p Hfit) as W1. cbn [app] in W1.
  change (zlen (@nil Z)) with 0 in W1. rewrite W1. cbn [Z.eqb negb require mbind outcome_bind].
  set (rest := drop (length p) buf).
  assert (forall r : Z, (buf ← mem_write (p ++ rest) (zlen p) [];
            if r <=? 0 then Done [VNil; literal "verify-failed"]
            else r ← mem_sub buf 0 (zlen p + zlen (@nil Z)); Done [VStr r])
          = if r <=? 0 then Done [VNil; literal "verify-failed"] else Done [VStr p]) as Hend.
  { intros r. rewrite write_after by (change (zlen (@nil Z)) with 0; apply zlen_nonneg). cbn [mbind outcome_bind].
    change (zlen (@nil Z)) with 0. rewrite Z.add_0_r, app_nil_r, read_written. by destruct (r <=? 0). }
  destruct (is_aead c) eqn:Haead; [assert (tag_size c = 16) as Ets|assert (tag_size c = 0) as Ets];
    try (unfold tag_size; by rewrite Haead); rewrite Ets; cbn [Z.gtb Z.compare].
  - unfold n in *. rewrite Ets in *. rewrite mem_sub_done by lia. cbn [mbind outcome_bind].
    destruct (Egcm eq_refl (slice ct (zlen ct - 16) 16)) as (c4 & c5 & -> & E5); [apply zlen_slice; lia|].
    cbn [Z.eqb negb require mbind outcome_bind]. rewrite E5, Hend. by case_bool_decide.
  - destruct (Ectr eq_refl) as (c4 & E5). cbn [mbind outcome_bind]. by rewrite E5, Hend.
Qed.

(** ** The properties *)



(** The empty text is encrypted, but what comes out cannot be decrypted. *)
Lemma empty_not_decrypted c s1 s2 key iv :
  good_key c key iv ->
  exists ct, encrypt_with c s1 (key_args key iv []) = Done [VStr ct] /\
    exists msg, decrypt_with c s2 (key_args key iv ct) = Raise (LuaError msg).
Proof.
  intros Hk. rewrite encrypt_result by (done || by constructor). eexists. split; [done|].
  destruct (stream_ok c key iv [] (Forall_nil_2 _)) as [Hs Hsl]. destruct (mac_ok c key iv [] (Forall_nil_2 _)) as [Hm Hml].
  set (t := if is_aead c then mac c key iv [] else []).
  assert (bytes_ok (stream c key iv [] ++ t)) as Hct.
  { apply Forall_app. split; [done|]. unfold t. destruct (is_aead c); [done|constructor]. }
  assert (zlen (stream c key iv [] ++ t) = tag_size c) as Hl.
  { rewrite zlen_app, Hsl. unfold t, tag_size. change (zlen (@nil Z)) with 0. by destruct (is_aead c). }
  destruct Hk as (Hk & Hi & Hks & Hiv). rewrite decrypt_with_sizes. unfold Levp_decrypt, key_args.
  pose proof (tag_size_range c).
  rewrite (checklstring_str _ 1 key), (checklstring_str _ 2 iv), (checklstring_str _ 3 (stream c key iv [] ++ t))
    by (done || (split; [done|range])). cbn [mbind outcome_bind].
  rewrite Hks, Hiv, Hl, !Z.eqb_refl, (Z.leb_refl (tag_size c)). cbn [negb require mbind outcome_bind]. by eexists.
Qed.

(** Keys and vectors of other sizes raise an error before OpenSSL is called. *)
Lemma encrypt_wrong_key c scratch key iv p :
  lua_string key -> lua_string iv -> lua_string p -> zlen key <> key_size c ->
  encrypt_with c scratch (key_args key iv p) = luaL_error ("key must be " +:+ pretty (key_size c) +:+ " bytes")%string.
Proof.
  intros Hk Hi Hp Hne. rewrite encrypt_with_sizes. unfold Levp_encrypt, key_args.
  rewrite (checklstring_str _ 1 key), (checklstring_str _ 2 iv), (checklstring_str _ 3 p) by done.
  cbn [mbind outcome_bind]. by rewrite (proj2 (Z.eqb_neq _ _) Hne).
Qed.

End facts.

(** ** Witnesses *)

(** A cipher that adds one to each byte, with the sum of the text as its tag. *)
Inductive toy_ctx := Fresh | Keyed | Text (p : bytes) | Tagged (p t : bytes).

Definition toy_shift (d : Z) (p : bytes) : bytes := (fun x => (x + d) mod 256) <$> p.
Definition toy_mac (p : bytes) : bytes := replicate 16 (foldr Z.add 0 p mod 256).

Definition toy_evp : EVP := {|
  CIPHER_CTX := toy_ctx;
  EVP_CIPHER_CTX_new := Some Fresh;
  EVP_EncryptInit_cipher ctx _ := (1, ctx);
  EVP_EncryptInit_key _ _ _ := (1, Keyed);
  EVP_EncryptUpdate _ buf n := let p := slice buf 0 n in (1, Text p, toy_shift 1 p);
  EVP_EncryptFinal_ex ctx := (1, ctx, []);
  EVP_CTRL_AEAD_GET_TAG ctx n := match ctx with Text p => (1, toy_mac p) | _ => (0, []) end;
  EVP_DecryptInit_cipher ctx _ := (1, ctx);
  EVP_DecryptInit_key _ _ _ := (1, Keyed);
  EVP_DecryptUpdate _ buf n := let p := toy_shift (-1) (slice buf 0 n) in (1, Text p, p);
  EVP_CTRL_AEAD_SET_TAG ctx t := match ctx with Text p => (1, Tagged p t) | _ => (0, ctx) end;
  EVP_DecryptFinal_ex ctx :=
    (match ctx with Tagged p t => if bool_decide (t = toy_mac p) then 1 else 0 | _ => 1 end, ctx, []);
|}.

Lemma toy_shift_ok d p : bytes_ok (toy_shift d p) /\ zlen (toy_shift d p) = zlen p.
Proof.
  split; [|unfold toy_shift, zlen; by rewrite length_fmap]. apply Forall_fmap, Forall_true.
  intros x. apply Z.mod_pos_bound. lia.
Qed.

Lemma toy_shift_inverse d p : bytes_ok p -> toy_shift (- d) (toy_shift d p) = p.
Proof.
  intros Hp. unfold toy_shift. rewrite <- list_fmap_compose. rewrite <- (list_fmap_id p) at 2.
  apply list_fmap_ext. intros i x Hx. cbn. rewrite Zplus_mod_idemp_l.
  replace (x + d + - d) with x by lia. apply Z.mod_small. exact (Forall_lookup_1 _ _ _ _ Hp Hx).
Qed.

#[export] Instance toy_laws : @CipherLaws toy_evp.
Proof.
  refine {| stream := fun _ _ _ p => toy_shift 1 p : bytes; unstream := fun _ _ _ p => toy_shift (-1) p : bytes;
            mac := fun _ _ _ p => toy_mac p |}.
  - intros. apply toy_shift_ok.
  - intros. apply toy_shift_ok.
  - intros c key iv p Hp. apply (toy_shift_inverse 1 p Hp).
  - intros c key iv p Hp. apply (toy_shift_inverse (-1) p Hp).
  - intros c key iv p _. split; [|done]. unfold toy_mac. apply Forall_replicate, Z.mod_pos_bound. lia.
  - intros c key iv p _ _ _. cbn. rewrite slice_all by lia.
    by exists Fresh, Fresh, Keyed, (Text p), (Text p).
  - intros c key iv buf n _ _ _ _. cbn. exists Fresh, Fresh, Keyed. eexists. split_and!; [done..| |].
    + intros _. by eexists.
    + intros _ t _. eexists. eexists. by split.
Defined.

Definition toy_key : bytes := replicate 32 7.
Definition toy_iv : bytes := replicate 12 9.


