(* ===== verification/Crypto.v ===== *)
(** * Keys and signatures in util-src/crypto.c

    Key objects are userdata that own a key of OpenSSL and carry, as their user value, the
    key's type and whether it is private.  The state is the memory of the keys that
    OpenSSL allocated and the map of the live objects.  OpenSSL is a parameter.  The
    theorems: in every state that the module reaches the types of the objects are those of
    their keys, so that a signature function only gets a private key of its own type, and
    the collector frees each key once; a generated P-256 key is refused by the signature
    functions of its type. *)

From stdpp Require Import base tactics numbers list strings gmap.
From Stdlib Require Import ZArith Lia.
From S2P Require Import Prelude LuaApi.

Local Open Scope Z_scope.

(** The max size of an encoded 'R' or 'S' value. *)
Definition MAX_ECDSA_SIG_INT_BYTES : Z := 66.
Definition PKEY_MT_TAG : string := "util.crypto key".
Definition NULL : Z := 0.

Inductive sign_md := EVP_sha256 | EVP_sha384 | EVP_sha512.

(** What the module calls; [None] is a failure, numbers are the results where the source
    distinguishes more. *)
Class Keys := {
  LUAL_BUFFERSIZE : Z;
  EVP_PKEY : Type;
  EVP_PKEY_id : EVP_PKEY -> Z;
  OBJ_nid2sn : Z -> option string;
  NID_ED25519 : Z; NID_X9_62_prime256v1 : Z; NID_X9_62_id_ecPublicKey : Z;
  NID_rsaEncryption : Z; NID_rsassaPss : Z;
  BIO_new_mem : bool;
  BIO_write : bytes -> Z -> bytes;                      (* what the new BIO then holds *)
  PEM_read_bio_PrivateKey : bytes -> option EVP_PKEY;
  PEM_read_bio_PUBKEY : bytes -> option EVP_PKEY;
  PEM_write_bio_PrivateKey : EVP_PKEY -> option bytes;  (* what it appends to the BIO *)
  PEM_write_bio_PUBKEY : EVP_PKEY -> option bytes;
  EVP_PKEY_todata : EVP_PKEY -> option (list (string * bytes));
  PARAM_BLD : Type; PARAMS : Type; DATA_CTX : Type;
  OSSL_PARAM_BLD_new : option PARAM_BLD;
  OSSL_PARAM_BLD_push_utf8_string : PARAM_BLD -> string -> bytes -> option PARAM_BLD;
  OSSL_PARAM_BLD_push_octet_string : PARAM_BLD -> string -> bytes -> option PARAM_BLD;
  OSSL_PARAM_BLD_to_param : PARAM_BLD -> option PARAMS;
  EVP_PKEY_CTX_new_from_name : string -> option DATA_CTX;
  EVP_PKEY_fromdata_init : DATA_CTX -> option DATA_CTX; (* [None] for 0 *)
  EVP_PKEY_fromdata : DATA_CTX -> PARAMS -> option EVP_PKEY;
  DERIVE_CTX : Type;
  EVP_PKEY_CTX_new : EVP_PKEY -> option DERIVE_CTX;
  EVP_PKEY_derive_init : DERIVE_CTX -> option DERIVE_CTX;
  EVP_PKEY_derive_set_peer : DERIVE_CTX -> EVP_PKEY -> option DERIVE_CTX;
  EVP_PKEY_derive_size : DERIVE_CTX -> option Z;
  BUF_MEM_grow_clean : Z -> bool;
  EVP_PKEY_derive : DERIVE_CTX -> Z -> option bytes;
  MD_CTX : Type;
  EVP_MD_CTX_new : option MD_CTX;
  EVP_DigestSignInit : MD_CTX -> option sign_md -> EVP_PKEY -> Z * MD_CTX;
  EVP_DigestVerifyInit : MD_CTX -> option sign_md -> EVP_PKEY -> Z * MD_CTX;
  EVP_PKEY_CTX_set_pss_padding : MD_CTX -> MD_CTX;
  EVP_DigestSign_size : MD_CTX -> bytes -> Z * Z;
  EVP_DigestSign : MD_CTX -> Z -> bytes -> Z * bytes;
  EVP_DigestVerify : MD_CTX -> bytes -> bytes -> Z;
}.

(** A key object: the pointer in the userdata, and the fields of its user value. *)
Record pkey_object := { pkey : Z; uv_type : option Z; uv_private : bool }.

(** The keys in memory and the live objects. *)
Record keystore `{Keys} := KS { heap : gmap Z EVP_PKEY; objects : gmap Z pkey_object }.

Arguments KS {_} heap objects : rename.
Arguments heap {_} _.
Arguments objects {_} _.

Definition key_value (p : Z) : value := VUserdata PKEY_MT_TAG p.

Section functions.
Context `{LuaAux, Keys}.
Implicit Types (L : list value) (st : keystore) (ptr : Z) (k : EVP_PKEY).

(** A pointer that OpenSSL returns, and the key that a pointer passed to it stands for;
    OpenSSL documents nothing for NULL or for memory that was freed. *)
Definition new_key st k : keystore * Z :=
  let ptr := fresh ({[NULL]} ∪ dom (heap st)) in
  (KS (<[ptr := k]> (heap st)) (objects st), ptr).

Definition deref st ptr : outcome EVP_PKEY :=
  match heap st !! ptr with Some k => Done k | None => Undef OutOfBounds end.

Definition nid_name (nid : Z) : string := default "(null)"%string (OBJ_nid2sn nid).

Definition type_error (idx got want : Z) : lua_error :=
  ArgError idx ("unexpected key type: got '" +:+ nid_name got +:+ "', expected '" +:+ nid_name want +:+ "'")%string.

Definition pkey_from_arg st L (idx type : Z) (require_private : bool) : outcome Z :=
  p ← luaL_checkudata L idx PKEY_MT_TAG;
  match objects st !! p with
  | None => Undef OutOfBounds
  | Some o =>
      _ ← (if type =? 0 then Done tt
           else let got_type := default 0 (uv_type o) in
                if negb (got_type =? type) then Raise (type_error idx got_type type) else Done tt);
      _ ← (if require_private && negb (uv_private o)
           then Raise (ArgError idx "private key expected, got public key only") else Done tt);
      Done (pkey o)
  end.

(** [EVP_PKEY_free], which does nothing for NULL. *)
Definition Lpkey_finalizer st L : outcome (keystore * list value) :=
  ptr ← pkey_from_arg st L 1 0 false;
  if ptr =? NULL then Done (st, [])
  else _ ← deref st ptr; Done (KS (delete ptr (heap st)) (objects st), []).

(** [lua_pushstring] of a string that may be NULL. *)
Definition push_name (s : option string) : value := match s with Some s => literal s | None => VNil end.

Definition Lpkey_meth_get_type st L : outcome (list value) :=
  ptr ← pkey_from_arg st L 1 0 false;
  k ← deref st ptr;
  Done [push_name (OBJ_nid2sn (EVP_PKEY_id k))].

Definition new_managed_BIO_s_mem : outcome unit :=
  if BIO_new_mem then Done tt else Raise (ErrorObject (string_bytes "not enough memory")).

(** The calls of derive up to the growth of the buffer, and the shared secret. *)
Definition derive (k peer : EVP_PKEY) : option (Z * DERIVE_CTX) :=
  ctx ← EVP_PKEY_CTX_new k;
  ctx ← EVP_PKEY_derive_init ctx;
  ctx ← EVP_PKEY_derive_set_peer ctx peer;
  outlen ← EVP_PKEY_derive_size ctx;
  if BUF_MEM_grow_clean outlen then Some (outlen, ctx) else None.

Definition Lpkey_meth_derive st L : outcome (list value) :=
  key ← pkey_from_arg st L 1 0 false;
  peer ← pkey_from_arg st L 2 0 false;
  _ ← new_managed_BIO_s_mem;
  key ← deref st key;
  peer ← deref st peer;
  match '(outlen, ctx) ← derive key peer; r ← EVP_PKEY_derive ctx outlen; Some (outlen, r) with
  | Some (outlen, r) => if zlen r <=? outlen then Done [VStr r] else Undef OutOfBounds
  | None => luaL_error "pkey:derive failed"
  end.

Definition new_managed_EVP_MD_CTX : outcome MD_CTX :=
  match EVP_MD_CTX_new with
  | Some ctx => Done ctx
  | None => Raise (ErrorObject (string_bytes "not enough memory"))
  end.

(** The type that the key's user value must have. *)
Definition required_type (key_type : Z) : Z :=
  if negb (key_type =? NID_rsassaPss) then key_type else NID_rsaEncryption.

Definition set_padding (key_type : Z) (ctx : MD_CTX) : MD_CTX :=
  if key_type =? NID_rsassaPss then EVP_PKEY_CTX_set_pss_padding ctx else ctx.

Definition base_evp_sign st L (key_type : Z) (digest_type : option sign_md) : outcome (list value) :=
  ptr ← pkey_from_arg st L 1 (required_type key_type) true;
  let msg := default [] (lua_arg L 2 ≫= lua_tolstring) in
  md_ctx ← new_managed_EVP_MD_CTX;
  k ← deref st ptr;
  let '(ret, md_ctx) := EVP_DigestSignInit md_ctx digest_type k in
  if negb (ret =? 1) then Done [VNil]
  else
    let md_ctx := set_padding key_type md_ctx in
    let '(ret, sig_len) := EVP_DigestSign_size md_ctx msg in
    if negb (ret =? 1) then Done [VNil]
    else
      sigbuf ← mem_write (replicate (Z.to_nat LUAL_BUFFERSIZE) 0) 0 (replicate (Z.to_nat sig_len) 0);
      let '(ret, sig) := EVP_DigestSign md_ctx sig_len msg in
      sigbuf ← mem_write sigbuf 0 sig;
      if negb (ret =? 1) then Done [VNil]
      else s ← mem_sub sigbuf 0 (zlen sig); Done [VStr s].

Definition base_evp_verify st L (key_type : Z) (digest_type : option sign_md) : outcome (list value) :=
  ptr ← pkey_from_arg st L 1 (required_type key_type) false;
  msg ← luaL_checklstring L 2;
  sig ← luaL_checklstring L 3;
  match EVP_MD_CTX_new with
  | None => Undef OutOfBounds
  | Some md_ctx =>
      k ← deref st ptr;
      let '(ret, md_ctx) := EVP_DigestVerifyInit md_ctx digest_type k in
      if negb (ret =? 1) then Done [VNil]
      else
        let result := EVP_DigestVerify (set_padding key_type md_ctx) sig msg in
        if result =? 0 then Done [VBool false]
        else if negb (result =? 1) then Done [VNil]
        else Done [VBool true]
  end.

(** [while (item->key)]: the first item named "pub". *)
Fixpoint find_pub (items : list (string * bytes)) : value :=
  match items with
  | [] => VNil
  | (key, data) :: items => if String.eqb "pub" key then VStr data else find_pub items
  end.

Definition Lpkey_meth_public_raw st L : outcome (list value) :=
  ptr ← pkey_from_arg st L 1 0 false;
  k ← deref st ptr;
  match EVP_PKEY_todata k with
  | Some params => Done [find_pub params]
  | None => Done [VNil]
  end.

(** The contents of the BIO, if there are any. *)
Definition push_BIO (data : option bytes) : list value :=
  match data with
  | Some data => if zlen data >? 0 then [VStr data] else [VNil]
  | None => [VNil]
  end.

Definition Lpkey_meth_public_pem st L : outcome (list value) :=
  ptr ← pkey_from_arg st L 1 0 false;
  _ ← new_managed_BIO_s_mem;
  k ← deref st ptr;
  Done (push_BIO (PEM_write_bio_PUBKEY k)).

Definition Lpkey_meth_private_pem st L : outcome (list value) :=
  ptr ← pkey_from_arg st L 1 0 true;
  _ ← new_managed_BIO_s_mem;
  k ← deref st ptr;
  Done (push_BIO (PEM_write_bio_PrivateKey k)).

Definition push_pkey st ptr (type : Z) (privkey : bool) : keystore * list value :=
  let ud := fresh (dom (objects st)) in
  let o := {| pkey := ptr; uv_type := if negb (type =? 0) then Some type else None; uv_private := privkey |} in
  (KS (heap st) (<[ud := o]> (objects st)), [key_value ud]).

(** [keygen] is the key that OpenSSL generates, [None] if that fails. *)
Definition Lgenerate_ed25519_keypair (keygen : option EVP_PKEY) st : keystore * list value :=
  let '(st, ptr) := match keygen with Some k => new_key st k | None => (st, NULL) end in
  push_pkey st ptr NID_ED25519 true.

Definition Lgenerate_p256_keypair (init curve : bool) (keygen : option EVP_PKEY) st : keystore * list value :=
  if negb init then (st, [VNil])
  else if negb curve then (st, [VNil])
  else match keygen with
       | None => (st, [VNil])
       | Some k => let '(st, ptr) := new_key st k in push_pkey st ptr NID_X9_62_prime256v1 true
       end.

(** A key that was read goes to a new object; nil if it was not. *)
Definition push_imported st (k : option EVP_PKEY) (privkey : bool) : keystore * list value :=
  match k with
  | Some k => let '(st, ptr) := new_key st k in push_pkey st ptr (EVP_PKEY_id k) privkey
  | None => (st, [VNil])
  end.

Definition Limport_private_pem st L : outcome (keystore * list value) :=
  _ ← new_managed_BIO_s_mem;
  privkey_data ← luaL_checklstring L 1;
  let bio := BIO_write privkey_data (cint (zlen privkey_data)) in
  Done (push_imported st (PEM_read_bio_PrivateKey bio) true).

Definition Limport_public_pem st L : outcome (keystore * list value) :=
  _ ← new_managed_BIO_s_mem;
  pubkey_data ← luaL_checklstring L 1;
  let bio := BIO_write pubkey_data (cint (zlen pubkey_data)) in
  Done (push_imported st (PEM_read_bio_PUBKEY bio) false).

(** The key of a point on a named curve. *)
Definition raw_key (curve pubkey_data : bytes) : option EVP_PKEY :=
  param_bld ← OSSL_PARAM_BLD_new;
  param_bld ← OSSL_PARAM_BLD_push_utf8_string param_bld "group" curve;
  param_bld ← OSSL_PARAM_BLD_push_octet_string param_bld "pub" pubkey_data;
  params ← OSSL_PARAM_BLD_to_param param_bld;
  ctx ← EVP_PKEY_CTX_new_from_name "EC";
  ctx ← EVP_PKEY_fromdata_init ctx;
  EVP_PKEY_fromdata ctx params.

Definition Limport_public_ec_raw st L : outcome (keystore * list value) :=
  pubkey_data ← luaL_checklstring L 1;
  curve ← luaL_checkstring L 2;
  Done (push_imported st (raw_key curve pubkey_data) false).

Definition Led25519_sign st L := base_evp_sign st L NID_ED25519 None.
Definition Led25519_verify st L := base_evp_verify st L NID_ED25519 None.

(** The functions that IMPL_SIGN_VERIFY declares, and the names under which
    REG_SIGN_VERIFY exports them. *)
Definition signatures : list (string * (Z * option sign_md)) := [
  ("ed25519", (NID_ED25519, None));
  ("ecdsa_sha256", (NID_X9_62_id_ecPublicKey, Some EVP_sha256));
  ("ecdsa_sha384", (NID_X9_62_id_ecPublicKey, Some EVP_sha384));
  ("ecdsa_sha512", (NID_X9_62_id_ecPublicKey, Some EVP_sha512));
  ("rsassa_pkcs1_sha256", (NID_rsaEncryption, Some EVP_sha256));
  ("rsassa_pkcs1_sha384", (NID_rsaEncryption, Some EVP_sha384));
  ("rsassa_pkcs1_sha512", (NID_rsaEncryption, Some EVP_sha512));
  ("rsassa_pss_sha256", (NID_rsassaPss, Some EVP_sha256));
  ("rsassa_pss_sha384", (NID_rsassaPss, Some EVP_sha384));
  ("rsassa_pss_sha512", (NID_rsassaPss, Some EVP_sha512))
]%string.

Definition Reg_sign_verify st : list (string * (list value -> outcome (list value))) :=
  signatures ≫= fun '(name, (key_type, md)) =>
    [((name +:+ "_sign")%string, fun L => base_evp_sign st L key_type md);
     ((name +:+ "_verify")%string, fun L => base_evp_verify st L key_type md)].

End functions.

(** ** The states the module reaches *)

(** The types differ, and are not the 0 that means no type; a private PEM text gives a key
    with its private part. *)
Class KeyLaws `{Keys} := {
  has_private : EVP_PKEY -> Prop;
  nids_differ : NoDup [0; NID_ED25519; NID_X9_62_prime256v1; NID_X9_62_id_ecPublicKey; NID_rsaEncryption; NID_rsassaPss];
  read_private b k : PEM_read_bio_PrivateKey b = Some k -> has_private k;
}.

Section states.
Context `{LuaAux, Keys, !KeyLaws}.
Implicit Types (L : list value) (st : keystore) (o : pkey_object) (k : EVP_PKEY).

(** What [EVP_PKEY_keygen] makes for a type. *)
Definition generated (id : Z) (keygen : option EVP_PKEY) : Prop :=
  forall k, keygen = Some k -> EVP_PKEY_id k = id /\ has_private k.

(** Calls that make objects, and the collector, which runs the finalizer of an object that
    is no longer reachable. *)
Inductive key_step : keystore -> keystore -> Prop :=
  | step_ed25519 st keygen st' res :
      generated NID_ED25519 keygen -> Lgenerate_ed25519_keypair keygen st = (st', res) -> key_step st st'
  | step_p256 st init curve keygen st' res :
      generated NID_X9_62_id_ecPublicKey keygen -> Lgenerate_p256_keypair init curve keygen st = (st', res) -> key_step st st'
  | step_private st L st' res : Limport_private_pem st L = Done (st', res) -> key_step st st'
  | step_public st L st' res : Limport_public_pem st L = Done (st', res) -> key_step st st'
  | step_raw st L st' res : Limport_public_ec_raw st L = Done (st', res) -> key_step st st'
  | step_collect st p st' res :
      Lpkey_finalizer st [key_value p] = Done (st', res) -> key_step st (KS (heap st') (delete p (objects st'))).

Definition no_keys : keystore := KS ∅ ∅.
Definition reachable : keystore -> Prop := rtc key_step no_keys.

(** An object and its key: the type in the user value is the key's, except that generated
    P-256 keys carry the curve. *)
Definition typed o k : Prop :=
  (uv_type o = Some (EVP_PKEY_id k) \/ (uv_type o = None /\ EVP_PKEY_id k = 0) \/
   (uv_type o = Some NID_X9_62_prime256v1 /\ EVP_PKEY_id k = NID_X9_62_id_ecPublicKey)) /\
  (uv_private o = true -> has_private k).

(** The object holds NULL (a generation that failed) or a key in memory. *)
Definition object_ok st o : Prop := pkey o = NULL \/ exists k, heap st !! pkey o = Some k /\ typed o k.

Record wf st : Prop := {
  wf_null : heap st !! NULL = None;
  wf_objects p o : objects st !! p = Some o -> object_ok st o;
  wf_owner p q o o' : objects st !! p = Some o -> objects st !! q = Some o' -> pkey o = pkey o' -> pkey o <> NULL -> p = q;
}.

Lemma new_key_spec st k st' ptr :
  new_key st k = (st', ptr) ->
  ptr <> NULL /\ heap st !! ptr = None /\ st' = KS (<[ptr := k]> (heap st)) (objects st).
Proof.
  unfold new_key. cbv zeta. intros [= <- <-].
  pose proof (is_fresh ({[NULL]} ∪ dom (heap st))) as Hf. rewrite not_elem_of_union, not_elem_of_singleton in Hf.
  destruct Hf as [Hn Hd]. split; [done|]. split; [by apply not_elem_of_dom|done].
Qed.

(** An object for a key just made, or for NULL. *)
Lemma push_pkey_wf st ptr type priv :
  wf st ->
  object_ok st {| pkey := ptr; uv_type := if negb (type =? 0) then Some type else None; uv_private := priv |} ->
  (ptr <> NULL -> forall p o, objects st !! p = Some o -> pkey o <> ptr) ->
  wf (push_pkey st ptr type priv).1.
Proof.
  intros [Hn Ho Hown] Hok Hfree. unfold push_pkey. cbv zeta. cbn [fst].
  set (new := fresh _). assert (objects st !! new = None) as Hnew by apply not_elem_of_dom, is_fresh.
  split; [done| |]; cbn [heap objects].
  - intros p o. rewrite lookup_insert_Some. intros [[_ <-]|[_ Hp]]; [done|by apply (Ho p)].
  - intros p q o o'. rewrite !lookup_insert_Some.
    intros [[<- <-]|[Hpn Hp]] [[<- <-]|[Hqn Hq]]; cbn [pkey]; intros E Hnn; try done.
    + exfalso. by apply (Hfree Hnn q o' Hq).
    + exfalso. apply (Hfree ltac:(congruence) p o Hp). done.
    + by apply (Hown p q o o').
Qed.

Lemma new_key_wf st k st' ptr :
  wf st -> new_key st k = (st', ptr) ->
  wf st' /\ heap st' !! ptr = Some k /\ ptr <> NULL /\ forall p o, objects st' !! p = Some o -> pkey o <> ptr.
Proof.
  intros [Hn Ho Hown] (Hptr & Hfresh & ->)%new_key_spec. cbn [heap objects].
  assert (forall p o, objects st !! p = Some o -> pkey o <> ptr) as Hne.
  { intros p o Hp E. destruct (Ho p o Hp) as [E'|(k' & Hk & _)]; congruence. }
  split; [|by rewrite lookup_insert_eq]. split; cbn [heap objects].
  - by rewrite lookup_insert_ne.
  - intros p o Hp. destruct (Ho p o Hp) as [E|(k' & Hk & Ht)]; [by left|].
    right. exists k'. split; [|done]. cbn [heap]. rewrite lookup_insert_ne; [done|]. intros ->. by apply (Hne p o Hp).
  - done.
Qed.

Lemma push_new_wf st k st1 ptr type priv :
  wf st -> new_key st k = (st1, ptr) ->
  typed {| pkey := ptr; uv_type := if negb (type =? 0) then Some type else None; uv_private := priv |} k ->
  wf (push_pkey st1 ptr type priv).1.
Proof.
  intros Hwf E Ht. destruct (new_key_wf _ _ _ _ Hwf E) as (Hwf1 & Hk & Hptr & Hfree).
  apply push_pkey_wf; [done| |by intros _]. right. by exists k.
Qed.

Lemma typed_import ptr k priv :
  (priv = true -> has_private k) ->
  typed {| pkey := ptr; uv_type := if negb (EVP_PKEY_id k =? 0) then Some (EVP_PKEY_id k) else None; uv_private := priv |} k.
Proof.
  intros Hp. split; [|done]. cbn [uv_type]. destruct (Z.eqb_spec (EVP_PKEY_id k) 0); cbn [negb]; auto.
Qed.

Lemma import_wf st (imported : option EVP_PKEY) priv :
  wf st -> (forall k, imported = Some k -> priv = true -> has_private k) -> wf (push_imported st imported priv).1.
Proof.
  intros Hwf Hp. unfold push_imported. destruct imported as [k|]; [|done]. destruct (new_key st k) as [st1 ptr] eqn:E.
  apply (push_new_wf st k); [done..|]. apply typed_import. auto.
Qed.

Lemma nids_apart :
  (NID_ED25519 <> 0 /\ NID_X9_62_id_ecPublicKey <> 0 /\ NID_rsaEncryption <> 0) /\
  (NID_ED25519 <> NID_X9_62_prime256v1 /\ NID_X9_62_id_ecPublicKey <> NID_X9_62_prime256v1 /\
   NID_rsaEncryption <> NID_X9_62_prime256v1) /\
  (NID_ED25519 <> NID_rsassaPss /\ NID_X9_62_id_ecPublicKey <> NID_rsassaPss /\ NID_rsaEncryption <> NID_rsassaPss) /\
  NID_X9_62_prime256v1 <> 0.
Proof.
  pose proof nids_differ as Hn. rewrite !NoDup_cons, !not_elem_of_cons in Hn. destruct_and! Hn.
  repeat split; congruence.
Qed.

(** The finalizer of a live object is defined, and leaves the keys of the others. *)
Lemma finalizer_spec st p o :
  wf st -> objects st !! p = Some o ->
  exists st', Lpkey_finalizer st [key_value p] = Done (st', []) /\ wf (KS (heap st') (delete p (objects st'))) /\
    objects st' = objects st /\
    forall q o', q <> p -> objects st !! q = Some o' -> heap st' !! pkey o' = heap st !! pkey o'.
Proof.
  intros [Hn Ho Hown] Hp. unfold Lpkey_finalizer, pkey_from_arg. cbn [luaL_checkudata lua_arg key_value].
  change (luaL_checkudata [key_value p] 1 PKEY_MT_TAG) with (Done p : outcome Z). cbn [mbind outcome_bind]. rewrite Hp.
  cbn [Z.eqb mbind outcome_bind andb]. destruct (Z.eqb_spec (pkey o) NULL) as [E|E].
  - exists st. split; [done|]. split; [|done]. split; cbn [heap objects]; [done| |].
    + intros q o'. rewrite lookup_delete_Some. intros [_ Hq]. by apply (Ho q).
    + intros q q' o1 o2. rewrite !lookup_delete_Some. intros [_ ?] [_ ?]. by apply Hown.
  - destruct (Ho p o Hp) as [?|(k & Hk & Ht)]; [done|]. unfold deref. rewrite Hk. cbn [mbind outcome_bind].
    eexists. split; [done|]. cbn [heap objects].
    assert (forall q o', q <> p -> objects st !! q = Some o' -> pkey o <> pkey o') as Hother.
    { intros q o' Hq Hqo E'. apply Hq. symmetry. by apply (Hown p q o o'). }
    split; [split; cbn [heap objects]|split; [done|]].
    + rewrite lookup_delete_None. by right.
    + intros q o'. rewrite lookup_delete_Some. intros [Hq Hqo]. destruct (Ho q o' Hqo) as [?|(k' & Hk' & Ht')]; [by left|].
      right. exists k'. split; [|done]. cbn [heap]. rewrite lookup_delete_ne; [done|]. by apply (Hother q).
    + intros q q' o1 o2. rewrite !lookup_delete_Some. intros [_ ?] [_ ?]. by apply Hown.
    + intros q o' Hq Hqo. rewrite lookup_delete_ne; [done|]. by apply (Hother q).
Qed.

Lemma state_of {A B} (x : A * B) a b : x = (a, b) -> a = x.1.
Proof. by intros ->. Qed.

Lemma key_step_wf st st' : key_step st st' -> wf st -> wf st'.
Proof.
  intros Hstep Hwf. destruct nids_apart as ((Hed%Z.eqb_neq & _) & _ & _ & Hp256%Z.eqb_neq).
  destruct Hstep as [st keygen st' res Hg E|st init curve keygen st' res Hg E|st L st' res E|st L st' res E|st L st' res E|st p st' res E].
  - unfold Lgenerate_ed25519_keypair in E. destruct keygen as [k|].
    + destruct (new_key st k) as [st1 ptr] eqn:Ek. rewrite (state_of _ _ _ E). apply (push_new_wf st k); [done..|].
      destruct (Hg k eq_refl) as [Hid Hpriv]. rewrite Hed. split; [|done]. left. cbn. by rewrite Hid.
    + rewrite (state_of _ _ _ E). apply push_pkey_wf; [done|by left|done].
  - unfold Lgenerate_p256_keypair in E. destruct init, curve, keygen as [k|]; cbn [negb] in E; try (injection E as <- _; done).
    destruct (new_key st k) as [st1 ptr] eqn:Ek. rewrite (state_of _ _ _ E). apply (push_new_wf st k); [done..|].
    destruct (Hg k eq_refl) as [Hid Hpriv]. rewrite Hp256. split; [|done]. right. right. done.
  - unfold Limport_private_pem in E. destruct new_managed_BIO_s_mem; [|done..]. cbn [mbind outcome_bind] in E.
    destruct (luaL_checklstring L 1); [|done..]. injection E as E. rewrite (state_of _ _ _ E).
    apply import_wf; [done|]. intros k' Hk _. by eapply read_private.
  - unfold Limport_public_pem in E. destruct new_managed_BIO_s_mem; [|done..]. cbn [mbind outcome_bind] in E.
    destruct (luaL_checklstring L 1); [|done..]. injection E as E. rewrite (state_of _ _ _ E). by apply import_wf.
  - unfold Limport_public_ec_raw in E. destruct (luaL_checklstring L 1); [|done..]. cbn [mbind outcome_bind] in E.
    destruct (luaL_checkstring L 2); [|done..]. injection E as E. rewrite (state_of _ _ _ E). by apply import_wf.
  - destruct (objects st !! p) as [o|] eqn:Hp.
    + destruct (finalizer_spec st p o Hwf Hp) as (st1 & E1 & Hwf1 & _). rewrite E1 in E. injection E as <- _. done.
    + unfold Lpkey_finalizer, pkey_from_arg in E.
      change (luaL_checkudata [key_value p] 1 PKEY_MT_TAG) with (Done p : outcome Z) in E. cbn [mbind outcome_bind] in E.
      by rewrite Hp in E.
Qed.

Lemma reachable_wf st : reachable st -> wf st.
Proof.
  intros Hr. refine (rtc_ind_r (R := key_step) wf no_keys _ _ st Hr); [|by intros st1 st2 _ Hs Hwf; apply (key_step_wf st1)].
  split; cbn [no_keys heap objects]; [apply lookup_empty| |].
  - intros p o. by rewrite lookup_empty.
  - intros p q o o'. by rewrite lookup_empty.
Qed.

(** ** The properties *)

(** What the checks of the first argument tell. *)
Lemma pkey_from_arg_inv st L type priv ptr :
  pkey_from_arg st L 1 type priv = Done ptr ->
  exists p o, lua_arg L 1 = Some (key_value p) /\ objects st !! p = Some o /\ pkey o = ptr /\
    (type <> 0 -> default 0 (uv_type o) = type) /\ (priv = true -> uv_private o = true).
Proof.
  unfold pkey_from_arg, luaL_checkudata. destruct (lua_arg L 1) as [[]|]; try done.
  destruct (String.eqb_spec tname PKEY_MT_TAG) as [->|]; [|done]. cbn [mbind outcome_bind].
  destruct (objects st !! p) as [o|] eqn:Hp; [|done]. intros E. exists p, o. split; [done|]. split; [done|].
  destruct (Z.eqb_spec type 0) as [->|Ht]; cbn [mbind outcome_bind] in E.
  - destruct priv, (uv_private o); cbn in E; try done; by injection E as <-.
  - destruct (Z.eqb_spec (default 0 (uv_type o)) type); cbn in E; [|done].
    destruct priv, (uv_private o); cbn in E; try done; by injection E as <-.
Qed.

Lemma signatures_type name kt md :
  (name, (kt, md)) ∈ signatures -> required_type kt <> 0 /\ required_type kt <> NID_X9_62_prime256v1.
Proof.
  assert (forall x, x <> NID_rsassaPss -> required_type x = x) as Hne
    by (intros x Hx; unfold required_type; by rewrite (proj2 (Z.eqb_neq _ _) Hx)).
  assert (required_type NID_rsassaPss = NID_rsaEncryption) as Hpss by (unfold required_type; by rewrite Z.eqb_refl).
  destruct nids_apart as ((? & ? & ?) & (? & ? & ?) & (? & ? & ?) & _).
  unfold signatures. rewrite !elem_of_cons, elem_of_nil.
  intros Hin. repeat destruct Hin as [[= -> -> ->]|Hin]; rewrite ?Hpss, ?Hne by done; done.
Qed.

(** C4. In every state that calls of the module reach, whatever signature function is called
    with whatever arguments, a call that returns has used a key in memory that has a
    private part and is of the type that function is for. *)
Theorem sign_key_typed st name L kt md res :
  reachable st -> (name, (kt, md)) ∈ signatures -> base_evp_sign st L kt md = Done res ->
  exists p o k, lua_arg L 1 = Some (key_value p) /\ objects st !! p = Some o /\ heap st !! pkey o = Some k /\
    EVP_PKEY_id k = required_type kt /\ has_private k.
Proof.
  intros Hr%reachable_wf Hname E. apply signatures_type in Hname as [Hne Hne']. unfold base_evp_sign in E.
  destruct (pkey_from_arg st L 1 (required_type kt) true) as [ptr| |] eqn:Ea; [|done..]. cbn [mbind outcome_bind] in E.
  destruct new_managed_EVP_MD_CTX; [|done..]. cbn [mbind outcome_bind] in E.
  destruct (deref st ptr) as [k| |] eqn:Ek; [|done..].
  apply pkey_from_arg_inv in Ea as (p & o & HL & Hp & <- & Htype & Hpriv). exists p, o, k.
  unfold deref in Ek. destruct (heap st !! pkey o) as [k'|] eqn:Hk; [|done]. injection Ek as ->. split; [done|]. split; [done|].
  split; [done|]. destruct (wf_objects _ Hr p o Hp) as [Hnull|(k' & Hk' & Ht & Hpk)].
  { rewrite Hnull, (wf_null _ Hr) in Hk. done. }
  rewrite Hk in Hk'. injection Hk' as <-. split; [|auto].
  destruct Ht as [Hu|[[Hu Hid]|[Hu Hid]]]; rewrite Hu in Htype; cbn [default] in Htype.
  - by apply Htype.
  - by rewrite Htype in Hne.
  - by rewrite <- Htype in Hne'.
Qed.

(** C19. In every state that calls of the module reach, the collector can run the finalizer of
    any object: it frees a key that is in memory, which no other object has, and the keys
    of all the other objects stay in memory. *)
Theorem keys_freed_once st p o :
  reachable st -> objects st !! p = Some o ->
  exists st', Lpkey_finalizer st [key_value p] = Done (st', []) /\
    (pkey o <> NULL -> heap st' = delete (pkey o) (heap st) /\ is_Some (heap st !! pkey o)) /\
    forall q o', q <> p -> objects st !! q = Some o' -> heap st' !! pkey o' = heap st !! pkey o'.
Proof.
  intros Hr%reachable_wf Hp. destruct (finalizer_spec st p o Hr Hp) as (st' & E & _ & _ & Hother).
  exists st'. split; [done|]. split; [|done]. intros Hn.
  destruct (wf_objects _ Hr p o Hp) as [?|(k & Hk & _)]; [done|]. rewrite Hk. split; [|done].
  unfold Lpkey_finalizer, pkey_from_arg in E. change (luaL_checkudata [key_value p] 1 PKEY_MT_TAG) with (Done p : outcome Z) in E.
  cbn [mbind outcome_bind] in E. rewrite Hp in E. cbn [Z.eqb mbind outcome_bind andb] in E.
  rewrite (proj2 (Z.eqb_neq _ _) Hn) in E. unfold deref in E. rewrite Hk in E. by injection E as <-.
Qed.

(** The key that generate_p256_keypair returns is refused by the ECDSA signature
    functions, for which the type of its object is wrong. *)
Theorem p256_key_refused st k st' res md rest :
  Lgenerate_p256_keypair true true (Some k) st = (st', res) ->
  base_evp_sign st' (res ++ rest) NID_X9_62_id_ecPublicKey md
  = Raise (type_error 1 NID_X9_62_prime256v1 NID_X9_62_id_ecPublicKey).
Proof.
  unfold Lgenerate_p256_keypair. cbn [negb]. destruct (new_key st k) as [st1 ptr] eqn:E. unfold push_pkey. cbv zeta.
  intros [= <- <-]. destruct nids_apart as ((_ & Hec & _) & (_ & Hecp & _) & (_ & Hpss & _) & Hp%Z.eqb_neq).
  unfold base_evp_sign, pkey_from_arg. change (luaL_checkudata _ 1 PKEY_MT_TAG) with (Done (fresh (dom (objects st1))) : outcome Z).
  cbn [mbind outcome_bind objects]. rewrite lookup_insert_eq, Hp. cbn [uv_type negb default id].
  unfold required_type. rewrite (proj2 (Z.eqb_neq NID_X9_62_id_ecPublicKey NID_rsassaPss)) by done.
  cbn [negb]. rewrite (proj2 (Z.eqb_neq NID_X9_62_id_ecPublicKey 0)) by done.
  by rewrite (proj2 (Z.eqb_neq NID_X9_62_prime256v1 NID_X9_62_id_ecPublicKey)).
Qed.

End states.

(** ** Witnesses *)

(** A library whose keys are a type and a flag for the private part; PEM texts are the two
    as bytes. *)
Definition toy_pem (b : bytes) : option (Z * bool) :=
  match b with [id; priv] => Some (id, negb (priv =? 0)) | _ => None end.

Definition toy_keys : Keys := {|
  LUAL_BUFFERSIZE := 1024;
  EVP_PKEY := Z * bool;
  EVP_PKEY_id := fst;
  OBJ_nid2sn id := None;
  NID_ED25519 := 1087; NID_X9_62_prime256v1 := 415; NID_X9_62_id_ecPublicKey := 408;
  NID_rsaEncryption := 6; NID_rsassaPss := 912;
  BIO_new_mem := true;
  BIO_write b n := take (Z.to_nat n) b;
  PEM_read_bio_PrivateKey b := k ← (toy_pem b : option (Z * bool)); if (k : Z * bool).2 then Some k else None;
  PEM_read_bio_PUBKEY := toy_pem;
  PEM_write_bio_PrivateKey k := Some [k.1; Z.b2z k.2];
  PEM_write_bio_PUBKEY k := Some [k.1; 0];
  EVP_PKEY_todata k := Some [("pub"%string, [k.1])];
  PARAM_BLD := unit; PARAMS := unit; DATA_CTX := unit;
  OSSL_PARAM_BLD_new := None;
  OSSL_PARAM_BLD_push_utf8_string _ _ _ := None;
  OSSL_PARAM_BLD_push_octet_string _ _ _ := None;
  OSSL_PARAM_BLD_to_param _ := None;
  EVP_PKEY_CTX_new_from_name _ := None;
  EVP_PKEY_fromdata_init _ := None;
  EVP_PKEY_fromdata _ _ := None;
  DERIVE_CTX := unit;
  EVP_PKEY_CTX_new _ := None;
  EVP_PKEY_derive_init _ := None;
  EVP_PKEY_derive_set_peer _ _ := None;
  EVP_PKEY_derive_size _ := None;
  BUF_MEM_grow_clean _ := false;
  EVP_PKEY_derive _ _ := None;
  MD_CTX := unit;
  EVP_MD_CTX_new := Some tt;
  EVP_DigestSignInit _ _ _ := (1, tt);
  EVP_DigestVerifyInit _ _ _ := (1, tt);
  EVP_PKEY_CTX_set_pss_padding ctx := ctx;
  EVP_DigestSign_size _ msg := (1, zlen msg);
  EVP_DigestSign _ _ msg := (1, msg);
  EVP_DigestVerify _ sig msg := if bool_decide (sig = msg) then 1 else 0;
|}.

#[export] Instance toy_key_laws : @KeyLaws toy_keys.
Proof.
  refine (@Build_KeyLaws toy_keys (fun k : Z * bool => k.2 = true) _ _).
  - by_decision.
  - intros b k. cbn. destruct (toy_pem b) as [[id []]|]; cbn; by intros [= <-].
Defined.

(** A generated key of each kind. *)
Definition sample_ed : (@keystore toy_keys * list value) :=
  @Lgenerate_ed25519_keypair toy_keys (Some (1087, true)) (@no_keys toy_keys).
Definition sample_p256 : (@keystore toy_keys * list value) :=
  @Lgenerate_p256_keypair toy_keys true true (Some (408, true)) sample_ed.1.

Lemma sample_reachable : @reachable lua_strict toy_keys toy_key_laws sample_ed.1.
Proof.
  apply rtc_once. eapply (@step_ed25519 lua_strict toy_keys toy_key_laws _ (Some (1087, true))); [|reflexivity].
  intros k [= <-]. by split.
Qed.

Lemma sign_key_typed_witness :
  @base_evp_sign lua_strict toy_keys sample_ed.1 (sample_ed.2 ++ [VStr [1; 2]]) 1087 None = Done [VStr [1; 2]] /\
  exists p o k, lua_arg (sample_ed.2 ++ [VStr [1; 2]]) 1 = Some (key_value p) /\ objects sample_ed.1 !! p = Some o /\
    heap sample_ed.1 !! pkey o = Some k /\ k.1 = 1087 /\ k.2 = true.
Proof.
  assert (@base_evp_sign lua_strict toy_keys sample_ed.1 (sample_ed.2 ++ [VStr [1; 2]]) 1087 None = Done [VStr [1; 2]]) as E
    by (vm_compute; reflexivity).
  split; [exact E|].
  apply (@sign_key_typed lua_strict toy_keys toy_key_laws sample_ed.1 "ed25519" (sample_ed.2 ++ [VStr [1; 2]]) 1087 None [VStr [1; 2]]);
    [exact sample_reachable|by left|exact E].
Defined.

Lemma keys_freed_once_witness :
  exists p o st', objects sample_ed.1 !! p = Some o /\
    @Lpkey_finalizer toy_keys sample_ed.1 [key_value p] = Done (st', []) /\
    (pkey o <> NULL -> heap st' = delete (pkey o) (heap sample_ed.1) /\ is_Some (heap sample_ed.1 !! pkey o)).
Proof.
  destruct (objects sample_ed.1 !! fresh (dom (@objects toy_keys no_keys))) as [o|] eqn:Eo.
  - destruct (@keys_freed_once lua_strict toy_keys toy_key_laws sample_ed.1 _ o sample_reachable Eo) as (st' & E & Hh & _).
    eexists _, o, st'. split; [exact Eo|]. split; [exact E|exact Hh].
  - exfalso. revert Eo. vm_compute. discriminate.
Defined.

Lemma p256_key_refused_witness :
  @base_evp_sign lua_strict toy_keys sample_p256.1 (sample_p256.2 ++ [VStr [1]]) 408 (Some EVP_sha256)
  = Raise (@type_error toy_keys 1 415 408).
Proof.
  apply (@p256_key_refused lua_strict toy_keys toy_key_laws sample_ed.1 (408, true) sample_p256.1 sample_p256.2).
  unfold sample_p256. destruct (Lgenerate_p256_keypair _ _ _ _). reflexivity.
Defined.
