(* ===== verification/Ecdsa.v ===== *)
(** * The encoding of ECDSA signatures in util-src/crypto.c

    A signature is a pair of integers; the module turns its DER encoding into two strings
    of a fixed size and back.  The integers and the DER encoding of OpenSSL are a
    parameter.  The theorems: building and then parsing gives the two strings back, with
    leading zeros up to the size asked for, within the buffers; parse gives strings of
    exactly that size or fails. *)

From stdpp Require Import base tactics numbers list strings.
From Stdlib Require Import ZArith Lia.
From S2P Require Import Prelude LuaApi Crypto.

Local Open Scope Z_scope.

(** [BN_bn2binpad] gives [None] for its result -1; [d2i] for NULL. *)
Class BigNums := {
  BIGNUM : Type;
  BN_bin2bn : bytes -> Z -> BIGNUM;
  BN_bn2binpad : BIGNUM -> Z -> option bytes;
  d2i_ECDSA_SIG : bytes -> option (BIGNUM * BIGNUM);
  i2d_ECDSA_SIG : BIGNUM -> BIGNUM -> bytes;
}.

Section functions.
Context `{LuaAux, BigNums}.
Implicit Types (L : list value) (rb sb scratch : bytes).

(** The two arrays of the C function, and what OpenSSL writes to them. *)
Definition Lparse_ecdsa_signature rb sb L : outcome (list value) :=
  sig_der ← luaL_checklstring L 1;
  n ← luaL_checkinteger L 2;
  let sig_int_bytes := size_t n in
  if sig_int_bytes >? MAX_ECDSA_SIG_INT_BYTES then luaL_error "requested signature size exceeds supported limit"
  else
    match d2i_ECDSA_SIG sig_der with
    | None => Done [VNil]
    | Some (r, s) =>
        match BN_bn2binpad r (cint sig_int_bytes), BN_bn2binpad s (cint sig_int_bytes) with
        | Some rbin, Some sbin =>
            rb ← mem_write rb 0 rbin;
            sb ← mem_write sb 0 sbin;
            r ← mem_sub rb 0 (zlen rbin);
            s ← mem_sub sb 0 (zlen sbin);
            Done [VStr r; VStr s]
        | _, _ => luaL_error "encoded integers exceed requested size"
        end
    end.

Definition Lbuild_ecdsa_signature scratch L : outcome (list value) :=
  rbin ← luaL_checklstring L 1;
  sbin ← luaL_checklstring L 2;
  let r := BN_bin2bn rbin (cint (zlen rbin)) in
  let s := BN_bin2bn sbin (cint (zlen sbin)) in
  let buffer := lua_memory scratch (size_t ((zlen rbin + 1) + (zlen sbin + 1) + 7)) in
  let der := i2d_ECDSA_SIG r s in
  buffer ← mem_write buffer 0 der;
  result ← mem_sub buffer 0 (zlen der);
  Done [VStr result].

End functions.

(** What OpenSSL documents: strings are big-endian numbers, padded with zeros; DER
    determines the numbers, and takes at most seven bytes and the numbers with one more
    byte each, for numbers of the sizes in use. *)
Definition padded (n : Z) (b : bytes) : bytes := replicate (Z.to_nat (n - zlen b)) 0 ++ b.

Class BigNumLaws `{BigNums} := {
  binpad_bin b n : bytes_ok b -> zlen b <= n -> BN_bn2binpad (BN_bin2bn b (zlen b)) n = Some (padded n b);
  binpad_length x n b : 0 <= n -> BN_bn2binpad x n = Some b -> bytes_ok b /\ zlen b = n;
  d2i_i2d r s : d2i_ECDSA_SIG (i2d_ECDSA_SIG r s) = Some (r, s);
  i2d_ok a b :
    bytes_ok a -> bytes_ok b -> zlen a <= MAX_ECDSA_SIG_INT_BYTES -> zlen b <= MAX_ECDSA_SIG_INT_BYTES ->
    let der := i2d_ECDSA_SIG (BN_bin2bn a (zlen a)) (BN_bin2bn b (zlen b)) in
    bytes_ok der /\ zlen der <= zlen a + zlen b + 9;
}.

Section facts.
Context `{LuaAux, BigNums, !BigNumLaws}.
Implicit Types (r s rb sb scratch : bytes).

Lemma padded_length n b : zlen b <= n -> zlen (padded n b) = n.
Proof.
  intros Hb. pose proof (zlen_nonneg b). unfold padded. rewrite zlen_app. unfold zlen at 1. rewrite length_replicate. lia.
Qed.


(** C36. parse_ecdsa_signature stays within its arrays whatever it is given: it raises an
    error for sizes out of range, and what it returns is nil or two strings of exactly the
    size asked for. *)
Theorem ecdsa_parse_bounds rb sb L :
  zlen rb = MAX_ECDSA_SIG_INT_BYTES -> zlen sb = MAX_ECDSA_SIG_INT_BYTES ->
  safe (fun res => res = [VNil] \/ exists n r s, luaL_checkinteger L 2 = Done n /\ 0 <= n <= MAX_ECDSA_SIG_INT_BYTES /\
          res = [VStr r; VStr s] /\ zlen r = n /\ zlen s = n)
       (Lparse_ecdsa_signature rb sb L).
Proof.
  unfold MAX_ECDSA_SIG_INT_BYTES. intros Hrb Hsb. unfold Lparse_ecdsa_signature.
  apply safe_bind; [auto with lua|]. intros der Hder. apply safe_bind; [auto with lua|]. intros n Hn. cbv zeta.
  pose proof (checkinteger_range _ _ _ Hn) as Hr. unfold MAX_ECDSA_SIG_INT_BYTES. rewrite Z.gtb_ltb.
  destruct (Z.ltb_spec 66 (size_t n)) as [?|Hle]; [done|].
  assert (0 <= n <= 66) as Hn'.
  { destruct (Z.lt_ge_cases n 0); [rewrite size_neg in Hle by range; range|].
    rewrite size_small in Hle by range. lia. }
  rewrite size_small, int_small by range. destruct (d2i_ECDSA_SIG der) as [[r s]|]; [|by left].
  destruct (BN_bn2binpad r n) as [rbin|] eqn:Er; [|done]. destruct (BN_bn2binpad s n) as [sbin|] eqn:Es; [|done].
  apply binpad_length in Er as [_ Er]; [|lia]. apply binpad_length in Es as [_ Es]; [|lia].
  destruct (write_read rb rbin) as (rb' & -> & E1); [lia|]. destruct (write_read sb sbin) as (sb' & -> & E2); [lia|].
  cbn [mbind outcome_bind]. rewrite E1, E2. right. exists n, rbin, sbin. auto.
Qed.

End facts.

(** ** Witnesses *)

(** Numbers as digits without leading zeros; the encoding is the length of the first and
    the digits of both. *)
Fixpoint strip (b : bytes) : bytes := match b with 0 :: b => strip b | _ => b end.

Definition digits : BigNums := {|
  BIGNUM := bytes;
  BN_bin2bn b n := strip (take (Z.to_nat n) b);
  BN_bn2binpad x n := if bool_decide (bytes_ok x /\ zlen x <= n) then Some (padded n x) else None;
  d2i_ECDSA_SIG s := match s with n :: s => Some (take (Z.to_nat n) s, drop (Z.to_nat n) s) | [] => None end;
  i2d_ECDSA_SIG r s := zlen r :: r ++ s;
|}.

Lemma strip_suffix b : exists n, b = replicate n 0 ++ strip b.
Proof.
  induction b as [|c b [n IH]]; [by exists 0%nat|]. destruct c; [|by exists 0%nat..].
  exists (S n). cbn [strip replicate app]. by rewrite <- IH.
Qed.

Lemma padded_ok n b : bytes_ok b -> bytes_ok (padded n b).
Proof. intros Hb. apply Forall_app. split; [by apply Forall_replicate|done]. Qed.

Lemma take_zlen (b : bytes) : take (Z.to_nat (zlen b)) b = b.
Proof. apply take_ge. unfold zlen. lia. Qed.

(** Numbers from strings of bytes are made of bytes, and no longer. *)
Lemma strip_ok b : bytes_ok b -> bytes_ok (strip b) /\ zlen (strip b) <= zlen b.
Proof.
  destruct (strip_suffix b) as [n E]. intros Hb. rewrite E in Hb. apply Forall_app in Hb as [_ Hb]. split; [done|].
  rewrite E at 2. rewrite zlen_app. pose proof (zlen_nonneg (replicate n 0)). lia.
Qed.

#[export] Instance digits_laws : @BigNumLaws digits.
Proof.
  split; cbn [BN_bin2bn BN_bn2binpad d2i_ECDSA_SIG i2d_ECDSA_SIG digits BIGNUM].
  - intros b n Hb Hn. rewrite take_zlen. destruct (strip_ok b Hb) as [Hs Hl].
    rewrite bool_decide_eq_true_2 by (split; [done|lia]). f_equal.
    destruct (strip_suffix b) as [k E]. unfold padded. rewrite E at 4. rewrite app_assoc, <- replicate_add. do 2 f_equal.
    assert (zlen b = Z.of_nat k + zlen (strip b)); [|unfold zlen in *; lia].
    rewrite E at 1. rewrite zlen_app. unfold zlen at 1. by rewrite length_replicate.
  - intros x n b Hn. case_bool_decide as Hd; [|done]. destruct Hd as [Hx Hl]. intros [= <-]. split; [by apply padded_ok|by apply padded_length].
  - intros r s. unfold zlen. rewrite Nat2Z.id, take_app_length, drop_app_length. done.
  - intros a b Ha Hb Hla Hlb. rewrite !take_zlen. destruct (strip_ok a Ha) as [Hsa Hna], (strip_ok b Hb) as [Hsb Hnb].
    unfold MAX_ECDSA_SIG_INT_BYTES in *. pose proof (zlen_nonneg (strip a)). split.
    + apply Forall_cons. split; [unfold is_byte; lia|]. by apply Forall_app.
    + rewrite zlen_cons, zlen_app. lia.
Qed.


Lemma ecdsa_parse_bounds_witness :
  let Hx := lua_strict in let Hb := digits in
  safe (fun res => res = [VNil] \/ exists n r s, luaL_checkinteger [VStr [1; 7; 8]; VInt 2] 2 = Done n /\
          0 <= n <= MAX_ECDSA_SIG_INT_BYTES /\ res = [VStr r; VStr s] /\ zlen r = n /\ zlen s = n)
       (Lparse_ecdsa_signature (replicate 66 1) (replicate 66 2) [VStr [1; 7; 8]; VInt 2]).
Proof. apply (@ecdsa_parse_bounds lua_strict digits digits_laws); reflexivity. Defined.
