(* ===== verification/Crand.v ===== *)
(** * util-src/crand.c

    The sources of random bytes are a parameter.  The loop around [getrandom] is modelled
    with its [int] counter.  The theorems: for lengths that an [int] holds, the result
    consists of that many bytes, all of them written by the source, after as many calls
    as the source needs, or the source's error is raised; for larger lengths it is not so. *)

From stdpp Require Import base tactics numbers list strings.
From Stdlib Require Import ZArith Lia.
From S2P Require Import Prelude LuaApi PollApi.

Local Open Scope Z_scope.

Definition SMALLBUFSIZ : Z := 32.

(** The source chosen when the module is compiled. *)
Inductive random_source := WITH_GETRANDOM | WITH_ARC4RANDOM | WITH_OPENSSL.

(** The answer of the [i]-th call of [getrandom] for a number of bytes: the bytes, or the
    error number; and the other two sources. *)
Class Entropy := {
  getrandom : nat -> Z -> bytes + Z;
  arc4random_buf : Z -> bytes;
  RAND_status : bool;
  RAND_bytes : Z -> option bytes;
}.

Section functions.
Context `{LuaAux, Posix, Entropy}.
Implicit Types (L : list value) (buf scratch : bytes).

(** [do { ... } while(left > 0)], at position [p] of the buffer. *)
Fixpoint getrandom_loop (fuel i : nat) buf (p left : Z) : outcome bytes :=
  match fuel with
  | O => Undef NoTermination
  | S fuel =>
      match getrandom i (size_t left) with
      | inr errno => Raise (ErrorObject (strerror errno))
      | inl r =>
          buf ← mem_write buf p r;
          let ret := zlen r in
          let left := left - ret in
          if negb (bool_decide (is_int left)) then Undef SignedOverflow
          else if left >? 0 then getrandom_loop fuel (S i) buf (p + ret) left
          else Done buf
      end
  end.

Definition fill_random (source : random_source) buf (len : Z) : outcome bytes :=
  match source with
  | WITH_GETRANDOM => getrandom_loop (S (Z.to_nat len)) 0 buf 0 (cint len)
  | WITH_ARC4RANDOM => mem_write buf 0 (arc4random_buf len)
  | WITH_OPENSSL =>
      if negb RAND_status then Raise (ErrorObject (string_bytes "OpenSSL PRNG not seeded"))
      else match RAND_bytes (cint len) with
           | Some r => mem_write buf 0 r
           | None => Raise (ErrorObject (string_bytes "RAND_bytes() failed"))
           end
  end.

Definition Lrandom (source : random_source) scratch L : outcome (list value) :=
  l ← luaL_checkinteger L 1;
  let len := size_t l in
  _ ← luaL_argcheck (l >=? 0) 1 "must be > 0";
  if len =? 0 then Done [literal ""]
  else
    let buf := lua_memory scratch (if len >? SMALLBUFSIZ then len else SMALLBUFSIZ) in
    buf ← fill_random source buf len;
    r ← mem_sub buf 0 len;
    Done [VStr r].

(** The name of the source in the module's table. *)
Definition crand_source (source : random_source) : value :=
  literal match source with
          | WITH_GETRANDOM => "Linux"
          | WITH_ARC4RANDOM => "arc4random()"
          | WITH_OPENSSL => "OpenSSL"
          end.

End functions.

(** ** The loop *)

(** What is documented of [getrandom]: it gives at least one byte and at most those it is
    asked for. *)
Class EntropyLaws `{Entropy} := {
  getrandom_some i n r : 0 < n -> getrandom i n = inl r -> 0 < zlen r <= n;
}.

(** The answers [rs] to the calls from [i] on for [n] bytes in all. *)
Fixpoint answers `{Entropy} (i : nat) (n : Z) (rs : list bytes) : Prop :=
  match rs with
  | [] => n = 0
  | r :: rs => getrandom i n = inl r /\ answers (S i) (n - zlen r) rs
  end.

Section facts.
Context `{LuaAux, Posix, Entropy, !EntropyLaws}.
Implicit Types (buf scratch : bytes).

(** The loop has the answers in the buffer after what was there, or raises the error of a
    call; each call brings at least one byte. *)
Lemma getrandom_loop_spec fuel : forall i l rest left,
  0 < left <= int_max -> left <= zlen rest -> left <= Z.of_nat fuel ->
  (exists rs, answers i left rs /\ zlen (concat rs) = left /\
     getrandom_loop fuel i (l ++ rest) (zlen l) left = Done (l ++ concat rs ++ drop (length (concat rs)) rest))
  \/ exists j n e, getrandom j n = inr e /\
     getrandom_loop fuel i (l ++ rest) (zlen l) left = Raise (ErrorObject (strerror e)).
Proof.
  induction fuel as [|fuel IH]; intros i l rest left Hl Hrest Hfuel; [lia|].
  cbn [getrandom_loop]. rewrite size_small by range.
  destruct (getrandom i left) as [r|e] eqn:E; [|right; by exists i, left, e].
  pose proof (getrandom_some i left r (proj1 Hl) E) as Hr. rewrite write_after by lia. cbn [mbind outcome_bind]. cbv zeta.
  rewrite bool_decide_eq_true_2 by range. cbn [negb]. rewrite Z.gtb_ltb. destruct (Z.ltb_spec 0 (left - zlen r)) as [Hmore|Hend].
  - rewrite <- zlen_app.
    assert (zlen (drop (length r) rest) = zlen rest - zlen r) as Hdrop by (unfold zlen in *; rewrite length_drop; lia).
    destruct (IH (S i) (l ++ r) (drop (length r) rest) (left - zlen r)) as [(rs & Ha & Hlen & ->)|Herr]; [lia..| |by right].
    left. exists (r :: rs). cbn [concat answers]. split; [done|]. split; [rewrite zlen_app; lia|].
    by rewrite drop_drop, length_app, <- !app_assoc.
  - left. exists [r]. cbn [concat answers]. rewrite app_nil_r, <- app_assoc. split; [|split; [lia|done]]. split; [done|]. lia.
Qed.

(** C26. With getrandom, a call for [l] bytes returns exactly [l] bytes, the concatenation of
    what the source gave in consecutive calls, or raises the error of one of those calls;
    the loop ends, and writes within its buffer. *)
Theorem random_all_from_source scratch l rest :
  0 <= l <= int_max ->
  (exists rs, answers 0 l rs /\ zlen (concat rs) = l /\
     Lrandom WITH_GETRANDOM scratch (VInt l :: rest) = Done [VStr (concat rs)])
  \/ exists j n e, getrandom j n = inr e /\
     Lrandom WITH_GETRANDOM scratch (VInt l :: rest) = Raise (ErrorObject (strerror e)).
Proof.
  intros Hl. unfold Lrandom. rewrite (checkinteger_int _ 1 l) by (done || range). cbn [mbind outcome_bind]. cbv zeta.
  rewrite size_small by range. rewrite Z.geb_leb, (proj2 (Z.leb_le 0 l)) by lia. cbn [luaL_argcheck mbind outcome_bind].
  destruct (Z.eqb_spec l 0) as [->|Hne]; [left; by exists []|].
  set (size := if l >? SMALLBUFSIZ then l else SMALLBUFSIZ).
  assert (l <= size) as Hsize by (unfold size, SMALLBUFSIZ; rewrite Z.gtb_ltb; destruct (Z.ltb_spec 32 l); lia).
  set (buf := lua_memory scratch size). assert (zlen buf = size) as Hbuf by (apply zlen_lua_memory; lia).
  unfold fill_random. rewrite int_small by range.
  destruct (getrandom_loop_spec (S (Z.to_nat l)) 0 [] buf l) as [(rs & Ha & Hlen & E)|(j & n & e & He & E)]; [lia..| |];
    cbn [app] in E; change (zlen (@nil Z)) with 0 in E; rewrite E; cbn [mbind outcome_bind].
  - left. exists rs. split; [done|]. split; [done|]. rewrite <- Hlen at 1. by rewrite read_written.
  - right. by exists j, n, e.
Qed.

(** Where the [int] counter of the loop is 0, such as for 2^32 bytes, nothing is asked of
    the source, and the result is what the memory held. *)
Lemma random_truncated scratch n rest :
  is_long n -> SMALLBUFSIZ < n -> cint n = 0 -> getrandom 0 0 = inl [] ->
  Lrandom WITH_GETRANDOM scratch (VInt n :: rest) = Done [VStr (lua_memory scratch n)].
Proof.
  intros Hlong Hbig Hint E. unfold SMALLBUFSIZ in Hbig. unfold Lrandom.
  rewrite (checkinteger_int _ 1 n) by done. cbn [mbind outcome_bind].
  rewrite size_small by range. rewrite Z.geb_leb, (proj2 (Z.leb_le 0 n)) by lia. cbn [luaL_argcheck mbind outcome_bind]. cbv zeta.
  rewrite (proj2 (Z.eqb_neq n 0)), Z.gtb_ltb, (proj2 (Z.ltb_lt SMALLBUFSIZ n)) by (unfold SMALLBUFSIZ; lia).
  assert (zlen (lua_memory scratch n) = n) as Hlen by (apply zlen_lua_memory; lia).
  unfold fill_random. rewrite Hint. cbn [getrandom_loop]. change (size_t 0) with 0. rewrite E.
  pose proof (write_after [] (lua_memory scratch n) []) as W. change (zlen (@nil Z)) with 0 in W |- *. cbn [app length] in W.
  rewrite W, drop_0 by lia. cbn [mbind outcome_bind]. change (0 - 0) with 0.
  rewrite bool_decide_eq_true_2 by range. cbn [negb Z.gtb Z.compare mbind outcome_bind].
  rewrite mem_sub_done by lia. cbn [mbind outcome_bind]. by rewrite slice_all by lia.
Qed.

Lemma random_4_GiB_truncated : is_long (2 ^ 32) /\ SMALLBUFSIZ < 2 ^ 32 /\ cint (2 ^ 32) = 0.
Proof. by_decision. Qed.

End facts.

(** ** Witness: a source that gives at most two bytes at a time *)

Definition pairs : Entropy := {|
  getrandom i n := inl (take (Z.to_nat (Z.min n 2)) [Z.of_nat i; 7]);
  arc4random_buf n := replicate (Z.to_nat n) 1;
  RAND_status := true;
  RAND_bytes n := Some (replicate (Z.to_nat n) 2);
|}.

#[export] Instance pairs_laws : @EntropyLaws pairs.
Proof.
  split. intros i n r Hn [= <-]. unfold zlen. rewrite length_take. cbn [length]. lia.
Qed.

Lemma random_all_from_source_witness :
  exists rs, @answers pairs 0 5 rs /\ zlen (concat rs) = 5 /\
    @Lrandom lua_strict linux_errors pairs WITH_GETRANDOM [] [VInt 5] = Done [VStr (concat rs)].
Proof.
  destruct (@random_all_from_source lua_strict linux_errors pairs pairs_laws [] 5 []) as [H|(j & n & e & E & _)].
  - unfold int_max. lia.
  - exact H.
  - discriminate E.
Defined.
