(* ===== verification/Clock.v ===== *)
(** * util-src/time.c and util-src/compat.c

    The clocks as doubles, and xpcall for interpreters whose own does not pass arguments,
    with the moves it makes on the stack.  [lua_pcall] is a parameter, which gets the
    function, the arguments and the message handler.  The theorem: the function is called
    with the arguments after the first two, under the handler, whatever their number. *)

From stdpp Require Import base tactics numbers list strings.
From Stdlib Require Import ZArith Lia SpecFloat.
From S2P Require Import Prelude LuaApi.

Local Open Scope Z_scope.

Record timespec := { tv_sec : Z; tv_nsec : Z }.

(** The double 1e-9. *)
Definition nano : spec_float := SFdiv 53 1024 (double_of_Z 1) (double_of_Z 1000000000).

Definition tv2number (tv : timespec) : spec_float :=
  SFadd 53 1024 (double_of_Z (tv_sec tv)) (SFmul 53 1024 (double_of_Z (tv_nsec tv)) nano).

(** [clock_gettime] of the two clocks; its result is not looked at. *)
Class Clocks := { CLOCK_REALTIME : timespec; CLOCK_MONOTONIC : timespec }.

Definition lc_time_realtime `{Clocks} (L : list value) : list value := [VNum (tv2number CLOCK_REALTIME)].
Definition lc_time_monotonic `{Clocks} (L : list value) : list value := [VNum (tv2number CLOCK_MONOTONIC)].

(** [lua_pcall] of a function with its arguments and the handler: [inl] the results, or the
    value that the handler made of an error. *)
Class Calls := { pcall : value -> list value -> value -> list value + value }.

Section xpcall.
Context `{Calls}.
Implicit Types (L stack : list value).

(** Slots count from 1. *)
Definition stack_get stack (i : Z) : outcome value := mem_get stack (i - 1).

Definition lua_pushvalue stack (i : Z) : outcome (list value) :=
  v ← stack_get stack i; Done (stack ++ [v]).

(** Move the top value into slot [i]. *)
Definition lua_replace stack (i : Z) : outcome (list value) :=
  match last stack with
  | Some v => mem_set (removelast stack) (i - 1) v
  | None => Undef OutOfBounds
  end.

(** [lua_pcall(L, nargs, LUA_MULTRET, msgh)]: the function and its arguments are replaced by
    the results, or by the message. *)
Definition lua_pcall stack (nargs msgh : Z) : outcome (Z * list value) :=
  h ← stack_get stack msgh;
  let base := zlen stack - nargs - 1 in
  f ← mem_get stack base;
  match pcall f (drop (Z.to_nat (base + 1)) stack) h with
  | inl results => Done (0, take (Z.to_nat base) stack ++ results)
  | inr msg => Done (2, take (Z.to_nat base) stack ++ [msg])
  end.

Definition lc_xpcall L : outcome (list value) :=
  let n_arg := lua_gettop L in
  _ ← luaL_argcheck (n_arg >=? 2) 2 "value expected";
  s ← lua_pushvalue L 1;
  s ← lua_pushvalue s 2;
  s ← lua_replace s 1;
  s ← lua_replace s 2;
  '(ret, s) ← lua_pcall s (n_arg - 2) 1;
  lua_replace (s ++ [VBool (ret =? 0)]) 1.

(** xpcall(f, handler, ...) calls f with the remaining arguments under the handler, and
    returns true and the results, or false and what the handler made of the error. *)
Theorem xpcall_calls f msgh args :
  lc_xpcall (f :: msgh :: args)
  = Done match pcall f args msgh with
         | inl results => VBool true :: results
         | inr msg => [VBool false; msg]
         end.
Proof.
  unfold lc_xpcall, lua_gettop. rewrite !zlen_cons. pose proof (zlen_nonneg args).
  rewrite Z.geb_leb, (proj2 (Z.leb_le 2 _)) by lia. cbn [luaL_argcheck mbind outcome_bind].
  unfold lua_pushvalue, stack_get. rewrite (mem_get_done _ _ f) by done. cbn [mbind outcome_bind].
  rewrite (mem_get_done _ _ msgh) by done. cbn [mbind outcome_bind].
  unfold lua_replace. rewrite last_snoc, removelast_last, mem_set_done by (unfold zlen; cbn [length app]; lia).
  change (Z.to_nat (1 - 1)) with 0%nat. cbn [mbind outcome_bind app insert list_insert].
  change (msgh :: msgh :: args ++ [f]) with ((msgh :: msgh :: args) ++ [f]).
  rewrite last_snoc, removelast_last, mem_set_done by (unfold zlen; cbn [length]; lia).
  change (Z.to_nat (2 - 1)) with 1%nat. cbn [mbind outcome_bind insert list_insert].
  unfold lua_pcall, stack_get. rewrite (mem_get_done (msgh :: f :: args) (1 - 1) msgh) by done. cbn [mbind outcome_bind]. cbv zeta.
  replace (zlen (msgh :: f :: args) - (zlen args + 1 + 1 - 2) - 1) with 1 by (rewrite !zlen_cons; lia).
  rewrite (mem_get_done _ 1 f) by done. cbn [mbind outcome_bind]. change (Z.to_nat (1 + 1)) with 2%nat. cbn [drop].
  change (skipn 0 args) with args. change (Z.to_nat 1) with 1%nat. cbn [take].
  destruct (pcall f args msgh) as [results|msg]; cbn [mbind outcome_bind]; rewrite last_snoc, removelast_last.
  - by rewrite mem_set_done by (unfold zlen; cbn [length app]; lia).
  - by rewrite mem_set_done by (unfold zlen; cbn [length app]; lia).
Qed.

End xpcall.
