(* ===== verification/Process.v ===== *)
(** * util-src/pposix.c: daemonize, file handles and system information

    [fork] returns in one or two processes: daemonize is modelled by what each process it
    leads to does.  File handles are userdata that hold a stream until they are closed.
    The results of the other system calls are arguments.  The theorems: which processes
    daemonize leaves; a stream is closed once, whatever is called on its handle; the
    tables of uname and meminfo hold the fields that the system gives. *)

From stdpp Require Import base tactics numbers list strings gmap.
From Stdlib Require Import ZArith Lia.
From S2P Require Import Prelude LuaApi PollApi Table Append.

Local Open Scope Z_scope.

(** ** daemonize *)

Inductive process :=
  | Returns (results : list value)
  | Exits (status : Z)
  | Aborts.

(** [abort] does not return. *)
Definition lc_abort : process := Aborts.

(** The values that [fork] returns, in the parent and in the child; [None] if it fails. *)
Definition fork_results (child : option Z) : list Z :=
  match child with Some pid => [pid; 0] | None => [-1] end.

Definition lc_daemonize (getppid : Z) (fork1 : option Z) (setsid : Z) (fork2 : option Z) : list process :=
  if getppid =? 1 then [Returns [VBool false; literal "already-daemonized"]]
  else
    pid ← fork_results fork1;
    if pid <? 0 then [Returns [VBool false; literal "fork-failed"]]
    else if negb (pid =? 0) then [Returns [VBool true; VInt pid]]
    else if setsid =? -1 then [Returns [VBool false; literal "setsid-failed"]]
    else
      pid ← fork_results fork2;
      if negb (pid =? 0) then [Exits 0] else [Returns [VBool true; VNil]].

(** A process that goes on as the daemon. *)
#[export] Instance process_eq_dec : EqDecision process.
Proof. solve_decision. Defined.

(** The processes that go on as the daemon. *)
Definition daemons (ps : list process) : list process :=
  filter (fun p => p = Returns [VBool true; VNil]) ps.

(** ** File handles *)

(** A handle holds a stream, or NULL once it is closed; [open] are the streams of the C
    library, which reports each [fclose] with its result and error number. *)
Record files := FS { handles : gmap Z (option Z); open : gset Z }.

Section streams.
Context `{LuaAux, Posix}.
Implicit Types (L : list value) (st : files).

(** [luaL_fileresult] without a file name. *)
Definition luaL_fileresult (stat : bool) (errno : Z) : list value :=
  if stat then [VBool true] else sys_fail errno.

(** The stream that [fdopen] makes, or its error number. *)
Definition lc_fdopen (fdopen : Z -> bytes -> Z + Z) st L : outcome (files * list value) :=
  fd ← luaL_checkinteger L 1;
  mode ← luaL_checkstring L 2;
  match fdopen (cint fd) mode with
  | inr errno => Done (st, [pushfail; VStr (strerror errno)])
  | inl f =>
      let p := fresh (dom (handles st)) in
      Done (FS (<[p := Some f]> (handles st)) ({[f]} ∪ open st), [VUserdata LUA_FILEHANDLE p])
  end.

(** [fclose] of a stream that is not open is undefined. *)
Definition stdio_fclose (fclose : Z * Z) st L : outcome (files * list value) :=
  p ← luaL_checkudata L 1 LUA_FILEHANDLE;
  match handles st !! p with
  | None => Undef OutOfBounds
  | Some None => Done (st, [])
  | Some (Some f) =>
      if bool_decide (f ∈ open st) then
        let '(res, errno) := fclose in
        Done (FS (<[p := None]> (handles st)) (open st ∖ {[f]}), luaL_fileresult (res =? 0) errno)
      else Undef OutOfBounds
  end.

Definition lc_isatty (isatty : Z -> Z) (fileno : Z -> Z) st L : outcome (list value) :=
  p ← luaL_checkudata L 1 LUA_FILEHANDLE;
  match handles st !! p with
  | Some (Some f) => Done [VBool (negb (isatty (fileno f) =? 0))]
  | _ => Undef OutOfBounds
  end.

(** ** Numbers of the process *)

Definition lc_getpid (getpid : Z) : list value := [VInt getpid].
Definition lc_getuid (getuid : Z) : list value := [VInt getuid].
Definition lc_getgid (getgid : Z) : list value := [VInt getgid].

(** ** Information in tables *)

Record utsname := {
  sysname : bytes; nodename : bytes; release : bytes; version : bytes; machine : bytes; domainname : bytes;
}.

(** Push a value and set a field, for each of the fields. *)
Fixpoint set_fields (h : store) (t : Z) (fields : list (string * value)) : outcome store :=
  match fields with
  | [] => Done h
  | (k, v) :: fields => h ← lua_setfield h t k v; set_fields h t fields
  end.

Definition uname_fields (use_gnu : bool) (u : utsname) : list (string * value) :=
  [("sysname", VStr (sysname u)); ("nodename", VStr (nodename u)); ("release", VStr (release u));
   ("version", VStr (version u)); ("machine", VStr (machine u))]%string
  ++ (if use_gnu then [("domainname"%string, VStr (domainname u))] else []).

Definition lc_uname (use_gnu : bool) (uname : utsname + Z) (h : store) : outcome (store * list value) :=
  match uname with
  | inr errno => Done (h, [pushfail; VStr (strerror errno)])
  | inl u =>
      let '(h, t) := lua_createtable h 0 6 in
      h ← set_fields h t (uname_fields use_gnu u);
      Done (h, [VTable t])
  end.

(** With mallinfo2; [lua_pushinteger] of a [size_t]. *)
Record mallinfo2 := { arena : Z; hblkhd : Z; uordblks : Z; fordblks : Z; keepcost : Z }.

Definition meminfo_fields (info : mallinfo2) : list (string * value) :=
  [("allocated", VInt (long (arena info))); ("allocated_mmap", VInt (long (hblkhd info)));
   ("used", VInt (long (uordblks info))); ("unused", VInt (long (fordblks info)));
   ("returnable", VInt (long (keepcost info)))]%string.

Definition lc_meminfo (info : mallinfo2) (h : store) : outcome (store * list value) :=
  let '(h, t) := lua_createtable h 0 5 in
  h ← set_fields h t (meminfo_fields info);
  Done (h, [VTable t]).

End streams.

(** ** The properties *)

(** Of the processes that a call of daemonize leads to, exactly one goes on as the
    daemon when the process was not started by init, both forks succeed and so does
    setsid, and none otherwise. *)
Theorem daemonize_one_daemon getppid fork1 setsid fork2 :
  (forall pid, fork1 = Some pid -> 0 < pid) -> (forall pid, fork2 = Some pid -> 0 < pid) ->
  daemons (lc_daemonize getppid fork1 setsid fork2)
  = if bool_decide (getppid <> 1 /\ is_Some fork1 /\ setsid <> -1 /\ is_Some fork2)
    then [Returns [VBool true; VNil]] else [].
Proof.
  intros H1 H2. unfold lc_daemonize.
  destruct (Z.eqb_spec getppid 1) as [->|Hp]; [by rewrite bool_decide_eq_false_2 by tauto|].
  destruct fork1 as [pid1|]; [specialize (H1 pid1 eq_refl)|by rewrite bool_decide_eq_false_2 by (intros (_ & [? [=]] & _))].
  cbn [fork_results mbind list_bind]. destruct (Z.ltb_spec pid1 0); [lia|]. destruct (Z.eqb_spec pid1 0); [lia|].
  cbn [negb Z.ltb Z.eqb Z.compare app]. destruct (Z.eqb_spec setsid (-1)) as [->|Hs].
  { rewrite bool_decide_eq_false_2 by (intros (_ & _ & ? & _); done). reflexivity. }
  destruct fork2 as [pid2|]; [specialize (H2 pid2 eq_refl)|by rewrite bool_decide_eq_false_2 by (intros (_ & _ & _ & [? [=]]))].
  cbn [fork_results mbind list_bind]. destruct (Z.eqb_spec pid2 0); [lia|]. cbn [negb Z.eqb app].
  rewrite bool_decide_eq_true_2 by (repeat split; done || by eexists). reflexivity.
Qed.

(** A second fork that fails ends the child: the caller is told of success, and there is no
    daemon. *)
Lemma daemonize_second_fork_fails getppid pid setsid :
  getppid <> 1 -> 0 < pid -> setsid <> -1 ->
  lc_daemonize getppid (Some pid) setsid None = [Returns [VBool true; VInt pid]; Exits 0].
Proof.
  intros Hp Hpid Hs. unfold lc_daemonize. rewrite (proj2 (Z.eqb_neq _ _) Hp). cbn [fork_results mbind list_bind].
  destruct (Z.ltb_spec pid 0); [lia|]. destruct (Z.eqb_spec pid 0); [lia|]. cbn [negb Z.ltb Z.eqb Z.compare app].
  by rewrite (proj2 (Z.eqb_neq _ _) Hs).
Qed.

(** The fields of a new table. *)
Lemma set_fields_spec t fields : forall h,
  is_Some (h !! t) -> NoDup fields.*1 ->
  exists h', set_fields h t fields = Done h' /\
    forall id k, raw_get h' id k =
      match k with
      | inr s => if decide (id = t /\ s ∈ fields.*1)
                 then default VNil ((list_to_map fields : gmap string value) !! s) else raw_get h id k
      | inl _ => raw_get h id k
      end.
Proof.
  induction fields as [|[k v] fields IH]; intros h Ht Hnd.
  { exists h. split; [done|]. intros id [j|s]; [done|]. rewrite decide_False; [done|]. intros [_ ?%elem_of_nil]. done. }
  cbn [set_fields]. apply NoDup_cons in Hnd as [Hk Hnd].
  destruct (raw_set_done h t (inr k) v Ht) as (h1 & E & Ht1 & _ & H1). unfold lua_setfield. rewrite E. cbn [mbind outcome_bind].
  destruct (IH h1 Ht1 Hnd) as (h2 & -> & H2). exists h2. split; [done|]. intros id [j|s]; rewrite H2, H1.
  { by rewrite decide_False by (intros [_ [=]]). }
  cbn [fmap list_fmap fst list_to_map foldr snd uncurry]. fold (fields.*1).
  destruct (decide (id = t)) as [->|Hid].
  2: { rewrite !(decide_False (P := id = t /\ _)) by tauto. done. }
  destruct (decide (s = k)) as [->|Hs].
  - rewrite (decide_False (P := t = t /\ k ∈ fields.*1)) by tauto. rewrite !(decide_True (P := _ /\ _)) by (split; [done|]; by left || done).
    by rewrite lookup_insert_eq.
  - rewrite lookup_insert_ne by done.
    rewrite (decide_False (P := t = t /\ (inr s : Z + string) = inr k)) by (intros [_ [=]]; done).
    apply decide_ext. rewrite elem_of_cons. intuition.
Qed.

(** ** Streams *)

Section close.
Context `{LuaAux, Posix}.
Implicit Types (st : files).

(** A handle of the program, and calls on handles. *)
Inductive file_op :=
  | Fdopen (fd : Z) (mode : bytes) (res : Z + Z)
  | Fclose (p : Z) (res : Z * Z).

Definition file_exec (o : file_op) st : outcome (files * list value) :=
  match o with
  | Fdopen fd mode res => lc_fdopen (fun _ _ => res) st [VInt fd; VStr mode]
  | Fclose p res => stdio_fclose res st [VUserdata LUA_FILEHANDLE p]
  end.

Fixpoint file_run (ops : list file_op) st : outcome files :=
  match ops with
  | [] => Done st
  | o :: ops => '(st, _) ← file_exec o st; file_run ops st
  end.

(** [fdopen] makes streams that are not open yet, and the program has only handles that
    were returned to it. *)
Fixpoint file_ops_ok (ops : list file_op) st : Prop :=
  match ops with
  | [] => True
  | o :: ops =>
      match o with
      | Fdopen fd mode res =>
          is_integer fd /\ lua_string mode /\ (forall f, res = inl f -> f ∉ open st)
      | Fclose p _ => p ∈ dom (handles st)
      end /\ (forall st' r, file_exec o st = Done (st', r) -> file_ops_ok ops st')
  end.

(** The handles that are not closed hold different open streams, and these are all. *)
Record files_ok st : Prop := {
  handles_open p f : handles st !! p = Some (Some f) -> f ∈ open st;
  handles_apart p q f : handles st !! p = Some (Some f) -> handles st !! q = Some (Some f) -> p = q;
  open_held f : f ∈ open st -> exists p, handles st !! p = Some (Some f);
}.

Lemma fdopen_ok st p f :
  files_ok st -> p ∉ dom (handles st) -> f ∉ open st ->
  files_ok (FS (<[p := Some f]> (handles st)) ({[f]} ∪ open st)).
Proof.
  intros [Ho Ha Hh] Hp Hf. apply not_elem_of_dom in Hp. split; cbn [handles open].
  - intros q g. rewrite lookup_insert_Some, elem_of_union, elem_of_singleton. intros [[_ [= ->]]|[_ Hq]]; [by left|].
    right. by apply (Ho q).
  - intros q r g. rewrite !lookup_insert_Some. intros [[<- [= <-]]|[_ Hq]] [[<- E]|[_ Hr]]; try done.
    + by apply Ho in Hr.
    + injection E as <-. by apply Ho in Hq.
    + by apply (Ha q r g).
  - intros g. rewrite elem_of_union, elem_of_singleton. intros [->|Hg]; [exists p; by rewrite lookup_insert_eq|].
    destruct (Hh g Hg) as [q Hq]. exists q. rewrite lookup_insert_ne; [done|]. intros ->. congruence.
Qed.

Lemma fclose_ok st p f :
  files_ok st -> handles st !! p = Some (Some f) ->
  files_ok (FS (<[p := None]> (handles st)) (open st ∖ {[f]})).
Proof.
  intros [Ho Ha Hh] Hp. split; cbn [handles open].
  - intros q g. rewrite lookup_insert_Some, elem_of_difference, elem_of_singleton. intros [[_ [=]]|[Hne Hq]].
    split; [by apply (Ho q)|]. intros ->. apply Hne. by apply (Ha p q f).
  - intros q r g. rewrite !lookup_insert_Some. intros [[_ [=]]|[_ Hq]] [[_ [=]]|[_ Hr]]. by apply (Ha q r g).
  - intros g. rewrite elem_of_difference, elem_of_singleton. intros [Hg Hne]. destruct (Hh g Hg) as [q Hq].
    exists q. rewrite lookup_insert_ne; [done|]. intros ->. congruence.
Qed.

(** C39. Whatever sequence of fdopen and close is called on the handles that were returned, a
    stream is never closed twice: fclose only gets streams that are open, and at the end
    the open streams are exactly those of the handles that were not closed. *)
Theorem streams_closed_once ops st :
  files_ok st -> file_ops_ok ops st ->
  exists st', file_run ops st = Done st' /\ files_ok st'.
Proof.
  revert st. induction ops as [|o ops IH]; intros st Hst Hops; [by exists st|].
  destruct Hops as [Ho Hops]. cbn [file_run].
  assert (exists st' r, file_exec o st = Done (st', r) /\ files_ok st') as (st' & r & E & Hst').
  { destruct o as [fd mode res|p res]; cbn [file_exec].
    - destruct Ho as (Hfd & Hmode & Hres). unfold lc_fdopen, luaL_checkstring.
      rewrite (checkinteger_int _ 1 fd), (checklstring_str _ 2 mode) by done. cbn [mbind outcome_bind fmap outcome_fmap].
      destruct res as [f|errno]; [|by eexists _, _]. eexists _, _. split; [done|].
      apply fdopen_ok; [done|apply is_fresh|by apply Hres].
    - unfold stdio_fclose. change (luaL_checkudata _ 1 LUA_FILEHANDLE) with (Done p : outcome Z). cbn [mbind outcome_bind].
      apply elem_of_dom in Ho as [[f|] Hp]; rewrite Hp; [|by eexists _, _].
      rewrite bool_decide_eq_true_2 by by apply (handles_open st Hst p). destruct res as [res errno].
      eexists _, _. split; [done|]. by apply fclose_ok. }
  rewrite E. cbn [mbind outcome_bind]. apply IH; [done|]. by apply (Hops st' r).
Qed.

End close.

(** uname returns a new table with the fields the system gives, and changes no other. *)
Lemma uname_reports `{Posix} use_gnu u h :
  exists h' t, lc_uname use_gnu (inl u) h = Done (h', [VTable t]) /\ h !! t = None /\
    (forall k v, (k, v) ∈ uname_fields use_gnu u -> raw_get h' t (inr k) = v) /\
    (forall id k, id <> t -> raw_get h' id k = raw_get h id k).
Proof.
  unfold lc_uname. destruct (lua_createtable h 0 6) as [h0 t] eqn:E.
  destruct (createtable_new _ _ _ _ _ E) as (Hnew & Ht & Hraw0).
  assert (NoDup (uname_fields use_gnu u).*1) as Hnd by (destruct use_gnu; by_decision).
  destruct (set_fields_spec t (uname_fields use_gnu u) h0 Ht Hnd) as (h' & -> & Hraw).
  cbn [mbind outcome_bind]. exists h', t. split; [done|]. split; [done|]. split.
  - intros k v Hkv. rewrite Hraw, decide_True.
    + by rewrite (elem_of_list_to_map_1 _ _ _ Hnd Hkv).
    + split; [done|]. by apply (list_elem_of_fmap_2 fst _ (k, v)).
  - intros id k Hid. rewrite Hraw, Hraw0. destruct k; rewrite ?decide_False by tauto; done.
Qed.

(** ** Witnesses *)

Lemma daemonize_one_daemon_witness :
  daemons (lc_daemonize 500 (Some 501) 501 (Some 502)) = [Returns [VBool true; VNil]].
Proof.
  rewrite (daemonize_one_daemon 500 (Some 501) 501 (Some 502)).
  - reflexivity.
  - intros pid [= <-]. lia.
  - intros pid [= <-]. lia.
Defined.

Definition no_files : files := FS ∅ ∅.

Lemma no_files_ok : files_ok no_files.
Proof.
  split; cbn [no_files handles open].
  - intros p f. by rewrite lookup_empty.
  - intros p q f. by rewrite lookup_empty.
  - intros f. by intros ?%elem_of_empty.
Qed.

Lemma streams_closed_once_witness :
  let Hx := lua_strict in let Hp := linux_errors in
  exists st', file_run [Fdopen 3 [114] (inl 77); Fclose (fresh (dom (handles no_files))) (0, 0);
                        Fclose (fresh (dom (handles no_files))) (0, 0)] no_files = Done st' /\ files_ok st'.
Proof.
  cbv zeta. apply (@streams_closed_once lua_strict linux_errors).
  - exact no_files_ok.
  - split; [split; [by_decision|split; [by_decision|intros f _; apply not_elem_of_empty]]|].
    intros st1 r1 [= <- <-]. split; [apply elem_of_dom; cbn [handles]; rewrite lookup_insert_eq; by eexists|].
    intros st2 r2 E2. split; [|intros; exact I].
    apply elem_of_dom. cbn [file_exec] in E2. unfold stdio_fclose in E2.
    change (luaL_checkudata _ 1 LUA_FILEHANDLE) with (Done (fresh (dom (handles no_files))) : outcome Z) in E2.
    cbn [mbind outcome_bind handles] in E2. rewrite lookup_insert_eq in E2.
    rewrite bool_decide_eq_true_2 in E2 by by apply elem_of_union_l, elem_of_singleton.
    injection E2 as <- _.
    cbn [handles]. rewrite lookup_insert_eq. by eexists.
Defined.
