(* ===== verification/LuaState.v ===== *)
(** * The Lua state that the functions luaopen_* work on

    The tables of the program (a store, as in Table, with the registry among them), the
    stack of the running C function with the number of slots it has, and the part of the
    API that builds tables.  The operations are a monad; [fills] is the specification of a
    sequence of them that sets fields of the table on top of the stack, with a lemma per
    operation and one for composition. *)

From stdpp Require Import base tactics numbers list strings gmap.
From Stdlib Require Import ZArith Lia SpecFloat.
From S2P Require Import Prelude LuaApi Table.

Local Open Scope Z_scope.

(** The stack has its top first; [limit] slots exist, counted from the bottom. *)
Record lua_state := LuaState { heap : store; stack : list value; limit : Z }.

(** The slots that a C function can count on. *)
Definition LUA_MINSTACK : Z := 20.

(** The pseudo-index of the registry, and the table it designates. *)
Definition LUA_REGISTRYINDEX : Z := -1001000.
Definition registry : Z := 0.

(** The address of a static C function: functions of a file differ from each other and
    from those of other files. *)
Class CFunctions := {
  c_function : string -> string -> Z;
  c_function_inj f s f' s' : c_function f s = c_function f' s' -> f = f' /\ s = s';
}.

#[export] Program Instance c_functions_encoded : CFunctions :=
  {| c_function f s := Z.pos (encode (f, s)) |}.
Next Obligation. intros f s f' s' E. injection E as E%(inj encode). by simplify_eq. Qed.

(** ** Operations *)

Definition lua (A : Type) : Type := lua_state -> outcome (A * lua_state).

#[export] Instance lua_ret : MRet lua := fun A a st => Done (a, st).
#[export] Instance lua_bind : MBind lua := fun A B f m st => '(a, st) ← m st; f a st.

Definition with_heap (h : store) (st : lua_state) : lua_state := LuaState h (stack st) (limit st).
Definition with_stack (s : list value) (st : lua_state) : lua_state := LuaState (heap st) s (limit st).

(** The value at a negative index, or at that of the registry. *)
Definition index2value (st : lua_state) (i : Z) : option value :=
  if i =? LUA_REGISTRYINDEX then Some (VTable registry)
  else if i <? 0 then stack st !! Z.to_nat (- i - 1) else None.

(** A value is pushed into a slot that exists. *)
Definition push (v : value) : lua unit := fun st =>
  if zlen (stack st) <? limit st then Done (tt, with_stack (v :: stack st) st) else Undef OutOfBounds.

Definition lua_pop (n : Z) : lua unit := fun st =>
  if n <=? zlen (stack st) then Done (tt, with_stack (drop (Z.to_nat n) (stack st)) st) else Undef OutOfBounds.

Definition lua_pushnil : lua unit := push VNil.
Definition lua_pushinteger (n : Z) : lua unit := push (VInt n).
Definition lua_pushstring (s : string) : lua unit := push (literal s).
Definition lua_pushliteral (s : string) : lua unit := push (literal s).
Definition lua_pushcfunction `{CFunctions} (file symbol : string) : lua unit := push (VFun (c_function file symbol)).

Definition lua_pushvalue (i : Z) : lua unit := fun st =>
  match index2value st i with Some v => push v st | None => Undef OutOfBounds end.

Definition lua_createtable (narr nrec : Z) : lua unit := fun st =>
  let '(h, t) := Table.lua_createtable (heap st) narr nrec in push (VTable t) (with_heap h st).
Definition lua_newtable : lua unit := lua_createtable 0 0.

(** Assign the value on top, and pop it; [what] has been popped already.  Only tables are
    assigned to (they have no metatables); other values raise. *)
Definition settable (t : value) (k : Z + string) (v : value) (s : list value) : lua unit := fun st =>
  match t with
  | VTable t => h ← raw_set (heap st) t k v; Done (tt, with_stack s (with_heap h st))
  | _ => Raise (LuaError "attempt to index a value that is no table")
  end.

Definition lua_setfield (i : Z) (k : string) : lua unit := fun st =>
  match index2value st i, stack st with
  | Some t, v :: s => settable t (inr k) v s st
  | _, _ => Undef OutOfBounds
  end.

(** The key a string or an integer designates; [byte_string] is the string of its bytes. *)
Definition byte_string (s : bytes) : string :=
  String.string_of_list_ascii ((fun c => Ascii.ascii_of_N (Z.to_N c)) <$> s).
Definition value_key (v : value) : option (Z + string) :=
  match v with
  | VInt n => Some (inl n)
  | VStr s => Some (inr (byte_string s))
  | _ => None
  end.

(** [lua_settable]: the key is below the value.  A nil key raises; the store has no keys of
    other types, and the code gives none. *)
Definition lua_settable (i : Z) : lua unit := fun st =>
  match index2value st i, stack st with
  | Some t, v :: k :: s =>
      match value_key k with
      | Some key => settable t key v s st
      | None => Raise (LuaError "index is nil")
      end
  | _, _ => Undef OutOfBounds
  end.

(** [luaL_getmetatable]: a field of the registry. *)
Definition luaL_getmetatable (tname : string) : lua value := fun st =>
  let v := raw_get (heap st) registry (inr tname) in '(_, st) ← push v st; Done (v, st).

Definition luaL_newmetatable (tname : string) : lua bool :=
  v ← luaL_getmetatable tname;
  if bool_decide (v = VNil) then
    lua_pop 1;; lua_createtable 0 2;;
    lua_pushstring tname;; lua_setfield (-2) "__name";;
    lua_pushvalue (-1);; lua_setfield LUA_REGISTRYINDEX tname;;
    mret true
  else mret false.

(** [luaL_setfuncs] without upvalues: a table of names and functions. *)
Fixpoint luaL_setfuncs `{CFunctions} (file : string) (l : list (string * string)) : lua unit :=
  match l with
  | [] => mret tt
  | (name, symbol) :: l => lua_pushcfunction file symbol;; lua_setfield (-2) name;; luaL_setfuncs file l
  end.

(** [luaL_checkversion]: the library is that of the interpreter. *)
Definition luaL_checkversion : lua unit := mret tt.

(** [luaL_newlib] *)
Definition luaL_newlib `{CFunctions} (file : string) (l : list (string * string)) : lua unit :=
  luaL_checkversion;; lua_createtable 0 (zlen l);; luaL_setfuncs file l.

(** ** Lemmas *)

Lemma bind_done {A B} (m : lua A) (f : A -> lua B) st a st' :
  m st = Done (a, st') -> (m ≫= f) st = f a st'.
Proof. intros E. unfold mbind, lua_bind. by rewrite E. Qed.

Lemma checkversion_bind {B} (k : lua B) st : (luaL_checkversion;; k) st = k st.
Proof. done. Qed.

Lemma bind_assoc {A B C} (m : lua A) (f : A -> lua B) (g : B -> lua C) st :
  ((m ≫= f) ≫= g) st = (m ≫= fun a => f a ≫= g) st.
Proof. unfold mbind, lua_bind, outcome_bind. by destruct (m st) as [[]| |]. Qed.

Lemma byte_string_literal s : byte_string (string_bytes s) = s.
Proof.
  unfold byte_string, string_bytes. induction s as [|a s IH]; [done|]. cbn. f_equal; [|done].
  by rewrite N2Z.id, Ascii.ascii_N_embedding.
Qed.

Lemma raw_get_insert h t tb k : raw_get (<[t := tb]> h) t k = default VNil (tb !! k).
Proof. unfold raw_get. by rewrite lookup_insert_eq. Qed.

Lemma raw_get_insert_ne h t t' tb k : t <> t' -> raw_get (<[t := tb]> h) t' k = raw_get h t' k.
Proof. intros. unfold raw_get. by rewrite lookup_insert_ne. Qed.

Lemma lookup_raw_get h t tb k : h !! t = Some tb -> raw_get h t k = default VNil (tb !! k).
Proof. intros E. unfold raw_get. by rewrite E. Qed.

Lemma raw_set_value h t tb k v :
  h !! t = Some tb -> v <> VNil -> raw_set h t k v = Done (<[t := <[k := v]> tb]> h).
Proof. intros E Hv. unfold raw_set. rewrite E. by rewrite decide_False. Qed.

Lemma settable_done h s s' lim t tb k v :
  h !! t = Some tb -> v <> VNil ->
  settable (VTable t) k v s (LuaState h s' lim) = Done (tt, LuaState (<[t := <[k := v]> tb]> h) s lim).
Proof. intros E Hv. unfold settable. cbn [heap]. by rewrite (raw_set_value h t tb). Qed.

Lemma value_key_literal k : value_key (literal k) = Some (inr k).
Proof. unfold value_key, literal. by rewrite byte_string_literal. Qed.

Lemma settable_string i h v k s lim t tb :
  index2value (LuaState h (v :: literal k :: s) lim) i = Some (VTable t) -> h !! t = Some tb -> v <> VNil ->
  lua_settable i (LuaState h (v :: literal k :: s) lim) = Done (tt, LuaState (<[t := <[inr k := v]> tb]> h) s lim).
Proof.
  intros Ei Ht Hv. unfold lua_settable. rewrite Ei. cbn [stack]. rewrite value_key_literal.
  by apply (settable_done _ _ _ _ _ tb).
Qed.

Section operation_lemmas.
Context (h : store) (s : list value) (lim : Z).

Lemma push_done v : zlen s < lim -> push v (LuaState h s lim) = Done (tt, LuaState h (v :: s) lim).
Proof. intros. unfold push. cbn. by rewrite (proj2 (Z.ltb_lt _ _)). Qed.

Lemma pop_one v : lua_pop 1 (LuaState h (v :: s) lim) = Done (tt, LuaState h s lim).
Proof. unfold lua_pop, zlen. cbn [stack length]. by rewrite (proj2 (Z.leb_le _ _)) by lia. Qed.

Lemma pushtop_done v : zlen (v :: s) < lim -> lua_pushvalue (-1) (LuaState h (v :: s) lim) = Done (tt, LuaState h (v :: v :: s) lim).
Proof. intros. unfold lua_pushvalue. cbn. unfold push. cbn. by rewrite (proj2 (Z.ltb_lt _ _)). Qed.

(** The field of a table right below the value. *)
Lemma setfield_done v t tb k :
  h !! t = Some tb -> v <> VNil ->
  lua_setfield (-2) k (LuaState h (v :: VTable t :: s) lim) =
  Done (tt, LuaState (<[t := <[inr k := v]> tb]> h) (VTable t :: s) lim).
Proof. intros. by apply (settable_done _ _ _ _ _ tb). Qed.

Lemma setfield_registry v tb k :
  h !! registry = Some tb -> v <> VNil ->
  lua_setfield LUA_REGISTRYINDEX k (LuaState h (v :: s) lim) =
  Done (tt, LuaState (<[registry := <[inr k := v]> tb]> h) s lim).
Proof. intros. by apply (settable_done _ _ _ _ _ tb). Qed.

Lemma createtable_done narr nrec :
  zlen s < lim ->
  lua_createtable narr nrec (LuaState h s lim) =
  Done (tt, LuaState (<[fresh (dom h) := ∅]> h) (VTable (fresh (dom h)) :: s) lim).
Proof. intros. unfold lua_createtable, Table.lua_createtable. cbn. unfold push. cbn. by rewrite (proj2 (Z.ltb_lt _ _)). Qed.

End operation_lemmas.

(** The results of a C function: the [n] values on top, the first one deepest. *)
Definition results (n : Z) (st : lua_state) : list value := reverse (take (Z.to_nat n) (stack st)).

(** ** Filling a table *)

(** The table after assignments in order. *)
Definition assign (l : list (string * value)) (tb : table) : table :=
  foldl (fun tb '(k, v) => <[inr k := v]> tb) tb l.

(** What a field holds: a value, or a new table with its fields. *)
Inductive export :=
  | Val (v : value)
  | Sub (l : list (string * value)).

(** Addresses of [h] keep their tables in [h'], but [t]. *)
Definition extends (t : Z) (h h' : store) : Prop :=
  forall u tb, h !! u = Some tb -> u <> t -> h' !! u = Some tb.

(** The value [v] is what [e] says; its table was not there in [h]. *)
Definition exported (h h' : store) (e : export) (v : value) : Prop :=
  match e with
  | Val w => v = w
  | Sub l => exists u, v = VTable u /\ (u ∉ dom h) /\ h' !! u = Some (assign l ∅)
  end.

Definition exports (h h' : store) (es : list (string * export)) (l : list (string * value)) : Prop :=
  Forall2 (fun e f => e.1 = f.1 /\ exported h h' e.2 f.2) es l.

(** [c] assigns the fields [es] of the table on top, with at most [n] slots of the stack,
    and gives [a]. *)
Definition fills {A} (n : Z) (c : lua A) (es : list (string * export)) (a : A) : Prop :=
  forall h s lim t tb,
    h !! t = Some tb -> zlen s + 1 + n <= lim ->
    exists h' l,
      c (LuaState h (VTable t :: s) lim) = Done (a, LuaState h' (VTable t :: s) lim) /\
      extends t h h' /\ h' !! t = Some (assign l tb) /\ exports h h' es l.

Lemma extends_refl t h : extends t h h.
Proof. by intros u tb E _. Qed.

Lemma extends_trans t h1 h2 h3 : extends t h1 h2 -> extends t h2 h3 -> extends t h1 h3.
Proof. intros H1 H2 u tb E Hu. apply H2; [by apply H1|done]. Qed.

Lemma extends_insert t tb h : extends t h (<[t := tb]> h).
Proof. intros u x E Hu. by rewrite lookup_insert_ne. Qed.

Lemma extends_dom t h h' tb tb' : extends t h h' -> h !! t = Some tb -> h' !! t = Some tb' -> dom h ⊆ dom h'.
Proof.
  intros He Ht Ht' u [x Hx]%elem_of_dom. apply elem_of_dom. destruct (decide (u = t)) as [->|]; [by eexists|].
  exists x. by apply He.
Qed.

(** New tables stay new, and what they hold is kept. *)
Lemma exports_later t h h1 h2 es l : t ∈ dom h -> extends t h1 h2 -> exports h h1 es l -> exports h h2 es l.
Proof.
  intros Ht He HF. eapply Forall2_impl; [exact HF|]. intros [k e] [k' v] [-> Hv]. split; [done|]. destruct e as [w|f]; [done|].
  destruct Hv as (u & -> & Hu & E). exists u. split_and!; [done|done|]. apply He; [done|]. by intros ->.
Qed.

Lemma exports_sooner h0 h1 h es l : dom h0 ⊆ dom h1 -> exports h1 h es l -> exports h0 h es l.
Proof.
  intros Hd HF. eapply Forall2_impl; [exact HF|]. intros [k e] [k' v] [-> Hv]. split; [done|]. destruct e as [w|f]; [done|].
  destruct Hv as (u & -> & Hu & E). exists u. split_and!; [done|set_solver|done].
Qed.

Lemma assign_app l1 l2 tb : assign (l1 ++ l2) tb = assign l2 (assign l1 tb).
Proof. apply foldl_app. Qed.

Definition functions `{CFunctions} (file : string) (l : list (string * string)) : list (string * value) :=
  (fun '(name, symbol) => (name, VFun (c_function file symbol))) <$> l.

Definition vals (l : list (string * value)) : list (string * export) := (fun '(k, v) => (k, Val v)) <$> l.

Lemma exports_vals h h' l fs : exports h h' (vals l) fs -> fs = l.
Proof.
  revert fs. induction l as [|[k v] l IH]; intros fs Hf; inversion Hf as [|? [k' v'] ? ? [? ?] Hf']; [done|].
  simplify_eq/=. f_equal. by apply IH.
Qed.

Section fills.
Context {A : Type} (n : Z) (a : A).
Implicit Types (d : lua A) (es : list (string * export)).

Lemma fills_nil : fills n (mret a) [] a.
Proof.
  intros h s lim t tb Ht _. exists h, []. split_and!; [done|apply extends_refl|done|constructor].
Qed.

Lemma fills_seq c d es1 es2 : fills n c es1 tt -> fills n d es2 a -> fills n (c;; d) (es1 ++ es2) a.
Proof.
  intros H1 H2 h s lim t tb Ht Hl. destruct (H1 h s lim t tb Ht Hl) as (h1 & f1 & E1 & X1 & T1 & F1).
  destruct (H2 h1 s lim t _ T1 Hl) as (h2 & f2 & E2 & X2 & T2 & F2).
  exists h2, (f1 ++ f2). split_and!.
  - by rewrite (bind_done _ _ _ _ _ E1).
  - by eapply extends_trans.
  - by rewrite assign_app.
  - apply Forall2_app.
    + apply (exports_later t h h1); [apply elem_of_dom; by eexists|done|done].
    + apply (exports_sooner h h1); [by eapply extends_dom|done].
Qed.

(** A value is pushed and becomes a field. *)
Lemma fills_push v k d es :
  1 <= n -> v <> VNil -> fills n d es a -> fills n (push v;; lua_setfield (-2) k;; d) ((k, Val v) :: es) a.
Proof.
  intros Hn Hv Hd h s lim t tb Ht Hl.
  destruct (Hd (<[t := <[inr k := v]> tb]> h) s lim t (<[inr k := v]> tb)) as (h' & l & E & X & T & F);
    [by rewrite lookup_insert_eq|done|].
  exists h', ((k, v) :: l). split_and!.
  - unfold mbind, lua_bind. rewrite push_done by (unfold zlen in *; cbn [length]; lia). cbn [mbind outcome_bind].
    rewrite (setfield_done h s lim v t tb) by done. cbn [mbind outcome_bind]. exact E.
  - eapply extends_trans; [apply extends_insert|done].
  - done.
  - constructor; [done|]. eapply exports_sooner; [|exact F]. set_solver.
Qed.

(** A new table is filled, with plain values, and becomes a field. *)
Lemma fills_table narr nrec k c l d es :
  1 <= n -> fills (n - 1) c (vals l) tt -> fills n d es a ->
  fills n (lua_createtable narr nrec;; c;; lua_setfield (-2) k;; d) ((k, Sub l) :: es) a.
Proof.
  intros Hn Hc Hd h s lim t tb Ht Hl. set (u := fresh (dom h)).
  assert (Hu : u ∉ dom h) by apply is_fresh. assert (Hth : t ∈ dom h) by (apply elem_of_dom; by eexists).
  assert (Htu : t <> u) by (by intros ->).
  destruct (Hc (<[u := ∅]> h) (VTable t :: s) lim u ∅) as (h1 & fs & E & X & T & F);
    [by rewrite lookup_insert_eq|unfold zlen in *; cbn [length]; lia|]. apply exports_vals in F as ->.
  assert (Ht1 : h1 !! t = Some tb) by (apply X; [by rewrite lookup_insert_ne|done]).
  set (h2 := <[t := <[inr k := VTable u]> tb]> h1).
  destruct (Hd h2 s lim t (<[inr k := VTable u]> tb)) as (h' & fs & E' & X' & T' & F');
    [by apply lookup_insert_eq|done|].
  assert (Hk : extends t h h2).
  { intros w x Ew Hw. unfold h2. rewrite lookup_insert_ne by done.
    assert (w <> u) by (intros ->; apply Hu, elem_of_dom; by eexists). apply X; [by rewrite lookup_insert_ne|done]. }
  exists h', ((k, VTable u) :: fs). split_and!.
  - unfold mbind, lua_bind. rewrite createtable_done by (unfold zlen in *; cbn [length]; lia).
    cbn [mbind outcome_bind]. fold u. rewrite E. cbn [mbind outcome_bind].
    rewrite (setfield_done h1 s lim (VTable u) t tb) by done. cbn [mbind outcome_bind]. exact E'.
  - by eapply extends_trans.
  - done.
  - constructor.
    + split; [done|]. exists u. split_and!; [done|done|]. apply X'; [|done]. unfold h2. by rewrite lookup_insert_ne.
    + eapply exports_sooner; [|exact F']. apply (extends_dom t _ _ tb (<[inr k := VTable u]> tb)); [done|done|].
      by apply lookup_insert_eq.
Qed.

Lemma fills_end c es : fills n c es tt -> fills n (c;; mret a) es a.
Proof. intros Hc. rewrite <- (app_nil_r es). by apply fills_seq; [|apply fills_nil]. Qed.

End fills.

Lemma fills_setfuncs `{CFunctions} n file l : 1 <= n -> fills n (luaL_setfuncs file l) (vals (functions file l)) tt.
Proof.
  intros Hn. induction l as [|[name symbol] l IH]; [apply fills_nil|]. by apply fills_push.
Qed.

Lemma fills_last n v k : 1 <= n -> v <> VNil -> fills n (push v;; lua_setfield (-2) k) [(k, Val v)] tt.
Proof.
  intros Hn Hv h s lim t tb Ht Hl.
  destruct (fills_push n tt v k (mret tt) [] Hn Hv (fills_nil n tt) h s lim t tb Ht Hl) as (h' & l & E & HE).
  exists h', l. split; [|done]. rewrite <- E. unfold mbind, lua_bind.
  destruct (push v _) as [[[] st]| |]; [|done|done]. cbn [mbind outcome_bind].
  by destruct (lua_setfield _ _ st) as [[[] st']| |].
Qed.

Lemma fills_table_last n narr nrec k c l :
  1 <= n -> fills (n - 1) c (vals l) tt ->
  fills n (lua_createtable narr nrec;; c;; lua_setfield (-2) k) [(k, Sub l)] tt.
Proof.
  intros Hn Hc h s lim t tb Ht Hl.
  destruct (fills_table n tt narr nrec k c l (mret tt) [] Hn Hc (fills_nil n tt) h s lim t tb Ht Hl) as (h' & fs & E & HE).
  exists h', fs. split; [|done]. rewrite <- E. unfold mbind, lua_bind.
  destruct (lua_createtable _ _ _) as [[[] st]| |]; [|done|done]. cbn [mbind outcome_bind].
  destruct (c st) as [[[] st']| |]; [|done|done]. cbn [mbind outcome_bind].
  by destruct (lua_setfield _ _ st') as [[[] st'']| |].
Qed.

Lemma assign_cons k v l tb : assign ((k, v) :: l) tb = assign l (<[inr k := v]> tb).
Proof. done. Qed.

(** Names that differ keep the values they were assigned. *)
Lemma assign_other l tb k : k ∉ l.*1 -> assign l tb !! inr k = tb !! inr k.
Proof.
  revert tb. induction l as [|[k' v] l IH]; intros tb Hk; [done|]. apply not_elem_of_cons in Hk as [Hk Hl].
  rewrite assign_cons, IH by done. rewrite lookup_insert_ne; [done|]. by intros [= ->].
Qed.

Lemma assign_lookup l tb k v : NoDup l.*1 -> (k, v) ∈ l -> assign l tb !! inr k = Some v.
Proof.
  revert tb. induction l as [|[k' v'] l IH]; intros tb Hnd Hk; [by apply not_elem_of_nil in Hk|].
  apply NoDup_cons in Hnd as [Hk' Hnd]. apply elem_of_cons in Hk as [[= -> ->]|Hk]; [|by apply IH].
  rewrite assign_cons, assign_other by done. by rewrite lookup_insert_eq.
Qed.

Lemma exports_names h h' es l : exports h h' es l -> l.*1 = es.*1.
Proof. induction 1 as [|[] [] ? ? [? _]]; simplify_eq/=; by f_equal. Qed.

(** Read the fields off the operations. *)
Ltac fill_block := first [apply fills_setfuncs; lia | repeat first [apply fills_last; [lia|done] | apply fills_push; [lia|done|]]].
Ltac fill :=
  repeat first
    [ apply fills_nil
    | apply fills_last; [lia|done]
    | apply fills_push; [lia|done|]
    | apply fills_table_last; [lia|fill_block]
    | apply fills_table; [lia|fill_block|]
    | apply fills_seq; [apply fills_setfuncs; lia|] ].

(** ** Metatables in the registry *)

(** The name is that of no table, or of one. *)
Definition registered (h : store) (tag : string) : Prop :=
  raw_get h registry (inr tag) = VNil \/
  exists mt, raw_get h registry (inr tag) = VTable mt /\ mt ∈ dom h /\ mt <> registry.

(** The metatable is created, or found; only it and the registry change. *)
Lemma newmetatable_spec tag h s lim R :
  h !! registry = Some R -> registered h tag -> zlen s + 3 <= lim ->
  exists new h1 mt tb,
    luaL_newmetatable tag (LuaState h s lim) = Done (new, LuaState h1 (VTable mt :: s) lim) /\
    mt <> registry /\ h1 !! registry = Some (<[inr tag := VTable mt]> R) /\ h1 !! mt = Some tb /\
    (forall u, u <> registry -> u <> mt -> h1 !! u = h !! u) /\
    (if new : bool then (mt ∉ dom h) /\ raw_get h registry (inr tag) = VNil else h1 = h /\ raw_get h registry (inr tag) = VTable mt).
Proof.
  intros HR Hreg Hl. unfold luaL_newmetatable, luaL_getmetatable, mbind, lua_bind. cbn [heap].
  rewrite push_done by lia. cbn [mbind outcome_bind]. destruct Hreg as [E|(mt & E & [tb Hmt]%elem_of_dom & Hne)].
  - rewrite E. rewrite bool_decide_eq_true_2 by done. rewrite pop_one. cbn [mbind outcome_bind].
    rewrite createtable_done by lia. cbn [mbind outcome_bind]. set (mt := fresh (dom h)).
    assert (Hmt : mt ∉ dom h) by apply is_fresh.
    assert (Hne : mt <> registry) by (intros ->; apply Hmt, elem_of_dom; by eexists).
    unfold lua_pushstring. rewrite push_done by (unfold zlen in *; cbn [length]; lia). cbn [mbind outcome_bind].
    rewrite (setfield_done _ s lim _ mt ∅) by (rewrite ?lookup_insert_eq; done). cbn [mbind outcome_bind].
    rewrite insert_insert_eq. rewrite pushtop_done by (unfold zlen in *; cbn [length]; lia). cbn [mbind outcome_bind].
    rewrite (setfield_registry _ _ _ _ R) by (rewrite ?lookup_insert_ne; done). cbn [mbind outcome_bind].
    exists true. eexists _, mt, _. split_and!; [done|done|by rewrite lookup_insert_eq| | |done|done].
    + rewrite lookup_insert_ne by done. by rewrite lookup_insert_eq.
    + intros u Hu1 Hu2. by rewrite !lookup_insert_ne.
  - rewrite E. rewrite bool_decide_eq_false_2 by done. exists false, h, mt, tb. split_and!; try done.
    rewrite insert_id; [done|]. unfold raw_get in E. rewrite HR in E. cbn [mbind option_bind] in E.
    by destruct (R !! inr tag) as [v|]; [f_equal|].
Qed.
