(* ===== verification/Registry.v ===== *)
(** * Libraries and metatables in a Lua state

    What the functions luaopen_* promise: [library] and [metatable] say what was built,
    [loaded] is the invariant of a state in which modules have been loaded, and [keeps] that
    what was built before stays.  Building a library and filling a metatable keep the
    invariant, in any order. *)

From stdpp Require Import base tactics numbers list strings gmap.
From Stdlib Require Import ZArith Lia.
From S2P Require Import Prelude LuaApi Table LuaState.

Local Open Scope Z_scope.

(** ** What is loaded

    [P] are the tables that loading does not change any more; the metatables are registered
    by their names. *)

Section loaded.
Context (metas : string -> option (list (string * export))).
Implicit Types (h : store) (P : gset Z) (tag : string) (es : list (string * export)).

Definition held h P (e : export) (v : value) : Prop :=
  match e with
  | Val w => v = w
  | Sub l => exists u, v = VTable u /\ u ∈ P /\ h !! u = Some (assign l ∅)
  end.

(** [t] is a table with the fields [es] and no others. *)
Definition library h P es (t : Z) : Prop :=
  t ∈ P /\ exists l, h !! t = Some (assign l ∅) /\ Forall2 (fun e f => e.1 = f.1 /\ held h P e.2 f.2) es l.

(** [mt] is the metatable with that name, and has the fields [es]. *)
Definition metatable h P tag es (mt : Z) : Prop :=
  raw_get h registry (inr tag) = VTable mt /\ mt <> registry /\ (mt ∉ P) /\
  exists tb, h !! mt = Some tb /\ forall k e, (k, e) ∈ es -> exists v, tb !! inr k = Some v /\ held h P e v.

Record loaded h P : Prop := {
  loaded_registry : registry ∈ dom h;
  loaded_dom : P ⊆ dom h;
  loaded_kept : registry ∉ P;
  loaded_metas tag es :
    metas tag = Some es -> raw_get h registry (inr tag) = VNil \/ exists mt, metatable h P tag es mt;
  loaded_distinct tag es tag' es' mt :
    metas tag = Some es -> metas tag' = Some es' ->
    raw_get h registry (inr tag) = VTable mt -> raw_get h registry (inr tag') = VTable mt -> tag = tag';
}.

(** What is built stays, and so do the names of the metatables. *)
Record keeps h P h' P' : Prop := {
  keeps_sub : P ⊆ P';
  keeps_same u : u ∈ P -> h' !! u = h !! u;
  keeps_tags tag es mt :
    metas tag = Some es -> raw_get h registry (inr tag) = VTable mt -> raw_get h' registry (inr tag) = VTable mt;
}.

Lemma keeps_refl h P : keeps h P h P.
Proof. done. Qed.

Lemma keeps_trans h1 P1 h2 P2 h3 P3 : keeps h1 P1 h2 P2 -> keeps h2 P2 h3 P3 -> keeps h1 P1 h3 P3.
Proof.
  intros [S1 E1 T1] [S2 E2 T2]. split; [set_solver| |eauto]. intros u Hu. rewrite E2 by set_solver. by apply E1.
Qed.

Lemma held_keeps h P h' P' e v : keeps h P h' P' -> held h P e v -> held h' P' e v.
Proof.
  intros [HP HE _]. destruct e as [w|l]; [done|]. intros (u & -> & Hu & E). exists u. split_and!; [done|set_solver|].
  by rewrite HE.
Qed.

Lemma library_keeps h P h' P' es t : keeps h P h' P' -> library h P es t -> library h' P' es t.
Proof.
  intros K (Ht & l & E & F). split; [by apply (keeps_sub _ _ _ _ K)|]. exists l. split; [by rewrite (keeps_same _ _ _ _ K)|].
  eapply Forall2_impl; [exact F|]. intros e f [? ?]. split; [done|]. by eapply held_keeps.
Qed.

(** A metatable that is not changed is kept. *)
Lemma metatable_keeps h P h' P' tag es mt :
  keeps h P h' P' -> raw_get h' registry (inr tag) = raw_get h registry (inr tag) -> h' !! mt = h !! mt ->
  mt ∉ P' -> metatable h P tag es mt -> metatable h' P' tag es mt.
Proof.
  intros K Er Em Hmt (E & Hne & _ & tb & Htb & F). split_and!; [by rewrite Er|done|done|]. exists tb.
  split; [by rewrite Em|]. intros k e Hk. destruct (F k e Hk) as (v & Ev & Hv). exists v. split; [done|].
  by eapply held_keeps.
Qed.

Lemma exports_held h h' P es l :
  exports h h' es l -> (forall u, u ∈ dom h' -> u ∉ dom h -> u ∈ P) ->
  Forall2 (fun e f => e.1 = f.1 /\ held h' P e.2 f.2) es l.
Proof.
  intros F HP. eapply Forall2_impl; [exact F|]. intros [k e] [k' v] [-> Hv]. split; [done|].
  destruct e as [w|fs]; [done|]. destruct Hv as (u & -> & Hu & E). exists u. split_and!; [done| |done].
  apply HP; [apply elem_of_dom; by eexists|done].
Qed.

(** What has a metatable's name is that metatable. *)
Lemma loaded_metatable h P tag es mt :
  loaded h P -> metas tag = Some es -> raw_get h registry (inr tag) = VTable mt -> metatable h P tag es mt.
Proof.
  intros W Hin E. destruct (loaded_metas _ _ W tag es Hin) as [E'|[mt' M]]; [by rewrite E in E'|].
  pose proof (proj1 M) as E'. rewrite E in E'. by injection E' as <-.
Qed.

(** A library table is built; nothing else changes but entries of the registry that are no
    metatables. *)
Lemma load_library h P h' es t l :
  loaded h P ->
  (forall u tb, h !! u = Some tb -> u <> registry -> h' !! u = Some tb) ->
  registry ∈ dom h' ->
  (forall tag es', metas tag = Some es' -> raw_get h' registry (inr tag) = raw_get h registry (inr tag)) ->
  t ∉ dom h -> h' !! t = Some (assign l ∅) -> exports h h' es l ->
  let P' := P ∪ (dom h' ∖ dom h) in
  loaded h' P' /\ keeps h P h' P' /\ library h' P' es t.
Proof.
  intros W X HR Htags Ht E F P'. destruct W as [W1 W2 W3 W4 W5].
  assert (Hdom : dom h ⊆ dom h').
  { intros u [tb Hu]%elem_of_dom. destruct (decide (u = registry)) as [->|]; [done|]. apply elem_of_dom. eexists. by eapply X. }
  assert (K : keeps h P h' P').
  { split; [set_solver| |].
    - intros u Hu. destruct (proj1 (elem_of_dom h u) (W2 u Hu)) as [tb Hu']. rewrite Hu'. apply X; [done|]. by intros ->.
    - intros tag es' mt Hin. by rewrite (Htags _ _ Hin). }
  split_and!; [split|done|split].
  - done.
  - set_solver.
  - set_solver.
  - intros tag es' Hin. rewrite (Htags _ _ Hin). destruct (W4 tag es' Hin) as [?|[mt M]]; [by left|]. right. exists mt.
    destruct M as (Em & Hne & Hmt & tb & Htb & HF). assert (mt ∈ dom h) by (apply elem_of_dom; by eexists).
    apply (metatable_keeps h P); [done|by eapply Htags|rewrite Htb; by apply X|set_solver|].
    split_and!; [done|done|done|by exists tb].
  - intros tag es1 tag' es2 mt H1 H2. rewrite (Htags _ _ H1), (Htags _ _ H2). by eapply W5.
  - apply elem_of_union_r, elem_of_difference. split; [apply elem_of_dom; by eexists|done].
  - exists l. split; [done|]. apply (exports_held h); [done|]. intros u ??. unfold P'. set_solver.
Qed.

(** A metatable whose fields were just assigned is complete. *)
Lemma metatable_filled h0 h h' P' tag es mt tb l :
  raw_get h' registry (inr tag) = VTable mt -> mt <> registry -> mt ∉ P' -> NoDup es.*1 ->
  h' !! mt = Some (assign l tb) -> exports h0 h' es l -> (forall u, u ∈ dom h' -> u ∉ dom h0 -> u ∈ P') ->
  metatable h' P' tag es mt.
Proof.
  intros Htag Hne HmtP Hnd Em F Hnew. split_and!; [done|done|done|]. exists (assign l tb). split; [done|]. intros k e Hk.
  assert (F' : Forall2 (fun e f => e.1 = f.1 /\ held h' P' e.2 f.2) es l) by by apply (exports_held h0).
  apply list_elem_of_lookup_1 in Hk as [i Hi]. destruct (Forall2_lookup_l _ _ _ _ _ F' Hi) as ([k' v] & Hi' & E & Hv).
  simplify_eq/=. exists v. split; [|done]. apply assign_lookup.
  - by rewrite (exports_names _ _ _ _ F).
  - by eapply list_elem_of_lookup_2.
Qed.

(** A metatable is filled: it is new, or the one with that name. *)
Lemma load_metatable h P h0 h' R tag es mt tb l :
  loaded h P -> metas tag = Some es -> NoDup es.*1 ->
  h !! registry = Some R -> h' !! registry = Some (<[inr tag := VTable mt]> R) -> mt <> registry ->
  (mt ∉ dom h /\ raw_get h registry (inr tag) = VNil) \/ raw_get h registry (inr tag) = VTable mt ->
  (forall u tb, h !! u = Some tb -> u <> registry -> u <> mt -> h' !! u = Some tb) ->
  h' !! mt = Some (assign l tb) -> exports h0 h' es l -> dom h ⊆ dom h0 -> mt ∈ dom h0 ->
  let P' := P ∪ (dom h' ∖ dom h ∖ {[mt]}) in
  loaded h' P' /\ keeps h P h' P' /\ metatable h' P' tag es mt.
Proof.
  intros W Hin Hnd HR HR' Hne Hmt X Em F Hd0 Hm0 P'. pose proof W as [W1 W2 W3 W4 W5].
  assert (Htag : raw_get h' registry (inr tag) = VTable mt) by (unfold raw_get; rewrite HR'; cbn; by rewrite lookup_insert_eq).
  assert (Hother : forall tag', tag' <> tag -> raw_get h' registry (inr tag') = raw_get h registry (inr tag')).
  { intros tag' Ht. unfold raw_get. rewrite HR, HR'. cbn. rewrite lookup_insert_ne; [done|]. by intros [= ->]. }
  assert (HmtP : mt ∉ P).
  { destruct Hmt as [[Hmt _]|Hmt]; [by intros ?%W2|]. destruct (W4 tag es Hin) as [E|[mt' (E & _ & ? & _)]]; [by rewrite Hmt in E|].
    rewrite Hmt in E. by injection E as ->. }
  assert (K : keeps h P h' P').
  { split; [set_solver| |].
    - intros u Hu. destruct (proj1 (elem_of_dom h u) (W2 u Hu)) as [x Hu']. rewrite Hu'. apply X; [done| |]; by intros ->.
    - intros tag' es' mt' Hin' E. destruct (decide (tag' = tag)) as [->|]; [|by rewrite Hother].
destruct Hmt as [[_ Hmt]|Hmt]; rewrite Hmt in E; [done|by injection E as <-]. }
  (* a registered metatable with another name *)
  assert (Hdiff : forall tag' es' mt', metas tag' = Some es' -> tag' <> tag ->
      raw_get h registry (inr tag') = VTable mt' -> mt' ∈ dom h -> mt' <> mt).
  { intros tag' es' mt' Hin' Ht E Hm' ->. destruct Hmt as [[Hmt _]|Hmt]; [done|]. by apply Ht, (W5 tag' es' tag es mt). }
  assert (M : metatable h' P' tag es mt).
  { apply (metatable_filled h0 h h' P' tag es mt tb l); [done|done|set_solver|done|done|done|]. intros u ??. unfold P'. set_solver. }
  split_and!; [split|done|done].
  - apply elem_of_dom. by eexists.
  - intros u. unfold P'. rewrite elem_of_union, !elem_of_difference. intros [Hu|[[? _] _]]; [|done].
    apply elem_of_dom. rewrite (keeps_same _ _ _ _ K) by done. by apply elem_of_dom, W2.
  - set_solver.
  - intros tag' es' Hin'. destruct (decide (tag' = tag)) as [->|Ht]; [right; exists mt; by simplify_eq|].
    rewrite (Hother tag' Ht). destruct (W4 tag' es' Hin') as [?|[mt' M']]; [by left|]. right. exists mt'.
    pose proof M' as (E & Hne' & HP' & x & Hx & HF). assert (mt' ∈ dom h) by (apply elem_of_dom; by eexists).
    assert (mt' <> mt) by by eapply Hdiff.
    apply (metatable_keeps h P); [done|by apply Hother|rewrite Hx; by apply X|set_solver|done].
  - assert (Hsame : forall tag' es', metas tag' = Some es' -> raw_get h' registry (inr tag') = VTable mt -> tag' = tag).
    { intros tag' es' Hin' E. destruct (decide (tag' = tag)) as [->|Ht]; [done|]. exfalso. rewrite (Hother tag' Ht) in E.
      destruct (W4 tag' es' Hin') as [E'|[mt' (E' & _ & _ & x & Hx & _)]]; [by rewrite E in E'|].
      rewrite E in E'. injection E' as <-. by eapply (Hdiff tag' es' mt); [| | |apply elem_of_dom; eexists|]. }
    intros tag1 es1 tag2 es2 mt' H1 H2 E1 E2. destruct (decide (tag1 = tag)) as [->|Ht1].
    + rewrite Htag in E1. injection E1 as <-. symmetry. by eapply Hsame.
    + destruct (decide (tag2 = tag)) as [->|Ht2].
      * rewrite Htag in E2. injection E2 as <-. by eapply Hsame.
      * rewrite (Hother tag1 Ht1) in E1. rewrite (Hother tag2 Ht2) in E2. by apply (W5 tag1 es1 tag2 es2 mt').
Qed.

End loaded.
