(* ===== verification/Modules.v ===== *)
(** * The functions luaopen_* of util-src/

    What [require] calls: each builds the table of the module, and some a metatable in the
    registry.  A module is loaded at any time and any number of times, by its name or by
    its former one, into one Lua state with the others. *)

From stdpp Require Import base tactics numbers list strings gmap.
From Stdlib Require Import ZArith Lia SpecFloat.
From S2P Require Import Prelude LuaApi Table PollApi Signal LuaState.

Local Open Scope Z_scope.

(** How the modules are compiled. *)
Inductive poll_backend := USE_EPOLL | USE_POLL | USE_SELECT.
Inductive random_backend := WITH_GETRANDOM | WITH_ARC4RANDOM | WITH_OPENSSL.

Class Config := {
  backend : poll_backend;
  random_source : random_backend;
  use_stringprep_icu : bool;
  with_mallinfo : bool;
  (* what [OpenSSL_version] gives, if OPENSSL_VERSION is defined *)
  openssl_version : option string;
}.

Section luaopen.
Context `{CFunctions, Config, Posix, Signals}.

(** ** strbitop.c, table.c, struct.c, net.c *)

Definition exports_strbitop : list (string * string) :=
  [("sand", "strop_and"); ("sor", "strop_or"); ("sxor", "strop_xor");
   ("common_prefix_bits", "strop_common_prefix_bits")].

Definition luaopen_prosody_util_strbitop : lua Z :=
  lua_newtable;; luaL_setfuncs "strbitop.c" exports_strbitop;; mret 1.

Definition luaopen_util_strbitop : lua Z := luaopen_prosody_util_strbitop.

Definition luaopen_prosody_util_table : lua Z :=
  luaL_checkversion;; lua_createtable 0 2;;
  lua_pushcfunction "table.c" "Lcreate_table";; lua_setfield (-2) "create";;
  lua_pushcfunction "table.c" "Lpack";; lua_setfield (-2) "pack";;
  lua_pushcfunction "table.c" "Lmove";; lua_setfield (-2) "move";;
  mret 1.

Definition luaopen_util_table : lua Z := luaopen_prosody_util_table.

Definition thislib : list (string * string) :=
  [("pack", "b_pack"); ("unpack", "b_unpack"); ("size", "b_size")].

Definition luaopen_prosody_util_struct : lua Z := luaL_newlib "struct.c" thislib;; mret 1.

Definition luaopen_util_struct : lua Z := luaopen_prosody_util_struct.

Definition exports_net : list (string * string) :=
  [("local_addresses", "lc_local_addresses"); ("pton", "lc_pton"); ("ntop", "lc_ntop")].

Definition luaopen_prosody_util_net : lua Z :=
  luaL_checkversion;; lua_createtable 0 1;; luaL_setfuncs "net.c" exports_net;; mret 1.

Definition luaopen_util_net : lua Z := luaopen_prosody_util_net.

(** ** crand.c, compat.c, time.c *)

Definition luaopen_prosody_util_crand : lua Z :=
  luaL_checkversion;; lua_createtable 0 2;;
  lua_pushcfunction "crand.c" "Lrandom";; lua_setfield (-2) "bytes";;
  lua_pushstring (match random_source with
                  | WITH_GETRANDOM => "Linux" | WITH_ARC4RANDOM => "arc4random()" | WITH_OPENSSL => "OpenSSL"
                  end)%string;;
  lua_setfield (-2) "_source";;
  mret 1.

Definition luaopen_util_crand : lua Z := luaopen_prosody_util_crand.

Definition luaopen_prosody_util_compat : lua Z :=
  lua_createtable 0 2;; lua_pushcfunction "compat.c" "lc_xpcall";; lua_setfield (-2) "xpcall";; mret 1.

Definition luaopen_util_compat : lua Z := luaopen_prosody_util_compat.

Definition luaopen_prosody_util_time : lua Z :=
  lua_createtable 0 2;;
  lua_pushcfunction "time.c" "lc_time_realtime";; lua_setfield (-2) "now";;
  lua_pushcfunction "time.c" "lc_time_monotonic";; lua_setfield (-2) "monotonic";;
  mret 1.

Definition luaopen_util_time : lua Z := luaopen_prosody_util_time.

(** ** hashes.c and crypto.c *)

Definition Reg_hashes : list (string * string) :=
  [("sha1", "Lsha1"); ("sha224", "Lsha224"); ("sha256", "Lsha256"); ("sha384", "Lsha384"); ("sha512", "Lsha512");
   ("md5", "Lmd5"); ("sha3_256", "Lsha3_256"); ("sha3_512", "Lsha3_512");
   ("blake2s256", "Lblake2s256"); ("blake2b512", "Lblake2b512");
   ("hmac_sha1", "Lhmac_sha1"); ("hmac_sha224", "Lhmac_sha224"); ("hmac_sha256", "Lhmac_sha256");
   ("hmac_sha384", "Lhmac_sha384"); ("hmac_sha512", "Lhmac_sha512"); ("hmac_md5", "Lhmac_md5");
   ("hmac_sha3_256", "Lhmac_sha3_256"); ("hmac_sha3_512", "Lhmac_sha3_512");
   ("hmac_blake2s256", "Lhmac_blake2s256"); ("hmac_blake2b512", "Lhmac_blake2b512");
   ("scram_Hi_sha1", "Lpbkdf2_sha1"); ("pbkdf2_hmac_sha1", "Lpbkdf2_sha1");
   ("pbkdf2_hmac_sha256", "Lpbkdf2_sha256"); ("hkdf_hmac_sha256", "Lhkdf_sha256");
   ("hkdf_hmac_sha384", "Lhkdf_sha384"); ("equals", "Lhash_equals")].

(** [lua_pushliteral(L, "-3.14"); lua_setfield(L, -2, "version");] and the version of the
    library, where the macro is defined. *)
Definition set_versions : lua unit :=
  lua_pushliteral "-3.14";; lua_setfield (-2) "version";;
  match openssl_version with
  | Some v => lua_pushstring v;; lua_setfield (-2) "_LIBCRYPTO_VERSION"
  | None => mret tt
  end.

Definition luaopen_prosody_util_hashes : lua Z :=
  luaL_checkversion;; lua_newtable;; luaL_setfuncs "hashes.c" Reg_hashes;; set_versions;; mret 1.

Definition luaopen_util_hashes : lua Z := luaopen_prosody_util_hashes.

Definition REG_SIGN_VERIFY (algorithm digest : string) : list (string * string) :=
  let name := (algorithm +:+ "_" +:+ digest)%string in
  [(name +:+ "_sign", "L" +:+ name +:+ "_sign"); (name +:+ "_verify", "L" +:+ name +:+ "_verify")]%string.

Definition Reg_crypto : list (string * string) :=
  [("ed25519_sign", "Led25519_sign"); ("ed25519_verify", "Led25519_verify")]
  ++ REG_SIGN_VERIFY "ecdsa" "sha256" ++ REG_SIGN_VERIFY "ecdsa" "sha384" ++ REG_SIGN_VERIFY "ecdsa" "sha512"
  ++ REG_SIGN_VERIFY "rsassa_pkcs1" "sha256" ++ REG_SIGN_VERIFY "rsassa_pkcs1" "sha384"
  ++ REG_SIGN_VERIFY "rsassa_pkcs1" "sha512"
  ++ REG_SIGN_VERIFY "rsassa_pss" "sha256" ++ REG_SIGN_VERIFY "rsassa_pss" "sha384"
  ++ REG_SIGN_VERIFY "rsassa_pss" "sha512"
  ++ [("aes_128_gcm_encrypt", "Laes_128_gcm_encrypt"); ("aes_128_gcm_decrypt", "Laes_128_gcm_decrypt");
      ("aes_256_gcm_encrypt", "Laes_256_gcm_encrypt"); ("aes_256_gcm_decrypt", "Laes_256_gcm_decrypt");
      ("aes_256_ctr_encrypt", "Laes_256_ctr_encrypt"); ("aes_256_ctr_decrypt", "Laes_256_ctr_decrypt");
      ("generate_ed25519_keypair", "Lgenerate_ed25519_keypair"); ("generate_p256_keypair", "Lgenerate_p256_keypair");
      ("import_private_pem", "Limport_private_pem"); ("import_public_pem", "Limport_public_pem");
      ("import_public_ec_raw", "Limport_public_ec_raw");
      ("parse_ecdsa_signature", "Lparse_ecdsa_signature"); ("build_ecdsa_signature", "Lbuild_ecdsa_signature")].

Definition KeyMethods : list (string * string) :=
  [("private_pem", "Lpkey_meth_private_pem"); ("public_pem", "Lpkey_meth_public_pem");
   ("public_raw", "Lpkey_meth_public_raw"); ("get_type", "Lpkey_meth_get_type"); ("derive", "Lpkey_meth_derive")].

Definition KeyMetatable : list (string * string) := [("__gc", "Lpkey_finalizer")].

Definition PKEY_MT_TAG : string := "util.crypto key".

Definition pkey_metatable : lua unit :=
  luaL_setfuncs "crypto.c" KeyMetatable;;
  lua_newtable;; luaL_setfuncs "crypto.c" KeyMethods;; lua_setfield (-2) "__index".

Definition luaopen_prosody_util_crypto : lua Z :=
  luaL_checkversion;;
  luaL_newmetatable PKEY_MT_TAG;;
  pkey_metatable;;
  lua_pop 1;;
  lua_newtable;; luaL_setfuncs "crypto.c" Reg_crypto;; set_versions;;
  mret 1.

Definition luaopen_util_crypto : lua Z := luaopen_prosody_util_crypto.

(** ** pposix.c *)

Definition exports_pposix : list (string * string) :=
  [("abort", "lc_abort"); ("daemonize", "lc_daemonize");
   ("syslog_open", "lc_syslog_open"); ("syslog_close", "lc_syslog_close"); ("syslog_log", "lc_syslog_log");
   ("syslog_setminlevel", "lc_syslog_setmask");
   ("getpid", "lc_getpid"); ("getuid", "lc_getuid"); ("getgid", "lc_getgid");
   ("setuid", "lc_setuid"); ("setgid", "lc_setgid"); ("initgroups", "lc_initgroups");
   ("umask", "lc_umask"); ("mkdir", "lc_mkdir"); ("pipe", "lc_pipe"); ("fdopen", "lc_fdopen");
   ("setrlimit", "lc_setrlimit"); ("getrlimit", "lc_getrlimit"); ("uname", "lc_uname"); ("setenv", "lc_setenv")]
  ++ (if with_mallinfo then [("meminfo", "lc_meminfo")] else [])
  ++ [("atomic_append", "lc_atomic_append"); ("remove_blocks", "lc_remove_blocks"); ("isatty", "lc_isatty")].

Definition MODULE_VERSION : string := "0.4.1".

Definition luaopen_prosody_util_pposix : lua Z :=
  luaL_checkversion;;
  lua_newtable;; luaL_setfuncs "pposix.c" exports_pposix;;
  lua_pushinteger ENOENT;; lua_setfield (-2) "ENOENT";;
  lua_pushliteral "pposix";; lua_setfield (-2) "_NAME";;
  lua_pushliteral MODULE_VERSION;; lua_setfield (-2) "_VERSION";;
  mret 1.

Definition luaopen_util_pposix : lua Z := luaopen_prosody_util_pposix.

(** ** encodings.c; [init_icu], which it also calls, is in Icu *)

Definition Reg_base64 : list (string * string) := [("encode", "Lbase64_encode"); ("decode", "Lbase64_decode")].
Definition Reg_stringprep : list (string * string) :=
  [("nameprep", "Lstringprep_nameprep"); ("nodeprep", "Lstringprep_nodeprep");
   ("resourceprep", "Lstringprep_resourceprep"); ("saslprep", "Lstringprep_saslprep")].
Definition Reg_idna : list (string * string) := [("to_ascii", "Lidna_to_ascii"); ("to_unicode", "Lidna_to_unicode")].
Definition Reg_utf8 : list (string * string) := [("valid", "Lutf8_valid"); ("length", "Lutf8_length")].

Definition luaopen_prosody_util_encodings : lua Z :=
  luaL_checkversion;;
  lua_newtable;;
  lua_newtable;; luaL_setfuncs "encodings.c" Reg_base64;; lua_setfield (-2) "base64";;
  lua_newtable;; luaL_setfuncs "encodings.c" Reg_stringprep;; lua_setfield (-2) "stringprep";;
  lua_newtable;; luaL_setfuncs "encodings.c" Reg_idna;; lua_setfield (-2) "idna";;
  lua_newtable;; luaL_setfuncs "encodings.c" Reg_utf8;; lua_setfield (-2) "utf8";;
  (if use_stringprep_icu then
     lua_newtable;; (lua_pushcfunction "encodings.c" "Lskeleton";; lua_setfield (-2) "skeleton");;
     lua_setfield (-2) "confusable"
   else mret tt);;
  lua_pushliteral "-3.14";; lua_setfield (-2) "version";;
  mret 1.

Definition luaopen_util_encodings : lua Z := luaopen_prosody_util_encodings.

(** ** ringbuffer.c *)

Definition ringbuffer_mt : string := "ringbuffer_mt".

(** The block [{ ... }] that fills the table __index. *)
Definition rb_methods : lua unit :=
  lua_pushcfunction "ringbuffer.c" "rb_find";; lua_setfield (-2) "find";;
  lua_pushcfunction "ringbuffer.c" "rb_discard";; lua_setfield (-2) "discard";;
  lua_pushcfunction "ringbuffer.c" "rb_read";; lua_setfield (-2) "read";;
  lua_pushcfunction "ringbuffer.c" "rb_readuntil";; lua_setfield (-2) "readuntil";;
  lua_pushcfunction "ringbuffer.c" "rb_write";; lua_setfield (-2) "write";;
  lua_pushcfunction "ringbuffer.c" "rb_size";; lua_setfield (-2) "size";;
  lua_pushcfunction "ringbuffer.c" "rb_length";; lua_setfield (-2) "length";;
  lua_pushcfunction "ringbuffer.c" "rb_sub";; lua_setfield (-2) "sub";;
  lua_pushcfunction "ringbuffer.c" "rb_byte";; lua_setfield (-2) "byte";;
  lua_pushcfunction "ringbuffer.c" "rb_free";; lua_setfield (-2) "free".

Definition rb_metatable : lua unit :=
  lua_pushcfunction "ringbuffer.c" "rb_tostring";; lua_setfield (-2) "__tostring";;
  lua_pushcfunction "ringbuffer.c" "rb_length";; lua_setfield (-2) "__len";;
  lua_createtable 0 7;; rb_methods;; lua_setfield (-2) "__index".

Definition luaopen_prosody_util_ringbuffer : lua Z :=
  luaL_checkversion;;
  new ← luaL_newmetatable ringbuffer_mt;
  (if new : bool then rb_metatable else mret tt);;
  lua_createtable 0 1;;
  lua_pushcfunction "ringbuffer.c" "rb_new";; lua_setfield (-2) "new";;
  mret 1.

Definition luaopen_util_ringbuffer : lua Z := luaopen_prosody_util_ringbuffer.

(** ** poll.c *)

Definition POLL_BACKEND : string :=
  match backend with USE_EPOLL => "epoll" | USE_POLL => "poll" | USE_SELECT => "select" end.
Definition STATE_MT : string := "util.poll<" +:+ POLL_BACKEND +:+ ">".

Definition use_epoll : bool := match backend with USE_EPOLL => true | _ => false end.

Definition poll_methods : lua unit :=
  lua_pushcfunction "poll.c" "Ladd";; lua_setfield (-2) "add";;
  lua_pushcfunction "poll.c" "Lset";; lua_setfield (-2) "set";;
  lua_pushcfunction "poll.c" "Ldel";; lua_setfield (-2) "del";;
  lua_pushcfunction "poll.c" "Lwait";; lua_setfield (-2) "wait";;
  if use_epoll then lua_pushcfunction "poll.c" "Lgetfd";; lua_setfield (-2) "getfd" else mret tt.

Definition poll_metatable : lua unit :=
  lua_pushliteral STATE_MT;; lua_setfield (-2) "__name";;
  lua_pushcfunction "poll.c" "Ltos";; lua_setfield (-2) "__tostring";;
  lua_createtable 0 2;; poll_methods;; lua_setfield (-2) "__index";;
  if use_epoll then lua_pushcfunction "poll.c" "Lgc";; lua_setfield (-2) "__gc" else mret tt.

Definition push_errno (n : Z) (name : string) : lua unit := lua_pushinteger n;; lua_setfield (-2) name.

Definition luaopen_prosody_util_poll : lua Z :=
  luaL_checkversion;;
  luaL_newmetatable STATE_MT;;
  poll_metatable;;
  lua_createtable 0 3;;
  lua_pushcfunction "poll.c" "Lnew";; lua_setfield (-2) "new";;
  push_errno EEXIST "EEXIST";; push_errno EMFILE "EMFILE";; push_errno ENOENT "ENOENT";;
  lua_pushliteral POLL_BACKEND;; lua_setfield (-2) "api";;
  mret 1.

Definition luaopen_util_poll : lua Z := luaopen_prosody_util_poll.

(** ** signal.c *)

Definition LUA_SIGNAL : string := "lua_signal".

Definition lsignal_lib : list (string * string) :=
  [("signal", "l_signal"); ("raise", "l_raise"); ("kill", "l_kill"); ("signalfd", "l_signalfd")].

Definition signalfd_metatable : lua unit :=
  lua_pushcfunction "signal.c" "l_signalfd_close";; lua_setfield (-2) "__gc";;
  lua_createtable 0 1;;
  (lua_pushcfunction "signal.c" "l_signalfd_getfd";; lua_setfield (-2) "getfd";;
   lua_pushcfunction "signal.c" "l_signalfd_read";; lua_setfield (-2) "read";;
   lua_pushcfunction "signal.c" "l_signalfd_close";; lua_setfield (-2) "close");;
  lua_setfield (-2) "__index".

(** [while(lua_signals[i].name != NULL)] *)
Fixpoint signal_loop (l : list (string * Z)) : lua unit :=
  match l with
  | [] => mret tt
  | (name, sig) :: l =>
      lua_pushstring name;; lua_pushinteger sig;; lua_settable (-3);;
      lua_pushstring name;; lua_pushinteger sig;; lua_settable (-5);;
      signal_loop l
  end.

Definition luaopen_prosody_util_signal : lua Z :=
  luaL_checkversion;;
  luaL_newmetatable "signalfd";;
  signalfd_metatable;;
  lua_pop 1;;
  lua_newtable;; luaL_setfuncs "signal.c" lsignal_lib;;
  lua_pushstring LUA_SIGNAL;;
  lua_newtable;;
  signal_loop lua_signals;;
  lua_settable LUA_REGISTRYINDEX;;
  mret 1.

Definition luaopen_util_signal : lua Z := luaopen_prosody_util_signal.

End luaopen.
