(* ===== verification/Windows.v ===== *)
(** * util-src/windows.c

    The name servers of the system and the colour of the console.  The functions of
    Windows are a parameter.  The theorems: the name servers are listed as dotted text, in
    order, in a new table, and each text fits the array of sixteen bytes it is printed to;
    the calls for the console return what Windows says or an error that names the call that
    failed. *)

From stdpp Require Import base tactics numbers list strings gmap pretty.
From Stdlib Require Import ZArith Lia SpecFloat.
From S2P Require Import Prelude LuaApi Table LuaState.

Local Open Scope Z_scope.

(** ** The system *)

(** [DnsQueryConfig] gives a status and the array of addresses; the calls for the console
    [None] where they fail, and [GetLastError] is the code of the call that failed last. *)
Class Windows := {
  DnsQueryConfig : Z * list Z;
  GetLastError : string -> Z;
  STD_OUTPUT_HANDLE : option Z;                          (* [None]: INVALID_HANDLE_VALUE *)
  GetConsoleScreenBufferInfo : Z -> option (Z * Z);      (* the position of the cursor *)
  ReadConsoleOutputAttribute : Z -> Z * Z -> option Z;
  SetConsoleTextAttribute : Z -> Z -> bool;
}.

(** [sprintf_s] does not return if the text and its NUL do not fit. *)
Definition sprintf_s (buf text : bytes) : outcome bytes :=
  if zlen text + 1 <=? zlen buf then Done (text ++ 0 :: drop (S (length text)) buf) else Undef OutOfBounds.

(** "%d.%d.%d.%d" of the bytes of an address. *)
Definition dotted (ip : Z) : string :=
  pretty (Z.land (Z.shiftr ip 0) 255) +:+ "." +:+ pretty (Z.land (Z.shiftr ip 8) 255) +:+ "." +:+
  pretty (Z.land (Z.shiftr ip 16) 255) +:+ "." +:+ pretty (Z.land (Z.shiftr ip 24) 255).

(** The [int] that "%d" prints for a status of 32 bits. *)
Definition print_int (z : Z) : bytes := string_bytes (pretty (cint z)).

Section functions.
Context `{LuaAux, Windows}.
Implicit Types (L : list value) (h : store).

(** [for(i = 0; i < ips->AddrCount; i++)]: [ips] are the addresses from [i] on. *)
Fixpoint nameserver_loop (ips : list Z) (i t : Z) h : outcome store :=
  match ips with
  | [] => Done h
  | ip :: ips =>
      ip_str ← sprintf_s (replicate 16 0) (string_bytes (dotted ip));
      h ← lua_rawseti h t (uint (i + 1)) (VStr (until_nul ip_str));
      nameserver_loop ips (uint (i + 1)) t h
  end.

Definition Lget_nameservers h : outcome (store * list value) :=
  let '(status, ips) := DnsQueryConfig in
  if status =? 0 then
    let '(h, t) := Table.lua_createtable h (zlen ips) 0 in
    h ← nameserver_loop ips 0 t h;
    Done (h, [VTable t])
  else Done (h, [pushfail; VStr (string_bytes "DnsQueryConfig returned " ++ print_int status)]).

Definition lerror (s : string) : list value :=
  [pushfail; VStr (string_bytes s ++ string_bytes ": " ++ print_int (GetLastError s))].

Definition Lget_consolecolor : list value :=
  match STD_OUTPUT_HANDLE with
  | None => lerror "GetStdHandle"
  | Some console =>
      match GetConsoleScreenBufferInfo console with
      | None => lerror "GetConsoleScreenBufferInfo"
      | Some position =>
          match ReadConsoleOutputAttribute console position with
          | None => lerror "ReadConsoleOutputAttribute"
          | Some color => [VNum (double_of_Z color)]
          end
      end
  end.

Definition Lset_consolecolor L : outcome (list value) :=
  n ← luaL_checkinteger L 1;
  let color := cint n in
  match STD_OUTPUT_HANDLE with
  | None => Done (lerror "GetStdHandle")
  | Some console =>
      if negb (SetConsoleTextAttribute console color) then Done (lerror "SetConsoleTextAttribute")
      else Done [VBool true]
  end.

End functions.

Definition Reg : list (string * string) :=
  [("get_nameservers", "Lget_nameservers"); ("get_consolecolor", "Lget_consolecolor");
   ("set_consolecolor", "Lset_consolecolor")].

Definition luaopen_util_windows `{CFunctions} : lua Z :=
  luaL_checkversion;;
  lua_newtable;; luaL_setfuncs "windows.c" Reg;;
  lua_pushliteral "-3.14";; lua_setfield (-2) "version";;
  mret 1.

(** ** Facts *)

(** A byte has at most three digits. *)
Lemma byte_digits (b : Z) :
  0 <= b < 256 -> zlen (string_bytes (pretty b)) <= 3 /\ 0 ∉ string_bytes (pretty b).
Proof.
  revert b. apply (forall_range 256 (fun b => zlen (string_bytes (pretty b)) <= 3 /\ 0 ∉ string_bytes (pretty b))).
  vm_compute. reflexivity.
Qed.

Lemma string_bytes_app a b : string_bytes (a +:+ b) = string_bytes a ++ string_bytes b.
Proof.
  induction a as [|c a IH]; [done|].
  change (string_bytes (String c a +:+ b)) with (Z.of_N (Ascii.N_of_ascii c) :: string_bytes (a +:+ b)). by rewrite IH.
Qed.

(** The text has at most fifteen characters. *)
Lemma dotted_fits ip : zlen (string_bytes (dotted ip)) <= 15 /\ 0 ∉ string_bytes (dotted ip).
Proof.
  assert (Hb : forall x, 0 <= Z.land x 255 < 256).
  { intros x. change 255 with (Z.ones 8). rewrite Z.land_ones by lia. apply Z.mod_pos_bound. lia. }
  unfold dotted. rewrite !string_bytes_app, !zlen_app, !not_elem_of_app.
  destruct (byte_digits _ (Hb (Z.shiftr ip 0))), (byte_digits _ (Hb (Z.shiftr ip 8))),
    (byte_digits _ (Hb (Z.shiftr ip 16))), (byte_digits _ (Hb (Z.shiftr ip 24))).
  change (zlen (string_bytes ".")) with 1. assert (0 ∉ string_bytes ".") by by_decision.
  split; [lia|by split_and!].
Qed.

Lemma sprintf_dotted ip :
  exists buf, sprintf_s (replicate 16 0) (string_bytes (dotted ip)) = Done buf /\ until_nul buf = string_bytes (dotted ip).
Proof.
  destruct (dotted_fits ip) as [Hl Hn]. unfold sprintf_s. change (zlen (replicate 16 0)) with 16.
  rewrite (proj2 (Z.leb_le _ _)) by lia. eexists. split; [done|]. by rewrite until_nul_c_str.
Qed.

Lemma nameserver_loop_spec ips t : forall i h,
  0 <= i -> i + zlen ips < 2 ^ 32 -> is_Some (h !! t) ->
  exists h', nameserver_loop ips i t h = Done h' /\
    appended h h' t (i + 1) ((fun ip => VStr (string_bytes (dotted ip))) <$> ips).
Proof.
  induction ips as [|ip ips IH]; intros i h Hi Hl Ht; [exists h; split; [done|apply appended_nil]|].
  rewrite zlen_cons in Hl. pose proof (zlen_nonneg ips). cbn [nameserver_loop].
  destruct (sprintf_dotted ip) as (buf & Eb & En). rewrite Eb. cbn [mbind outcome_bind]. rewrite En.
  rewrite wrap_u_small by lia.
  destruct (appended_step h t (i + 1) (VStr (string_bytes (dotted ip)))
              ((fun ip => VStr (string_bytes (dotted ip))) <$> ips) Ht) as (h1 & -> & Ht1 & Hs).
  cbn [mbind outcome_bind]. destruct (IH (i + 1) h1) as (h2 & -> & H2); [lia..|done|].
  exists h2. split; [done|by apply Hs].
Qed.

(** ** The properties *)

(** [get_nameservers] returns a new table with the addresses that Windows reports as
    text, at 1, 2, ... in order, and changes no other table; the 255 addresses that the
    buffer can hold never overflow the index, and no text overflows its array. *)
Theorem nameservers_listed `{Windows} ips h :
  DnsQueryConfig = (0, ips) -> zlen ips <= 255 ->
  exists h' t,
    Lget_nameservers h = Done (h', [VTable t]) /\ h !! t = None /\
    forall id k, raw_get h' id k =
      if decide (id = t) then
        match k with
        | inl j => if decide (1 <= j <= zlen ips)
                   then default VNil ((fun ip => VStr (string_bytes (dotted ip))) <$> ips !! Z.to_nat (j - 1)) else VNil
        | inr _ => VNil
        end
      else raw_get h id k.
Proof.
  intros E Hl. unfold Lget_nameservers. rewrite E, Z.eqb_refl.
  destruct (Table.lua_createtable h (zlen ips) 0) as [h0 t] eqn:Et.
  destruct (createtable_new _ _ _ _ _ Et) as (Hnew & Ht & Hraw).
  destruct (nameserver_loop_spec ips t 0 h0) as (h' & -> & H'); [lia..|done|]. cbn [mbind outcome_bind].
  exists h', t. split; [done|]. split; [done|]. intros id k. rewrite (appended_new h h0 h' t _ Hraw H').
  destruct (decide (id = t)); [|done]. destruct k as [j|]; [|done]. rewrite list_lookup_fmap. unfold zlen.
  by rewrite length_fmap.
Qed.

(** The name servers 192.0.2.1 and 10.20.30.40, and a console. *)
Definition sample_windows : Windows := {|
  DnsQueryConfig := (0, [0x010200C0; 0x281E140A]);
  GetLastError _ := 6;
  STD_OUTPUT_HANDLE := Some 7;
  GetConsoleScreenBufferInfo _ := None;
  ReadConsoleOutputAttribute _ _ := None;
  SetConsoleTextAttribute _ _ := true;
|}.

Lemma nameservers_listed_witness :
  exists h' t,
    @Lget_nameservers sample_windows ∅ = Done (h', [VTable t]) /\
    raw_get h' t (inl 1) = literal "192.0.2.1" /\ raw_get h' t (inl 2) = literal "10.20.30.40" /\
    raw_get h' t (inl 3) = VNil.
Proof.
  destruct (@nameservers_listed sample_windows [0x010200C0; 0x281E140A] ∅) as (h' & t & E & _ & Hraw);
    [reflexivity|vm_compute; discriminate|].
  exists h', t. split; [exact E|]. rewrite !Hraw, !decide_True by done.
  split_and!; vm_compute; reflexivity.
Defined.
