(* ===== verification/Loading.v ===== *)
(** * Loading the modules of util-src/ into one Lua state

    Every function luaopen_* returns a new table with exactly the exports of its module,
    within the stack it is given, and leaves the tables of the program and those of the
    other modules alone; the metatables of ring buffers, poll objects, signalfd objects and
    keys have their methods from then on.  This holds for any sequence of loads, with
    repetitions: objects made before a module was loaded again keep working. *)

From stdpp Require Import base tactics numbers list strings gmap.
From Stdlib Require Import ZArith Lia SpecFloat.
From S2P Require Import Prelude LuaApi Table PollApi Signal LuaState Registry Modules.
From S2P Require RingBuffer Windows.

Local Open Scope Z_scope.

(** ** The modules *)

Inductive module :=
  | Strbitop | Table_ | Struct | Net | Crand | Compat | Time | Hashes | Crypto | Pposix | Encodings
  | Ringbuffer | Poll | Signal_ | Windows_.

Section loading.
Context `{CFunctions, Config, Posix, Signals}.

Definition luaopen (m : module) : lua Z :=
  match m with
  | Strbitop => luaopen_prosody_util_strbitop
  | Table_ => luaopen_prosody_util_table
  | Struct => luaopen_prosody_util_struct
  | Net => luaopen_prosody_util_net
  | Crand => luaopen_prosody_util_crand
  | Compat => luaopen_prosody_util_compat
  | Time => luaopen_prosody_util_time
  | Hashes => luaopen_prosody_util_hashes
  | Crypto => luaopen_prosody_util_crypto
  | Pposix => luaopen_prosody_util_pposix
  | Encodings => luaopen_prosody_util_encodings
  | Ringbuffer => luaopen_prosody_util_ringbuffer
  | Poll => luaopen_prosody_util_poll
  | Signal_ => luaopen_prosody_util_signal
  | Windows_ => Windows.luaopen_util_windows
  end.

Definition fn (file symbol : string) : export := Val (VFun (c_function file symbol)).
Definition fns (file : string) (l : list (string * string)) : list (string * export) := vals (functions file l).
Definition text (s : string) : export := Val (literal s).
Definition fields_of (l : list (string * Z)) : list (string * value) := (fun '(name, sig) => (name, VInt sig)) <$> l.

Definition versions : list (string * export) :=
  ("version", text "-3.14") :: match openssl_version with Some v => [("_LIBCRYPTO_VERSION", text v)] | None => [] end.

(** What each module exports. *)
Definition exports_of (m : module) : list (string * export) :=
  match m with
  | Strbitop => fns "strbitop.c" exports_strbitop
  | Table_ => [("create", fn "table.c" "Lcreate_table"); ("pack", fn "table.c" "Lpack"); ("move", fn "table.c" "Lmove")]
  | Struct => fns "struct.c" thislib
  | Net => fns "net.c" exports_net
  | Crand => [("bytes", fn "crand.c" "Lrandom");
              ("_source", text (match random_source with
                                | WITH_GETRANDOM => "Linux" | WITH_ARC4RANDOM => "arc4random()" | WITH_OPENSSL => "OpenSSL"
                                end))]
  | Compat => [("xpcall", fn "compat.c" "lc_xpcall")]
  | Time => [("now", fn "time.c" "lc_time_realtime"); ("monotonic", fn "time.c" "lc_time_monotonic")]
  | Hashes => fns "hashes.c" Reg_hashes ++ versions
  | Crypto => fns "crypto.c" Reg_crypto ++ versions
  | Pposix => fns "pposix.c" exports_pposix
              ++ [("ENOENT", Val (VInt ENOENT)); ("_NAME", text "pposix"); ("_VERSION", text MODULE_VERSION)]
  | Encodings =>
      [("base64", Sub (functions "encodings.c" Reg_base64)); ("stringprep", Sub (functions "encodings.c" Reg_stringprep));
       ("idna", Sub (functions "encodings.c" Reg_idna)); ("utf8", Sub (functions "encodings.c" Reg_utf8))]
      ++ (if use_stringprep_icu then [("confusable", Sub (functions "encodings.c" [("skeleton", "Lskeleton")]))] else [])
      ++ [("version", text "-3.14")]
  | Ringbuffer => [("new", fn "ringbuffer.c" "rb_new")]
  | Poll => [("new", fn "poll.c" "Lnew"); ("EEXIST", Val (VInt EEXIST)); ("EMFILE", Val (VInt EMFILE));
             ("ENOENT", Val (VInt ENOENT)); ("api", text POLL_BACKEND)]
  | Signal_ => fns "signal.c" lsignal_lib ++ vals (fields_of lua_signals)
  | Windows_ => fns "windows.c" Windows.Reg ++ [("version", text "-3.14")]
  end.

(** The methods of the objects, and the metamethods. *)
Definition ring_methods : list (string * value) :=
  functions "ringbuffer.c"
    [("find", "rb_find"); ("discard", "rb_discard"); ("read", "rb_read"); ("readuntil", "rb_readuntil");
     ("write", "rb_write"); ("size", "rb_size"); ("length", "rb_length"); ("sub", "rb_sub"); ("byte", "rb_byte");
     ("free", "rb_free")].
Definition ring_meta : list (string * export) :=
  [("__tostring", fn "ringbuffer.c" "rb_tostring"); ("__len", fn "ringbuffer.c" "rb_length"); ("__index", Sub ring_methods)].
Definition poll_meta : list (string * export) :=
  [("__name", text STATE_MT); ("__tostring", fn "poll.c" "Ltos");
   ("__index", Sub (functions "poll.c" ([("add", "Ladd"); ("set", "Lset"); ("del", "Ldel"); ("wait", "Lwait")]
                                        ++ if use_epoll then [("getfd", "Lgetfd")] else [])))]
  ++ (if use_epoll then [("__gc", fn "poll.c" "Lgc")] else []).
Definition signalfd_meta : list (string * export) :=
  [("__gc", fn "signal.c" "l_signalfd_close");
   ("__index", Sub (functions "signal.c" [("getfd", "l_signalfd_getfd"); ("read", "l_signalfd_read");
                                          ("close", "l_signalfd_close")]))].
Definition key_meta : list (string * export) :=
  [("__gc", fn "crypto.c" "Lpkey_finalizer"); ("__index", Sub (functions "crypto.c" KeyMethods))].

Definition metas (tag : string) : option (list (string * export)) :=
  if String.eqb tag ringbuffer_mt then Some ring_meta
  else if String.eqb tag STATE_MT then Some poll_meta
  else if String.eqb tag "signalfd" then Some signalfd_meta
  else if String.eqb tag PKEY_MT_TAG then Some key_meta
  else None.

(** The metatable of a module. *)
Definition tag_of (m : module) : option string :=
  match m with
  | Ringbuffer => Some ringbuffer_mt
  | Poll => Some STATE_MT
  | Signal_ => Some "signalfd"
  | Crypto => Some PKEY_MT_TAG
  | _ => None
  end.

(** [require] calls the function with its arguments, and takes its results. *)
Definition call_open (m : module) (args : list value) (h : store) : outcome (list value * store) :=
  '(n, st) ← luaopen m (LuaState h (reverse args) (zlen args + LUA_MINSTACK));
  Done (results n st, heap st).

Fixpoint load (calls : list (module * list value)) (h : store) : outcome (list (list value) * store) :=
  match calls with
  | [] => Done ([], h)
  | (m, args) :: calls =>
      '(r, h) ← call_open m args h;
      '(rs, h) ← load calls h;
      Done (r :: rs, h)
  end.

(** ** The parts of the functions *)

Abbreviation room s lim := (zlen s + LUA_MINSTACK <= lim).

Lemma set_versions_fills : fills 10 set_versions versions tt.
Proof. unfold set_versions, versions. destruct openssl_version; fill. Qed.

Lemma ring_meta_fills : fills 10 rb_metatable ring_meta tt.
Proof. unfold rb_metatable, rb_methods. fill. Qed.

Lemma signalfd_meta_fills : fills 10 signalfd_metatable signalfd_meta tt.
Proof. unfold signalfd_metatable. fill. Qed.

Lemma key_meta_fills : fills 10 pkey_metatable key_meta tt.
Proof. unfold pkey_metatable. change key_meta with (fns "crypto.c" KeyMetatable ++ [("__index", Sub (functions "crypto.c" KeyMethods))]%string). fill. Qed.

Lemma poll_meta_fills : fills 10 poll_metatable poll_meta tt.
Proof. unfold poll_metatable, poll_methods, poll_meta. destruct use_epoll; fill. Qed.

(** A library table is created and filled. *)
Lemma open_table narr nrec (c : lua Z) es h P s lim :
  fills 10 c es 1 -> loaded metas h P -> zlen s + 12 <= lim ->
  exists h' P' t,
    (lua_createtable narr nrec;; c) (LuaState h s lim) = Done (1, LuaState h' (VTable t :: s) lim) /\
    loaded metas h' P' /\ keeps metas h P h' P' /\ (t ∉ P) /\ library h' P' es t.
Proof.
  intros Hc W Hl. set (t := fresh (dom h)). assert (Ht : t ∉ dom h) by apply is_fresh.
  assert (Hnew : forall u tb, h !! u = Some tb -> u <> t) by (intros u tb Hu ->; apply Ht, elem_of_dom; by eexists).
  destruct (Hc (<[t := ∅]> h) s lim t ∅) as (h' & l & E & X & T & F); [by rewrite lookup_insert_eq|lia|].
  assert (X' : forall u tb, h !! u = Some tb -> h' !! u = Some tb).
  { intros u tb Hu. pose proof (Hnew u tb Hu). apply X; [by rewrite lookup_insert_ne|done]. }
  destruct (proj1 (elem_of_dom _ _) (loaded_registry _ _ _ W)) as [R HR].
  destruct (load_library metas h P h' es t l W) as (W' & K & Hlib); [by auto|..|done|done| |].
  - apply elem_of_dom. exists R. by apply X'.
  - intros tag es' _. unfold raw_get. by rewrite HR, (X' _ _ HR).
  - eapply exports_sooner; [|exact F]. set_solver.
  - exists h', (P ∪ (dom h' ∖ dom h)), t. split_and!; [|done|done| |done].
    + unfold mbind, lua_bind. rewrite createtable_done by lia. cbn [mbind outcome_bind]. exact E.
    + intros Hin. by apply Ht, (loaded_dom _ _ _ W).
Qed.

Lemma loaded_registered tag es h P : loaded metas h P -> metas tag = Some es -> registered h tag.
Proof.
  intros W Htag. destruct (loaded_metas _ _ _ W tag es Htag) as [?|(mt & E & Hne & _ & tb & Hmt & _)]; [by left|].
  right. exists mt. split_and!; [done|apply elem_of_dom; by eexists|done].
Qed.

(** A metatable is created or found, and filled, before the rest of the function. *)
Lemma open_metatable tag (c : lua unit) es h P s lim :
  metas tag = Some es -> fills 10 c es tt -> NoDup es.*1 -> loaded metas h P -> zlen s + 12 <= lim ->
  exists h' P' mt,
    (forall k : lua Z, (luaL_newmetatable tag;; c;; k) (LuaState h s lim) = k (LuaState h' (VTable mt :: s) lim)) /\
    loaded metas h' P' /\ keeps metas h P h' P' /\ metatable h' P' tag es mt.
Proof.
  intros Htag Hc Hnd W Hl. destruct (proj1 (elem_of_dom _ _) (loaded_registry _ _ _ W)) as [R HR].
  destruct (newmetatable_spec tag h s lim R HR) as (new & h1 & mt & tb & E1 & Hne & HR1 & Hmt1 & Hoth & Hnew);
    [by eapply loaded_registered|lia|].
  destruct (Hc h1 s lim mt tb Hmt1) as (h2 & l & E2 & X & T & F); [lia|].
  assert (Hx : forall u x, h !! u = Some x -> u <> registry -> u <> mt -> h2 !! u = Some x).
  { intros u x Hu ??. apply X; [by rewrite Hoth|done]. }
  destruct (load_metatable metas h P h1 h2 R tag es mt tb l W Htag Hnd HR) as (W' & K & M); try done.
  - by apply X.
  - destruct new; [by left|]. right. apply Hnew.
  - intros u [x Hu]%elem_of_dom. destruct (decide (u = registry)) as [->|]; [apply elem_of_dom; by eexists|].
    destruct (decide (u = mt)) as [->|]; [apply elem_of_dom; by eexists|]. apply elem_of_dom. exists x. by rewrite Hoth.
  - apply elem_of_dom. by eexists.
  - exists h2, (P ∪ (dom h2 ∖ dom h ∖ {[mt]})), mt. split_and!; [|done|done|done]. intros k.
    unfold mbind, lua_bind. rewrite E1. cbn [mbind outcome_bind]. by rewrite E2.
Qed.

(** The same when it is filled only if it is new. *)
Lemma open_metatable_once tag (c : lua unit) es h P s lim :
  metas tag = Some es -> fills 10 c es tt -> NoDup es.*1 -> loaded metas h P -> zlen s + 12 <= lim ->
  exists h' P' mt,
    (forall k : lua Z, (new ← luaL_newmetatable tag; (if new : bool then c else mret tt);; k) (LuaState h s lim)
                       = k (LuaState h' (VTable mt :: s) lim)) /\
    loaded metas h' P' /\ keeps metas h P h' P' /\ metatable h' P' tag es mt.
Proof.
  intros Htag Hc Hnd W Hl. destruct (proj1 (elem_of_dom _ _) (loaded_registry _ _ _ W)) as [R HR].
  destruct (newmetatable_spec tag h s lim R HR) as (new & h1 & mt & tb & E1 & _ & _ & _ & _ & Hnew);
    [by eapply loaded_registered|lia|].
  destruct new.
  - destruct (open_metatable tag c es h P s lim Htag Hc Hnd W Hl) as (h2 & P2 & mt2 & E2 & HE).
    exists h2, P2, mt2. split; [|done]. intros k. rewrite <- E2. unfold mbind, lua_bind. by rewrite E1.
  - destruct Hnew as [-> Er]. exists h, P, mt. split_and!; [|done|by apply keeps_refl|].
    + intros k. unfold mbind, lua_bind. by rewrite E1.
    + destruct (loaded_metas _ _ _ W tag es Htag) as [E|[mt' M]]; [by rewrite Er in E|].
      pose proof M as [E _]. rewrite Er in E. by injection E as ->.
Qed.

(** ** Each function *)

(** Opening a module keeps the invariant and what is loaded, builds the library, and
    registers the metatable. *)
Definition opens (m : module) : Prop := forall h P s lim,
  loaded metas h P -> room s lim ->
  exists h' P' t s',
    luaopen m (LuaState h s lim) = Done (1, LuaState h' (VTable t :: s') lim) /\
    loaded metas h' P' /\ keeps metas h P h' P' /\ (t ∉ P) /\ library h' P' (exports_of m) t /\
    (forall tag es, tag_of m = Some tag -> metas tag = Some es -> exists mt, metatable h' P' tag es mt).

(** A function that only builds a library. *)
Lemma opens_library m narr nrec c :
  (forall st, luaopen m st = (lua_createtable narr nrec;; c) st) -> fills 10 c (exports_of m) 1 ->
  tag_of m = None -> opens m.
Proof.
  intros Em Hc Ht h P s lim W Hl.
  destruct (open_table narr nrec c _ h P s lim Hc W) as (h' & P' & t & E & HE); [unfold LUA_MINSTACK in *; lia|].
  exists h', P', t, s. rewrite Em, Ht. destruct HE as (? & ? & ? & ?). by split_and!.
Qed.

(** A function that builds a library after its metatable; [s'] is what is on the stack
    between. *)
Lemma opens_after_metatable m tag es narr nrec c h P s lim h1 P1 mt s' :
  tag_of m = Some tag -> metas tag = Some es -> fills 10 c (exports_of m) 1 ->
  keeps metas h P h1 P1 -> loaded metas h1 P1 -> metatable h1 P1 tag es mt -> zlen s' + 12 <= lim ->
  luaopen m (LuaState h s lim) = (lua_createtable narr nrec;; c) (LuaState h1 s' lim) ->
  exists h' P' t s',
    luaopen m (LuaState h s lim) = Done (1, LuaState h' (VTable t :: s') lim) /\
    loaded metas h' P' /\ keeps metas h P h' P' /\ (t ∉ P) /\ library h' P' (exports_of m) t /\
    (forall tag es, tag_of m = Some tag -> metas tag = Some es -> exists mt, metatable h' P' tag es mt).
Proof.
  intros Ht He Hc K W M Hl Em.
  destruct (open_table narr nrec c _ h1 P1 s' lim Hc W Hl) as (h' & P' & t & E & W' & K' & Hn & Hlib).
  exists h', P', t, s'. rewrite Em. split_and!; [exact E|done|by eapply keeps_trans|by intros ?%(keeps_sub _ _ _ _ _ K)|done|].
  intros tag' es' Ht' He'. rewrite Ht in Ht'. injection Ht' as <-. rewrite He in He'. injection He' as <-.
  exists mt. apply (loaded_metatable metas); [done|done|]. by apply (keeps_tags _ _ _ _ _ K' tag es), M.
Qed.

Lemma opens_ringbuffer : opens Ringbuffer.
Proof.
  intros h P s lim W Hl. unfold LUA_MINSTACK in Hl.
  destruct (open_metatable_once ringbuffer_mt rb_metatable ring_meta h P s lim) as (h1 & P1 & mt & E & W1 & K1 & M1);
    [done|apply ring_meta_fills|by_decision|done|lia|].
  destruct (opens_after_metatable Ringbuffer ringbuffer_mt ring_meta 0 1
      (lua_pushcfunction "ringbuffer.c" "rb_new";; lua_setfield (-2) "new";; mret 1)
      h P s lim h1 P1 mt (VTable mt :: s)) as (h' & P' & t & s' & HE); try done.
  - fill.
  - unfold zlen in *; cbn [length]; lia.
  - cbn [luaopen]. unfold luaopen_prosody_util_ringbuffer. by rewrite checkversion_bind, E.
  - by exists h', P', t, s'.
Qed.

Lemma opens_poll : opens Poll.
Proof.
  intros h P s lim W Hl. unfold LUA_MINSTACK in Hl.
  assert (Hm : metas STATE_MT = Some poll_meta) by (unfold metas, STATE_MT, POLL_BACKEND; by destruct backend).
  destruct (open_metatable STATE_MT poll_metatable poll_meta h P s lim) as (h1 & P1 & mt & E & W1 & K1 & M1);
    [done|apply poll_meta_fills|unfold poll_meta; destruct use_epoll; by_decision|done|lia|].
  destruct (opens_after_metatable Poll STATE_MT poll_meta 0 3
      (lua_pushcfunction "poll.c" "Lnew";; lua_setfield (-2) "new";;
       push_errno EEXIST "EEXIST";; push_errno EMFILE "EMFILE";; push_errno ENOENT "ENOENT";;
       lua_pushliteral POLL_BACKEND;; lua_setfield (-2) "api";; mret 1)
      h P s lim h1 P1 mt (VTable mt :: s)) as (h' & P' & t & s' & HE); try done.
  - apply fills_push; [lia|done|]. apply (fills_seq _ _ _ _ [("EEXIST", Val (VInt EEXIST))]%string); [apply fills_last; [lia|done]|].
    apply (fills_seq _ _ _ _ [("EMFILE", Val (VInt EMFILE))]%string); [apply fills_last; [lia|done]|].
    apply (fills_seq _ _ _ _ [("ENOENT", Val (VInt ENOENT))]%string); [apply fills_last; [lia|done]|]. fill.
  - unfold zlen in *; cbn [length]; lia.
  - cbn [luaopen]. unfold luaopen_prosody_util_poll. by rewrite checkversion_bind, E.
  - by exists h', P', t, s'.
Qed.

Lemma opens_crypto : opens Crypto.
Proof.
  intros h P s lim W Hl. unfold LUA_MINSTACK in Hl.
  assert (Hm : metas PKEY_MT_TAG = Some key_meta) by (unfold metas, STATE_MT, POLL_BACKEND; by destruct backend).
  destruct (open_metatable PKEY_MT_TAG pkey_metatable key_meta h P s lim) as (h1 & P1 & mt & E & W1 & K1 & M1);
    [done|apply key_meta_fills|by_decision|done|lia|].
  destruct (opens_after_metatable Crypto PKEY_MT_TAG key_meta 0 0
      (luaL_setfuncs "crypto.c" Reg_crypto;; set_versions;; mret 1)
      h P s lim h1 P1 mt s) as (h' & P' & t & s' & HE); try done.
  - apply fills_seq; [apply fills_setfuncs; lia|]. rewrite <- (app_nil_r versions).
    apply fills_seq; [apply set_versions_fills|fill].
  - lia.
  - cbn [luaopen]. unfold luaopen_prosody_util_crypto. rewrite checkversion_bind, E.
    by rewrite (bind_done _ _ _ _ _ (pop_one _ _ _ _)).
  - by exists h', P', t, s'.
Qed.

Lemma exports_of_vals h h' l : exports h h' (vals l) l.
Proof. induction l as [|[k v] l IH]; by constructor. Qed.

(** The loop of signal.c fills the table of the registry and that of the library. *)
Lemma signal_loop_done l h u t ub tb x s lim :
  h !! u = Some ub -> h !! t = Some tb -> u <> t -> zlen s + 5 <= lim ->
  signal_loop l (LuaState h (VTable u :: x :: VTable t :: s) lim) =
  Done (tt, LuaState (<[t := assign (fields_of l) tb]> (<[u := assign (fields_of l) ub]> h)) (VTable u :: x :: VTable t :: s) lim).
Proof.
  intros Hu Ht Hut Hl. revert h ub tb Hu Ht. induction l as [|[name sig] l IH]; intros h ub tb Hu Ht.
  - cbn. unfold mret, lua_ret. rewrite (insert_id h u) by done. by rewrite insert_id.
  - cbn [signal_loop]. unfold mbind, lua_bind, lua_pushstring, lua_pushinteger.
    do 2 (rewrite push_done by (unfold zlen in *; cbn [length]; lia); cbn [mbind outcome_bind]).
    rewrite (settable_string _ h _ name _ lim u ub) by done. cbn [mbind outcome_bind].
    do 2 (rewrite push_done by (unfold zlen in *; cbn [length]; lia); cbn [mbind outcome_bind]).
    rewrite (settable_string _ _ _ name _ lim t tb) by (rewrite ?lookup_insert_ne by done; done).
    cbn [mbind outcome_bind].
    rewrite (IH _ (<[inr name := VInt sig]> ub) (<[inr name := VInt sig]> tb)).
    + cbn. do 2 f_equal. f_equal. rewrite (insert_insert_ne _ u t) by done. by rewrite !insert_insert_eq.
    + rewrite lookup_insert_ne by done. by rewrite lookup_insert_eq.
    + by rewrite lookup_insert_eq.
Qed.

(** The two tables that signal.c builds, and the entry it makes in the registry. *)
Lemma build_signals l h R s lim :
  h !! registry = Some R -> zlen s + 12 <= lim ->
  exists h' t u,
    (lua_newtable;; luaL_setfuncs "signal.c" lsignal_lib;; lua_pushstring LUA_SIGNAL;; lua_newtable;;
     signal_loop l;; lua_settable LUA_REGISTRYINDEX;; mret (M := lua) 1) (LuaState h s lim)
    = Done (1, LuaState (<[registry := <[inr LUA_SIGNAL := VTable u]> R]> h') (VTable t :: s) lim) /\
    (t ∉ dom h) /\ registry <> t /\ registry <> u /\ (forall w x, h !! w = Some x -> h' !! w = Some x) /\
    h' !! t = Some (assign (functions "signal.c" lsignal_lib ++ fields_of l) ∅) /\
    h' !! u = Some (assign (fields_of l) ∅).
Proof.
  intros HR Hl. pose proof (createtable_done h s lim 0 0 ltac:(lia)) as Et.
  set (t := fresh (dom h)) in Et. assert (Ht : t ∉ dom h) by apply is_fresh. clearbody t.
  destruct (fills_setfuncs 10 "signal.c" lsignal_lib ltac:(lia) (<[t := ∅]> h) s lim t ∅) as (h2 & fs & E2 & X2 & T2 & F2);
    [by rewrite lookup_insert_eq|lia|]. apply exports_vals in F2 as ->.
  pose proof (createtable_done h2 (literal LUA_SIGNAL :: VTable t :: s) lim 0 0
                ltac:(unfold zlen in *; cbn [length]; lia)) as Eu.
  set (u := fresh (dom h2)) in Eu. assert (Hu : u ∉ dom h2) by apply is_fresh. clearbody u.
  assert (Hut : u <> t) by (intros ->; apply Hu, elem_of_dom; by eexists).
  assert (Hrt : registry <> t) by (intros <-; apply Ht, elem_of_dom; by eexists).
  assert (X : forall w x, h !! w = Some x -> h2 !! w = Some x).
  { intros w x Hw. assert (w <> t) by (intros ->; apply Ht, elem_of_dom; by eexists).
    apply X2; [by rewrite lookup_insert_ne|done]. }
  assert (Hru : registry <> u) by (intros <-; apply Hu, elem_of_dom; eexists; by apply X).
  pose proof (signal_loop_done l (<[u := ∅]> h2) u t ∅ (assign (functions "signal.c" lsignal_lib) ∅)
    (literal LUA_SIGNAL) s lim ltac:(by rewrite lookup_insert_eq) ltac:(by rewrite lookup_insert_ne) Hut ltac:(lia)) as E3.
  exists (<[t := assign (functions "signal.c" lsignal_lib ++ fields_of l) ∅]> (<[u := assign (fields_of l) ∅]> h2)), t, u.
  rewrite <- assign_app, insert_insert_eq in E3. set (h3 := <[t := assign (_ ++ _) ∅]> _) in *.
  assert (HR3 : h3 !! registry = Some R) by (unfold h3; rewrite !lookup_insert_ne by done; by apply X).
  split_and!; [|done|done|done| | |].
  - rewrite (bind_done _ _ _ _ _ Et), (bind_done _ _ _ _ _ E2).
    rewrite (bind_done _ _ _ _ _ (push_done h2 (VTable t :: s) lim (literal LUA_SIGNAL)
              ltac:(unfold zlen in *; cbn [length]; lia))), (bind_done _ _ _ _ _ Eu), (bind_done _ _ _ _ _ E3).
    clearbody h3.
    assert (Es : lua_settable LUA_REGISTRYINDEX (LuaState h3 (VTable u :: literal LUA_SIGNAL :: VTable t :: s) lim)
                 = Done (tt, LuaState (<[registry := <[inr LUA_SIGNAL := VTable u]> R]> h3) (VTable t :: s) lim))
      by by apply settable_string.
    by rewrite (bind_done _ _ _ _ _ Es).
  - intros w x Hw. assert (w <> t) by (intros ->; apply Ht, elem_of_dom; by eexists).
    assert (w <> u) by (intros ->; apply Hu, elem_of_dom; eexists; by apply X).
    unfold h3. rewrite !lookup_insert_ne by done. by apply X.
  - unfold h3. by rewrite lookup_insert_eq.
  - unfold h3. rewrite lookup_insert_ne by done. by rewrite lookup_insert_eq.
Qed.

(** The library of signal.c and the table of the registry. *)
Lemma open_signals l h P s lim :
  loaded metas h P -> zlen s + 12 <= lim ->
  exists h' P' t u,
    (lua_newtable;; luaL_setfuncs "signal.c" lsignal_lib;; lua_pushstring LUA_SIGNAL;; lua_newtable;;
     signal_loop l;; lua_settable LUA_REGISTRYINDEX;; mret (M := lua) 1) (LuaState h s lim)
    = Done (1, LuaState h' (VTable t :: s) lim) /\
    loaded metas h' P' /\ keeps metas h P h' P' /\ (t ∉ P) /\
    library h' P' (fns "signal.c" lsignal_lib ++ vals (fields_of l)) t /\
    raw_get h' registry (inr LUA_SIGNAL) = VTable u /\ h' !! u = Some (assign (fields_of l) ∅).
Proof.
  intros W Hl. destruct (proj1 (elem_of_dom _ _) (loaded_registry _ _ _ W)) as [R HR].
  destruct (build_signals l h R s lim HR Hl) as (h3 & t & u & E & Ht & Hrt & Hru & H3 & Ht3 & Hu3).
  pose (h4 := <[registry := <[inr LUA_SIGNAL := VTable u]> R]> h3).
  destruct (load_library metas h P h4 (fns "signal.c" lsignal_lib ++ vals (fields_of l)) t
              (functions "signal.c" lsignal_lib ++ fields_of l) W) as (W' & K & Hlib).
  - intros w x Hw Hr. unfold h4. rewrite lookup_insert_ne by done. by apply H3.
  - apply elem_of_dom. eexists. unfold h4. by rewrite lookup_insert_eq.
  - intros tag es' Htag. unfold raw_get, h4. rewrite lookup_insert_eq, HR. cbn [mbind option_bind].
    rewrite lookup_insert_ne; [done|]. intros [= <-]. revert Htag. unfold metas, STATE_MT, POLL_BACKEND. by destruct backend.
  - done.
  - unfold h4. by rewrite lookup_insert_ne.
  - apply Forall2_app; apply exports_of_vals.
  - exists h4, (P ∪ (dom h4 ∖ dom h)), t, u. split_and!; [exact E|done|done| |done| |].
    + intros Hin. by apply Ht, (loaded_dom _ _ _ W).
    + unfold raw_get, h4. rewrite lookup_insert_eq. cbn. by rewrite lookup_insert_eq.
    + unfold h4. by rewrite lookup_insert_ne.
Qed.

Lemma opens_signal_registry h P s lim :
  loaded metas h P -> room s lim ->
  exists h' P' t u,
    luaopen Signal_ (LuaState h s lim) = Done (1, LuaState h' (VTable t :: s) lim) /\
    loaded metas h' P' /\ keeps metas h P h' P' /\ (t ∉ P) /\ library h' P' (exports_of Signal_) t /\
    (exists mt, metatable h' P' "signalfd" signalfd_meta mt) /\
    raw_get h' registry (inr LUA_SIGNAL) = VTable u /\ h' !! u = Some (assign (fields_of lua_signals) ∅).
Proof.
  intros W Hl. unfold LUA_MINSTACK in Hl.
  assert (Hm : metas "signalfd" = Some signalfd_meta) by (unfold metas, STATE_MT, POLL_BACKEND; by destruct backend).
  destruct (open_metatable "signalfd" signalfd_metatable signalfd_meta h P s lim) as (h1 & P1 & mt & E & W1 & K1 & M1);
    [done|apply signalfd_meta_fills|by_decision|done|lia|].
  destruct (open_signals lua_signals h1 P1 s lim W1) as (h' & P' & t & u & E' & W' & K' & Hn & Hlib & Er & Hu); [lia|].
  exists h', P', t, u. split_and!; [|done|by eapply keeps_trans| |done| |done|done].
  - cbn [luaopen]. unfold luaopen_prosody_util_signal. rewrite checkversion_bind, E.
    rewrite (bind_done _ _ _ _ _ (pop_one _ _ _ _)). exact E'.
  - by intros ?%(keeps_sub _ _ _ _ _ K1).
  - exists mt. apply (loaded_metatable metas); [done|done|].
    by apply (keeps_tags _ _ _ _ _ K' "signalfd"%string signalfd_meta), M1.
Qed.

(** The functions that only build a library. *)
Lemma opens_setfuncs m file l narr nrec :
  (forall st, luaopen m st = (lua_createtable narr nrec;; luaL_setfuncs file l;; mret (M := lua) 1) st) ->
  exports_of m = fns file l -> tag_of m = None -> opens m.
Proof.
  intros Em Ee Ht. eapply opens_library; [exact Em| |done]. rewrite Ee. apply fills_end, fills_setfuncs. lia.
Qed.

Lemma opens_struct : opens Struct.
Proof.
  apply (opens_library Struct 0 (zlen thislib) (luaL_setfuncs "struct.c" thislib;; mret 1)); [|apply fills_end, fills_setfuncs; lia|done].
  intros st. cbn [luaopen]. unfold luaopen_prosody_util_struct, luaL_newlib. by rewrite bind_assoc, checkversion_bind, bind_assoc.
Qed.

Lemma opens_hashes : opens Hashes.
Proof.
  apply (opens_library Hashes 0 0 (luaL_setfuncs "hashes.c" Reg_hashes;; set_versions;; mret 1)); [done| |done].
  apply fills_seq; [apply fills_setfuncs; lia|apply fills_end, set_versions_fills].
Qed.

Lemma opens_pposix : opens Pposix.
Proof.
  eapply (opens_library Pposix 0 0); [intros st; apply checkversion_bind| |done]. by fill.
Qed.

Lemma opens_encodings : opens Encodings.
Proof.
  eapply (opens_library Encodings 0 0); [intros st; apply checkversion_bind| |done].
  cbn [exports_of app]. do 4 (apply fills_table; [lia|apply fills_setfuncs; lia|]).
  apply fills_seq; [|fill]. destruct use_stringprep_icu; fill.
Qed.

Lemma luaopen_opens m : opens m.
Proof.
  destruct m.
  - by apply (opens_setfuncs _ "strbitop.c" exports_strbitop 0 0).
  - eapply (opens_library Table_ 0 2); [intros st; apply checkversion_bind|fill|done].
  - apply opens_struct.
  - by apply (opens_setfuncs _ "net.c" exports_net 0 1).
  - eapply (opens_library Crand 0 2); [intros st; apply checkversion_bind|fill|done].
  - eapply (opens_library Compat 0 2); [done|fill|done].
  - eapply (opens_library Time 0 2); [done|fill|done].
  - apply opens_hashes.
  - apply opens_crypto.
  - apply opens_pposix.
  - apply opens_encodings.
  - apply opens_ringbuffer.
  - apply opens_poll.
  - intros h P s lim W Hl.
    destruct (opens_signal_registry h P s lim W Hl) as (h' & P' & t & u & E & W' & K & Hn & Hlib & [mt M] & _).
    exists h', P', t, s. split_and!; try done. intros tag es [= <-].
    assert (metas "signalfd" = Some signalfd_meta) as -> by (unfold metas, STATE_MT, POLL_BACKEND; by destruct backend).
    intros [= <-]. by exists mt.
  - eapply (opens_library Windows_ 0 0); [intros st; apply checkversion_bind|fill|done].
Qed.

(** ** Any sequence of loads *)

Lemma call_open_done m args h P :
  loaded metas h P ->
  exists t h' P', call_open m args h = Done ([VTable t], h') /\ loaded metas h' P' /\ keeps metas h P h' P' /\
    (t ∉ P) /\ library h' P' (exports_of m) t /\
    (forall tag es, tag_of m = Some tag -> metas tag = Some es -> exists mt, metatable h' P' tag es mt).
Proof.
  intros W. destruct (luaopen_opens m h P (reverse args) (zlen args + LUA_MINSTACK) W) as (h' & P' & t & s' & E & HE).
  { unfold zlen. by rewrite length_reverse. }
  exists t, h', P'. split; [|done]. unfold call_open. by rewrite E.
Qed.

(** Before any module is loaded. *)
Lemma loaded_start h :
  registry ∈ dom h -> (forall tag es, metas tag = Some es -> raw_get h registry (inr tag) = VNil) ->
  loaded metas h (dom h ∖ {[registry]}).
Proof.
  intros HR Hn. split; [done|set_solver|set_solver|left; by eapply Hn|]. intros tag es tag' es' mt Ht _ E.
  by rewrite (Hn tag es Ht) in E.
Qed.

Lemma load_done calls h P :
  loaded metas h P -> exists ts h' P',
    load calls h = Done ((fun t => [VTable t]) <$> ts, h') /\ loaded metas h' P' /\ keeps metas h P h' P' /\
    Forall2 (fun c t => library h' P' (exports_of c.1) t) calls ts /\ NoDup ts /\ (forall t, t ∈ ts -> t ∉ P) /\
    (forall m tag es, m ∈ calls.*1 -> tag_of m = Some tag -> metas tag = Some es ->
       exists mt, metatable h' P' tag es mt).
Proof.
  revert h P. induction calls as [|[m args] calls' IH]; intros h P W.
  - exists [], h, P. split_and!; try done; [constructor|set_solver|set_solver].
  - destruct (call_open_done m args h P W) as (t & h1 & P1 & E1 & W1 & K1 & Hn1 & L1 & M1).
    destruct (IH h1 P1 W1) as (ts & h2 & P2 & E2 & W2 & K2 & L2 & ND & Hn2 & M2).
    exists (t :: ts), h2, P2. split_and!.
    + cbn [load]. rewrite E1. cbn [mbind outcome_bind]. by rewrite E2.
    + done.
    + by eapply keeps_trans.
    + constructor; [|done]. by eapply library_keeps.
    + constructor; [|done]. intros Ht%Hn2. by apply Ht, L1.
    + intros t' [->|Ht]%elem_of_cons; [done|]. intros ?%(keeps_sub _ _ _ _ _ K1). by apply (Hn2 t').
    + intros m' tag es [->|Hm]%elem_of_cons Ht He; [|by eapply M2]. destruct (M1 tag es Ht He) as [mt M].
      exists mt. apply (loaded_metatable metas); [done|done|]. by apply (keeps_tags _ _ _ _ _ K2 tag es), M.
Qed.

(** C13. The modules can be loaded in any order and any number of times.  Each call returns
    a new table with exactly the exports of its module, in the 20 slots a C function has;
    in the end all these tables have their exports and the metatables of the modules that
    were loaded their methods, whatever was loaded in between, and no other table of the
    program has changed but the registry. *)
Theorem modules_load calls h :
  registry ∈ dom h -> (forall tag es, metas tag = Some es -> raw_get h registry (inr tag) = VNil) ->
  exists ts h' P,
    load calls h = Done ((fun t => [VTable t]) <$> ts, h') /\
    Forall2 (fun c t => library h' P (exports_of c.1) t) calls ts /\ NoDup ts /\
    (forall m tag es, m ∈ calls.*1 -> tag_of m = Some tag -> metas tag = Some es ->
       exists mt, metatable h' P tag es mt) /\
    (forall u, u ∈ dom h -> u <> registry -> (u ∉ ts) /\ h' !! u = h !! u).
Proof.
  intros HR Hn.
  destruct (load_done calls h _ (loaded_start h HR Hn)) as (ts & h' & P & E & W & K & L & ND & Hn' & M).
  exists ts, h', P. split_and!; try done. intros u Hu Hr. split.
  - intros Ht%Hn'. set_solver.
  - apply (keeps_same _ _ _ _ _ K). set_solver.
Qed.

(** ** Methods *)

(** What [obj:name] is, for an object whose metatable has the name [tname]. *)
Definition method (h : store) (tname name : string) : value :=
  match raw_get h registry (inr tname) with
  | VTable mt =>
      match raw_get h mt (inr "__index"%string) with
      | VTable index => raw_get h index (inr name)
      | _ => VNil
      end
  | _ => VNil
  end.

(** The definitions of the static functions of ringbuffer.c that are methods. *)
Definition rb_functions `{LuaAux} (fuel : nat)
    : list (string * (list value -> RingBuffer.ringbuffer -> outcome (RingBuffer.ringbuffer * list value))) :=
  [("rb_find", RingBuffer.rb_find fuel); ("rb_discard", RingBuffer.rb_discard); ("rb_read", RingBuffer.rb_read);
   ("rb_readuntil", RingBuffer.rb_readuntil fuel); ("rb_write", RingBuffer.rb_write); ("rb_size", RingBuffer.rb_size);
   ("rb_length", RingBuffer.rb_length); ("rb_sub", RingBuffer.rb_sub); ("rb_byte", RingBuffer.rb_byte);
   ("rb_free", RingBuffer.rb_free)].

Lemma metatable_method h P tag es mt index name v :
  metatable h P tag es mt -> ("__index", Sub index)%string ∈ es -> NoDup index.*1 -> (name, v) ∈ index ->
  method h tag name = v.
Proof.
  intros (E & _ & _ & tb & Htb & F) Hes Hnd Hin. destruct (F _ _ Hes) as (w & Hw & u & -> & _ & Hu).
  unfold method. rewrite E. rewrite (lookup_raw_get _ _ tb _ Htb), Hw. cbn [from_option id].
  rewrite (lookup_raw_get _ _ _ _ Hu). by rewrite (assign_lookup _ _ _ v).
Qed.

(** C32. The methods of the ring buffers are the functions that are verified under these
    names: however the modules are loaded, looking the name of a method up through the
    metatable gives the address of the function whose definition [rb_index] has for it. *)
Theorem ring_methods_reached `{LuaAux} calls h rs h' fuel name f :
  registry ∈ dom h -> (forall tag es, metas tag = Some es -> raw_get h registry (inr tag) = VNil) ->
  load calls h = Done (rs, h') -> Ringbuffer ∈ calls.*1 -> (name, f) ∈ RingBuffer.rb_index fuel ->
  exists symbol, method h' RingBuffer.ringbuffer_mt name = VFun (c_function "ringbuffer.c" symbol) /\
    (symbol, f) ∈ rb_functions fuel.
Proof.
  intros HR Hn E Hin Hf.
  destruct (load_done calls h _ (loaded_start h HR Hn)) as (ts & h2 & P' & E2 & _ & _ & _ & _ & _ & M).
  rewrite E in E2. injection E2 as -> <-.
  destruct (M Ringbuffer ringbuffer_mt ring_meta Hin) as [mt Hmt]; [done|done|].
  assert (Hm : forall symbol, (name, symbol) ∈ [("find", "rb_find"); ("discard", "rb_discard"); ("read", "rb_read");
     ("readuntil", "rb_readuntil"); ("write", "rb_write"); ("size", "rb_size"); ("length", "rb_length"); ("sub", "rb_sub");
     ("byte", "rb_byte"); ("free", "rb_free")]%string ->
     method h' ringbuffer_mt name = VFun (c_function "ringbuffer.c" symbol)).
  { intros symbol Hs. apply (metatable_method h' P' ringbuffer_mt ring_meta mt ring_methods); [done| | |].
    - unfold ring_meta. set_solver.
    - by_decision.
    - unfold ring_methods, functions. apply list_elem_of_fmap. by exists (name, symbol). }
  unfold RingBuffer.rb_index, rb_functions in *. change RingBuffer.ringbuffer_mt with ringbuffer_mt.
  repeat (apply elem_of_cons in Hf as [Hf|Hf];
    [injection Hf as -> ->; eexists; split; [apply Hm|];
       solve [repeat first [apply list_elem_of_here | apply list_elem_of_further]]|]).
  by apply not_elem_of_nil in Hf.
Qed.

(** ** Signals by name *)

Lemma string_bytes_inj s s' : string_bytes s = string_bytes s' -> s = s'.
Proof. intros E. rewrite <- (byte_string_literal s), <- (byte_string_literal s'). by rewrite E. Qed.

Lemma fields_of_lookup (l : list (string * Z)) (tb : table) (m : gmap bytes Z) :
  (forall name : string, tb !! inr name = VInt <$> m !! string_bytes name) ->
  forall name : string, assign (fields_of l) tb !! inr name =
    VInt <$> foldl (fun t '(name, sig) => <[string_bytes name := sig]> t) m l !! string_bytes name.
Proof.
  revert tb m. induction l as [|[k sig] l IH]; intros tb m Hm name; [apply Hm|]. cbn [fields_of fmap list_fmap foldl].
  rewrite assign_cons. apply IH. intros name'. destruct (decide (k = name')) as [->|Hk].
  - by rewrite !lookup_insert_eq.
  - rewrite !lookup_insert_ne; [apply Hm| |]; [by intros ?%string_bytes_inj|by intros [= ->]].
Qed.

Lemma assign_int (l : list (string * value)) (tb : table) (n : Z) : assign l tb !! inl n = tb !! inl n.
Proof. revert tb. induction l as [|[k v] l IH]; intros tb; [done|]. by rewrite assign_cons, IH, lookup_insert_ne. Qed.

(** C33. Loading the signal module gives the table LUA_SIGNAL of the registry the names that
    [signal_table] has, with their numbers, and no handlers: those that were installed
    before it is loaded again are gone. *)
Theorem signal_table_registered h P args :
  loaded metas h P ->
  exists t h' u, call_open Signal_ args h = Done ([VTable t], h') /\
    raw_get h' registry (inr LUA_SIGNAL) = VTable u /\
    (forall name, raw_get h' u (inr name) = default VNil (VInt <$> signal_table !! string_bytes name)) /\
    (forall sig, raw_get h' u (inl sig) = VNil).
Proof.
  intros W.
  destruct (opens_signal_registry h P (reverse args) (zlen args + LUA_MINSTACK) W) as (h' & P' & t & u & E & _ & _ & _ & _ & _ & Er & Hu).
  { unfold zlen. by rewrite length_reverse. }
  exists t, h', u. split_and!.
  - unfold call_open. by rewrite E.
  - done.
  - intros name. rewrite (lookup_raw_get _ _ _ _ Hu). f_equal. by apply fields_of_lookup.
  - intros sig. by rewrite (lookup_raw_get _ _ _ _ Hu), assign_int.
Qed.

End loading.

(** ** Witnesses *)

#[local] Instance linux_config : Config :=
  {| backend := USE_EPOLL; random_source := WITH_GETRANDOM; use_stringprep_icu := true; with_mallinfo := true;
     openssl_version := Some "OpenSSL 3.0.0"%string |}.
#[local] Existing Instances lua_strict linux_errors linux_signals.

(** A program with one table of its own. *)
Definition start_store : store := <[registry := ∅]> {[ 5 := {[ inl 1 := VInt 1 ]} ]}.
Definition some_calls : list (module * list value) :=
  [(Ringbuffer, [literal "util.ringbuffer"]); (Poll, []); (Signal_, []); (Ringbuffer, []); (Encodings, []); (Crypto, [])].

Lemma start_store_ok : registry ∈ dom start_store /\
  forall tag es, metas tag = Some es -> raw_get start_store registry (inr tag) = VNil.
Proof. split; [by_decision|]. intros tag es _. unfold start_store. by rewrite raw_get_insert. Qed.

Lemma modules_load_witness : exists ts h' P,
  load some_calls start_store = Done ((fun t => [VTable t]) <$> ts, h') /\
  Forall2 (fun c t => library h' P (exports_of c.1) t) some_calls ts /\ NoDup ts /\
  (forall m tag es, m ∈ some_calls.*1 -> tag_of m = Some tag -> metas tag = Some es ->
     exists mt, metatable h' P tag es mt) /\
  (forall u, u ∈ dom start_store -> u <> registry -> (u ∉ ts) /\ h' !! u = start_store !! u).
Proof. apply (modules_load some_calls start_store); apply start_store_ok. Defined.

Lemma ring_methods_reached_witness :
  match load some_calls start_store with
  | Done (_, h') =>
      exists symbol, method h' RingBuffer.ringbuffer_mt "sub" = VFun (c_function "ringbuffer.c" symbol) /\
        (symbol, RingBuffer.rb_sub) ∈ rb_functions 10
  | _ => False
  end.
Proof.
  destruct (load_done some_calls start_store _ (loaded_start _ (proj1 start_store_ok) (proj2 start_store_ok)))
    as (ts & h' & P & E & _). rewrite E.
  apply (ring_methods_reached some_calls start_store _ h' 10 "sub" RingBuffer.rb_sub (proj1 start_store_ok) (proj2 start_store_ok) E).
  - apply list_elem_of_here.
  - unfold RingBuffer.rb_index. repeat first [apply list_elem_of_here | apply list_elem_of_further].
Defined.

Lemma signal_table_registered_witness :
  exists t h' u, call_open Signal_ [literal "util.signal"] start_store = Done ([VTable t], h') /\
    raw_get h' registry (inr LUA_SIGNAL) = VTable u /\
    (forall name, raw_get h' u (inr name) = default VNil (VInt <$> signal_table !! string_bytes name)) /\
    (forall sig, raw_get h' u (inl sig) = VNil).
Proof.
  apply (signal_table_registered start_store (dom start_store ∖ {[registry]}) [literal "util.signal"]).
  apply loaded_start; apply start_store_ok.
Defined.
