(* ===== verification/Resources.v ===== *)
(** * Objects of the libraries that must be freed, and util-src/managed_pointer.h

    A pool says which objects a library has handed out and not got back yet.  The monad
    [own] is [outcome] with such a pool, which an error raised through Lua does not undo;
    freeing an object twice, or with the function of another type, is undefined.  The
    second part models managed_pointer.h, which gives such objects to the garbage
    collector: whatever is allocated, fails and is collected, in any order, each object is
    freed once, by the function of its type. *)

From stdpp Require Import base tactics numbers list strings gmap.
From Stdlib Require Import ZArith Lia.
From S2P Require Import Prelude LuaApi.

Local Open Scope Z_scope.

(** ** Owned objects *)

(** The types of the objects; each has a function that frees it. *)
Inductive resource :=
  | EVP_MD_CTX | EVP_PKEY_CTX | EVP_CIPHER_CTX | BIO | OSSL_PARAM_BLD | OSSL_PARAM | ECDSA_SIG | IFADDRS | IDN_STRING.

#[export] Instance resource_eq_dec : EqDecision resource.
Proof. solve_decision. Defined.

Abbreviation pool := (gmap Z resource).
Definition null : Z := 0.

(** The pool is there whatever the outcome. *)
Definition own (A : Type) : Type := pool -> outcome A * pool.

#[export] Instance own_ret : MRet own := fun A a P => (Done a, P).
#[export] Instance own_bind : MBind own := fun A B f m P =>
  match m P with
  | (Done a, P) => f a P
  | (Raise e, P) => (Raise e, P)
  | (Undef u, P) => (Undef u, P)
  end.

(** A computation that does not touch the pool. *)
Definition lift {A} (m : outcome A) : own A := fun P => (m, P).

(** A pointer that is not in use. *)
Definition new_pointer (P : pool) : Z := fresh ({[null]} ∪ dom P).

(** A library returns an object with its contents, or NULL. *)
Definition alloc {A} (r : resource) (a : option A) : own (Z * option A) := fun P =>
  match a with
  | Some a => (Done (new_pointer P, Some a), <[new_pointer P := r]> P)
  | None => (Done (null, None), P)
  end.

Definition release (r : resource) (p : Z) : own unit := fun P =>
  if decide (P !! p = Some r) then (Done tt, delete p P) else (Undef OutOfBounds, P).

(** The functions that free do nothing for NULL. *)
Definition free (r : resource) (p : Z) : own unit := if p =? null then mret tt else release r p.

(** ** Lemmas *)

Lemma new_pointer_fresh P : new_pointer P <> null /\ P !! new_pointer P = None.
Proof.
  pose proof (is_fresh ({[null]} ∪ dom P)) as E. fold (new_pointer P) in E. split; [set_solver|].
  apply not_elem_of_dom. set_solver.
Qed.

(** [m] does what [o] says and leaves the pool [P']; after undefined behaviour nothing is
    said of the pool. *)
Definition gives {A} (m : own A) (P : pool) (o : outcome A) (P' : pool) : Prop :=
  (m P).1 = o /\ (defined o -> (m P).2 = P').

(** It gives back all it took. *)
Definition tidy {A} (m : own A) (o : outcome A) : Prop := forall P, gives m P o P.

Lemma gives_intro {A} (m : own A) P o P' : m P = (o, P') -> gives m P o P'.
Proof. intros E. unfold gives. by rewrite E. Qed.

Lemma tidy_ret {A} (a : A) : tidy (mret a) (Done a).
Proof. done. Qed.

Lemma tidy_lift {A} (o : outcome A) : tidy (lift o) o.
Proof. done. Qed.

Lemma tidy_bind {A B} (m : own A) (f : A -> own B) o g :
  tidy m o -> (forall a, tidy (f a) (g a)) -> tidy (m ≫= f) (o ≫= g).
Proof.
  intros Hm Hf P. destruct (Hm P) as [E1 E2]. unfold gives, mbind, own_bind. destruct (m P) as [o' P'].
  cbn in E1, E2. subst o'. destruct o as [a|e|u]; cbn in *; [|by rewrite E2|done].
  rewrite E2 by done. apply Hf.
Qed.

Lemma tidy_lift_bind {A B} (o : outcome A) (f : A -> own B) g :
  (forall a, tidy (f a) (g a)) -> tidy (lift o ≫= f) (o ≫= g).
Proof. apply tidy_bind, tidy_lift. Qed.

Lemma gives_lift_bind {A B} (o : outcome A) (f : A -> own B) g P P' :
  (forall e, o <> Raise e) -> (forall a, gives (f a) P (g a) P') -> gives (lift o ≫= f) P (o ≫= g) P'.
Proof. intros He Hf. destruct o as [a|e|u]; [apply Hf|by destruct (He e)|done]. Qed.

Lemma bind_own {A B} (m : own A) (f : A -> own B) P a P' : m P = (Done a, P') -> (m ≫= f) P = f a P'.
Proof. intros E. unfold mbind, own_bind. by rewrite E. Qed.

Lemma release_done r p P : P !! p = Some r -> release r p P = (Done tt, delete p P).
Proof. intros E. unfold release. by rewrite decide_True. Qed.

Lemma free_done r p P : p <> null -> P !! p = Some r -> free r p P = (Done tt, delete p P).
Proof. intros Hp E. unfold free. rewrite (proj2 (Z.eqb_neq _ _)) by done. by apply release_done. Qed.

Lemma free_null r P : free r null P = (Done tt, P).
Proof. done. Qed.

(** A function that holds one object, whose rest gives it back. *)
Lemma gives_alloc {A B} r (a : option A) (f : Z * option A -> own B) o P P' :
  (a = None -> gives (f (null, None)) P o P') ->
  (forall x p, a = Some x -> p <> null -> P !! p = None -> gives (f (p, Some x)) (<[p := r]> P) o P') ->
  gives (alloc r a ≫= f) P o P'.
Proof.
  intros Hn Hs. unfold gives, mbind, own_bind, alloc. destruct a as [x|]; [|by apply Hn].
  destruct (new_pointer_fresh P). by apply Hs.
Qed.

Lemma gives_alloc_some {A B} r (a : A) (f : Z * option A -> own B) o P P' :
  gives (f (new_pointer P, Some a)) (<[new_pointer P := r]> P) o P' -> gives (alloc r (Some a) ≫= f) P o P'.
Proof. done. Qed.

(** Free the object on top. *)
Lemma free_last r p P : p <> null -> P !! p = None -> free r p (<[p := r]> P) = (Done tt, P).
Proof. intros Hp E. rewrite free_done by (rewrite ?lookup_insert_eq; done). by rewrite delete_insert_id. Qed.

Lemma release_last r p P : P !! p = None -> release r p (<[p := r]> P) = (Done tt, P).
Proof. intros E. rewrite release_done by (by rewrite lookup_insert_eq). by rewrite delete_insert_id. Qed.

Lemma skip_then {A} (k : own A) P : (mret (M := own) tt;; k) P = k P.
Proof. done. Qed.

(** Free it and go on. *)
Lemma free_last_then {A} r p P (k : own A) : p <> null -> P !! p = None -> (free r p;; k) (<[p := r]> P) = k P.
Proof. intros Hp E. by rewrite (bind_own _ _ _ _ _ (free_last r p P Hp E)). Qed.

Lemma release_last_then {A} r p P (k : own A) : P !! p = None -> (release r p;; k) (<[p := r]> P) = k P.
Proof. intros E. by rewrite (bind_own _ _ _ _ _ (release_last r p P E)). Qed.

(** ** Managed pointers *)

Module Managed.

(** [MANAGED_POINTER_ALLOCATOR(name, wrapped_type, wrapped_alloc, wrapped_free)]: the object
    that [wrapped_alloc] makes and the one that [wrapped_free] takes. *)
Record allocator := { name : string; wrapped_type : string; wrapped_alloc : resource; wrapped_free : resource }.

Definition MANAGED_POINTER_MT (wrapped_type : string) : string := wrapped_type +:+ "_managedptr_mt".

(** The userdata, with the names of their metatables and the pointers in them; what the
    metatables in the registry have as __gc; the objects in use. *)
Record state := { uds : gmap Z (string * Z); gc : gmap string resource; objects : pool }.

(** [_release_ ## name], for the userdata [ud]. *)
Definition _release (wrapped_free : resource) (ud : Z) (st : state) : outcome state :=
  match uds st !! ud with
  | None => Undef OutOfBounds
  | Some (_, p) =>
      if negb (p =? null) then
        match release wrapped_free p (objects st) with
        | (Done _, P) => Done {| uds := uds st; gc := gc st; objects := P |}
        | (Raise e, _) => Raise e
        | (Undef u, _) => Undef u
        end
      else Done st
  end.

(** [name(L)]: the pointer, or an error with the state it leaves; [mem] says whether
    [wrapped_alloc] succeeds. *)
Definition allocate (a : allocator) (mem : bool) (st : state) : outcome Z * state :=
  let ud := fresh (dom (uds st)) in
  let mt := MANAGED_POINTER_MT (wrapped_type a) in
  let gc' := match gc st !! mt with None => <[mt := wrapped_free a]> (gc st) | Some _ => gc st end in
  let '(p, P) := if mem then (new_pointer (objects st), <[new_pointer (objects st) := wrapped_alloc a]> (objects st))
                 else (null, objects st) in
  let st' := {| uds := <[ud := (mt, p)]> (uds st); gc := gc'; objects := P |} in
  (if p =? null then Raise (ErrorObject (string_bytes "not enough memory")) else Done p, st').

(** The collector calls the finalizer of the metatable, and the userdata is gone. *)
Definition collect (ud : Z) (st : state) : outcome state :=
  match uds st !! ud with
  | None => Undef OutOfBounds
  | Some (mt, _) =>
      st ← match gc st !! mt with Some f => _release f ud st | None => Done st end;
      Done {| uds := delete ud (uds st); gc := gc st; objects := objects st |}
  end.

Definition start : state := {| uds := ∅; gc := ∅; objects := ∅ |}.

(** What happens: calls of the allocators, and collections of userdata that exist. *)
Inductive step (allocators : list allocator) : state -> state -> Prop :=
  | step_allocate a mem st r st' :
      a ∈ allocators -> allocate a mem st = (r, st') -> step allocators st st'
  | step_collect ud st st' :
      is_Some (uds st !! ud) -> collect ud st = Done st' -> step allocators st st'.

Definition reachable allocators (st : state) : Prop := rtc (step allocators) start st.

(** Close the Lua state: collect what is left, in any order. *)
Fixpoint collect_all (l : list Z) (st : state) : outcome state :=
  match l with
  | [] => Done st
  | ud :: l => st ← collect ud st; collect_all l st
  end.

(** Allocators free what they make, and have a type each. *)
Definition compatible (allocators : list allocator) : Prop :=
  (forall a, a ∈ allocators -> wrapped_free a = wrapped_alloc a) /\
  (forall a b, a ∈ allocators -> b ∈ allocators -> wrapped_type a = wrapped_type b -> wrapped_alloc a = wrapped_alloc b).

(** Each pointer that is not NULL is in use, with the type that the finalizer frees; no two
    userdata have the same, and nothing else is in use. *)
Record inv (allocators : list allocator) (st : state) : Prop := {
  inv_gc mt f : gc st !! mt = Some f ->
    exists a, a ∈ allocators /\ mt = MANAGED_POINTER_MT (wrapped_type a) /\ f = wrapped_free a;
  inv_uds ud mt p : uds st !! ud = Some (mt, p) ->
    exists f, gc st !! mt = Some f /\ (p <> null -> objects st !! p = Some f);
  inv_distinct ud ud' mt mt' p : uds st !! ud = Some (mt, p) -> uds st !! ud' = Some (mt', p) -> p <> null -> ud = ud';
  inv_owned p r : objects st !! p = Some r -> p <> null /\ exists ud mt, uds st !! ud = Some (mt, p);
}.

Lemma app_string_inj (s1 s2 t : string) : s1 +:+ t = s2 +:+ t -> s1 = s2.
Proof.
  assert (Happ : forall a b, String.list_ascii_of_string (a +:+ b) = String.list_ascii_of_string a ++ String.list_ascii_of_string b).
  { intros a b. induction a as [|c a IH]; [done|]. cbn. by rewrite <- IH. }
  intros E%(f_equal String.list_ascii_of_string). rewrite !Happ in E. apply app_inv_tail in E.
  by rewrite <- (String.string_of_list_ascii_of_string s1), E, String.string_of_list_ascii_of_string.
Qed.

Section managed.
Context (allocators : list allocator) (Hc : compatible allocators).

Lemma managed_start_inv : inv allocators start.
Proof. by split. Qed.

(** luaL_newmetatable keeps the finalizers that are there; afterwards the one of the
    allocator is, too. *)
Lemma newmetatable_finalizer a st :
  a ∈ allocators -> inv allocators st ->
  let mt := MANAGED_POINTER_MT (wrapped_type a) in
  let gc' := match gc st !! mt with None => <[mt := wrapped_free a]> (gc st) | Some _ => gc st end in
  gc' !! mt = Some (wrapped_alloc a) /\
  (forall mt' f, gc st !! mt' = Some f -> gc' !! mt' = Some f) /\
  (forall mt' f, gc' !! mt' = Some f -> exists b, b ∈ allocators /\ mt' = MANAGED_POINTER_MT (wrapped_type b) /\ f = wrapped_free b).
Proof.
  intros Ha [I1 _ _ _] mt gc'. unfold gc'. destruct (gc st !! mt) as [f|] eqn:Ef.
  - split_and!; [|done|by apply I1]. destruct (I1 mt f Ef) as (b & Hb & Hmt & ->). rewrite Ef, (proj1 Hc b Hb). f_equal.
    apply (proj2 Hc); [done|done|]. symmetry. by apply app_string_inj in Hmt.
  - split_and!.
    + rewrite lookup_insert_eq. f_equal. by apply Hc.
    + intros mt' f E. rewrite lookup_insert_ne; [done|]. intros <-. by rewrite Ef in E.
    + intros mt' f [[<- <-]|[_ E]]%lookup_insert_Some; [by exists a|by apply I1].
Qed.

(** A new userdata that holds a new object, or NULL. *)
Lemma inv_new_userdata st gc' ud mt p P :
  inv allocators st -> uds st !! ud = None ->
  (forall mt' f, gc st !! mt' = Some f -> gc' !! mt' = Some f) ->
  (forall mt' f, gc' !! mt' = Some f -> exists b, b ∈ allocators /\ mt' = MANAGED_POINTER_MT (wrapped_type b) /\ f = wrapped_free b) ->
  is_Some (gc' !! mt) ->
  (p = null /\ P = objects st) \/
  (p <> null /\ objects st !! p = None /\ exists f, gc' !! mt = Some f /\ P = <[p := f]> (objects st)) ->
  inv allocators {| uds := <[ud := (mt, p)]> (uds st); gc := gc'; objects := P |}.
Proof.
  intros [I1 I2 I3 I4] Hud Hgc1 Hgc2 [f0 Hf0] HP. split; cbn [uds gc objects]; [done|..].
  - intros ud' mt' p' [[<- [= <- <-]]|[Hne Hu]]%lookup_insert_Some.
    + destruct HP as [[-> ->]|(Hp & _ & f & Ef & ->)]; [by exists f0|]. exists f. split; [done|]. by rewrite lookup_insert_eq.
    + destruct (I2 ud' mt' p' Hu) as (f & Ef & Ho). exists f. split; [by apply Hgc1|]. intros Hp'.
      destruct HP as [[-> ->]|(Hp & Hn & f' & _ & ->)]; [by apply Ho|].
      rewrite lookup_insert_ne; [by apply Ho|]. intros <-. by rewrite Ho in Hn.
  - assert (Hold : forall u m, uds st !! u = Some (m, p) -> p = null).
    { intros u m Hu. destruct HP as [[-> _]|(Hp & Hn & _)]; [done|]. destruct (I2 _ _ _ Hu) as (f & _ & Ho). by rewrite Ho in Hn. }
    intros u1 u2 m1 m2 p' H1%lookup_insert_Some H2%lookup_insert_Some Hp.
    destruct H1 as [[<- E1]|[Hn1 H1]], H2 as [[<- E2]|[Hn2 H2]]; simplify_eq; [done|..].
    + by apply Hold in H2.
    + by apply Hold in H1.
    + by apply (I3 u1 u2 m1 m2 p').
  - assert (Hkeep : forall p' r, objects st !! p' = Some r -> p' <> null /\ exists u m, <[ud:=(mt, p)]> (uds st) !! u = Some (m, p')).
    { intros p' r Ho. destruct (I4 p' r Ho) as (Hp & u & m & Hu). split; [done|]. exists u, m.
      rewrite lookup_insert_ne; [done|]. intros ->. by rewrite Hu in Hud. }
    intros p' r Ho. destruct HP as [[-> ->]|(Hp & _ & f & _ & ->)]; [by eapply Hkeep|].
    apply lookup_insert_Some in Ho as [[<- <-]|[_ Ho]]; [|by eapply Hkeep].
    split; [done|]. exists ud, mt. by rewrite lookup_insert_eq.
Qed.

Lemma allocate_inv a mem st r st' :
  a ∈ allocators -> inv allocators st -> allocate a mem st = (r, st') -> inv allocators st'.
Proof.
  intros Ha I E. unfold allocate in E.
  destruct (newmetatable_finalizer a st Ha I) as (Hgc & Hgc1 & Hgc2).
  set (ud := fresh (dom (uds st))) in E. assert (Hud : uds st !! ud = None) by (apply not_elem_of_dom, is_fresh).
  clearbody ud.
  destruct (new_pointer_fresh (objects st)) as [Hn0 Hn]. set (q := new_pointer _) in *. clearbody q.
  destruct mem; injection E as <- <-; apply inv_new_userdata; try done; [|by left].
  right. split_and!; [done|done|]. by exists (wrapped_alloc a).
Qed.

(** A collection frees the object of the userdata, if it has one, and no other. *)
Lemma collect_done ud mt p st :
  inv allocators st -> uds st !! ud = Some (mt, p) ->
  collect ud st = Done {| uds := delete ud (uds st); gc := gc st; objects := delete p (objects st) |}.
Proof.
  intros [I1 I2 I3 I4] E. destruct (I2 ud mt p E) as (f & Ef & Ho). unfold collect, _release. rewrite E, Ef.
  destruct (Z.eqb_spec p null) as [->|Hp]; cbn [negb mbind outcome_bind].
  - rewrite (delete_id (objects st)); [done|]. destruct (objects st !! null) as [r|] eqn:En; [|done]. by destruct (I4 null r En).
  - by rewrite release_done by by apply Ho.
Qed.

Lemma collect_inv ud st st' : inv allocators st -> is_Some (uds st !! ud) -> collect ud st = Done st' -> inv allocators st'.
Proof.
  intros I [[mt p] E]. rewrite (collect_done ud mt p) by done. intros [= <-]. destruct I as [I1 I2 I3 I4].
  split; cbn [uds gc objects].
  - done.
  - intros u m q [Hne Hu]%lookup_delete_Some. destruct (I2 u m q Hu) as (f & Ef & Ho). exists f. split; [done|]. intros Hq.
    rewrite lookup_delete_ne; [by apply Ho|]. intros <-. by apply Hne, (I3 ud u mt m p).
  - intros u1 u2 m1 m2 q [_ H1]%lookup_delete_Some [_ H2]%lookup_delete_Some. by apply (I3 u1 u2 m1 m2 q).
  - intros q r [Hne Ho]%lookup_delete_Some. destruct (I4 q r Ho) as (Hq & u & m & Hu). split; [done|]. exists u, m.
    rewrite lookup_delete_ne; [done|]. intros <-. rewrite E in Hu. by injection Hu as <- <-.
Qed.

Lemma reachable_inv st : reachable allocators st -> inv allocators st.
Proof.
  unfold reachable. intros R. pose proof managed_start_inv as I. revert I. induction R as [st|st st2 st3 S _ IH]; [done|].
  intros I. apply IH. destruct S as [a mem st r st' Ha E|ud st st' Hu E]; [by eapply allocate_inv|by eapply collect_inv].
Qed.

Lemma collect_all_done l st :
  inv allocators st -> l ≡ₚ elements (dom (uds st)) ->
  exists st', collect_all l st = Done st' /\ uds st' = ∅ /\ objects st' = ∅.
Proof.
  revert st. induction l as [|ud l IH]; intros st I Hl.
  - exists st. assert (Hu : uds st = ∅).
    { apply dom_empty_inv_L. apply leibniz_equiv, elements_empty_inv. by apply Permutation_nil_l in Hl. }
    split_and!; [done|done|]. apply map_empty. intros p. destruct (objects st !! p) as [r|] eqn:E; [|done].
    destruct (inv_owned _ _ I p r E) as (_ & u & m & Hu'). by rewrite Hu, lookup_empty in Hu'.
  - assert (Hin : ud ∈ dom (uds st)) by (apply elem_of_elements; rewrite <- Hl; left).
    apply elem_of_dom in Hin as [[mt p] E].
    destruct (IH {| uds := delete ud (uds st); gc := gc st; objects := delete p (objects st) |}) as (st' & E' & ?).
    + apply (collect_inv ud st); [done|by eexists|by apply (collect_done ud mt)].
    + cbn [uds]. rewrite dom_delete_L. apply (Permutation_cons_inv (a := ud)). rewrite Hl.
      rewrite <- elements_union_singleton by set_solver. f_equiv. intros x. 
      destruct (decide (x = ud)) as [->|]; [|set_solver]. assert (ud ∈ dom (uds st)) by (apply elem_of_dom; by eexists). set_solver.
    + exists st'. split; [|done]. cbn [collect_all]. rewrite (collect_done ud mt p) by done. exact E'.
Qed.

End managed.

(** The allocators of crypto.c. *)
Definition crypto_allocators : list allocator :=
  [{| name := "new_managed_EVP_MD_CTX"; wrapped_type := "EVP_MD_CTX*"; wrapped_alloc := EVP_MD_CTX; wrapped_free := EVP_MD_CTX |};
   {| name := "new_managed_BIO_s_mem"; wrapped_type := "BIO*"; wrapped_alloc := BIO; wrapped_free := BIO |};
   {| name := "new_managed_EVP_CIPHER_CTX"; wrapped_type := "EVP_CIPHER_CTX*"; wrapped_alloc := EVP_CIPHER_CTX;
      wrapped_free := EVP_CIPHER_CTX |}].

Lemma crypto_compatible : compatible crypto_allocators.
Proof.
  split.
  - intros a Ha. repeat (apply elem_of_cons in Ha as [->|Ha]; [done|]). by apply not_elem_of_nil in Ha.
  - intros a b Ha Hb. repeat (apply elem_of_cons in Ha as [->|Ha];
      [repeat (apply elem_of_cons in Hb as [->|Hb]; [first [done|discriminate 1]|]); by apply not_elem_of_nil in Hb|]).
    by apply not_elem_of_nil in Ha.
Qed.

(** C15. The contexts and buffers that crypto.c leaves to the collector: after any calls of
    the three allocators, failed ones too, and any collections, collecting an object frees
    what it points to with the function of its type, nothing that another object points
    to, and never twice; when all are collected nothing is left. *)
Theorem managed_freed_once st :
  reachable crypto_allocators st ->
  (forall ud mt p, uds st !! ud = Some (mt, p) ->
     collect ud st = Done {| uds := delete ud (uds st); gc := gc st; objects := delete p (objects st) |} /\
     (p <> null -> is_Some (objects st !! p) /\ forall ud' mt', uds st !! ud' = Some (mt', p) -> ud' = ud)) /\
  (forall l, l ≡ₚ elements (dom (uds st)) ->
     exists st', collect_all l st = Done st' /\ uds st' = ∅ /\ objects st' = ∅).
Proof.
  intros R. pose proof (reachable_inv _ crypto_compatible st R) as I. split; [|intros l Hl; by apply (collect_all_done _ crypto_compatible)].
  intros ud mt p E. split; [by apply (collect_done crypto_allocators ud mt)|]. intros Hp. split.
  - destruct (inv_uds _ _ I ud mt p E) as (f & _ & Ho). rewrite Ho by done. by eexists.
  - intros ud' mt' E'. by eapply (inv_distinct _ _ I).
Qed.

(** A digest context, a context that could not be allocated, and a BIO. *)
Definition two_objects : state :=
  (allocate {| name := "new_managed_BIO_s_mem"; wrapped_type := "BIO*"; wrapped_alloc := BIO; wrapped_free := BIO |} true
    (allocate {| name := "new_managed_EVP_MD_CTX"; wrapped_type := "EVP_MD_CTX*"; wrapped_alloc := EVP_MD_CTX;
                 wrapped_free := EVP_MD_CTX |} false
      (allocate {| name := "new_managed_EVP_MD_CTX"; wrapped_type := "EVP_MD_CTX*"; wrapped_alloc := EVP_MD_CTX;
                   wrapped_free := EVP_MD_CTX |} true start).2).2).2.

Lemma managed_freed_once_witness :
  exists st', collect_all (elements (dom (uds two_objects))) two_objects = Done st' /\ uds st' = ∅ /\ objects st' = ∅.
Proof.
  apply (managed_freed_once two_objects); [|done]. unfold two_objects, reachable.
  do 3 (eapply rtc_r; [|eapply step_allocate;
    [|by apply surjective_pairing]; unfold crypto_allocators; repeat first [apply list_elem_of_here | apply list_elem_of_further]]).
  apply rtc_refl.
Defined.

End Managed.
