(* ===== verification/Ownership.v ===== *)
(** * What the functions of hashes.c, crypto.c, net.c and encodings.c free

    The functions that hold an object of a library while they run, again with the pool of
    Resources: each acquisition and each call that frees is where the source has it, error
    paths included; what they compute is in the files Hashes, Crypto, Ecdsa, Net and
    Libidn.  The theorems: the functions return what those definitions say and give back
    all they took, whatever fails; hkdf keeps a context at each call, and
    build_ecdsa_signature its signature if an argument is wrong. *)

From stdpp Require Import base tactics numbers list strings gmap pretty.
From Stdlib Require Import ZArith Lia.
From S2P Require Import Prelude LuaApi Table PollApi Resources.
From S2P Require Hashes Crypto Ecdsa Net Utf8 Libidn.

Local Open Scope Z_scope.

(** ** hashes.c *)

Section hashes.
Import Hashes.
Context `{LuaAux, OpenSSL}.
Implicit Types (L : list value) (evp : evp_md) (hash result out : bytes).

(** [EVP_MD_CTX_free] is called on both paths, before the result is pushed. *)
Definition Levp_hash evp hash result L : own (list value) :=
  s ← lift (luaL_checklstring L 1);
  '(ctx, c) ← alloc EVP_MD_CTX EVP_MD_CTX_new;
  match c ← c; c ← EVP_DigestInit_ex c evp; c ← EVP_DigestUpdate c s; EVP_DigestFinal_ex c with
  | Some d => free EVP_MD_CTX ctx;; lift (push_digest (lua_toboolean L 2) hash result (Some d))
  | None => free EVP_MD_CTX ctx;; lift evp_error
  end.

(** [pctx] is not freed. *)
Definition Levp_hkdf evp out L : own (list value) :=
  n ← lift (luaL_checkinteger L 1);
  let actual_out_len := size_t n in
  input ← lift (luaL_checklstring L 2);
  salt ← lift (luaL_optlstring L 3);
  info ← lift (luaL_checklstring L 4);
  if actual_out_len >? MAX_HKDF_OUTPUT then lift (luaL_error (invalid_format "desired output length %ul exceeds internal limit %ul"))
  else
    '(pctx, _) ← alloc EVP_PKEY_CTX (Some EVP_PKEY_CTX_new_id);
    lift match HKDF evp salt input info actual_out_len with
         | None => evp_error
         | Some r =>
             out ← write_buffer out r;
             r ← mem_sub out 0 (zlen r);
             Done [VStr r]
         end.

Lemma evp_hash_tidy evp hash result L : tidy (Levp_hash evp hash result L) (Hashes.Levp_hash evp hash result L).
Proof.
  apply tidy_lift_bind. intros s P. unfold digest. apply gives_alloc.
  - by intros ->.
  - intros c p -> Hp HP. cbn [mbind option_bind]. apply gives_intro.
    destruct (EVP_DigestInit_ex c evp ≫= _) as [d|]; by rewrite free_last_then.
Qed.

(** Calls of hkdf one after the other, whatever they return. *)
Fixpoint hkdf_calls evp out (calls : list (list value)) : own unit :=
  match calls with
  | [] => mret tt
  | L :: calls => fun P => hkdf_calls evp out calls (Levp_hkdf evp out L P).2
  end.

Lemma hkdf_result evp out L P : (Levp_hkdf evp out L P).1 = Hashes.Levp_hkdf evp out L.
Proof.
  unfold Levp_hkdf, Hashes.Levp_hkdf.
  destruct (luaL_checkinteger L 1) as [n| |]; [|done|done]. cbn [mbind outcome_bind].
  destruct (luaL_checklstring L 2) as [input| |]; [|done|done]. cbn [mbind outcome_bind].
  destruct (luaL_optlstring L 3) as [salt| |]; [|done|done]. cbn [mbind outcome_bind].
  destruct (luaL_checklstring L 4) as [info| |]; [|done|done]. cbn [mbind outcome_bind]. cbv zeta.
  repeat change (lift (Done ?x) ≫= ?f) with (f x). cbv beta zeta. by destruct (_ >? _).
Qed.

(** The arguments have the right types, and the length is within the limit. *)
Definition hkdf_starts L : bool :=
  match (n ← luaL_checkinteger L 1; _ ← luaL_checklstring L 2; _ ← luaL_optlstring L 3; _ ← luaL_checklstring L 4; Done n) with
  | Done n => size_t n <=? MAX_HKDF_OUTPUT
  | _ => false
  end.

(** Then it keeps a context. *)
Lemma hkdf_gives evp out L P :
  gives (Levp_hkdf evp out L) P (Hashes.Levp_hkdf evp out L)
    (if hkdf_starts L then <[new_pointer P := EVP_PKEY_CTX]> P else P).
Proof.
  split; [apply hkdf_result|intros _]. unfold Levp_hkdf, hkdf_starts.
  destruct (luaL_checkinteger L 1) as [n| |]; [|done|done]. cbn [mbind outcome_bind].
  destruct (luaL_checklstring L 2) as [input| |]; [|done|done]. cbn [mbind outcome_bind].
  destruct (luaL_optlstring L 3) as [salt| |]; [|done|done]. cbn [mbind outcome_bind].
  destruct (luaL_checklstring L 4) as [info| |]; [|done|done]. cbn [mbind outcome_bind]. cbv zeta.
  repeat change (lift (Done ?x) ≫= ?f) with (f x). cbv beta zeta. rewrite Z.gtb_ltb.
  by destruct (Z.ltb_spec MAX_HKDF_OUTPUT (size_t n)), (Z.leb_spec (size_t n) MAX_HKDF_OUTPUT); try lia.
Qed.

(** hkdf returns what [Hashes.Levp_hkdf] does, but each call that gets as far as making
    a context keeps it, whether it succeeds or fails: after any calls with arguments of
    the right types and lengths within the limit, one more context per call is in use. *)
Theorem hkdf_keeps_contexts evp out calls P :
  Forall (fun L => exists n input salt info,
    L = [VInt n; VStr input; VStr salt; VStr info] /\ 0 <= n <= MAX_HKDF_OUTPUT /\
    lua_string input /\ lua_string salt /\ lua_string info) calls ->
  (forall L Q, (Levp_hkdf evp out L Q).1 = Hashes.Levp_hkdf evp out L) /\
  exists P', hkdf_calls evp out calls P = (Done tt, P') /\ size P' = (size P + length calls)%nat /\ P ⊆ P'.
Proof.
  intros Hc. split; [intros; apply hkdf_result|]. revert P.
  induction Hc as [|L calls (n & input & salt & info & -> & Hn & Hi & Hs & Hf) _ IH]; intros P.
  - exists P. cbn. split_and!; [done|lia|done].
  - set (L := [VInt n; VStr input; VStr salt; VStr info]).
    assert (E : (Levp_hkdf evp out L P).2 = <[new_pointer P := EVP_PKEY_CTX]> P).
    { unfold Levp_hkdf. unfold MAX_HKDF_OUTPUT in Hn. rewrite (checkinteger_int L 1 n) by (done || range).
      rewrite (checklstring_str L 2 input), (checklstring_str L 4 info) by done.
      unfold luaL_optlstring. cbn [lua_isnoneornil]. change (lua_isnoneornil L 3) with false. cbv iota.
      rewrite (checklstring_str L 3 salt) by done. cbn [fmap outcome_fmap].
      repeat change (lift (Done ?x) ≫= ?f) with (f x). cbv beta zeta.
      rewrite size_small by range. unfold MAX_HKDF_OUTPUT. rewrite Z.gtb_ltb, (proj2 (Z.ltb_ge 256 n)) by lia. done. }
    destruct (IH (<[new_pointer P := EVP_PKEY_CTX]> P)) as (P' & E' & Hsize & Hsub).
    destruct (new_pointer_fresh P) as [_ HP]. exists P'. split_and!.
    + cbn [hkdf_calls]. fold L. by rewrite E.
    + rewrite Hsize, map_size_insert_None by done. cbn [length]. lia.
    + etransitivity; [by apply insert_subseteq|done].
Qed.

End hashes.

(** ** crypto.c: keys and signatures *)

Section crypto.
Import Crypto.
Context `{LuaAux, Keys}.
Implicit Types (L : list value) (st : keystore).

(** The BIO is managed; [ctx] is freed on both paths, if there is one. *)
Definition Lpkey_meth_derive st L : own (list value) :=
  key ← lift (pkey_from_arg st L 1 0 false);
  peer ← lift (pkey_from_arg st L 2 0 false);
  lift new_managed_BIO_s_mem;;
  key ← lift (deref st key);
  peer ← lift (deref st peer);
  '(ctx, c) ← alloc EVP_PKEY_CTX (EVP_PKEY_CTX_new key);
  match
    c ← c;
    c ← EVP_PKEY_derive_init c;
    c ← EVP_PKEY_derive_set_peer c peer;
    outlen ← EVP_PKEY_derive_size c;
    if BUF_MEM_grow_clean outlen then r ← EVP_PKEY_derive c outlen; Some (outlen, r) else None
  with
  | Some (outlen, r) =>
      release EVP_PKEY_CTX ctx;;
      lift (if zlen r <=? outlen then Done [VStr r] else Undef OutOfBounds)
  | None =>
      (if negb (ctx =? null) then release EVP_PKEY_CTX ctx else mret tt);;
      lift (luaL_error "pkey:derive failed")
  end.

Definition base_evp_verify st L (key_type : Z) (digest_type : option sign_md) : own (list value) :=
  ptr ← lift (pkey_from_arg st L 1 (required_type key_type) false);
  msg ← lift (luaL_checklstring L 2);
  sig ← lift (luaL_checklstring L 3);
  '(ctx, c) ← alloc EVP_MD_CTX EVP_MD_CTX_new;
  match c with
  | None => lift (Undef OutOfBounds)
  | Some md_ctx =>
      k ← lift (deref st ptr);
      let '(ret, md_ctx) := EVP_DigestVerifyInit md_ctx digest_type k in
      let v := if negb (ret =? 1) then VNil
               else let result := EVP_DigestVerify (set_padding key_type md_ctx) sig msg in
                    if result =? 0 then VBool false else if negb (result =? 1) then VNil else VBool true in
      free EVP_MD_CTX ctx;; mret [v]
  end.

Definition Lpkey_meth_public_raw st L : own (list value) :=
  ptr ← lift (pkey_from_arg st L 1 0 false);
  k ← lift (deref st ptr);
  '(params, ps) ← alloc OSSL_PARAM (EVP_PKEY_todata k);
  match ps with
  | Some items => let v := find_pub items in free OSSL_PARAM params;; mret [v]
  | None => mret [VNil]
  end.

(** [new_id] says whether [EVP_PKEY_CTX_new_id] gives a context; the functions that take it
    fail for NULL. *)
Definition Lgenerate_ed25519_keypair (new_id : bool) (keygen : option EVP_PKEY) st : own (keystore * list value) :=
  '(pctx, _) ← alloc EVP_PKEY_CTX (if new_id then Some tt else None);
  free EVP_PKEY_CTX pctx;;
  mret (Crypto.Lgenerate_ed25519_keypair keygen st).

Definition Lgenerate_p256_keypair (new_id init curve : bool) (keygen : option EVP_PKEY) st : own (keystore * list value) :=
  '(pctx, _) ← alloc EVP_PKEY_CTX (if new_id then Some tt else None);
  match (if negb (new_id && init) then None else if negb curve then None else keygen) with
  | Some k =>
      free EVP_PKEY_CTX pctx;;
      (let '(st, ptr) := new_key st k in mret (push_pkey st ptr NID_X9_62_prime256v1 true))
  | None => (if negb (pctx =? null) then free EVP_PKEY_CTX pctx else mret tt);; mret (st, [VNil])
  end.

(** The end of [Limport_public_ec_raw] at [err]. *)
Definition import_err st (ctx params param_bld : Z) : own (keystore * list value) :=
  (if negb (ctx =? null) then free EVP_PKEY_CTX ctx else mret tt);;
  (if negb (params =? null) then free OSSL_PARAM params else mret tt);;
  (if negb (param_bld =? null) then free OSSL_PARAM_BLD param_bld else mret tt);;
  mret (st, [VNil]).

Definition Limport_public_ec_raw st L : own (keystore * list value) :=
  pubkey_data ← lift (luaL_checklstring L 1);
  curve ← lift (luaL_checkstring L 2);
  '(param_bld, b) ← alloc OSSL_PARAM_BLD OSSL_PARAM_BLD_new;
  match b ← b; b ← OSSL_PARAM_BLD_push_utf8_string b "group" curve;
        OSSL_PARAM_BLD_push_octet_string b "pub" pubkey_data with
  | None => import_err st null null param_bld
  | Some b =>
      '(params, ps) ← alloc OSSL_PARAM (OSSL_PARAM_BLD_to_param b);
      match ps with
      | None => import_err st null params param_bld
      | Some ps =>
          '(ctx, c) ← alloc EVP_PKEY_CTX (EVP_PKEY_CTX_new_from_name "EC");
          match c ← c; c ← EVP_PKEY_fromdata_init c; EVP_PKEY_fromdata c ps with
          | None => import_err st ctx params param_bld
          | Some k =>
              let '(st, ptr) := new_key st k in
              let r := push_pkey st ptr (EVP_PKEY_id k) false in
              free EVP_PKEY_CTX ctx;; free OSSL_PARAM params;; free OSSL_PARAM_BLD param_bld;;
              mret r
          end
      end
  end.

Lemma derive_tidy st L : tidy (Lpkey_meth_derive st L) (Crypto.Lpkey_meth_derive st L).
Proof.
  do 5 (apply tidy_lift_bind; intros ?). intros P. unfold derive. apply gives_alloc.
  - by intros ->.
  - intros c p -> Hp HP. cbn [mbind option_bind]. apply gives_intro. rewrite (proj2 (Z.eqb_neq p null)) by done. cbn [negb].
    destruct (EVP_PKEY_derive_init c) as [c1|]; cbn [mbind option_bind]; [|by rewrite release_last_then].
    destruct (EVP_PKEY_derive_set_peer c1 _) as [c2|]; cbn [mbind option_bind]; [|by rewrite release_last_then].
    destruct (EVP_PKEY_derive_size c2) as [len|]; cbn [mbind option_bind]; [|by rewrite release_last_then].
    destruct (BUF_MEM_grow_clean len); cbn [mbind option_bind]; [|by rewrite release_last_then].
    destruct (EVP_PKEY_derive c2 len) as [r|]; cbn [mbind option_bind]; by rewrite release_last_then.
Qed.

Lemma verify_tidy st L key_type md :
  tidy (base_evp_verify st L key_type md) (Crypto.base_evp_verify st L key_type md).
Proof.
  do 3 (apply tidy_lift_bind; intros ?). intros P. apply gives_alloc; [by intros ->|].
  intros c p -> Hp HP. unfold deref. destruct (heap st !! _) as [k|]; [|done]. cbn [mbind outcome_bind].
  apply gives_intro. change (lift (Done k) ≫= ?f) with (f k). cbv beta.
  destruct (EVP_DigestVerifyInit c md k) as [ret c']. rewrite free_last_then by done.
  unfold mret, own_ret. repeat case_match; by simplify_eq.
Qed.

Lemma public_raw_tidy st L : tidy (Lpkey_meth_public_raw st L) (Crypto.Lpkey_meth_public_raw st L).
Proof.
  do 2 (apply tidy_lift_bind; intros ?). intros P. apply gives_alloc; [by intros ->|].
  intros items p -> Hp HP. apply gives_intro. by rewrite free_last_then.
Qed.

Lemma ed25519_tidy new_id keygen st :
  tidy (Lgenerate_ed25519_keypair new_id keygen st) (Done (Crypto.Lgenerate_ed25519_keypair keygen st)).
Proof.
  intros P. apply gives_alloc; [done|]. intros [] p _ Hp HP. apply gives_intro. by rewrite free_last_then.
Qed.

Lemma p256_tidy new_id init curve keygen st :
  tidy (Lgenerate_p256_keypair new_id init curve keygen st)
    (Done (Crypto.Lgenerate_p256_keypair (new_id && init) curve keygen st)).
Proof.
  intros P. apply gives_alloc; [by destruct new_id|]. intros [] p Hid Hp HP. apply gives_intro.
  rewrite (proj2 (Z.eqb_neq p null)) by done. unfold Crypto.Lgenerate_p256_keypair.
  destruct new_id; [|done]. destruct init, curve, keygen as [k|]; cbn [negb andb]; by rewrite free_last_then.
Qed.

(** What is there is freed, in the reverse order. *)
Definition opt_free (r : resource) (p : Z) P : pool := if p =? null then P else <[p := r]> P.

Lemma import_err_done st (ctx params b : Z) P :
  b <> null -> P !! b = None ->
  (params <> null -> <[b := OSSL_PARAM_BLD]> P !! params = None) ->
  (ctx <> null -> opt_free OSSL_PARAM params (<[b := OSSL_PARAM_BLD]> P) !! ctx = None) ->
  import_err st ctx params b (opt_free EVP_PKEY_CTX ctx (opt_free OSSL_PARAM params (<[b := OSSL_PARAM_BLD]> P)))
  = (Done (st, [VNil]), P).
Proof.
  intros Hb HP Hparams Hctx. unfold import_err, opt_free in *.
  destruct (Z.eqb_spec ctx null), (Z.eqb_spec params null), (Z.eqb_spec b null); try done; cbn [negb];
    repeat first [rewrite skip_then | rewrite free_last_then by auto]; done.
Qed.

Lemma raw_tidy st L : tidy (Limport_public_ec_raw st L) (Crypto.Limport_public_ec_raw st L).
Proof.
  do 2 (apply tidy_lift_bind; intros ?). intros P. unfold raw_key. apply gives_alloc; [by intros ->|].
  intros b0 b -> Hb HP. cbn [mbind option_bind].
  destruct (OSSL_PARAM_BLD_push_utf8_string b0 _ _) as [b1|]; cbn [mbind option_bind];
    [|by apply gives_intro, (import_err_done st null null b P)].
  destruct (OSSL_PARAM_BLD_push_octet_string b1 _ _) as [b2|]; cbn [mbind option_bind];
    [|by apply gives_intro, (import_err_done st null null b P)].
  apply gives_alloc; [intros ->; by apply gives_intro, (import_err_done st null null b P)|].
  intros ps q -> Hq HQ. cbn [mbind option_bind]. apply gives_alloc.
  { intros ->. apply gives_intro. pose proof (import_err_done st null q b P) as E. unfold opt_free in E.
    rewrite (proj2 (Z.eqb_neq q null)) in E by done. by apply E. }
  intros c0 c -> Hc HC. cbn [mbind option_bind]. apply gives_intro.
  destruct (EVP_PKEY_fromdata_init c0 ≫= _) as [k|].
  - cbn. destruct (new_key st k). by rewrite !free_last_then.
  - pose proof (import_err_done st c q b P) as E. unfold opt_free in E.
    rewrite (proj2 (Z.eqb_neq q null)), (proj2 (Z.eqb_neq c null)) in E by done. by apply E.
Qed.

End crypto.

(** ** crypto.c: ECDSA signatures *)

Section ecdsa.
Import Ecdsa.
Context `{LuaAux, BigNums}.
Implicit Types (L : list value) (rb sb scratch : bytes).

Definition Lparse_ecdsa_signature rb sb L : own (list value) :=
  sig_der ← lift (luaL_checklstring L 1);
  n ← lift (luaL_checkinteger L 2);
  let sig_int_bytes := size_t n in
  if sig_int_bytes >? Crypto.MAX_ECDSA_SIG_INT_BYTES then lift (luaL_error "requested signature size exceeds supported limit")
  else
    '(sig, rs) ← alloc ECDSA_SIG (d2i_ECDSA_SIG sig_der);
    match rs with
    | None => mret [VNil]
    | Some (r, s) =>
        match BN_bn2binpad r (cint sig_int_bytes), BN_bn2binpad s (cint sig_int_bytes) with
        | Some rbin, Some sbin =>
            rb ← lift (mem_write rb 0 rbin);
            sb ← lift (mem_write sb 0 sbin);
            free ECDSA_SIG sig;;
            lift (r ← mem_sub rb 0 (zlen rbin); s ← mem_sub sb 0 (zlen sbin); Done [VStr r; VStr s])
        | _, _ => free ECDSA_SIG sig;; lift (luaL_error "encoded integers exceed requested size")
        end
    end.

(** The object is made before the arguments are looked at. *)
Definition Lbuild_ecdsa_signature scratch L : own (list value) :=
  '(sig, _) ← alloc ECDSA_SIG (Some tt);
  rbin ← lift (luaL_checklstring L 1);
  sbin ← lift (luaL_checklstring L 2);
  let r := BN_bin2bn rbin (cint (zlen rbin)) in
  let s := BN_bin2bn sbin (cint (zlen sbin)) in
  let buffer := lua_memory scratch (size_t ((zlen rbin + 1) + (zlen sbin + 1) + 7)) in
  let der := i2d_ECDSA_SIG r s in
  buffer ← lift (mem_write buffer 0 der);
  result ← lift (mem_sub buffer 0 (zlen der));
  free ECDSA_SIG sig;;
  mret [VStr result].

Lemma mem_write_no_raise {A} (m : list A) i l e : mem_write m i l <> Raise e.
Proof. unfold mem_write. by destruct (_ && _). Qed.

Lemma mem_sub_no_raise {A} (m : list A) i n e : mem_sub m i n <> Raise e.
Proof. unfold mem_sub. by destruct (_ && _ && _). Qed.

Lemma parse_tidy rb sb L : tidy (Lparse_ecdsa_signature rb sb L) (Ecdsa.Lparse_ecdsa_signature rb sb L).
Proof.
  do 2 (apply tidy_lift_bind; intros ?). cbv zeta. destruct (_ >? _); [done|]. intros P.
  apply gives_alloc; [by intros ->|]. intros [r s] p -> Hp HP.
  destruct (BN_bn2binpad r _) as [rbin|]; [|by apply gives_intro; rewrite free_last_then].
  destruct (BN_bn2binpad s _) as [sbin|]; [|by apply gives_intro; rewrite free_last_then].
  apply gives_lift_bind; [intros ?; apply mem_write_no_raise|]. intros rb'.
  apply gives_lift_bind; [intros ?; apply mem_write_no_raise|]. intros sb'.
  apply gives_intro. by rewrite free_last_then.
Qed.

(** It gives the object back unless an argument is wrong. *)
Lemma build_gives scratch L P :
  gives (Lbuild_ecdsa_signature scratch L) P (Ecdsa.Lbuild_ecdsa_signature scratch L)
    match Ecdsa.Lbuild_ecdsa_signature scratch L with
    | Raise _ => <[new_pointer P := ECDSA_SIG]> P
    | _ => P
    end.
Proof.
  destruct (new_pointer_fresh P) as [Hn HP]. apply gives_alloc_some. unfold Ecdsa.Lbuild_ecdsa_signature.
  destruct (luaL_checklstring L 1) as [rbin|e|u]; [|done|done]. cbn [mbind outcome_bind].
  destruct (luaL_checklstring L 2) as [sbin|e|u]; [|done|done]. cbn [mbind outcome_bind]. cbv zeta.
  repeat change (lift (Done ?x) ≫= ?f) with (f x). cbv beta zeta.
  pose proof (mem_write_no_raise (lua_memory scratch (size_t (zlen rbin + 1 + (zlen sbin + 1) + 7))) 0
    (i2d_ECDSA_SIG (BN_bin2bn rbin (cint (zlen rbin))) (BN_bin2bn sbin (cint (zlen sbin))))) as Hw.
  destruct (mem_write _ _ _) as [buf|e|u]; [|by destruct (Hw e)|done]. cbn [mbind outcome_bind].
  pose proof (mem_sub_no_raise buf 0 (zlen (i2d_ECDSA_SIG (BN_bin2bn rbin (cint (zlen rbin))) (BN_bin2bn sbin (cint (zlen sbin)))))) as Hs.
  repeat change (lift (Done ?x) ≫= ?f) with (f x). cbv beta.
  destruct (mem_sub _ _ _) as [res|e|u]; [|by destruct (Hs e)|done].
  repeat change (lift (Done ?x) ≫= ?f) with (f x). cbv beta. apply gives_intro. by rewrite free_last_then.
Qed.

End ecdsa.

(** ** net.c and encodings.c with libidn *)

Section net.
Import Net.
Context `{LuaAux, Posix, Machine, Inet}.
Implicit Types (L : list value) (h : store).

(** [freeifaddrs] comes after the loop. *)
Definition lc_local_addresses (getifaddrs : list ifaddrs + Z) L h : own (store * list value) :=
  type ← lift (luaL_checkoption L 1 (Some "both"%string) type_strings);
  let link_local := lua_toboolean L 2 in
  let ipv4 := (type =? 0) || (type =? 1) in
  let ipv6 := (type =? 0) || (type =? 2) in
  '(addr, l) ← alloc IFADDRS (match getifaddrs with inl l => Some l | inr _ => None end);
  match l, getifaddrs with
  | None, inl _ => lift (Undef OutOfBounds)
  | None, inr errno =>
      mret (h, [pushfail; VStr (string_bytes "getifaddrs failed (" ++ string_bytes (pretty errno)
                                ++ string_bytes "): " ++ strerror errno)])
  | Some addrs, _ =>
      let '(h, t) := Table.lua_createtable h 0 0 in
      h ← lift (address_loop ipv4 ipv6 link_local t 1 addrs h);
      free IFADDRS addr;;
      mret (h, [VTable t])
  end.

Lemma address_loop_no_raise i4 i6 ll t n addrs h e : address_loop i4 i6 ll t n addrs h <> Raise e.
Proof.
  revert n h. induction addrs as [|a addrs IH]; intros n h; [done|]. cbn [address_loop].
  destruct (address_text i4 i6 ll a); [|apply IH]. unfold lua_rawseti, raw_set.
  destruct (h !! t); [apply IH|done].
Qed.

Lemma local_addresses_tidy getifaddrs L h :
  tidy (lc_local_addresses getifaddrs L h) (Net.lc_local_addresses getifaddrs L h).
Proof.
  apply tidy_lift_bind. intros type. cbv zeta. intros P. destruct getifaddrs as [l|errno]; [|done].
  apply gives_alloc; [done|]. intros addrs p [= <-] Hp HP. destruct (Table.lua_createtable h 0 0) as [h1 t].
  apply gives_lift_bind; [intros ?; apply address_loop_no_raise|]. intros h2. apply gives_intro. by rewrite free_last_then.
Qed.

End net.

Section libidn.
Import Utf8 Libidn.
Context `{LuaAux, Libidn}.
Implicit Types (L : list value).

(** [output] is freed whether the conversion succeeded or not. *)
Definition Lidna_to_ascii L : own (list value) :=
  s ← lift (check_utf8 L 1);
  match s with
  | None => mret [pushfail]
  | Some s =>
      if negb (zlen s =? strlen (c_str s)) then mret [pushfail]
      else
        let '(ret, output) := idna_to_ascii_8z (until_nul (c_str s)) IDNA_USE_STD3_ASCII_RULES in
        '(p, output) ← alloc IDN_STRING output;
        if ret =? IDNA_SUCCESS then let v := push_cstring output in free IDN_STRING p;; mret [v]
        else free IDN_STRING p;; mret [pushfail]
  end.

Definition Lidna_to_unicode L : own (list value) :=
  s ← lift (luaL_checklstring L 1);
  let '(ret, output) := idna_to_unicode_8z8z (until_nul (c_str s)) 0 in
  '(p, output) ← alloc IDN_STRING output;
  if ret =? IDNA_SUCCESS then let v := push_cstring output in free IDN_STRING p;; mret [v]
  else free IDN_STRING p;; mret [pushfail].

Lemma to_ascii_tidy L : tidy (Lidna_to_ascii L) (Libidn.Lidna_to_ascii L).
Proof.
  apply tidy_lift_bind. intros [s|]; [|done]. destruct (negb _); [done|]. destruct (idna_to_ascii_8z _ _) as [ret output].
  intros P. apply gives_alloc; [intros ->; by destruct (ret =? _)|]. intros o p -> Hp HP. apply gives_intro.
  destruct (ret =? _); by rewrite free_last_then.
Qed.

Lemma to_unicode_tidy L : tidy (Lidna_to_unicode L) (Libidn.Lidna_to_unicode L).
Proof.
  apply tidy_lift_bind. intros s. destruct (idna_to_unicode_8z8z _ _) as [ret output].
  intros P. apply gives_alloc; [intros ->; by destruct (ret =? _)|]. intros o p -> Hp HP. apply gives_intro.
  destruct (ret =? _); by rewrite free_last_then.
Qed.

End libidn.

(** ** All of them *)


#[local] Existing Instances lua_strict Hashes.toy_openssl.

Lemma hkdf_keeps_contexts_witness :
  let calls := [[VInt 4; VStr [1]; VStr [2]; VStr [3]]; [VInt 256; VStr []; VStr []; VStr []]] in
  (forall L Q, (Levp_hkdf Hashes.EVP_sha256 [] L Q).1 = Hashes.Levp_hkdf Hashes.EVP_sha256 [] L) /\
  exists P', hkdf_calls Hashes.EVP_sha256 [] calls ∅ = (Done tt, P') /\ size P' = 2%nat /\ ∅ ⊆ P'.
Proof.
  cbv zeta. set (calls := [_; _]).
  assert (E : (size (∅ : pool) + length calls)%nat = 2%nat) by reflexivity. rewrite <- E.
  apply (hkdf_keeps_contexts Hashes.EVP_sha256 [] calls ∅).
  repeat constructor; do 4 eexists; (split; [reflexivity|]); repeat split; by_decision.
Defined.
